(** * godb: the SQL statement scanner of [lex.go]

    A shallow embedding of the scanner (the variant with value
    expressions: [lexValueExprList], [scanNumber], [scanString]) and the
    properties of its token stream.

    Go strings are byte sequences: they are modelled by [string], one
    [ascii] per byte.  Go's [int], [Pos] and [rune] are modelled by [Z];
    every position the scanner computes lies between [0] and the length of
    the input and the line counter is bounded by that length plus one, so
    no machine integer wraps.  The channel [items] is modelled by the list
    of the items sent on it, in sending order, and a flag for [close]. *)

From Stdlib Require Import ZArith List Bool Lia Ascii String.
Import ListNotations.

Open Scope string_scope.
Open Scope list_scope.
Open Scope Z_scope.

(* ================================================================== *)
(** ** Go strings *)

Definition rune := Z.
Definition Pos := Z.

Definition byte_val (c : ascii) : Z := Z.of_N (N_of_ascii c).

(** [len(s)] *)
Definition len (s : string) : Z := Z.of_nat (String.length s).

Fixpoint drop (n : nat) (s : string) : string :=
  match n, s with
  | O, _ => s
  | S _, EmptyString => EmptyString
  | S n', String _ s' => drop n' s'
  end.

(** [s[lo:]]; [None] is the run-time panic of an out-of-range slice. *)
Definition slice_from (s : string) (lo : Z) : option string :=
  if (0 <=? lo) && (lo <=? len s) then Some (drop (Z.to_nat lo) s) else None.

(** [s[lo:hi]] *)
Definition slice (s : string) (lo hi : Z) : option string :=
  if (0 <=? lo) && (lo <=? hi) && (hi <=? len s)
  then Some (substring (Z.to_nat lo) (Z.to_nat (hi - lo)) s)
  else None.

(** [s[i]] *)
Definition index (s : string) (i : Z) : option Z :=
  if i <? 0 then None else option_map byte_val (String.get (Z.to_nat i) s).

(** Conversion of a wrapped 32-bit pattern to Go's [int32]. *)
Definition int32 (z : Z) : Z := (z + 2 ^ 31) mod 2 ^ 32 - 2 ^ 31.

(* ================================================================== *)
(** ** The parts of Go's standard library the scanner calls *)

Module utf8.

Definition RuneError : rune := 0xFFFD.
Definition RuneSelf : rune := 0x80.

Definition maskx := 0x3F.
Definition mask2 := 0x1F.
Definition mask3 := 0x0F.
Definition mask4 := 0x07.
Definition locb := 0x80.
Definition hicb := 0xBF.

Definition xx := 0xF1.
Definition as_ := 0xF0.
Definition s1 := 0x02.
Definition s2 := 0x13.
Definition s3 := 0x03.
Definition s4 := 0x23.
Definition s5 := 0x34.
Definition s6 := 0x04.
Definition s7 := 0x44.

(** The table [first]: information about the first byte of an encoding. *)
Definition first (b : Z) : Z :=
  if b <? 0x80 then as_
  else if b <? 0xC2 then xx
  else if b <? 0xE0 then s1
  else if b =? 0xE0 then s2
  else if b <? 0xED then s3
  else if b =? 0xED then s4
  else if b <? 0xF0 then s3
  else if b =? 0xF0 then s5
  else if b <? 0xF4 then s6
  else if b =? 0xF4 then s7
  else xx.

(** The table [acceptRanges] (sixteen entries, the last eleven zero). *)
Definition acceptRanges (i : Z) : Z * Z :=
  if i =? 0 then (locb, hicb)
  else if i =? 1 then (0xA0, hicb)
  else if i =? 2 then (locb, 0x9F)
  else if i =? 3 then (0x90, hicb)
  else if i =? 4 then (locb, 0x8F)
  else (0, 0).

(** [utf8.DecodeRuneInString]: the first rune of [s] and its width in
    bytes; [(RuneError, 0)] on the empty string and [(RuneError, 1)] on
    an invalid encoding.  The branches on a missing second, third or
    fourth byte are not reachable: the test [n < sz] comes first. *)
Definition DecodeRuneInString (s : string) : rune * Z :=
  let n := len s in
  match s with
  | EmptyString => (RuneError, 0)
  | String c0 t0 =>
      let s0 := byte_val c0 in
      let x := first s0 in
      if as_ <=? x then
        let mask := Z.shiftr (int32 (Z.shiftl x 31)) 31 in
        (Z.lor (Z.land s0 (Z.lnot mask)) (Z.land RuneError mask), 1)
      else
        let sz := Z.land x 7 in
        let accept := acceptRanges (Z.shiftr x 4) in
        if n <? sz then (RuneError, 1)
        else
          match t0 with
          | EmptyString => (RuneError, 1)
          | String c1 t1 =>
              let s1 := byte_val c1 in
              if (s1 <? fst accept) || (snd accept <? s1) then (RuneError, 1)
              else if sz <=? 2 then
                (Z.lor (Z.shiftl (Z.land s0 mask2) 6) (Z.land s1 maskx), 2)
              else
                match t1 with
                | EmptyString => (RuneError, 1)
                | String c2 t2 =>
                    let s2 := byte_val c2 in
                    if (s2 <? locb) || (hicb <? s2) then (RuneError, 1)
                    else if sz <=? 3 then
                      (Z.lor (Z.lor (Z.shiftl (Z.land s0 mask3) 12)
                                    (Z.shiftl (Z.land s1 maskx) 6))
                             (Z.land s2 maskx), 3)
                    else
                      match t2 with
                      | EmptyString => (RuneError, 1)
                      | String c3 _ =>
                          let s3 := byte_val c3 in
                          if (s3 <? locb) || (hicb <? s3) then (RuneError, 1)
                          else
                            (Z.lor (Z.lor (Z.lor
                               (Z.shiftl (Z.land s0 mask4) 18)
                               (Z.shiftl (Z.land s1 maskx) 12))
                               (Z.shiftl (Z.land s2 maskx) 6))
                               (Z.land s3 maskx), 4)
                      end
                end
          end
  end.

End utf8.

(** The conversion [[]rune(s)]: the runes of [s], decoded one after the
    other.  Every step but the last consumes at least one byte, so the
    length of [s] bounds the number of steps. *)
Fixpoint runes_loop (n : nat) (s : string) : list rune :=
  match n with
  | O => []
  | S n' =>
      match s with
      | EmptyString => []
      | _ =>
          let '(r, w) := utf8.DecodeRuneInString s in
          r :: runes_loop n' (drop (Z.to_nat w) s)
      end
  end.

Definition runes_of (s : string) : list rune := runes_loop (String.length s) s.

Module strings.

(** [strings.ContainsRune(s, r)].  [IndexRune] answers [-1] for a rune
    that is not valid (the scanner's [eof] is [-1]); for every other
    rune the scanner can read it looks for the rune among those of [s]. *)
Definition ContainsRune (s : string) (r : rune) : bool :=
  (0 <=? r) && existsb (Z.eqb r) (runes_of s).

Definition lower_byte (c : ascii) : ascii :=
  let b := byte_val c in
  if (65 <=? b) && (b <=? 90) then ascii_of_N (Z.to_N (b + 32)) else c.

Definition upper_byte (c : ascii) : ascii :=
  let b := byte_val c in
  if (97 <=? b) && (b <=? 122) then ascii_of_N (Z.to_N (b - 32)) else c.

Fixpoint map_bytes (f : ascii -> ascii) (s : string) : string :=
  match s with
  | EmptyString => EmptyString
  | String c s' => String (f c) (map_bytes f s')
  end.

(** [strings.ToLower] and [strings.ToUpper] on ASCII text, which is what
    the scanner passes (the keyword literals). *)
Definition ToLower (s : string) : string := map_bytes lower_byte s.
Definition ToUpper (s : string) : string := map_bytes upper_byte s.

(** [strings.Count(s, "\n")] *)
Fixpoint Count_newline (s : string) : Z :=
  match s with
  | EmptyString => 0
  | String c s' => (if byte_val c =? 10 then 1 else 0) + Count_newline s'
  end.

End strings.

Module unicode.

Definition MaxLatin1 : rune := 0xFF.

(** The letters of Latin-1, as the table [properties] marks them. *)
Definition latin1_letter (r : rune) : bool :=
  ((65 <=? r) && (r <=? 90)) || ((97 <=? r) && (r <=? 122))
  || (r =? 0xAA) || (r =? 0xB5) || (r =? 0xBA)
  || ((0xC0 <=? r) && (r <=? 0xD6))
  || ((0xD8 <=? r) && (r <=? 0xF6))
  || ((0xF8 <=? r) && (r <=? 0xFF)).

Section Tables.

(** Membership of a rune above Latin-1 in the range tables
    [unicode.Letter] and [unicode.Digit]; the tables depend on the
    Unicode version of the Go release and are left open. *)
Variable Letter Digit : rune -> bool.

(** [unicode.IsLetter]: Latin-1 goes through [properties], a negative
    rune is in no table. *)
Definition IsLetter (r : rune) : bool :=
  if (0 <=? r) && (r <=? MaxLatin1) then latin1_letter r
  else if r <? 0 then false
  else Letter r.

(** [unicode.IsDigit] *)
Definition IsDigit (r : rune) : bool :=
  if r <=? MaxLatin1 then (48 <=? r) && (r <=? 57)
  else Digit r.

End Tables.

End unicode.

(** An argument of [fmt.Sprintf]. *)
Inductive fmt_arg : Type :=
| ArgRune (r : rune)
| ArgInt (n : Z)
| ArgString (s : string).

(* ================================================================== *)
(** ** Items *)

(** [itemType], in the order of the [iota] declaration. *)
Inductive itemType : Type :=
| itemError
| itemEOF
| itemIdentifier
| itemString
| itemNumber
| itemKeyword
| itemComma
| itemStar
| itemSelect
| itemFrom
| itemSemicolon.

Definition itemType_eqb (a b : itemType) : bool :=
  match a, b with
  | itemError, itemError | itemEOF, itemEOF
  | itemIdentifier, itemIdentifier | itemString, itemString
  | itemNumber, itemNumber | itemKeyword, itemKeyword
  | itemComma, itemComma | itemStar, itemStar
  | itemSelect, itemSelect | itemFrom, itemFrom
  | itemSemicolon, itemSemicolon => true
  | _, _ => false
  end.

Module item.
Record item : Type := mk {
  typ : itemType;
  pos : Pos;
  val : string;
  line : Z
}.
End item.
Abbreviation item := item.item.

(** The channel [items]: what was sent, oldest first, and whether it was
    closed. *)
Record chan : Type := {
  sent : list item;
  closed : bool
}.

(** The named state functions; [None] in [option stateFn] is Go's [nil]. *)
Inductive stateFn : Type :=
| lexStartStatement
| lexSelectKeyword
| lexFromKeyword
| lexValueExprList
| lexFromTableName
| lexEndOfStatement.

Record lexer : Type := {
  name : string;
  input : string;
  pos : Pos;
  start : Pos;
  width : Pos;
  items : chan;
  line : Z;
  startLine : Z
}.

Definition set_pos (v : Pos) (l : lexer) : lexer :=
  {| name := name l; input := input l; pos := v; start := start l;
     width := width l; items := items l; line := line l;
     startLine := startLine l |}.
Definition set_start (v : Pos) (l : lexer) : lexer :=
  {| name := name l; input := input l; pos := pos l; start := v;
     width := width l; items := items l; line := line l;
     startLine := startLine l |}.
Definition set_width (v : Pos) (l : lexer) : lexer :=
  {| name := name l; input := input l; pos := pos l; start := start l;
     width := v; items := items l; line := line l;
     startLine := startLine l |}.
Definition set_items (v : chan) (l : lexer) : lexer :=
  {| name := name l; input := input l; pos := pos l; start := start l;
     width := width l; items := v; line := line l;
     startLine := startLine l |}.
Definition set_line (v : Z) (l : lexer) : lexer :=
  {| name := name l; input := input l; pos := pos l; start := start l;
     width := width l; items := items l; line := v;
     startLine := startLine l |}.
Definition set_startLine (v : Z) (l : lexer) : lexer :=
  {| name := name l; input := input l; pos := pos l; start := start l;
     width := width l; items := items l; line := line l;
     startLine := v |}.

(* ================================================================== *)
(** ** The monad of the scanner's methods

    A method reads and updates the [lexer] it is called on.  It ends in a
    value and the updated lexer, in a run-time panic (an index or a slice
    out of range, a send on a closed channel), or it runs out of the steps
    allotted to a loop. *)

Inductive res (A : Type) : Type :=
| Ok (a : A) (l : lexer)
| Panic
| Timeout.
Arguments Ok {A} a l.
Arguments Panic {A}.
Arguments Timeout {A}.

Definition M (A : Type) : Type := lexer -> res A.

Definition ret {A} (a : A) : M A := fun l => Ok a l.

Definition bind {A B} (m : M A) (k : A -> M B) : M B :=
  fun l =>
    match m l with
    | Ok a l' => k a l'
    | Panic => Panic
    | Timeout => Timeout
    end.

Notation "x <- m ;; k" := (bind m (fun x => k))
  (at level 61, m at next level, right associativity).
Notation "m ;;; k" := (bind m (fun _ => k))
  (at level 61, right associativity).

Definition eof : rune := -1.

(** [spaceChars]: space, tab, carriage return, newline. *)
Definition spaceChars : string :=
  String (ascii_of_nat 32) (String (ascii_of_nat 9)
    (String (ascii_of_nat 13) (String (ascii_of_nat 10) EmptyString))).

(** [l.items <- it] *)
Definition send (it : item) : M unit := fun l =>
  if closed (items l) then Panic
  else Ok tt (set_items {| sent := sent (items l) ++ [it];
                           closed := false |} l).

(** [next] returns the next rune in the input. *)
Definition next : M rune := fun l =>
  if len (input l) <=? pos l then Ok eof (set_width 0 l)
  else
    match slice_from (input l) (pos l) with
    | None => Panic
    | Some s =>
        let '(r, w) := utf8.DecodeRuneInString s in
        let l := set_width w l in
        let l := set_pos (pos l + width l) l in
        Ok r (if r =? 10 then set_line (line l + 1) l else l)
    end.

(** [backup] steps back one rune. *)
Definition backup : M unit := fun l =>
  let l := set_pos (pos l - width l) l in
  if width l =? 1 then
    match index (input l) (pos l) with
    | None => Panic
    | Some b => Ok tt (if b =? 10 then set_line (line l - 1) l else l)
    end
  else Ok tt l.

(** [peek] returns but does not consume the next rune in the input. *)
Definition peek : M rune :=
  r <- next ;; backup ;;; ret r.

(** [emit] passes an item back to the client. *)
Definition emit (t : itemType) : M unit := fun l =>
  match slice (input l) (start l) (pos l) with
  | None => Panic
  | Some v =>
      (send (item.mk t (start l) v (startLine l)) ;;;
       (fun l => Ok tt (set_start (pos l) l)) ;;;
       (fun l => Ok tt (set_startLine (line l) l))) l
  end.

(** [ignore] skips over the pending input before this point. *)
Definition ignore : M unit := fun l =>
  match slice (input l) (start l) (pos l) with
  | None => Panic
  | Some v =>
      let l := set_line (line l + strings.Count_newline v) l in
      let l := set_start (pos l) l in
      Ok tt (set_startLine (line l) l)
  end.

(** [accept] consumes the next rune if it's from the valid set. *)
Definition accept (valid : string) : M bool :=
  r <- next ;;
  if strings.ContainsRune valid r then ret true
  else backup ;;; ret false.

(** The loop of [acceptRun]; [n] bounds the number of iterations. *)
Fixpoint acceptRun_loop (n : nat) (valid : string) : M unit :=
  match n with
  | O => fun _ => Timeout
  | S n' =>
      r <- next ;;
      if strings.ContainsRune valid r then acceptRun_loop n' valid
      else ret tt
  end.

(** [acceptRun] consumes a run of runes from the valid set.  Every
    iteration but the last consumes at least one byte of the input. *)
Definition acceptRun (valid : string) : M unit := fun l =>
  (acceptRun_loop (S (String.length (input l))) valid ;;; backup) l.

Definition skipWhitespace : M unit :=
  acceptRun spaceChars ;;;
  (fun l => Ok tt (set_start (pos l) l)).

Section Lexer.

Variable Letter Digit : rune -> bool.

(** [fmt.Sprintf], left open: the scanner only builds messages with it. *)
Variable Sprintf : string -> list fmt_arg -> string.

Set Default Proof Using "Type".

(** [isAlphaNumeric] reports whether r is an alphabetic, digit, or
    underscore. *)
Definition isAlphaNumeric (r : rune) : bool :=
  (r =? 95) || unicode.IsLetter Letter r || unicode.IsDigit Digit r.

Definition isAlpha (r : rune) : bool :=
  (r =? 95) || unicode.IsLetter Letter r.

Definition isDigit (r : rune) : bool := (48 <=? r) && (r <=? 57).

(** [errorf] returns an error token and terminates the scan by passing
    back a nil pointer that will be the next state. *)
Definition errorf (format : string) (args : list fmt_arg)
  : M (option stateFn) :=
  fun l =>
    (send (item.mk itemError (start l) (Sprintf format args) (startLine l)) ;;;
     ret None) l.

(** The pending text [l.input[l.start:l.pos]], an argument of [errorf]. *)
Definition pending : M string := fun l =>
  match slice (input l) (start l) (pos l) with
  | None => Panic
  | Some v => Ok v l
  end.

Definition chars : string :=
  "abcdefghijklmnopqrstuvwxyzABCDEFGHIJKLMNOPQRSTUVWXYZ_".
Definition charsAndDigits : string := chars ++ "0123456789".

Definition scanIdentifier : M bool :=
  b <- accept chars ;;
  if negb b then ret false
  else
    acceptRun charsAndDigits ;;;
    r <- peek ;;
    if isAlphaNumeric r then next ;;; ret false
    else ret true.

Definition scanNumber : M bool :=
  accept "+-" ;;;
  let digits := "0123456789_" in
  is0 <- accept "0" ;;
  digits <-
    (if is0 then
       isx <- accept "xX" ;;
       if isx then ret "0123456789abcdefABCDEF_"
       else
         iso <- accept "oO" ;;
         if iso then ret "01234567_"
         else
           isb <- accept "bB" ;;
           if isb then ret "01_" else ret digits
     else ret digits) ;;
  acceptRun digits ;;;
  dot <- accept "." ;;
  (if dot then acceptRun digits else ret tt) ;;;
  (if len digits =? 10 + 1 then
     e <- accept "eE" ;;
     if e then accept "+-" ;;; acceptRun "0123456789_" else ret tt
   else ret tt) ;;;
  (if len digits =? 16 + 6 + 1 then
     p <- accept "pP" ;;
     if p then accept "+-" ;;; acceptRun "0123456789_" else ret tt
   else ret tt) ;;;
  accept "i" ;;;
  r <- peek ;;
  if isAlphaNumeric r then next ;;; ret false
  else ret true.

(** The [for] loop of [scanString]; [n] bounds the number of iterations. *)
Fixpoint scanString_loop (n : nat) : M bool :=
  match n with
  | O => fun _ => Timeout
  | S n' =>
      r <- next ;;
      if r =? 92 then
        r' <- next ;;
        if negb (r' =? eof) && negb (r' =? 10) then scanString_loop n'
        else ret false
      else if (r =? eof) || (r =? 10) then ret false
      else if r =? 39 then
        r' <- next ;;
        if negb (r' =? 39) then backup ;;; ret true
        else scanString_loop n'
      else scanString_loop n'
  end.

Definition scanString : M bool :=
  r <- next ;;
  if negb (r =? 39) then backup ;;; ret false
  else fun l => scanString_loop (S (String.length (input l))) l.

Definition lexStartStatement_fn : M (option stateFn) :=
  skipWhitespace ;;;
  r <- next ;;
  if r =? eof then errorf "not finished statement" []
  else if (r =? 115) || (r =? 83) then
    backup ;;; ret (Some lexSelectKeyword)
  else
    errorf "unrecognized character at start of statement: %#U" [ArgRune r].

(** The [range] loop of the closure [createLexKeyword] returns. *)
Fixpoint keyword_loop (keyword : string) (upper : list rune)
    (index : nat) (lower : list rune) (it : itemType)
    (nextAction : stateFn) : M (option stateFn) :=
  match lower with
  | [] => emit it ;;; ret (Some nextAction)
  | lowerCaseRune :: lower' =>
      match nth_error upper index with
      | None => fun _ => Panic
      | Some upperCaseRune =>
          r <- next ;;
          if negb ((r =? lowerCaseRune) || (r =? upperCaseRune)) then
            errorf "expected %c or %c at pos %v in keyword %v, but got <%c>"
              [ArgRune lowerCaseRune; ArgRune upperCaseRune;
               ArgInt (Z.of_nat index); ArgString keyword; ArgRune r]
          else keyword_loop keyword upper (S index) lower' it nextAction
      end
  end.

Definition createLexKeyword (keyword : string) (it : itemType)
    (nextAction : stateFn) : M (option stateFn) :=
  let lower := runes_of (strings.ToLower keyword) in
  let upper := runes_of (strings.ToUpper keyword) in
  skipWhitespace ;;;
  keyword_loop keyword upper 0 lower it nextAction.

Definition lexSelectKeyword_fn : M (option stateFn) :=
  createLexKeyword "select" itemSelect lexValueExprList.
Definition lexFromKeyword_fn : M (option stateFn) :=
  createLexKeyword "from" itemFrom lexFromTableName.

(** The second half of [lexValueExprList], after one value expression. *)
Definition afterValueExpr : M (option stateFn) :=
  skipWhitespace ;;;
  r <- next ;;
  if r =? 44 then emit itemComma ;;; ret (Some lexValueExprList)
  else if (r =? 102) || (r =? 70) then
    backup ;;; ret (Some lexFromKeyword)
  else errorf "unrecognized character after value expr: %#U" [ArgRune r].

Definition lexValueExprList_fn : M (option stateFn) :=
  skipWhitespace ;;;
  r <- next ;;
  if r =? 42 then emit itemStar ;;; afterValueExpr
  else if r =? 39 then
    backup ;;;
    ok <- scanString ;;
    if negb ok then
      v <- pending ;; errorf "bad string: %q" [ArgString v]
    else emit itemString ;;; afterValueExpr
  else if (r =? 43) || (r =? 45) || ((48 <=? r) && (r <=? 57)) then
    backup ;;;
    ok <- scanNumber ;;
    if negb ok then
      v <- pending ;; errorf "bad number: %q" [ArgString v]
    else emit itemNumber ;;; afterValueExpr
  else if isAlpha r then
    backup ;;;
    ok <- scanIdentifier ;;
    if negb ok then
      v <- pending ;; errorf "bad identifier: %q" [ArgString v]
    else emit itemIdentifier ;;; afterValueExpr
  else errorf "unrecognized character at value exrt: %#U" [ArgRune r].

Definition lexFromTableName_fn : M (option stateFn) :=
  skipWhitespace ;;;
  ok <- scanIdentifier ;;
  if negb ok then
    v <- pending ;; errorf "bad identifier: %q" [ArgString v]
  else emit itemIdentifier ;;; ret (Some lexEndOfStatement).

Definition lexEndOfStatement_fn : M (option stateFn) :=
  skipWhitespace ;;;
  ok <- accept ";" ;;
  if ok then emit itemEOF ;;; ret None
  else errorf "unterminated statement" [].

(** Calling a state function. *)
Definition call (state : stateFn) : M (option stateFn) :=
  match state with
  | lexStartStatement => lexStartStatement_fn
  | lexSelectKeyword => lexSelectKeyword_fn
  | lexFromKeyword => lexFromKeyword_fn
  | lexValueExprList => lexValueExprList_fn
  | lexFromTableName => lexFromTableName_fn
  | lexEndOfStatement => lexEndOfStatement_fn
  end.

(** The loop of [run]; [n] bounds the number of state functions called. *)
Fixpoint run_loop (n : nat) (state : option stateFn) : M unit :=
  match state with
  | None => ret tt
  | Some f =>
      match n with
      | O => fun _ => Timeout
      | S n' => state' <- call f ;; run_loop n' state'
      end
  end.

Definition close : M unit := fun l =>
  if closed (items l) then Panic
  else Ok tt (set_items {| sent := sent (items l); closed := true |} l).

(** [run] runs the state machine for the lexer.  A state function that
    returns [lexValueExprList] has consumed input, and the other states
    are passed at most once, so the length of the input plus six bounds
    the number of calls. *)
Definition run (start : stateFn) : M unit := fun l =>
  (run_loop (String.length (input l) + 6) (Some start) ;;; close) l.

(** [lex] creates a new scanner for the input string; the result is the
    lexer once the goroutine of [run] has finished. *)
Definition lex (name input : string) : res unit :=
  run lexStartStatement
    {| name := name; input := input; pos := 0; start := 0; width := 0;
       items := {| sent := []; closed := false |};
       line := 1; startLine := 1 |}.

(** The items a consumer of [lex name input] receives. *)
Definition tokens (name input : string) : option (list item) :=
  match lex name input with
  | Ok _ l => Some (sent (items l))
  | _ => None
  end.


(** ** The consumer's side of the channel *)

(** The zero value of [item], received from a closed, drained channel. *)
Definition zero_item : item := item.mk itemError 0 EmptyString 0.

(** [nextItem] on the channel of a finished scan: the oldest item not yet
    received. *)
Definition nextItem (c : chan) : item * chan :=
  match sent c with
  | it :: rest => (it, {| sent := rest; closed := closed c |})
  | [] => (zero_item, c)
  end.

(** [drain] *)
Definition drain (c : chan) : chan := {| sent := []; closed := closed c |}.

(** [n] calls of [nextItem]. *)
Fixpoint receive (n : nat) (c : chan) : list item :=
  match n with
  | O => []
  | S n' => let '(it, c') := nextItem c in it :: receive n' c'
  end.

(* ================================================================== *)
(** ** The vocabulary of the specifications *)

(** The rune [next] reads at position [p] of [s], and its width. *)
Definition rune_at (s : string) (p : Pos) : rune * Z :=
  if len s <=? p then (eof, 0)
  else utf8.DecodeRuneInString (drop (Z.to_nat p) s).

Local Abbreviation in_set := strings.ContainsRune.
Local Abbreviation rn s p := (fst (rune_at s p)).
Local Abbreviation wd s p := (snd (rune_at s p)).

(** [post m l Q]: called on [l], the method [m] returns, and its value
    and the updated lexer satisfy [Q]. *)
Definition post {A} (m : M A) (l : lexer) (Q : A -> lexer -> Prop) : Prop :=
  match m l with
  | Ok a l' => Q a l'
  | _ => False
  end.

(** The fields the cursor methods leave alone. *)
Definition steady (l l' : lexer) : Prop :=
  name l' = name l /\ input l' = input l /\ start l' = start l /\
  items l' = items l /\ startLine l' = startLine l.

(** The cursor is inside the input. *)
Definition inb (l : lexer) : Prop := 0 <= pos l <= len (input l).

(** A run of runes that satisfy [valid], from position [p] up to [q]. *)
Inductive run_of (valid : rune -> bool) (s : string) : Pos -> Pos -> Prop :=
| run_nil p : run_of valid s p p
| run_cons p q :
    valid (fst (rune_at s p)) = true ->
    run_of valid s (p + snd (rune_at s p)) q ->
    run_of valid s p q.

(** A set of runes below [RuneSelf]. *)
Definition ascii_set (valid : string) : bool :=
  forallb (fun r => r <? 128) (runes_of valid).

(** The bytes of [s] from [p] up to [q] belong to the set [valid]. *)
Definition bytes_in (valid s : string) (p q : Pos) : Prop :=
  forall i, p <= i < q ->
    exists b, index s i = Some b /\ strings.ContainsRune valid b = true.

(** A cursor method moved the cursor forward, inside the input. *)
Definition adv (l l' : lexer) : Prop :=
  steady l l' /\ pos l <= pos l' <= len (input l).

(** The fields [skipWhitespace] leaves alone. *)
Definition kept (l l' : lexer) : Prop :=
  name l' = name l /\ input l' = input l /\
  items l' = items l /\ startLine l' = startLine l.

(** The body of a string literal that starts at [p], after the opening
    quote, and closes: [q] is the position after the closing quote.  A
    backslash escapes the rune after it, which is neither the end of the
    input nor a newline; a quote followed by a quote is an embedded quote;
    a quote followed by anything else closes the literal; the end of the
    input and an unescaped newline are not part of a body. *)
Inductive string_body (s : string) : Pos -> Pos -> Prop :=
| body_close p :
    rn s p = 39 -> rn s (p + wd s p) <> 39 ->
    string_body s p (p + wd s p)
| body_embedded p q :
    rn s p = 39 -> rn s (p + wd s p) = 39 ->
    string_body s (p + wd s p + wd s (p + wd s p)) q ->
    string_body s p q
| body_escape p q :
    rn s p = 92 -> rn s (p + wd s p) <> eof -> rn s (p + wd s p) <> 10 ->
    string_body s (p + wd s p + wd s (p + wd s p)) q ->
    string_body s p q
| body_plain p q :
    rn s p <> 92 -> rn s p <> 39 -> rn s p <> 10 -> rn s p <> eof ->
    string_body s (p + wd s p) q ->
    string_body s p q.

(** The letters, digits and underscore below [RuneSelf]. *)
Definition ascii_alnum (r : rune) : bool :=
  ((48 <=? r) && (r <=? 57)) || ((65 <=? r) && (r <=? 90))
  || ((97 <=? r) && (r <=? 122)) || (r =? 95).

(** A set of letters, digits and underscores below [RuneSelf]. *)
Definition alnum_set (valid : string) : bool :=
  forallb ascii_alnum (runes_of valid).

(** An item that does not end the stream. *)
Definition nonterminal (t : item) : Prop :=
  item.typ t <> itemError /\ item.typ t <> itemEOF.

(** The text of [t] is the part of [s] at the offset of [t], and it is
    not empty. *)
Definition placed (s : string) (t : item) : Prop :=
  0 < len (item.val t) /\
  slice s (item.pos t) (item.pos t + len (item.val t)) = Some (item.val t).

(** The items [toks] lie in [s] one after the other, in the order of the
    list, from [from] up to [upto]; only white space lies before each of
    them. *)
Fixpoint tiled (s : string) (from : Pos) (toks : list item) (upto : Pos)
  : Prop :=
  match toks with
  | [] => from = upto
  | t :: rest =>
      from <= item.pos t /\
      bytes_in spaceChars s from (item.pos t) /\
      placed s t /\
      tiled s (item.pos t + len (item.val t)) rest upto
  end.

(** Between two state functions: the channel is open, the items sent so
    far do not end the stream and tile the input up to some position, and
    only white space lies between that position and the cursor. *)
Definition Inv (l : lexer) : Prop :=
  closed (items l) = false /\ Forall nonterminal (sent (items l)) /\
  inb l /\
  exists E, tiled (input l) 0 (sent (items l)) E /\ E <= pos l /\
            bytes_in spaceChars (input l) E (pos l).

(** Inside a state function, after [skipWhitespace]: as [Inv], with the
    pending item from [start] to the cursor. *)
Definition Scanning (l : lexer) : Prop :=
  closed (items l) = false /\ Forall nonterminal (sent (items l)) /\
  0 <= start l <= pos l /\ pos l <= len (input l) /\
  exists E, tiled (input l) 0 (sent (items l)) E /\ E <= start l /\
            bytes_in spaceChars (input l) E (start l).

(** The item [errorf] sends, in the lexer it leaves. *)
Definition error_item (l : lexer) (t : item) : Prop :=
  item.typ t = itemError /\ item.pos t = start l /\
  item.line t = startLine l /\
  exists format args, item.val t = Sprintf format args.

(** The stream of a state machine that has halted: items that do not end
    the stream and tile the input, then one last item, which is either the
    end-of-input item, lying in the input after them, or an error item. *)
Definition Final (l : lexer) : Prop :=
  closed (items l) = false /\
  exists toks t,
    sent (items l) = toks ++ [t] /\ Forall nonterminal toks /\
    exists E, tiled (input l) 0 toks E /\
      ((item.typ t = itemEOF /\ exists E', tiled (input l) E [t] E')
       \/ error_item l t).

(** A bound on the number of state functions still to call. *)
Definition weight (s : stateFn) : nat :=
  match s with
  | lexStartStatement => 6
  | lexSelectKeyword => 5
  | lexValueExprList => 4
  | lexFromKeyword => 3
  | lexFromTableName => 2
  | lexEndOfStatement => 1
  end.

Definition rank (s : stateFn) (l : lexer) : nat :=
  (Z.to_nat (len (input l) - pos l) + weight s)%nat.

(** What the state function [s], called on [l], leaves behind. *)
Definition Step (s : stateFn) (l : lexer) (o : option stateFn) (l' : lexer)
  : Prop :=
  input l' = input l /\ name l' = name l /\
  match o with
  | Some s' => Inv l' /\ (rank s' l' < rank s l)%nat
  | None => Final l'
  end.

(** A method that only moves the cursor forward. *)
Definition advances {A} (m : M A) : Prop :=
  forall l, inb l -> post m l (fun _ l' => adv l l').

(** The lexer [lex] starts from. *)
Definition fresh (name input : string) : lexer :=
  {| name := name; input := input; pos := 0; start := 0; width := 0;
     items := {| sent := []; closed := false |};
     line := 1; startLine := 1 |}.

(** A finished scan: the state machine has halted, the channel is closed
    and the stream is a finished stream. *)
Definition Scanned (inp : string) (l : lexer) : Prop :=
  input l = inp /\ closed (items l) = true /\
  exists toks t,
    sent (items l) = toks ++ [t] /\ Forall nonterminal toks /\
    exists E, tiled inp 0 toks E /\
      ((item.typ t = itemEOF /\ exists E', tiled inp E [t] E')
       \/ error_item l t).

(** An item that is not an error item. *)
Definition not_error (t : item) : bool :=
  negb (itemType_eqb (item.typ t) itemError).

(** The position after the text of an item. *)
Definition item_end (t : item) : Pos := item.pos t + len (item.val t).

(** The line of position [p]: one more than the newlines before it. *)
Definition line_at (inp : string) (p : Pos) : Z :=
  1 + strings.Count_newline (substring 0 (Z.to_nat p) inp).

Definition newline : string := String (ascii_of_nat 10) EmptyString.

(** The statement that selects the value expression [e] from [t]. *)
Definition select_from_t (e : string) : string :=
  ("select " ++ e ++ " from t;")%string.

(** The items of [select_from_t e] when [e] is one item of kind [k]. *)
Definition items_of_select (k : itemType) (e : string) : list item :=
  [ item.mk itemSelect 0 "select" 1;
    item.mk k 7 e 1;
    item.mk itemFrom (8 + len e) "from" 1;
    item.mk itemIdentifier (13 + len e) "t" 1;
    item.mk itemEOF (14 + len e) ";" 1 ].

(** The cursor of [l] is at [q], and [l] differs from [l0] in nothing
    else that a cursor method leaves alone. *)
Definition cursor_at (l0 : lexer) (q : Pos) (l : lexer) : Prop :=
  steady l0 l /\ pos l = q.

(** An identifier from [p] up to [q]: a first rune in [first], a run of
    runes in [follow], and after it a rune not in [boundary]. *)
Definition identifier_at (first follow boundary : rune -> bool)
    (s : string) (p q : Pos) : Prop :=
  first (rn s p) = true /\
  run_of follow s (p + wd s p) q /\
  boundary (rn s q) = false.

(** The items [l'] has sent are those of [l] and then [more]. *)
Definition sent_more (l l' : lexer) (more : list item) : Prop :=
  sent (items l') = sent (items l) ++ more.

(** At [p] the input has a number without digits, [n] bytes long: a lone
    sign, or [0] and the letter of a base. *)
Definition bare_number (s : string) (p : Pos) (n : Z) : Prop :=
  (n = 1 /\ (rn s p = 43 \/ rn s p = 45))
  \/ (n = 2 /\ rn s p = 48 /\ In (rn s (p + 1)) [120; 88; 111; 79; 98; 66]).




(** The two keyword state functions, as [createLexKeyword] builds them. *)
Definition is_keyword_state (keyword : string) (it : itemType)
    (nextAction : stateFn) : Prop :=
  (keyword = "select" /\ it = itemSelect /\ nextAction = lexValueExprList)
  \/ (keyword = "from" /\ it = itemFrom /\ nextAction = lexFromTableName).


(** Stand-ins for what the scanner leaves open, for the closed examples:
    range tables with nothing above Latin-1, and a [Sprintf] that returns
    its format. *)
Definition nothing_above_Latin1 : rune -> bool := fun _ => false.
Definition format_only (format : string) (args : list fmt_arg) : string :=
  format.

(** The letter e with an acute accent, U+00E9, in UTF-8. *)
Definition e_acute : string :=
  String (ascii_of_nat 195) (String (ascii_of_nat 169) EmptyString).


(** The line counter is accurate: one more than the newlines before the
    cursor. *)
Definition counted (l : lexer) : Prop := line l = line_at (input l) (pos l).

(** A method that moves the cursor forward and keeps the line counter
    accurate. *)
Definition tracks {A} (m : M A) : Prop :=
  forall l, inb l -> counted l ->
    post m l (fun _ l' => adv l l' /\ counted l').


(** The line [emit] stamps on the item that follows the items [toks]:
    [cur] for the first item, and then the line at the end of the item
    before. *)
Fixpoint stamp (inp : string) (cur : Z) (toks : list item) : Z :=
  match toks with
  | [] => cur
  | t :: rest => stamp inp (line_at inp (item_end t)) rest
  end.

(** Every item of [toks] carries the line at the end of the item before
    it, and the first one carries [cur]. *)
Fixpoint lined (inp : string) (cur : Z) (toks : list item) : Prop :=
  match toks with
  | [] => True
  | t :: rest => item.line t = cur /\ lined inp (line_at inp (item_end t)) rest
  end.

(** Every byte of [v] satisfies [P]. *)
Fixpoint all_bytes (P : Z -> bool) (v : string) : bool :=
  match v with
  | EmptyString => true
  | String c v' => P (byte_val c) && all_bytes P v'
  end.

(** The text of an identifier: a letter a-z, A-Z or an underscore, and
    then letters, digits 0-9 and underscores. *)
Definition identifier_text (v : string) : bool :=
  match v with
  | EmptyString => false
  | String c v' =>
      strings.ContainsRune chars (byte_val c)
      && all_bytes (strings.ContainsRune charsAndDigits) v'
  end.

(** The bytes [scanNumber] can consume. *)
Definition number_chars : string := "+-0123456789abcdefABCDEF_xXoObB.eEpPi".

(** The text of a number: a sign or a decimal digit, and then bytes of
    [number_chars]. *)
Definition number_text (v : string) : bool :=
  match v with
  | EmptyString => false
  | String c v' =>
      (strings.ContainsRune "+-" (byte_val c) || isDigit (byte_val c))
      && all_bytes (strings.ContainsRune number_chars) v'
  end.

(** The text of a string literal: it starts and ends with a quote, these
    are two bytes, and no byte of it is a newline. *)
Definition quoted (v : string) : Prop :=
  2 <= len v /\ index v 0 = Some 39 /\ index v (len v - 1) = Some 39 /\
  strings.Count_newline v = 0.

(** What the text of an item of each kind looks like; the scanner sends
    no item of the kinds [itemKeyword] and [itemSemicolon]. *)
Definition wf_text (k : itemType) (v : string) : Prop :=
  match k with
  | itemError => True
  | itemEOF => v = ";"
  | itemIdentifier => identifier_text v = true
  | itemString => quoted v
  | itemNumber => number_text v = true
  | itemComma => v = ","
  | itemStar => v = "*"
  | itemSelect => strings.ToLower v = "select"
  | itemFrom => strings.ToLower v = "from"
  | itemKeyword => False
  | itemSemicolon => False
  end.

Definition wf_item (t : item) : Prop := wf_text (item.typ t) (item.val t).

(** The kinds of value expressions. *)
Definition value_kind (k : itemType) : Prop :=
  k = itemStar \/ k = itemString \/ k = itemNumber \/ k = itemIdentifier.

(** The kinds of a list of value expressions separated by commas. *)
Inductive value_list : list itemType -> Prop :=
| value_one v : value_kind v -> value_list [v]
| value_more v rest :
    value_kind v -> value_list rest -> value_list (v :: itemComma :: rest).

(** The kinds of the items of a whole statement. *)
Definition statement_kinds (ks : list itemType) : Prop :=
  exists vs, value_list vs /\
    ks = itemSelect :: vs ++ [itemFrom; itemIdentifier; itemEOF].

(** Where the scanner is in a statement. *)
Inductive kstate : Type :=
| expect_select
| expect_value
| after_value
| expect_table
| expect_end
| finished.

(** The kinds of the items sent when the scanner is at each place. *)
Inductive kinds_at : kstate -> list itemType -> Prop :=
| at_start : kinds_at expect_select []
| at_select : kinds_at expect_value [itemSelect]
| at_value ks v :
    kinds_at expect_value ks -> value_kind v ->
    kinds_at after_value (ks ++ [v])
| at_comma ks :
    kinds_at after_value ks -> kinds_at expect_value (ks ++ [itemComma])
| at_from ks :
    kinds_at after_value ks -> kinds_at expect_table (ks ++ [itemFrom])
| at_table ks :
    kinds_at expect_table ks -> kinds_at expect_end (ks ++ [itemIdentifier])
| at_end ks :
    kinds_at expect_end ks -> kinds_at finished (ks ++ [itemEOF]).

(** The place in a statement of each state function. *)
Definition kstate_of (s : stateFn) : kstate :=
  match s with
  | lexStartStatement => expect_select
  | lexSelectKeyword => expect_select
  | lexValueExprList => expect_value
  | lexFromKeyword => after_value
  | lexFromTableName => expect_table
  | lexEndOfStatement => expect_end
  end.

(** The kinds of the items sent. *)
Definition kinds (l : lexer) : list itemType :=
  map item.typ (sent (items l)).

(** What holds of the items sent so far, with the scanner at [q]. *)
Definition Sent (q : kstate) (l : lexer) : Prop :=
  startLine l = stamp (input l) 1 (sent (items l)) /\
  lined (input l) 1 (sent (items l)) /\
  Forall wf_item (sent (items l)) /\
  kinds_at q (kinds l).

(** The end of the last item of [toks], or [0]. *)
Definition last_end (toks : list item) : Pos :=
  fold_left (fun _ t => item_end t) toks 0.

(** The pending item starts at a rune that is not white space, or at the
    end of the input. *)
Definition nonspace (l : lexer) : Prop :=
  strings.ContainsRune spaceChars (fst (rune_at (input l) (start l))) = false.

(** What holds of the items of a scan that has halted. *)
Definition SentAll (l : lexer) : Prop :=
  counted l /\
  lined (input l) 1 (sent (items l)) /\
  Forall wf_item (sent (items l)) /\
  (kinds_at finished (kinds l)
   \/ exists q ks toks t,
        q <> finished /\ kinds_at q ks /\ kinds l = ks ++ [itemError] /\
        sent (items l) = toks ++ [t] /\ item.pos t = start l /\
        last_end toks <= start l <= len (input l) /\
        bytes_in spaceChars (input l) (last_end toks) (start l) /\
        nonspace l).


(** Every rune of the set [a] is in the set [b]. *)
Definition subset (a b : string) : Prop :=
  forall r, strings.ContainsRune a r = true -> strings.ContainsRune b r = true.

(** A set of bytes that are among those of [valid]. *)
Definition good_set (valid d : string) : Prop :=
  ascii_set d = true /\ subset d valid.

(** A method that moves the cursor forward over bytes of [valid], and
    whose value satisfies [R]. *)
Definition consumes {A} (valid : string) (R : A -> Prop) (m : M A) : Prop :=
  forall l, inb l ->
    post m l (fun a l' =>
      adv l l' /\ R a /\ bytes_in valid (input l) (pos l) (pos l')).

(** A scanning method that, when it succeeds, has moved the cursor
    forward over bytes of [valid]. *)
Definition accepts_from (valid : string) (m : M bool) : Prop :=
  forall l, inb l ->
    post m l (fun b l' =>
      adv l l' /\
      (b = true -> bytes_in valid (input l) (pos l) (pos l'))).


(** The text [w] spells a keyword in some mix of cases: each byte is the
    rune of [lower] or the rune of [upper] at its place. *)
Fixpoint spelled (w : string) (lower upper : list rune) : Prop :=
  match w, lower, upper with
  | EmptyString, [], _ => True
  | String c w', lo :: lower', up :: upper' =>
      (byte_val c = lo \/ byte_val c = up) /\ spelled w' lower' upper'
  | _, _, _ => False
  end.

(** Between two state functions, with the scanner at [q]: the line
    counter is accurate and the items sent are as they should be. *)
Definition Rich (q : kstate) (l : lexer) : Prop := counted l /\ Sent q l.

(** What a state function leaves behind, as to the items sent. *)
Definition rich_step (o : option stateFn) (l' : lexer) : Prop :=
  match o with
  | Some s' => Rich (kstate_of s') l'
  | None => SentAll l'
  end.


(** ** More of [lex.go] *)

(** The number of a kind of item, as [iota] gives it. *)
Definition itemType_ord (t : itemType) : Z :=
  match t with
  | itemError => 0
  | itemEOF => 1
  | itemIdentifier => 2
  | itemString => 3
  | itemNumber => 4
  | itemKeyword => 5
  | itemComma => 6
  | itemStar => 7
  | itemSelect => 8
  | itemFrom => 9
  | itemSemicolon => 10
  end.

(** The method [String] of [item]. *)
Definition item_String (i : item) : string :=
  if itemType_eqb (item.typ i) itemEOF then "EOF"
  else if itemType_eqb (item.typ i) itemError then item.val i
  else if itemType_ord itemKeyword <? itemType_ord (item.typ i)
       then Sprintf "<%s>" [ArgString (item.val i)]
  else if 10 <? len (item.val i)
       then Sprintf "%.10q..." [ArgString (item.val i)]
  else Sprintf "%q" [ArgString (item.val i)].

(** [isSpace] reports whether r is a space character. *)
Definition isSpace (r : rune) : bool := (r =? 32) || (r =? 9).

(** [isEndOfLine] reports whether r is an end-of-line character. *)
Definition isEndOfLine (r : rune) : bool := (r =? 13) || (r =? 10).


(** What [main] prints, call after call.  [fmt] renders an [item] by its
    method [String], and an [itemType] as its number. *)
Inductive printed : Type :=
| PrintlnError (i : string)        (* fmt.Println("ERROR", i) *)
| PrintlnEnd                       (* fmt.Println("END") *)
| PrintfItem (i : string) (typ : Z). (* fmt.Printf("%v %v\n", i, i.typ) *)

(** The loop [read] of [main], on the channel of a finished scan; [n]
    bounds the number of iterations. *)
Fixpoint read_loop (n : nat) (c : chan) : option (list printed) :=
  match n with
  | O => None
  | S n' =>
      let '(i, c') := nextItem c in
      if itemType_eqb (item.typ i) itemError
      then Some [PrintlnError (item_String i)]
      else if itemType_eqb (item.typ i) itemEOF
      then Some [PrintlnEnd]
      else option_map
             (cons (PrintfItem (item_String i) (itemType_ord (item.typ i))))
             (read_loop n' c')
  end.

(** [main]: what it prints.  The stream of a scan has at most one item
    per byte of the input and one more. *)
Definition main : option (list printed) :=
  let input := " sElect col  , col, 11, 'ab''c' from table;" in
  match lex "TEST SELECTS" input with
  | Ok _ l => read_loop (S (String.length input)) (items l)
  | _ => None
  end.

(** The line [main] prints for an item that does not end the stream. *)
Definition print_item (i : item) : printed :=
  PrintfItem (item_String i) (itemType_ord (item.typ i)).

(** The line [main] prints for the item that ends the stream. *)
Definition print_last (i : item) : printed :=
  if itemType_eqb (item.typ i) itemError then PrintlnError (item_String i)
  else PrintlnEnd.


(** The lexer [l] with another name. *)
Definition set_name (v : string) (l : lexer) : lexer :=
  {| name := v; input := input l; pos := pos l; start := start l;
     width := width l; items := items l; line := line l;
     startLine := startLine l |}.

(** The result [r] with another name for the lexer. *)
Definition rename {A} (v : string) (r : res A) : res A :=
  match r with
  | Ok a l => Ok a (set_name v l)
  | Panic => Panic
  | Timeout => Timeout
  end.

(** A method that does not look at the name of the input. *)
Definition nameless {A} (m : M A) : Prop :=
  forall v l, m (set_name v l) = rename v (m l).


(** The map [key], as the list of its entries. *)
Definition key : list (string * itemType) :=
  [ ("*", itemStar);
    ("select", itemSelect);
    ("from", itemFrom);
    (";", itemSemicolon);
    (",", itemComma) ].

(** [key[k]], with [None] for a missing key. *)
Definition key_lookup (k : string) : option itemType :=
  option_map snd (find (fun e => String.eqb (fst e) k) key).


(** The lexer [l] on the input of [l] followed by [rest]. *)
Definition extend (rest : string) (l : lexer) : lexer :=
  {| name := name l; input := input l ++ rest; pos := pos l;
     start := start l; width := width l; items := items l; line := line l;
     startLine := startLine l |}.

(** [next] reads the same rune from [s] and from [s ++ rest] at every
    position before [B]. *)
Definition reads_same (s rest : string) (B : Pos) : Prop :=
  B <= len s /\ forall p, 0 <= p < B -> rune_at (s ++ rest) p = rune_at s p.

(** What [m] does on an input it leaves before [B], [m'] does on that
    input followed by [rest]; besides, [m] does not move the cursor
    back. *)
Definition carried {A} (rest : string) (B : Pos) (m m' : M A) : Prop :=
  forall l a l1, inb l -> m l = Ok a l1 ->
    (inb l1 /\ input l1 = input l /\ pos l <= pos l1) /\
    (reads_same (input l) rest B -> pos l1 < B ->
     m' (extend rest l) = Ok a (extend rest l1)).

(** As [carried], for what follows a [next] that read the rune at [q]. *)
Definition carried_after {A} (rest : string) (B : Pos) (m m' : M A) : Prop :=
  forall l q a l1,
    0 <= q <= len (input l) ->
    pos l = q + snd (rune_at (input l) q) ->
    width l = snd (rune_at (input l) q) ->
    m l = Ok a l1 ->
    (inb l1 /\ input l1 = input l /\ q <= pos l1) /\
    (reads_same (input l) rest B -> pos l1 < B ->
     m' (extend rest l) = Ok a (extend rest l1)).

(** The last item sent is of the kind [k]. *)
Definition ends_with (k : itemType) (l : lexer) : Prop :=
  exists toks t, sent (items l) = toks ++ [t] /\ item.typ t = k.

(** A state function that halts the state machine only with an error. *)
Definition halts_on_error (m : M (option stateFn)) : Prop :=
  forall l l1, m l = Ok None l1 -> ends_with itemError l1.


(* ================================================================== *)
(** ** The first revision of [lex.go]: a select list of columns

    [lex.go] holds two revisions of the scanner.  The first one has the
    types and the methods of the second, and its state functions
    [lexStartStatement], [createLexKeyword], [lexFromTableName] and
    [lexEndOfStatement]; its select list is a star or a list of column
    names, scanned by [lexSelectList], [lexColumnsList] and
    [lexColumnsListContinue].  Its kinds of items are those of the
    second revision but [itemString] and [itemNumber]. *)

(** The state functions of the first revision. *)
Inductive stateFn1 : Type :=
| lexStartStatement1
| lexSelectKeyword1
| lexFromKeyword1
| lexSelectList
| lexColumnsList
| lexColumnsListContinue
| lexFromTableName1
| lexEndOfStatement1.

Definition errorf1 (format : string) (args : list fmt_arg)
  : M (option stateFn1) :=
  fun l =>
    (send (item.mk itemError (start l) (Sprintf format args) (startLine l)) ;;;
     ret None) l.

Definition lexStartStatement1_fn : M (option stateFn1) :=
  skipWhitespace ;;;
  r <- next ;;
  if r =? eof then errorf1 "not finished statement" []
  else if (r =? 115) || (r =? 83) then
    backup ;;; ret (Some lexSelectKeyword1)
  else
    errorf1 "unrecognized character at start of statement: %#U" [ArgRune r].

Fixpoint keyword_loop1 (keyword : string) (upper : list rune)
    (index : nat) (lower : list rune) (it : itemType)
    (nextAction : stateFn1) : M (option stateFn1) :=
  match lower with
  | [] => emit it ;;; ret (Some nextAction)
  | lowerCaseRune :: lower' =>
      match nth_error upper index with
      | None => fun _ => Panic
      | Some upperCaseRune =>
          r <- next ;;
          if negb ((r =? lowerCaseRune) || (r =? upperCaseRune)) then
            errorf1 "expected %c or %c at pos %v in keyword %v, but got <%c>"
              [ArgRune lowerCaseRune; ArgRune upperCaseRune;
               ArgInt (Z.of_nat index); ArgString keyword; ArgRune r]
          else keyword_loop1 keyword upper (S index) lower' it nextAction
      end
  end.

Definition createLexKeyword1 (keyword : string) (it : itemType)
    (nextAction : stateFn1) : M (option stateFn1) :=
  let lower := runes_of (strings.ToLower keyword) in
  let upper := runes_of (strings.ToUpper keyword) in
  skipWhitespace ;;;
  keyword_loop1 keyword upper 0 lower it nextAction.

Definition lexSelectKeyword1_fn : M (option stateFn1) :=
  createLexKeyword1 "select" itemSelect lexSelectList.
Definition lexFromKeyword1_fn : M (option stateFn1) :=
  createLexKeyword1 "from" itemFrom lexFromTableName1.

Definition lexSelectList_fn : M (option stateFn1) :=
  skipWhitespace ;;;
  r <- next ;;
  if r =? 42 then emit itemStar ;;; ret (Some lexFromKeyword1)
  else if isAlpha r then backup ;;; ret (Some lexColumnsList)
  else errorf1 "unrecognized character at select list: %#U" [ArgRune r].

Definition lexColumnsList_fn : M (option stateFn1) :=
  skipWhitespace ;;;
  ok <- scanIdentifier ;;
  if negb ok then
    v <- pending ;; errorf1 "bad identifier: %q" [ArgString v]
  else emit itemIdentifier ;;; ret (Some lexColumnsListContinue).

Definition lexColumnsListContinue_fn : M (option stateFn1) :=
  skipWhitespace ;;;
  r <- next ;;
  if r =? eof then errorf1 "not finished statement" []
  else if r =? 44 then emit itemComma ;;; ret (Some lexColumnsList)
  else if (r =? 102) || (r =? 70) then
    backup ;;; ret (Some lexFromKeyword1)
  else
    errorf1 "unrecognized character at continue select list: %#U" [ArgRune r].

Definition lexFromTableName1_fn : M (option stateFn1) :=
  skipWhitespace ;;;
  ok <- scanIdentifier ;;
  if negb ok then
    v <- pending ;; errorf1 "bad identifier: %q" [ArgString v]
  else emit itemIdentifier ;;; ret (Some lexEndOfStatement1).

Definition lexEndOfStatement1_fn : M (option stateFn1) :=
  skipWhitespace ;;;
  ok <- accept ";" ;;
  if ok then emit itemEOF ;;; ret None
  else errorf1 "unterminated statement" [].

(** Calling a state function of the first revision. *)
Definition call1 (state : stateFn1) : M (option stateFn1) :=
  match state with
  | lexStartStatement1 => lexStartStatement1_fn
  | lexSelectKeyword1 => lexSelectKeyword1_fn
  | lexFromKeyword1 => lexFromKeyword1_fn
  | lexSelectList => lexSelectList_fn
  | lexColumnsList => lexColumnsList_fn
  | lexColumnsListContinue => lexColumnsListContinue_fn
  | lexFromTableName1 => lexFromTableName1_fn
  | lexEndOfStatement1 => lexEndOfStatement1_fn
  end.

(** The loop of [run]; [n] bounds the number of state functions called. *)
Fixpoint run_loop1 (n : nat) (state : option stateFn1) : M unit :=
  match state with
  | None => ret tt
  | Some f =>
      match n with
      | O => fun _ => Timeout
      | S n' => state' <- call1 f ;; run_loop1 n' state'
      end
  end.

(** [run] in the first revision.  [lexColumnsList] has consumed a column
    name when it returns [lexColumnsListContinue], which has consumed a
    comma when it returns [lexColumnsList], and the other states are
    passed at most once, so twice the length of the input plus eight
    bounds the number of calls. *)
Definition run1 (start : stateFn1) : M unit := fun l =>
  (run_loop1 (2 * String.length (input l) + 8) (Some start) ;;; close) l.

(** [lex] in the first revision. *)
Definition lex1 (name input : string) : res unit :=
  run1 lexStartStatement1
    {| name := name; input := input; pos := 0; start := 0; width := 0;
       items := {| sent := []; closed := false |};
       line := 1; startLine := 1 |}.

(** The items a consumer of [lex1 name input] receives. *)
Definition tokens1 (name input : string) : option (list item) :=
  match lex1 name input with
  | Ok _ l => Some (sent (items l))
  | _ => None
  end.

(** A bound on the number of state functions still to call. *)
Definition weight1 (s : stateFn1) : nat :=
  match s with
  | lexStartStatement1 => 8
  | lexSelectKeyword1 => 7
  | lexSelectList => 6
  | lexColumnsList => 5
  | lexColumnsListContinue => 4
  | lexFromKeyword1 => 3
  | lexFromTableName1 => 2
  | lexEndOfStatement1 => 1
  end.

Definition rank1 (s : stateFn1) (l : lexer) : nat :=
  (2 * Z.to_nat (len (input l) - pos l) + weight1 s)%nat.

(** What the state function [s] of the first revision, called on [l],
    leaves behind. *)
Definition Step1 (s : stateFn1) (l : lexer) (o : option stateFn1)
    (l' : lexer) : Prop :=
  input l' = input l /\ name l' = name l /\
  match o with
  | Some s' => Inv l' /\ (rank1 s' l' < rank1 s l)%nat
  | None => Final l'
  end.


(** The state function of the second revision that takes the place of
    each state function of the first. *)
Definition second (s : stateFn1) : stateFn :=
  match s with
  | lexStartStatement1 => lexStartStatement
  | lexSelectKeyword1 => lexSelectKeyword
  | lexFromKeyword1 => lexFromKeyword
  | lexSelectList => lexValueExprList
  | lexColumnsList => lexValueExprList
  | lexColumnsListContinue => lexValueExprList
  | lexFromTableName1 => lexFromTableName
  | lexEndOfStatement1 => lexEndOfStatement
  end.

(** A result of the first revision, read as one of the second. *)
Definition lift (r : res (option stateFn1)) : res (option stateFn) :=
  match r with
  | Ok o l => Ok (option_map second o) l
  | Panic => Panic
  | Timeout => Timeout
  end.

(** What the second revision runs where the first calls [s]:
    [lexColumnsListContinue] is the second half of [lexValueExprList]. *)
Definition counterpart (s : stateFn1) : M (option stateFn) :=
  match s with
  | lexColumnsListContinue => afterValueExpr
  | _ => call (second s)
  end.

(** The lexer as [skipWhitespace] leaves it: the cursor is at the start
    of the pending item, on a rune that is not white space, or at the end
    of the input, and that rune is the last one read. *)
Definition settled (l : lexer) : Prop :=
  inb l /\ start l = pos l /\
  width l = snd (rune_at (input l) (pos l)) /\
  strings.ContainsRune spaceChars (fst (rune_at (input l) (pos l))) = false.

(** Two lexers that [skipWhitespace] makes the same. *)
Definition same_start (l1 l2 : lexer) : Prop :=
  skipWhitespace l1 = skipWhitespace l2.


(** A state function of the first revision that returns only next
    states that satisfy [P]. *)
Definition passes_to (P : stateFn1 -> Prop) (m : M (option stateFn1))
  : Prop :=
  forall l s' l', m l = Ok (Some s') l' -> P s'.

(** The continuation [k2] of the second revision does what [k1] does in
    the first. *)
Definition lifts (k2 : M (option stateFn)) (k1 : M (option stateFn1))
  : Prop :=
  forall l, k2 l = lift (k1 l).


(** A method that sends nothing. *)
Definition silent {A} (m : M A) : Prop :=
  forall l a l', m l = Ok a l' -> items l' = items l.

(** The kinds of [n] column names, each followed by a comma. *)
Fixpoint columns (n : nat) : list itemType :=
  match n with
  | O => []
  | S n' => itemIdentifier :: itemComma :: columns n'
  end.

(** The kinds of the select list of the first revision: a star, or
    column names separated by commas. *)
Definition select_list (ks : list itemType) : Prop :=
  ks = [itemStar] \/ exists n, ks = columns n ++ [itemIdentifier].

(** The kinds of the items sent when the first revision calls each of
    its state functions. *)
Definition kinds1_at (s : stateFn1) (ks : list itemType) : Prop :=
  match s with
  | lexStartStatement1 => ks = []
  | lexSelectKeyword1 => ks = []
  | lexSelectList => ks = [itemSelect]
  | lexColumnsList => exists n, ks = itemSelect :: columns n
  | lexColumnsListContinue =>
      exists n, ks = itemSelect :: columns n ++ [itemIdentifier]
  | lexFromKeyword1 => exists sl, select_list sl /\ ks = itemSelect :: sl
  | lexFromTableName1 =>
      exists sl, select_list sl /\ ks = itemSelect :: sl ++ [itemFrom]
  | lexEndOfStatement1 =>
      exists sl, select_list sl /\
        ks = itemSelect :: sl ++ [itemFrom; itemIdentifier]
  end.

(** The kinds of a whole statement of the first revision. *)
Definition statement1_kinds (ks : list itemType) : Prop :=
  exists sl, select_list sl /\
    ks = itemSelect :: sl ++ [itemFrom; itemIdentifier; itemEOF].


(** The items of a state machine of the first revision that has halted:
    the last one is an error item, or they are those of a statement. *)
Definition halted1 (l : lexer) : Prop :=
  ends_with itemError l \/ statement1_kinds (kinds l).


(** A method that only adds to the items sent. *)
Definition grows {A} (m : M A) : Prop :=
  forall l a l', m l = Ok a l' -> exists more, kinds l' = kinds l ++ more.


(** The formats of the messages the state functions pass to [errorf]. *)
Definition error_formats : list string :=
  [ "not finished statement";
    "unrecognized character at start of statement: %#U";
    "expected %c or %c at pos %v in keyword %v, but got <%c>";
    "bad string: %q";
    "bad number: %q";
    "bad identifier: %q";
    "unrecognized character at value exrt: %#U";
    "unrecognized character after value expr: %#U";
    "unterminated statement" ].

(** A state function that halts the state machine only after the
    end-of-input item, or by a call of [errorf] with one of the formats
    above. *)
Definition reports (m : M (option stateFn)) : Prop :=
  forall l l', m l = Ok None l' ->
    ends_with itemEOF l' \/
    exists format args l0,
      In format error_formats /\ errorf format args l0 = Ok None l'.

(* ================================================================== *)
(** ** Strings: lengths, suffixes and slices *)

Lemma byte_val_range c : 0 <= byte_val c < 256.
Proof.
  unfold byte_val. pose proof (N_ascii_bounded c). lia.
Qed.

Lemma len_nonneg s : 0 <= len s.
Proof. unfold len. lia. Qed.

Lemma len_String c s : len (String c s) = len s + 1.
Proof. unfold len. cbn [String.length]. lia. Qed.

Lemma length_drop n s : String.length (drop n s) = (String.length s - n)%nat.
Proof.
  revert s. induction n as [|n IH]; intros [|c s]; cbn; auto; lia.
Qed.

Lemma drop_drop n m s : drop m (drop n s) = drop (n + m) s.
Proof.
  revert s. induction n as [|n IH]; intros s; cbn; auto.
  destruct s as [|c s]; auto. destruct m; reflexivity.
Qed.

Lemma get_drop n i s : String.get i (drop n s) = String.get (n + i) s.
Proof.
  revert s. induction n as [|n IH]; intros [|c s]; cbn; auto.
Qed.

Lemma drop_lt n s :
  (n < String.length s)%nat ->
  exists c t, drop n s = String c t /\ String.get n s = Some c.
Proof.
  revert s. induction n as [|n IH]; intros [|c s] H; cbn in *; try lia.
  - eauto.
  - apply IH. lia.
Qed.

Lemma drop_ge n s : (String.length s <= n)%nat -> drop n s = EmptyString.
Proof.
  revert s. induction n as [|n IH]; intros [|c s] H; cbn in *; auto; try lia.
  apply IH. lia.
Qed.

Lemma length_substring n m s :
  (n + m <= String.length s)%nat -> String.length (substring n m s) = m.
Proof.
  revert m s. induction n as [|n IH]; intros m s H.
  - revert s H. induction m as [|m IHm]; intros [|c s] H; cbn in *; auto; try lia.
    f_equal. apply IHm. lia.
  - destruct s as [|c s]; cbn in *.
    + destruct m; [reflexivity | lia].
    + apply IH. lia.
Qed.

Lemma slice_len s lo hi v : slice s lo hi = Some v -> len v = hi - lo.
Proof.
  unfold slice. destruct (_ && _) eqn:E; [|discriminate].
  intros [= <-]. unfold len in *. rewrite length_substring; lia.
Qed.

Lemma slice_ok s lo hi :
  0 <= lo <= hi -> hi <= len s -> exists v, slice s lo hi = Some v.
Proof.
  intros H1 H2. unfold slice.
  replace ((0 <=? lo) && (lo <=? hi) && (hi <=? len s)) with true by lia.
  eauto.
Qed.

(* ================================================================== *)
(** ** Decoding one rune *)

Lemma lor_ge_l a b : 0 <= a -> 0 <= b -> a <= Z.lor a b.
Proof.
  intros Ha Hb. pose proof (Z.sub_lor_l_same_l b a) as H.
  assert (0 <= Z.land b (Z.lnot a)) by (apply Z.land_nonneg; auto).
  lia.
Qed.

Lemma lor_ge_r a b : 0 <= a -> 0 <= b -> b <= Z.lor a b.
Proof. intros. rewrite Z.lor_comm. apply lor_ge_l; auto. Qed.

Lemma land_low_mod a k : 0 <= k -> Z.land a (Z.ones k) = a mod 2 ^ k.
Proof. intros. apply Z.land_ones; auto. Qed.

Lemma first_cases b :
  0 <= b < 256 ->
  (b < 128 /\ utf8.first b = utf8.as_)
  \/ (128 <= b /\ utf8.first b = utf8.xx)
  \/ (194 <= b < 224 /\ utf8.first b = utf8.s1)
  \/ (b = 224 /\ utf8.first b = utf8.s2)
  \/ (225 <= b < 240 /\ b <> 237 /\ utf8.first b = utf8.s3)
  \/ (b = 237 /\ utf8.first b = utf8.s4)
  \/ (b = 240 /\ utf8.first b = utf8.s5)
  \/ (241 <= b < 244 /\ utf8.first b = utf8.s6)
  \/ (b = 244 /\ utf8.first b = utf8.s7).
Proof.
  intros Hb. unfold utf8.first.
  repeat match goal with
         | |- context [if ?c then _ else _] => destruct c eqn:?
         end; lia.
Qed.

Ltac first_is x :=
  let v1 := eval vm_compute in (utf8.as_ <=? x) in
  change (utf8.as_ <=? x) with v1;
  let v2 := eval vm_compute in (Z.land x 7) in
  change (Z.land x 7) with v2;
  let v3 := eval vm_compute in (utf8.acceptRanges (Z.shiftr x 4)) in
  change (utf8.acceptRanges (Z.shiftr x 4)) with v3;
  cbv beta iota; cbn [fst snd].

Ltac split_ifs :=
  repeat match goal with
         | |- context [if ?c then _ else _] => destruct c eqn:?
         | |- context [match ?t with EmptyString => _ | String _ _ => _ end] =>
             destruct t
         end.

Lemma lor_bounds a b : 0 <= a -> 0 <= b -> a <= Z.lor a b /\ b <= Z.lor a b.
Proof. intros. split; [apply lor_ge_l | apply lor_ge_r]; auto. Qed.

Lemma land_maskx a : Z.land a utf8.maskx = a mod 64.
Proof. change utf8.maskx with (Z.ones 6). apply Z.land_ones. lia. Qed.

Ltac decode_leaf :=
  repeat rewrite land_maskx;
  repeat rewrite len_String in *;
  repeat match goal with
         | |- context [len ?t] =>
             pose proof (len_nonneg t);
             let x := fresh "n" in set (x := len t) in *; clearbody x
         | H : context [len ?t] |- _ =>
             pose proof (len_nonneg t);
             let x := fresh "n" in set (x := len t) in *; clearbody x
         end;
  repeat match goal with
         | |- context [byte_val ?c] =>
             pose proof (byte_val_range c);
             let x := fresh "b" in set (x := byte_val c) in *; clearbody x
         end;
  repeat rewrite Z.shiftl_mul_pow2 by lia;
  change (2 ^ 6) with 64; change (2 ^ 12) with 4096;
  change (2 ^ 18) with 262144;
  repeat match goal with
         | |- context [Z.lor ?a ?b] =>
             let H := fresh in
             assert (H : 0 <= a /\ 0 <= b -> a <= Z.lor a b /\ b <= Z.lor a b)
               by (intros [? ?]; apply lor_bounds; auto);
             let x := fresh "o" in set (x := Z.lor a b) in *; clearbody x
         | _ : context [Z.lor ?a ?b] |- _ =>
             let H := fresh in
             assert (H : 0 <= a /\ 0 <= b -> a <= Z.lor a b /\ b <= Z.lor a b)
               by (intros [? ?]; apply lor_bounds; auto);
             let x := fresh "o" in set (x := Z.lor a b) in *; clearbody x
         end;
  repeat split; try (Z.div_mod_to_equations; lia).

Ltac all_cases :=
  split_ifs; try (repeat split; lia);
  try decode_leaf.

(** What [DecodeRuneInString] guarantees on a string that is not empty:
    a width between one and four that stays inside the string, a rune that
    is not negative, and a rune below [RuneSelf] only for a single byte
    that is the rune itself. *)
Lemma decode_String c t :
  let '(r, w) := utf8.DecodeRuneInString (String c t) in
  1 <= w <= len (String c t) /\ w <= 4 /\ 0 <= r /\
  (r < 128 -> r = byte_val c /\ w = 1) /\
  (byte_val c < 128 -> r = byte_val c /\ w = 1).
Proof.
  clear Letter Digit Sprintf.
  pose proof (byte_val_range c) as Hc.
  unfold utf8.DecodeRuneInString.
  set (s0 := byte_val c) in *.
  assert (Hm31 : Z.land s0 utf8.mask2 = s0 mod 32)
    by (change utf8.mask2 with (Z.ones 5); apply Z.land_ones; lia).
  assert (Hm15 : Z.land s0 utf8.mask3 = s0 mod 16)
    by (change utf8.mask3 with (Z.ones 4); apply Z.land_ones; lia).
  assert (Hm7 : Z.land s0 utf8.mask4 = s0 mod 8)
    by (change utf8.mask4 with (Z.ones 3); apply Z.land_ones; lia).
  pose proof (len_nonneg t) as Ht.
  rewrite len_String. clearbody s0.
  unfold utf8.locb, utf8.hicb, utf8.RuneError.
  destruct (first_cases s0 Hc)
    as [[H E]|[[H E]|[[H E]|[[H E]|[[H [H' E]]|[[H E]|[[H E]|[[H E]|[H E]]]]]]]]];
    rewrite E;
    match goal with |- context [utf8.as_ <=? ?x] => first_is x end.
  1: { change (Z.shiftr (int32 (Z.shiftl utf8.as_ 31)) 31) with 0.
       change (Z.lnot 0) with (-1).
       rewrite Z.land_m1_r, Z.land_0_r, Z.lor_0_r.
       repeat split; lia. }
  1: { change (Z.shiftr (int32 (Z.shiftl utf8.xx 31)) 31) with (-1).
       change (Z.lnot (-1)) with 0. rewrite Z.land_0_r. cbn.
       repeat split; lia. }
  all: rewrite ?Hm31, ?Hm15, ?Hm7; all_cases.
Qed.

(* ================================================================== *)
(** ** The rune at a position *)

Lemma rune_at_facts s p :
  0 <= p <= len s ->
  (p = len s /\ rune_at s p = (eof, 0))
  \/ (p < len s /\ 1 <= snd (rune_at s p) <= 4 /\
      p + snd (rune_at s p) <= len s /\ 0 <= fst (rune_at s p) /\
      (fst (rune_at s p) < 128 ->
       snd (rune_at s p) = 1 /\ index s p = Some (fst (rune_at s p)))).
Proof.
  intros Hp. unfold rune_at.
  destruct (len s <=? p) eqn:E.
  - left. split; [lia | reflexivity].
  - right. assert (Hlt : (Z.to_nat p < String.length s)%nat)
      by (unfold len in *; lia).
    destruct (drop_lt _ _ Hlt) as (c & t & Hd & Hg).
    rewrite Hd. pose proof (decode_String c t) as D.
    pose proof (f_equal String.length Hd) as HL. rewrite length_drop in HL.
    destruct (utf8.DecodeRuneInString (String c t)) as [r w]. cbn [fst snd].
    destruct D as (D1 & D2 & D3 & D4 & D5).
    unfold len in *. split; [lia|]. split; [lia|]. split; [lia|].
    split; [lia|]. intros Hr. destruct (D4 Hr) as [-> ->]. split; auto.
    unfold index. replace (p <? 0) with false by lia.
    rewrite Hg. reflexivity.
Qed.

Lemma rune_at_eof s p :
  0 <= p <= len s -> fst (rune_at s p) = eof -> p = len s /\ snd (rune_at s p) = 0.
Proof.
  intros Hp He. destruct (rune_at_facts s p Hp) as [[H1 H2]|(H1 & H2 & H3 & H4 & H5)].
  - rewrite H2. auto.
  - unfold eof in He. lia.
Qed.

Lemma rune_at_bounds s p :
  0 <= p <= len s ->
  0 <= snd (rune_at s p) <= 4 /\ p + snd (rune_at s p) <= len s /\
  (0 <= fst (rune_at s p) -> 1 <= snd (rune_at s p)).
Proof.
  intros Hp.
  destruct (rune_at_facts s p Hp) as [[H1 H2]|(H1 & H2 & H3 & H4 & H5)].
  - rewrite H2. cbn. unfold eof. lia.
  - lia.
Qed.


(* ================================================================== *)
(** ** Newlines and runes *)

Ltac bools :=
  repeat match goal with
         | H : (_ || _) = false |- _ => apply orb_false_elim in H; destruct H
         | H : (_ && _) = true |- _ => apply andb_prop in H; destruct H
         | H : (_ <? _) = false |- _ => apply Z.ltb_ge in H
         | H : (_ <? _) = true |- _ => apply Z.ltb_lt in H
         | H : (_ <=? _) = true |- _ => apply Z.leb_le in H
         | H : (_ <=? _) = false |- _ => apply Z.leb_gt in H
         | H : (_ =? _) = true |- _ => apply Z.eqb_eq in H
         | H : (_ =? _) = false |- _ => apply Z.eqb_neq in H
         end.

(** The bytes of an encoding after the first are continuation bytes. *)
Lemma decode_cont c t :
  let '(r, w) := utf8.DecodeRuneInString (String c t) in
  forall i b, (1 <= i)%nat -> Z.of_nat i < w ->
    String.get i (String c t) = Some b -> 128 <= byte_val b.
Proof.
  clear Letter Digit Sprintf.
  pose proof (byte_val_range c) as Hc.
  unfold utf8.DecodeRuneInString.
  set (s0 := byte_val c) in *. clearbody s0.
  unfold utf8.locb, utf8.hicb, utf8.RuneError.
  destruct (first_cases s0 Hc)
    as [[H E]|[[H E]|[[H E]|[[H E]|[[H [H' E]]|[[H E]|[[H E]|[[H E]|[H E]]]]]]]]];
    rewrite E;
    match goal with |- context [utf8.as_ <=? ?x] => first_is x end;
    split_ifs; intros i b Hi Hw Hg;
    destruct i as [|[|[|[|i]]]]; try lia;
    cbn in Hg; injection Hg as <-; bools; lia.
Qed.

Lemma count_none n : forall s,
  (forall i b, (i < n)%nat -> String.get i s = Some b -> byte_val b <> 10) ->
  strings.Count_newline (substring 0 n s) = 0.
Proof.
  induction n as [|n IH]; intros [|c s] H; cbn; try reflexivity.
  rewrite IH.
  - pose proof (H 0%nat c ltac:(lia) eq_refl) as H0.
    destruct (byte_val c =? 10) eqn:E; bools; [contradiction|reflexivity].
  - intros i b Hi Hg. apply (H (S i) b); [lia|exact Hg].
Qed.

Lemma count_add n m : forall s,
  strings.Count_newline (substring 0 (n + m) s)
  = strings.Count_newline (substring 0 n s)
    + strings.Count_newline (substring 0 m (drop n s)).
Proof.
  induction n as [|n IH]; intros s.
  - cbn [Nat.add drop]. destruct s; cbn; lia.
  - destruct s as [|c s].
    + cbn. destruct m; reflexivity.
    + cbn [Nat.add substring drop strings.Count_newline]. rewrite IH. lia.
Qed.

(** The bytes of one rune hold a newline exactly when the rune is the
    newline. *)
Lemma decode_newlines c t :
  let '(r, w) := utf8.DecodeRuneInString (String c t) in
  strings.Count_newline (substring 0 (Z.to_nat w) (String c t))
  = (if r =? 10 then 1 else 0).
Proof.
  pose proof (decode_String c t) as D. pose proof (decode_cont c t) as C.
  pose proof (byte_val_range c) as Hc.
  destruct (utf8.DecodeRuneInString (String c t)) as [r w].
  destruct D as (D1 & D2 & D3 & D4 & D5).
  destruct (Z.ltb_spec (byte_val c) 128) as [Hlt|Hge].
  - destruct (D5 Hlt) as [-> ->]. change (Z.to_nat 1) with 1%nat.
    cbn [substring strings.Count_newline].
    replace (substring 0 0 t) with EmptyString by (destruct t; reflexivity).
    cbn. lia.
  - assert (Hr : 128 <= r) by (destruct (Z.ltb_spec r 128); [apply D4 in H; lia|lia]).
    replace (r =? 10) with false by lia.
    apply count_none. intros i b Hi Hg.
    destruct i as [|i].
    + cbn in Hg. injection Hg as <-. lia.
    + pose proof (C (S i) b ltac:(lia) ltac:(lia) Hg). lia.
Qed.

(** The line after the rune at [p] is the line at [p], and one more when
    the rune is a newline. *)
Lemma line_at_step s p :
  0 <= p <= len s ->
  line_at s (p + snd (rune_at s p))
  = line_at s p + (if fst (rune_at s p) =? 10 then 1 else 0).
Proof.
  intros Hp. unfold line_at, rune_at.
  destruct (len s <=? p) eqn:E.
  - cbn [fst snd]. rewrite Z.add_0_r. cbn. lia.
  - assert (Hlt : (Z.to_nat p < String.length s)%nat)
      by (unfold len in *; lia).
    destruct (drop_lt _ _ Hlt) as (c & t & Hd & Hg).
    rewrite Hd. pose proof (decode_String c t) as D.
    pose proof (decode_newlines c t) as N.
    destruct (utf8.DecodeRuneInString (String c t)) as [r w]. cbn [fst snd].
    destruct D as (D1 & _).
    replace (Z.to_nat (p + w)) with (Z.to_nat p + Z.to_nat w)%nat by lia.
    rewrite count_add, Hd, N. lia.
Qed.

(** A byte below [RuneSelf] is a rune of its own. *)
Lemma byte_rune s p b :
  0 <= p -> index s p = Some b -> b < 128 -> rune_at s p = (b, 1).
Proof.
  intros Hp Hi Hb. unfold index in Hi.
  replace (p <? 0) with false in Hi by lia.
  destruct (String.get (Z.to_nat p) s) as [c|] eqn:G; [|discriminate].
  cbn in Hi. injection Hi as <-.
  assert (Hlt : (Z.to_nat p < String.length s)%nat).
  { destruct (Nat.ltb_spec (Z.to_nat p) (String.length s)) as [H|H]; [exact H|].
    pose proof (drop_ge _ _ H) as Hd.
    pose proof (get_drop (Z.to_nat p) 0 s) as Hg. rewrite Hd, Nat.add_0_r, G in Hg.
    discriminate. }
  destruct (drop_lt _ _ Hlt) as (c' & t & Hd & Hg). rewrite G in Hg.
  injection Hg as <-.
  unfold rune_at. replace (len s <=? p) with false by (unfold len; lia).
  rewrite Hd. pose proof (decode_String c t) as D.
  destruct (utf8.DecodeRuneInString (String c t)) as [r w].
  destruct D as (_ & _ & _ & _ & D5). destruct (D5 Hb) as [-> ->]. reflexivity.
Qed.

(** The rune at [p] is a newline exactly when it is one byte wide and
    that byte is a newline. *)
Lemma newline_rune s p :
  0 <= p <= len s ->
  (fst (rune_at s p) =? 10)
  = (snd (rune_at s p) =? 1) && (match index s p with
                                 | Some b => b =? 10
                                 | None => false
                                 end).
Proof.
  intros Hp.
  destruct (rune_at_facts s p Hp) as [[H1 H2]|(H1 & H2 & H3 & H4 & H5)].
  - rewrite H2. reflexivity.
  - destruct (Z.eqb_spec (fst (rune_at s p)) 10) as [E|E].
    + destruct (H5 ltac:(lia)) as [W I]. rewrite W, I, E. reflexivity.
    + destruct (Z.eqb_spec (snd (rune_at s p)) 1) as [W|W]; [|reflexivity].
      destruct (index s p) as [b|] eqn:I; [|reflexivity].
      destruct (Z.eqb_spec b 10) as [B|B]; [|reflexivity].
      rewrite (byte_rune s p b ltac:(lia) I ltac:(lia)) in E. cbn in E. lia.
Qed.


(* ================================================================== *)
(** ** The bytes of a slice *)

Lemma index_0 c v : index (String c v) 0 = Some (byte_val c).
Proof. reflexivity. Qed.

Lemma index_S c v i : 0 <= i -> index (String c v) (i + 1) = index v i.
Proof.
  intros Hi. unfold index.
  replace (i + 1 <? 0) with false by lia. replace (i <? 0) with false by lia.
  replace (Z.to_nat (i + 1)) with (S (Z.to_nat i)) by lia. reflexivity.
Qed.

Lemma index_Some s i b : index s i = Some b -> 0 <= i < len s.
Proof.
  unfold index. destruct (Z.ltb_spec i 0) as [H|H]; [discriminate|].
  destruct (String.get (Z.to_nat i) s) as [c|] eqn:G; [|discriminate].
  intros _. split; [assumption|].
  destruct (Nat.ltb_spec (Z.to_nat i) (String.length s)) as [L|L].
  - unfold len. lia.
  - pose proof (drop_ge _ _ L) as Hd.
    pose proof (get_drop (Z.to_nat i) 0 s) as Hg.
    rewrite Hd, Nat.add_0_r, G in Hg. discriminate.
Qed.

Lemma index_lt s i : 0 <= i < len s -> exists b, index s i = Some b.
Proof.
  intros Hi. unfold index. replace (i <? 0) with false by lia.
  assert (Hlt : (Z.to_nat i < String.length s)%nat) by (unfold len in *; lia).
  destruct (drop_lt _ _ Hlt) as (c & t & _ & Hg). rewrite Hg. cbn. eauto.
Qed.

Lemma slice_index s p q v i :
  slice s p q = Some v -> 0 <= i < q - p -> index v i = index s (p + i).
Proof.
  unfold slice. intros H Hi.
  destruct ((0 <=? p) && (p <=? q) && (q <=? len s)) eqn:E; [|discriminate].
  injection H as <-. unfold index.
  replace (i <? 0) with false by lia. replace (p + i <? 0) with false by lia.
  rewrite substring_correct1 by lia.
  replace (Z.to_nat (p + i)) with (Z.to_nat i + Z.to_nat p)%nat by lia.
  reflexivity.
Qed.

Lemma all_bytes_index P : forall v,
  (forall i, 0 <= i < len v -> exists b, index v i = Some b /\ P b = true) ->
  all_bytes P v = true.
Proof.
  induction v as [|c v IH]; intros H; [reflexivity|].
  cbn [all_bytes]. pose proof (len_nonneg v) as Hv. rewrite len_String in H.
  apply andb_true_intro. split.
  - destruct (H 0 ltac:(lia)) as (b & Hb & Pb). rewrite index_0 in Hb.
    injection Hb as <-. exact Pb.
  - apply IH. intros i Hi. destruct (H (i + 1) ltac:(lia)) as (b & Hb & Pb).
    rewrite index_S in Hb by lia. eauto.
Qed.

Lemma all_bytes_spec P : forall v i b,
  all_bytes P v = true -> index v i = Some b -> P b = true.
Proof.
  induction v as [|c v IH]; intros i b H Hi.
  - apply index_Some in Hi. cbn in Hi. lia.
  - cbn [all_bytes] in H. apply andb_prop in H. destruct H as [H1 H2].
    pose proof (index_Some _ _ _ Hi) as Hr.
    destruct (Z.eq_dec i 0) as [->|Hn].
    + rewrite index_0 in Hi. injection Hi as <-. exact H1.
    + replace i with ((i - 1) + 1) in Hi by lia.
      rewrite index_S in Hi by lia. eapply IH; eassumption.
Qed.

Lemma slice_all_bytes valid s p q v :
  slice s p q = Some v -> bytes_in valid s p q ->
  all_bytes (strings.ContainsRune valid) v = true.
Proof.
  intros Hv Hb. apply all_bytes_index. intros i Hi.
  rewrite (slice_len _ _ _ _ Hv) in Hi.
  rewrite (slice_index _ _ _ _ _ Hv) by lia. apply Hb. lia.
Qed.

Lemma substring_S n : forall s m c,
  String.get n s = Some c ->
  substring n (S m) s = String c (substring (S n) m s).
Proof.
  induction n as [|n IH]; intros [|a s] m c H; try discriminate.
  - cbn in H. injection H as <-. reflexivity.
  - cbn in H. cbn [substring]. apply IH. exact H.
Qed.

Lemma substring_0_0 n : forall s, substring n 0 s = EmptyString.
Proof. induction n as [|n IH]; intros [|a s]; cbn; auto. Qed.

Lemma substring_drop n : forall s m, substring 0 m (drop n s) = substring n m s.
Proof.
  induction n as [|n IH]; intros [|a s] m; cbn [drop substring]; auto.
  destruct m; reflexivity.
Qed.

Lemma slice_cons s p q v :
  slice s p q = Some v -> p < q ->
  exists c v', v = String c v' /\ index s p = Some (byte_val c) /\
               slice s (p + 1) q = Some v'.
Proof.
  unfold slice. intros H Hlt.
  destruct ((0 <=? p) && (p <=? q) && (q <=? len s)) eqn:E; [|discriminate].
  injection H as <-.
  assert (Hl : (Z.to_nat p < String.length s)%nat) by (unfold len in *; lia).
  destruct (drop_lt _ _ Hl) as (c & t & _ & Hg).
  exists c, (substring (S (Z.to_nat p)) (Z.to_nat (q - p) - 1) s).
  split; [|split].
  - replace (Z.to_nat (q - p)) with (S (Z.to_nat (q - p) - 1)) at 1 by lia.
    apply substring_S. exact Hg.
  - unfold index. replace (p <? 0) with false by lia. rewrite Hg. reflexivity.
  - replace ((0 <=? p + 1) && (p + 1 <=? q) && (q <=? len s)) with true by lia.
    replace (Z.to_nat (p + 1)) with (S (Z.to_nat p)) by lia.
    replace (Z.to_nat (q - (p + 1))) with (Z.to_nat (q - p) - 1)%nat by lia.
    reflexivity.
Qed.

Lemma slice_nil s p v : slice s p p = Some v -> v = EmptyString.
Proof.
  unfold slice. destruct (_ && _); [|discriminate]. intros H.
  injection H as <-. rewrite Z.sub_diag. apply substring_0_0.
Qed.

Lemma byte_ascii c b : byte_val c = b -> c = ascii_of_N (Z.to_N b).
Proof.
  unfold byte_val. intros <-. rewrite N2Z.id, ascii_N_embedding. reflexivity.
Qed.

(** A slice of one byte. *)
Lemma slice_single s p v b :
  slice s p (p + 1) = Some v -> index s p = Some b ->
  v = String (ascii_of_N (Z.to_N b)) EmptyString.
Proof.
  intros Hv Hb. destruct (slice_cons _ _ _ _ Hv ltac:(lia)) as (c & v' & -> & Hc & Hv').
  apply slice_nil in Hv'. subst v'. rewrite Hc in Hb. injection Hb as Hb.
  rewrite (byte_ascii _ _ Hb). reflexivity.
Qed.

(** The newlines of a slice are those between the lines of its ends. *)
Lemma slice_newlines s p q v :
  slice s p q = Some v ->
  strings.Count_newline v = line_at s q - line_at s p.
Proof.
  unfold slice. intros H.
  destruct ((0 <=? p) && (p <=? q) && (q <=? len s)) eqn:E; [|discriminate].
  injection H as <-. unfold line_at.
  replace (Z.to_nat q) with (Z.to_nat p + Z.to_nat (q - p))%nat by lia.
  rewrite count_add, substring_drop. lia.
Qed.


(* ================================================================== *)
(** ** An input followed by more text *)

Lemma strlen_app s r :
  String.length (s ++ r) = (String.length s + String.length r)%nat.
Proof. induction s as [|c s IH]; cbn; auto. Qed.

Lemma len_app s r : len (s ++ r) = len s + len r.
Proof. unfold len. rewrite strlen_app. lia. Qed.

Lemma drop_app n : forall s r,
  (n <= String.length s)%nat -> drop n (s ++ r) = (drop n s ++ r)%string.
Proof.
  induction n as [|n IH]; intros [|c s] r H; cbn in *; auto; try lia.
  apply IH. lia.
Qed.

Lemma get_app n : forall s r c,
  String.get n s = Some c -> String.get n (s ++ r) = Some c.
Proof.
  induction n as [|n IH]; intros [|c0 s] r c H; cbn in *; try discriminate; auto.
Qed.

Lemma substring_app n : forall m s r,
  (n + m <= String.length s)%nat ->
  substring n m (s ++ r) = substring n m s.
Proof.
  induction n as [|n IH]; intros m s r H.
  - revert s H. induction m as [|m IHm]; intros [|c s] H; cbn in *; auto; try lia.
    + destruct r; reflexivity.
    + f_equal. apply IHm. lia.
  - destruct s as [|c s]; cbn in *; [lia|]. apply IH. lia.
Qed.

Lemma index_app s r p b : index s p = Some b -> index (s ++ r) p = Some b.
Proof.
  unfold index. destruct (p <? 0); [discriminate|].
  destruct (String.get _ s) as [c|] eqn:G; [|discriminate].
  rewrite (get_app _ _ r _ G). auto.
Qed.

Lemma slice_app s r lo hi v :
  slice s lo hi = Some v -> slice (s ++ r) lo hi = Some v.
Proof.
  unfold slice. destruct (_ && _) eqn:E; [|discriminate].
  intros [= <-]. pose proof (len_nonneg r). rewrite len_app.
  replace ((0 <=? lo) && (lo <=? hi) && (hi <=? len s + len r)) with true by lia.
  rewrite substring_app; [reflexivity|]. unfold len in *. lia.
Qed.


Lemma ascii_first b : 0 <= b < 128 -> utf8.first b = utf8.as_.
Proof.
  intros H. unfold utf8.first. replace (b <? 128) with true by lia. reflexivity.
Qed.

(** The bytes after a byte below [RuneSelf] have no part in the rune
    decoded before it. *)
Lemma decode_app t r :
  (exists k c, String.get k t = Some c /\ byte_val c < 128) ->
  utf8.DecodeRuneInString (t ++ r) = utf8.DecodeRuneInString t.
Proof.
  clear Letter Digit Sprintf.
  intros (k & c & G & Hc).
  destruct t as [|c0 t0]; [discriminate|].
  cbn [append]. unfold utf8.DecodeRuneInString. rewrite !len_String.
  pose proof (byte_val_range c0) as H0.
  pose proof (len_nonneg t0) as L0. pose proof (len_nonneg (t0 ++ r)) as L0'.
  destruct (first_cases _ H0)
    as [[H E]|[[H E]|[[H E]|[[H E]|[[H [H' E]]|[[H E]|[[H E]|[[H E]|[H E]]]]]]]]];
    rewrite E;
    match goal with |- context [utf8.as_ <=? ?x] => first_is x end;
    try reflexivity.
  all: destruct k as [|k]; [cbn in G; injection G as <-; lia|]; cbn in G.
  all: destruct t0 as [|c1 t1]; [discriminate|].
  all: cbn [append]; rewrite !len_String.
  all: pose proof (len_nonneg t1) as L1; pose proof (len_nonneg (t1 ++ r)) as L1'.
  all: unfold utf8.locb, utf8.hicb.
  all: pose proof (byte_val_range c1) as H1.
  all: destruct (Z_lt_le_dec (byte_val c1) 128) as [A1|A1];
    [repeat match goal with
            | |- context [if ?b then _ else _] => destruct b eqn:?
            end; try reflexivity; bools; lia|].
  all: destruct k as [|k]; [cbn in G; injection G as <-; lia|]; cbn in G.
  all: destruct t1 as [|c2 t2]; [discriminate|].
  all: cbn [append]; rewrite !len_String.
  all: pose proof (len_nonneg t2) as L2; pose proof (len_nonneg (t2 ++ r)) as L2'.
  all: pose proof (byte_val_range c2) as H2.
  all: destruct (Z_lt_le_dec (byte_val c2) 128) as [A2|A2];
    [repeat match goal with
            | |- context [if ?b then _ else _] => destruct b eqn:?
            end; try reflexivity; bools; lia|].
  all: destruct k as [|k]; [cbn in G; injection G as <-; lia|]; cbn in G.
  all: destruct t2 as [|c3 t3]; [discriminate|].
  all: cbn [append]; rewrite !len_String.
  all: pose proof (len_nonneg t3) as L3; pose proof (len_nonneg (t3 ++ r)) as L3'.
  all: repeat match goal with
              | |- context [if ?b then _ else _] => destruct b eqn:?
              end; try reflexivity; bools; lia.
Qed.

Lemma rune_at_app s r p k b :
  0 <= p <= k -> index s k = Some b -> b < 128 ->
  rune_at (s ++ r) p = rune_at s p.
Proof.
  clear Letter Digit Sprintf.
  intros Hp I Hb. pose proof (index_Some _ _ _ I) as Hk.
  unfold rune_at. rewrite len_app. pose proof (len_nonneg r).
  replace (len s + len r <=? p) with false by lia.
  replace (len s <=? p) with false by lia.
  rewrite drop_app by (unfold len in *; lia).
  apply decode_app.
  unfold index in I. destruct (k <? 0); [discriminate|].
  destruct (String.get (Z.to_nat k) s) as [c|] eqn:G; [|discriminate].
  injection I as <-.
  exists (Z.to_nat k - Z.to_nat p)%nat, c. split; [|assumption].
  rewrite get_drop. rewrite <- G. f_equal. lia.
Qed.

Lemma reads_same_ascii s r B b :
  0 < B -> index s (B - 1) = Some b -> b < 128 -> reads_same s r B.
Proof.
  clear Letter Digit Sprintf.
  intros HB I Hb. pose proof (index_Some _ _ _ I) as Hk.
  split; [lia|]. intros p Hp. apply (rune_at_app s r p (B - 1) b); auto. lia.
Qed.


Lemma next_extend rest B l r l1 :
  inb l -> reads_same (input l) rest B -> pos l < B ->
  next l = Ok r l1 -> next (extend rest l) = Ok r (extend rest l1).
Proof.
  intros Hb (HB & HR) Hp. unfold inb in Hb.
  specialize (HR (pos l) ltac:(lia)).
  unfold rune_at in HR. rewrite len_app in HR.
  pose proof (len_nonneg rest) as Hr.
  unfold next, slice_from. cbn [input pos extend]. rewrite len_app.
  replace (len (input l) + len rest <=? pos l) with false in * by lia.
  replace (len (input l) <=? pos l) with false in * by lia.
  replace ((0 <=? pos l) && (pos l <=? len (input l) + len rest))
    with true by lia.
  replace ((0 <=? pos l) && (pos l <=? len (input l))) with true by lia.
  rewrite HR. clear HR.
  destruct (utf8.DecodeRuneInString (drop (Z.to_nat (pos l)) (input l)))
    as [r0 w].
  destruct (r0 =? 10); intros E; injection E as <- <-; reflexivity.
Qed.

Lemma backup_extend rest l a l1 :
  backup l = Ok a l1 -> backup (extend rest l) = Ok a (extend rest l1).
Proof.
  unfold backup. cbn. destruct (width l =? 1).
  - destruct (index (input l) (pos l - width l)) as [b|] eqn:I; [|discriminate].
    rewrite (index_app _ rest _ _ I).
    intros E; injection E as <- <-. destruct (b =? 10); reflexivity.
  - intros E; injection E as <- <-. reflexivity.
Qed.

Lemma emit_extend rest t l a l1 :
  emit t l = Ok a l1 -> emit t (extend rest l) = Ok a (extend rest l1).
Proof.
  unfold emit. cbn [input start pos extend].
  destruct (slice (input l) (start l) (pos l)) as [v|] eqn:V; [|discriminate].
  rewrite (slice_app _ rest _ _ _ V). unfold bind, send. cbn.
  destruct (closed (items l)); [discriminate|].
  intros E; injection E as <- <-. reflexivity.
Qed.

Lemma emit_moves_nothing t l a l1 :
  emit t l = Ok a l1 -> input l1 = input l /\ pos l1 = pos l.
Proof.
  unfold emit.
  destruct (slice (input l) (start l) (pos l)) as [v|]; [|discriminate].
  unfold bind, send. destruct (closed (items l)); [discriminate|].
  intros E; injection E as <- <-. split; reflexivity.
Qed.

(* ================================================================== *)
(** ** Reasoning about the methods *)

Lemma post_ret {A} (a : A) l (Q : A -> lexer -> Prop) : Q a l -> post (ret a) l Q.
Proof. auto. Qed.

Lemma post_bind {A B} (m : M A) (k : A -> M B) l (Q : B -> lexer -> Prop) :
  post m l (fun a l1 => post (k a) l1 Q) -> post (bind m k) l Q.
Proof. unfold post, bind. destruct (m l); auto. Qed.

Lemma post_bind_inv {A B} (m : M A) (k : A -> M B) l (Q : B -> lexer -> Prop) :
  post (bind m k) l Q -> post m l (fun a l1 => post (k a) l1 Q).
Proof. unfold post, bind. destruct (m l); auto. Qed.

Lemma post_mono {A} (m : M A) l (Q Q' : A -> lexer -> Prop) :
  post m l Q -> (forall a l', Q a l' -> Q' a l') -> post m l Q'.
Proof. unfold post. destruct (m l); auto. Qed.

Lemma post_and {A} (m : M A) l (Q Q' : A -> lexer -> Prop) :
  post m l Q -> post m l Q' -> post m l (fun a l' => Q a l' /\ Q' a l').
Proof. unfold post. destruct (m l); auto. Qed.

Lemma post_Ok {A} (m : M A) l (Q : A -> lexer -> Prop) :
  post m l Q <-> exists a l', m l = Ok a l' /\ Q a l'.
Proof.
  unfold post. split.
  - destruct (m l); try tauto. eauto.
  - intros (a & l' & -> & H). auto.
Qed.

Lemma steady_refl l : steady l l.
Proof. unfold steady. auto. Qed.

Lemma steady_trans l1 l2 l3 : steady l1 l2 -> steady l2 l3 -> steady l1 l3.
Proof. unfold steady. intuition congruence. Qed.

Ltac mstep H :=
  apply post_bind; eapply post_mono; [eapply H | cbv beta].

Lemma next_spec l :
  inb l ->
  post next l (fun r l' =>
    steady l l' /\ r = fst (rune_at (input l) (pos l)) /\
    pos l' = pos l + snd (rune_at (input l) (pos l)) /\
    width l' = snd (rune_at (input l) (pos l))).
Proof.
  intros Hb. unfold inb in Hb. unfold post, next, rune_at, slice_from.
  destruct (len (input l) <=? pos l) eqn:E.
  - cbn. unfold steady. cbn. repeat split; lia.
  - replace ((0 <=? pos l) && (pos l <=? len (input l))) with true by lia.
    destruct (utf8.DecodeRuneInString _) as [r w].
    destruct (r =? 10); cbn; unfold steady; cbn; auto 10.
Qed.

Lemma backup_spec l :
  (width l = 1 -> 1 <= pos l <= len (input l)) ->
  post backup l (fun _ l' => steady l l' /\ pos l' = pos l - width l).
Proof.
  intros Hw. unfold post, backup. cbn.
  destruct (width l =? 1) eqn:E.
  - assert (width l = 1) as W by lia. specialize (Hw W).
    unfold index. replace (pos l - width l <? 0) with false by lia.
    destruct (String.get _ _) eqn:G.
    + cbn. destruct (_ =? 10); cbn; unfold steady; cbn; auto 10.
    + exfalso.
      assert (Hlt : (Z.to_nat (pos l - width l) < String.length (input l))%nat)
        by (unfold len in *; lia).
      destruct (drop_lt _ _ Hlt) as (c & t & _ & Hg). congruence.
  - unfold steady; cbn; auto 10.
Qed.

Lemma peek_spec l :
  inb l ->
  post peek l (fun r l' =>
    steady l l' /\ r = fst (rune_at (input l) (pos l)) /\ pos l' = pos l).
Proof.
  intros Hb. unfold peek.
  mstep next_spec; auto. unfold inb in Hb. intros r l1 (S1 & Hr & Hp & Hw).
  pose proof (rune_at_bounds _ _ Hb) as F.
  mstep backup_spec.
  - destruct S1 as (_ & Hi & _). rewrite Hi. lia.
  - intros _ l2 (S2 & Hp2). apply post_ret.
    split; [eapply steady_trans; eauto|]. split; auto. lia.
Qed.

Lemma accept_spec valid l :
  inb l ->
  post (accept valid) l (fun b l' =>
    steady l l' /\
    b = strings.ContainsRune valid (fst (rune_at (input l) (pos l))) /\
    pos l' = (if b then pos l + snd (rune_at (input l) (pos l)) else pos l)).
Proof.
  intros Hb. unfold accept.
  mstep next_spec; auto. unfold inb in Hb. intros r l1 (S1 & Hr & Hp & Hw).
  pose proof (rune_at_bounds _ _ Hb) as F. subst r.
  destruct (strings.ContainsRune valid _) eqn:C.
  - apply post_ret. auto.
  - mstep backup_spec.
    + destruct S1 as (_ & Hi & _). rewrite Hi. lia.
    + intros _ l2 (S2 & Hp2). apply post_ret.
      split; [eapply steady_trans; eauto|]. split; auto. lia.
Qed.

Lemma ContainsRune_ascii valid r :
  ascii_set valid = true -> strings.ContainsRune valid r = true -> 0 <= r < 128.
Proof.
  unfold ascii_set, strings.ContainsRune. intros Ha Hc.
  apply andb_true_iff in Hc. destruct Hc as [H0 Hc].
  apply existsb_exists in Hc. destruct Hc as (x & Hin & Hx).
  rewrite forallb_forall in Ha. specialize (Ha _ Hin). lia.
Qed.

Lemma run_of_le valid s p q :
  (forall r, valid r = true -> 0 <= r) ->
  run_of valid s p q -> 0 <= p <= len s -> p <= q <= len s.
Proof.
  intros Hv. induction 1 as [p|p q Hc Hr IH]; intros Hp; [lia|].
  pose proof (rune_at_bounds s p Hp) as B.
  pose proof (Hv _ Hc). lia.
Qed.

Lemma run_of_bytes valid s p q :
  ascii_set valid = true ->
  run_of (strings.ContainsRune valid) s p q -> 0 <= p <= len s ->
  bytes_in valid s p q.
Proof.
  intros Ha. induction 1 as [p|p q Hc Hr IH]; intros Hp i Hi; [lia|].
  pose proof (ContainsRune_ascii _ _ Ha Hc) as R.
  destruct (rune_at_facts s p Hp) as [[H1 H2]|(H1 & H2 & H3 & H4 & H5)].
  - rewrite H2 in R. cbn in R. unfold eof in R. lia.
  - destruct H5 as [W I]; [lia|]. rewrite W in *.
    destruct (Z.eq_dec i p) as [->|Hne].
    + eauto.
    + apply IH; lia.
Qed.

Lemma run_of_unique valid s p q q' :
  run_of valid s p q -> valid (fst (rune_at s q)) = false ->
  run_of valid s p q' -> valid (fst (rune_at s q')) = false -> q = q'.
Proof.
  induction 1 as [p|p q Hc Hr IH]; intros Hq R' Hq'.
  - inversion R'; subst; auto. congruence.
  - inversion R'; subst; [congruence|]. apply IH; auto.
Qed.

Lemma run_of_trans valid s p q r :
  run_of valid s p q -> run_of valid s q r -> run_of valid s p r.
Proof. induction 1; intros; auto. econstructor; eauto. Qed.

Lemma bytes_in_trans valid s p q r :
  bytes_in valid s p q -> bytes_in valid s q r -> bytes_in valid s p r.
Proof.
  intros H1 H2 i Hi. destruct (Z_lt_le_dec i q); [apply H1 | apply H2]; lia.
Qed.

Lemma bytes_in_nil valid s p q : q <= p -> bytes_in valid s p q.
Proof. intros H i Hi. lia. Qed.

Lemma acceptRun_loop_spec valid n : forall l,
  inb l ->
  (Z.to_nat (len (input l) - pos l) < n)%nat ->
  post (acceptRun_loop n valid) l (fun _ l' =>
    steady l l' /\
    exists q, run_of (strings.ContainsRune valid) (input l) (pos l) q /\
      pos l <= q <= len (input l) /\
      strings.ContainsRune valid (fst (rune_at (input l) q)) = false /\
      pos l' = q + snd (rune_at (input l) q) /\
      width l' = snd (rune_at (input l) q)).
Proof.
  induction n as [|n IH]; intros l Hb Hn; [lia|].
  cbn [acceptRun_loop].
  mstep next_spec; auto. unfold inb in Hb.
  intros r l1 (S1 & Hr & Hp & Hw).
  pose proof (rune_at_bounds _ _ Hb) as B. subst r.
  destruct (strings.ContainsRune valid _) eqn:C.
  - assert (0 <= fst (rune_at (input l) (pos l)))
      by (unfold strings.ContainsRune in C; lia).
    destruct S1 as (Sn & Si & Ss & Sit & Ssl).
    eapply post_mono.
    + apply IH; unfold inb; rewrite Si; lia.
    + cbv beta. intros _ l2 (S2 & q & Hq1 & Hq2 & Hq3 & Hq4 & Hq5).
      rewrite Si, Hp in *.
      split. { eapply steady_trans; [|exact S2]. unfold steady; auto. }
      exists q. split; [econstructor; eauto|]. repeat split; auto; lia.
  - apply post_ret. split; auto.
    exists (pos l). repeat split; auto; try lia. constructor.
Qed.

Lemma acceptRun_spec valid l :
  inb l ->
  post (acceptRun valid) l (fun _ l' =>
    steady l l' /\
    run_of (strings.ContainsRune valid) (input l) (pos l) (pos l') /\
    pos l <= pos l' <= len (input l) /\
    strings.ContainsRune valid (fst (rune_at (input l) (pos l'))) = false).
Proof.
  intros Hb. unfold acceptRun.
  mstep acceptRun_loop_spec; auto.
  { unfold inb, len in *. lia. }
  intros _ l1 (S1 & q & Hq1 & Hq2 & Hq3 & Hq4 & Hq5).
  assert (0 <= q <= len (input l)) as Hq by (unfold inb in Hb; lia).
  pose proof (rune_at_bounds _ _ Hq) as B.
  eapply post_mono.
  - apply backup_spec. destruct S1 as (_ & Hi & _). rewrite Hi. lia.
  - cbv beta. intros _ l2 (S2 & Hp2).
    replace (pos l2) with q by lia.
    split; [eapply steady_trans; eauto|]. auto.
Qed.

Lemma skipWhitespace_spec l :
  inb l ->
  post skipWhitespace l (fun _ l' =>
    kept l l' /\ start l' = pos l' /\
    pos l <= pos l' <= len (input l) /\
    bytes_in spaceChars (input l) (pos l) (pos l') /\
    strings.ContainsRune spaceChars (fst (rune_at (input l) (pos l'))) = false).
Proof.
  intros Hb. unfold skipWhitespace.
  mstep acceptRun_spec; auto.
  intros _ l1 ((Sn & Si & Ss & Sit & Ssl) & R & Hp & C).
  unfold post. cbn. unfold kept. cbn. repeat split; auto; try lia.
  apply run_of_bytes; auto.
Qed.

(* ================================================================== *)
(** ** The sub-scanners *)

Ltac fields :=
  repeat match goal with
         | H : steady _ _ |- _ => destruct H as (? & ? & ? & ? & ?)
         | H : adv _ _ |- _ => destruct H as (? & ?)
         | H : kept _ _ |- _ => destruct H as (? & ? & ? & ?)
         | H : _ /\ _ |- _ => destruct H
         end;
  repeat match goal with
         | H : ?a = ?a |- _ => clear H
         | H : input ?x = input ?y |- _ => progress (rewrite H in * )
         end.

Ltac fin := unfold inb, adv, steady, kept in *; fields;
  repeat split; try congruence; try lia.

Ltac set_eq v :=
  unfold strings.ContainsRune;
  let w := eval vm_compute in (runes_of v) in
  change (runes_of v) with w; cbn [existsb]; lia.

Lemma in_sign r : strings.ContainsRune "+-" r = ((r =? 43) || (r =? 45)).
Proof. set_eq "+-". Qed.

Lemma in_zero r : strings.ContainsRune "0" r = (r =? 48).
Proof. set_eq "0". Qed.

Lemma in_dot r : strings.ContainsRune "." r = (r =? 46).
Proof. set_eq ".". Qed.

Lemma in_semicolon r : strings.ContainsRune ";" r = (r =? 59).
Proof. set_eq ";". Qed.

Lemma in_decimal r :
  strings.ContainsRune "0123456789_" r
  = (((48 <=? r) && (r <=? 57)) || (r =? 95)).
Proof. set_eq "0123456789_". Qed.

Lemma in_spaceChars r :
  strings.ContainsRune spaceChars r
  = ((r =? 32) || (r =? 9) || (r =? 13) || (r =? 10)).
Proof. set_eq spaceChars. Qed.

Lemma isAlphaNumeric_ascii r : ascii_alnum r = true -> isAlphaNumeric r = true.
Proof.
  unfold ascii_alnum, isAlphaNumeric, unicode.IsLetter, unicode.IsDigit,
    unicode.latin1_letter, unicode.MaxLatin1.
  intros H.
  destruct ((0 <=? r) && (r <=? 255)) eqn:E1; destruct (r <=? 255) eqn:E2;
    destruct (r <? 0) eqn:E3; try lia;
    destruct (Letter r), (Digit r); lia.
Qed.

Lemma isAlpha_isAlphaNumeric r : isAlpha r = true -> isAlphaNumeric r = true.
Proof.
  unfold isAlpha, isAlphaNumeric. intros H.
  destruct (unicode.IsDigit Digit r); [apply orb_true_r|].
  rewrite orb_false_r. exact H.
Qed.

Lemma isAlphaNumeric_eof : isAlphaNumeric eof = false.
Proof. reflexivity. Qed.

Lemma in_alnum_set valid r :
  alnum_set valid = true -> strings.ContainsRune valid r = true ->
  isAlphaNumeric r = true.
Proof.
  unfold alnum_set, strings.ContainsRune. intros Ha Hc.
  apply andb_true_iff in Hc. destruct Hc as [H0 Hc].
  apply existsb_exists in Hc. destruct Hc as (x & Hin & Hx).
  rewrite forallb_forall in Ha. specialize (Ha _ Hin).
  apply Z.eqb_eq in Hx. subst x. apply isAlphaNumeric_ascii. exact Ha.
Qed.

Lemma in_set_nonneg valid r : strings.ContainsRune valid r = true -> 0 <= r.
Proof. unfold strings.ContainsRune. lia. Qed.


Lemma subset_check a b :
  forallb (fun r => existsb (Z.eqb r) (runes_of b)) (runes_of a) = true ->
  subset a b.
Proof.
  unfold subset, strings.ContainsRune. intros H r Hr.
  apply andb_prop in Hr. destruct Hr as [H0 Hr].
  apply existsb_exists in Hr. destruct Hr as (x & Hx & E).
  apply Z.eqb_eq in E. subst x.
  rewrite forallb_forall in H. rewrite H0, (H r Hx). reflexivity.
Qed.


(** Below [RuneSelf] the letters, digits and underscore of
    [isAlphaNumeric] are those of [charsAndDigits]. *)
Lemma alnum_below_RuneSelf r :
  0 <= r < 128 -> isAlphaNumeric r = true ->
  strings.ContainsRune charsAndDigits r = true.
Proof.
  intros Hr H.
  assert (A : ascii_alnum r = true).
  { unfold isAlphaNumeric, unicode.IsLetter, unicode.IsDigit,
      unicode.latin1_letter, unicode.MaxLatin1, ascii_alnum in *.
    replace ((0 <=? r) && (r <=? 255)) with true in H by lia.
    replace (r <=? 255) with true in H by lia. lia. }
  assert (All : forallb (fun x => implb (ascii_alnum x)
                                    (strings.ContainsRune charsAndDigits x))
                  (map Z.of_nat (seq 0 128)) = true)
    by (vm_compute; reflexivity).
  rewrite forallb_forall in All.
  specialize (All r). rewrite A in All. apply All.
  replace r with (Z.of_nat (Z.to_nat r)) by lia.
  apply in_map. apply in_seq. lia.
Qed.


Lemma in_xX r : strings.ContainsRune "xX" r = ((r =? 120) || (r =? 88)).
Proof. set_eq "xX". Qed.

Lemma in_oO r : strings.ContainsRune "oO" r = ((r =? 111) || (r =? 79)).
Proof. set_eq "oO". Qed.

Lemma in_bB r : strings.ContainsRune "bB" r = ((r =? 98) || (r =? 66)).
Proof. set_eq "bB". Qed.


Lemma in_chars r :
  strings.ContainsRune chars r
  = (((65 <=? r) && (r <=? 90)) || ((97 <=? r) && (r <=? 122)) || (r =? 95)).
Proof. set_eq chars. Qed.

(** A rune of [chars] takes the branch of [lexValueExprList] that scans
    an identifier. *)
Lemma chars_isAlpha r :
  strings.ContainsRune chars r = true ->
  (r =? 42) = false /\ (r =? 39) = false /\
  ((r =? 43) || (r =? 45) || ((48 <=? r) && (r <=? 57))) = false /\
  isAlpha r = true.
Proof.
  rewrite in_chars. intros H.
  split; [lia|]. split; [lia|]. split; [lia|].
  unfold isAlpha, unicode.IsLetter, unicode.latin1_letter, unicode.MaxLatin1.
  destruct ((0 <=? r) && (r <=? 255)) eqn:E; [lia|].
  destruct (r <? 0) eqn:E'; lia.
Qed.

Opaque strings.ContainsRune rune_at isAlphaNumeric.

Lemma scanIdentifier_spec l :
  inb l ->
  post scanIdentifier l (fun b l' =>
    steady l l' /\
    ((in_set chars (rn (input l) (pos l)) = false /\ b = false /\ pos l' = pos l)
     \/ (in_set chars (rn (input l) (pos l)) = true /\
         exists q,
           run_of (in_set charsAndDigits) (input l)
                  (pos l + wd (input l) (pos l)) q /\
           in_set charsAndDigits (rn (input l) q) = false /\
           pos l + wd (input l) (pos l) <= q <= len (input l) /\
           ((isAlphaNumeric (rn (input l) q) = true /\ b = false /\
             pos l' = q + wd (input l) q)
            \/ (isAlphaNumeric (rn (input l) q) = false /\ b = true /\
                pos l' = q))))).
Proof.
  intros Hb. unfold scanIdentifier.
  pose proof (rune_at_bounds _ _ Hb) as B0.
  mstep accept_spec; auto. intros b l1 (S1 & Hb1 & Hp1).
  symmetry in Hb1. destruct b; cbn [negb].
  2: { apply post_ret. split; [assumption|]. left.
       split; [assumption|]. split; [reflexivity|assumption]. }
  assert (inb l1) by fin.
  mstep acceptRun_spec; auto. intros _ l2 (S2 & R2 & Hp2 & C2).
  assert (inb l2) by fin.
  mstep peek_spec; auto. intros r l3 (S3 & Hr3 & Hp3).
  assert (steady l l3) by (eapply steady_trans; eauto; eapply steady_trans; eauto).
  assert (input l1 = input l) as I1 by fin.
  assert (input l2 = input l) as I2 by fin.
  rewrite I1, I2, ?Hp1, ?Hp3 in *. subst r.
  destruct (isAlphaNumeric _) eqn:A.
  - assert (inb l3) by fin.
    mstep next_spec; auto. intros r4 l4 (S4 & Hr4 & Hp4 & Hw4).
    apply post_ret. split; [eapply steady_trans; eassumption|].
    right. split; [assumption|]. exists (pos l2).
    split; [assumption|]. split; [assumption|].
    split; [lia|]. left. split; [assumption|]. split; [reflexivity|].
    assert (input l3 = input l) as I3 by fin. rewrite I3, Hp3 in *. lia.
  - apply post_ret. split; [assumption|].
    right. split; [assumption|]. exists (pos l2).
    split; [assumption|]. split; [assumption|].
    split; [lia|]. right. split; [assumption|]. split; [reflexivity|assumption].
Qed.

Lemma next_full l :
  inb l ->
  post next l (fun r l' =>
    steady l l' /\ inb l' /\ input l' = input l /\
    r = rn (input l) (pos l) /\
    pos l' = pos l + wd (input l) (pos l) /\
    width l' = wd (input l) (pos l) /\
    0 <= wd (input l) (pos l) <= 4 /\
    pos l + wd (input l) (pos l) <= len (input l) /\
    (r = eof \/ (0 <= r /\ 1 <= wd (input l) (pos l)))).
Proof.
  intros Hb. eapply post_mono; [apply next_spec; assumption|].
  cbv beta. intros r l' (S1 & Hr & Hp & Hw).
  pose proof (rune_at_bounds _ _ Hb) as (B1 & B2 & B3).
  assert (input l' = input l) as I by (destruct S1 as (_ & I & _); exact I).
  split; [assumption|]. split; [unfold inb in *; rewrite I; lia|].
  split; [assumption|]. split; [assumption|]. split; [assumption|].
  split; [assumption|]. split; [lia|]. split; [lia|].
  destruct (rune_at_facts _ _ Hb) as [[H1 H2]|(H1 & H2 & H3 & H4 & H5)].
  - left. rewrite Hr, H2. reflexivity.
  - right. subst r. lia.
Qed.

Lemma scanString_loop_spec n : forall l,
  inb l ->
  (Z.to_nat (len (input l) - pos l) < n)%nat ->
  post (scanString_loop n) l (fun b l' =>
    steady l l' /\ pos l <= pos l' <= len (input l) /\
    ((b = true /\ string_body (input l) (pos l) (pos l'))
     \/ (b = false /\ forall q, ~ string_body (input l) (pos l) q))).
Proof.
  induction n as [|n IH]; intros l Hb Hn; [lia|].
  cbn [scanString_loop].
  mstep next_full; [assumption|].
  intros r l1 (S1 & B1 & I1 & Hr1 & Hp1 & Hw1 & W1 & L1 & E1).
  destruct (Z.eqb_spec r 92) as [R92|R92].
  { (* a backslash *)
    destruct E1 as [E1|[E1 E1']]; [unfold eof in E1; lia|].
    mstep next_full; [assumption|].
    intros r' l2 (S2 & B2 & I2 & Hr2 & Hp2 & Hw2 & W2 & L2 & E2).
    rewrite I1, Hp1 in *.
    destruct (Z.eqb_spec r' eof) as [Re|Re];
      [|destruct (Z.eqb_spec r' 10) as [Rn|Rn]]; cbn [negb andb].
    - apply post_ret. split; [eapply steady_trans; eassumption|].
      split; [unfold inb in *; lia|]. right. split; [reflexivity|].
      intros q Hq. inversion Hq; subst; unfold eof in *; congruence.
    - apply post_ret. split; [eapply steady_trans; eassumption|].
      split; [unfold inb in *; lia|]. right. split; [reflexivity|].
      intros q Hq. inversion Hq; subst; unfold eof in *; congruence.
    - eapply post_mono.
      + apply IH; [assumption|]. rewrite ?I2, ?I1. unfold inb in *. lia.
      + cbv beta. intros b l3 (S3 & P3 & D3). rewrite ?I2, ?I1, ?Hp2 in *.
        split; [eapply steady_trans; [eassumption|];
                eapply steady_trans; eassumption|].
        split; [unfold inb in *; lia|].
        destruct D3 as [[-> D3]|[-> D3]].
        * left. split; [reflexivity|]. eapply body_escape; try eassumption; congruence.
        * right. split; [reflexivity|]. intros q Hq.
          inversion Hq; subst; unfold eof in *; try congruence. eapply D3; eassumption. }
  destruct (Z.eqb_spec r eof) as [Re|Re];
    [|destruct (Z.eqb_spec r 10) as [Rn|Rn]]; cbn [orb].
  { apply post_ret. split; [assumption|]. split; [unfold inb in *; lia|].
    right. split; [reflexivity|]. intros q Hq. inversion Hq; subst; unfold eof in *; congruence. }
  { apply post_ret. split; [assumption|]. split; [unfold inb in *; lia|].
    right. split; [reflexivity|]. intros q Hq. inversion Hq; subst; unfold eof in *; congruence. }
  destruct E1 as [E1|[E1 E1']]; [congruence|].
  destruct (Z.eqb_spec r 39) as [R39|R39].
  { (* a quote *)
    mstep next_full; [assumption|].
    intros r' l2 (S2 & B2 & I2 & Hr2 & Hp2 & Hw2 & W2 & L2 & E2).
    rewrite I1, Hp1 in *.
    destruct (Z.eqb_spec r' 39) as [Rq|Rq]; cbn [negb].
    - eapply post_mono.
      + apply IH; [assumption|]. rewrite ?I2, ?I1. unfold inb in *. lia.
      + cbv beta. intros b l3 (S3 & P3 & D3). rewrite ?I2, ?I1, ?Hp2 in *.
        split; [eapply steady_trans; [eassumption|];
                eapply steady_trans; eassumption|].
        split; [unfold inb in *; lia|].
        destruct D3 as [[-> D3]|[-> D3]].
        * left. split; [reflexivity|]. eapply body_embedded; try eassumption; congruence.
        * right. split; [reflexivity|]. intros q Hq.
          inversion Hq; subst; unfold eof in *; try congruence. eapply D3; eassumption.
    - mstep backup_spec.
      { rewrite ?I2, ?I1. unfold inb in *. lia. }
      intros _ l3 (S3 & Hp3). apply post_ret.
      split; [eapply steady_trans; [eassumption|];
              eapply steady_trans; eassumption|].
      split; [unfold inb in *; lia|].
      left. split; [reflexivity|].
      replace (pos l3) with (pos l + wd (input l) (pos l)) by lia.
      apply body_close; congruence. }
  (* any other rune *)
  eapply post_mono.
  - apply IH; [assumption|]. rewrite I1. unfold inb in *. lia.
  - cbv beta. intros b l3 (S3 & P3 & D3). rewrite I1, Hp1 in *.
    split; [eapply steady_trans; eassumption|].
    split; [unfold inb in *; lia|].
    destruct D3 as [[-> D3]|[-> D3]].
    + left. split; [reflexivity|]. eapply body_plain; try eassumption; congruence.
    + right. split; [reflexivity|]. intros q Hq.
      inversion Hq; subst; unfold eof in *; try congruence. eapply D3; eassumption.
Qed.

Lemma scanString_spec l :
  inb l ->
  post scanString l (fun b l' =>
    steady l l' /\ pos l <= pos l' <= len (input l) /\
    (b = true -> pos l < pos l') /\
    ((rn (input l) (pos l) <> 39 /\ b = false /\ pos l' = pos l)
     \/ (rn (input l) (pos l) = 39 /\
         ((b = true /\
           string_body (input l) (pos l + wd (input l) (pos l)) (pos l'))
          \/ (b = false /\
              forall q,
                ~ string_body (input l) (pos l + wd (input l) (pos l)) q))))).
Proof.
  intros Hb. unfold scanString.
  mstep next_full; [assumption|].
  intros r l1 (S1 & B1 & I1 & Hr1 & Hp1 & Hw1 & W1 & L1 & E1).
  destruct (Z.eqb_spec r 39) as [R|R]; cbn [negb].
  - destruct E1 as [E1|[E1 E1']]; [unfold eof in E1; lia|].
    eapply post_mono.
    + apply scanString_loop_spec; [assumption|].
      rewrite I1. unfold inb, len in *. lia.
    + cbv beta. intros b l2 (S2 & P2 & D2). rewrite I1, Hp1 in *.
      split; [eapply steady_trans; eassumption|].
      split; [unfold inb in *; lia|]. split; [lia|].
      right. split; [congruence|]. exact D2.
  - mstep backup_spec.
    { rewrite I1. unfold inb in *. lia. }
    intros _ l2 (S2 & Hp2). apply post_ret.
    split; [eapply steady_trans; eassumption|].
    split; [unfold inb in *; lia|]. split; [discriminate|].
    left. split; [congruence|]. split; [reflexivity|lia].
Qed.

(* ================================================================== *)
(** ** Items in the input *)

Lemma tiled_snoc s t : forall toks a E,
  tiled s a toks E -> E <= item.pos t ->
  bytes_in spaceChars s E (item.pos t) -> placed s t ->
  tiled s a (toks ++ [t]) (item.pos t + len (item.val t)).
Proof.
  induction toks as [|x toks IH]; intros a E HT HE HB HP; cbn in *.
  - subst a. repeat split; try assumption; try lia; apply HP.
  - destruct HT as (H1 & H2 & H3 & H4).
    split; [assumption|]. split; [assumption|]. split; [assumption|].
    eapply IH; eassumption.
Qed.

Lemma emit_spec t l :
  0 <= start l <= pos l -> pos l <= len (input l) ->
  closed (items l) = false ->
  post (emit t) l (fun _ l' =>
    input l' = input l /\ name l' = name l /\ pos l' = pos l /\
    start l' = pos l /\ line l' = line l /\ startLine l' = line l /\
    exists v, slice (input l) (start l) (pos l) = Some v /\
      items l' = {| sent := sent (items l)
                            ++ [item.mk t (start l) v (startLine l)];
                    closed := false |}).
Proof.
  intros H1 H2 H3. destruct (slice_ok (input l) (start l) (pos l) H1 H2) as [v Hv].
  unfold post, emit. rewrite Hv. unfold bind, send. rewrite H3.
  cbn -[slice]. repeat split. exists v. split; reflexivity.
Qed.

Lemma Scanning_move l l' :
  Scanning l -> steady l l' -> start l <= pos l' <= len (input l) ->
  Scanning l'.
Proof.
  intros (C & F & P1 & P2 & E & T & HE & HB) (Sn & Si & Ss & Sit & Ssl) Hp.
  unfold Scanning. rewrite Si, Ss, Sit.
  split; [assumption|]. split; [assumption|]. split; [lia|]. split; [lia|].
  exists E. auto.
Qed.

Lemma Scanning_Inv l : Scanning l -> start l = pos l -> Inv l.
Proof.
  intros (C & F & P1 & P2 & E & T & HE & HB) Hs.
  unfold Inv, inb. rewrite <- Hs.
  split; [assumption|]. split; [assumption|]. split; [lia|].
  exists E. auto.
Qed.

Lemma skipWhitespace_Inv l :
  Inv l ->
  post skipWhitespace l (fun _ l' =>
    Scanning l' /\ start l' = pos l' /\ pos l <= pos l' /\
    input l' = input l /\ name l' = name l /\ inb l' /\
    in_set spaceChars (rn (input l) (pos l')) = false).
Proof.
  intros (C & F & Hb & E & T & HE & HB).
  eapply post_mono; [apply skipWhitespace_spec; assumption|].
  cbv beta. intros _ l' ((Kn & Ki & Kit & Ksl) & Hs & Hp & Hw & Hr).
  split.
  { unfold Scanning. rewrite Ki, Kit, Hs.
    split; [assumption|]. split; [assumption|].
    unfold inb in Hb. split; [lia|]. split; [lia|].
    exists E. split; [assumption|]. split; [lia|].
    eapply bytes_in_trans; eassumption. }
  split; [assumption|]. split; [lia|]. split; [assumption|].
  split; [assumption|]. split; [|assumption].
  unfold inb in *. rewrite Ki. lia.
Qed.

Lemma emit_Inv t l :
  Scanning l -> start l < pos l -> t <> itemError -> t <> itemEOF ->
  post (emit t) l (fun _ l' =>
    Inv l' /\ pos l' = pos l /\ input l' = input l /\ name l' = name l).
Proof.
  intros (C & F & P1 & P2 & E & T & HE & HB) Hlt Ht1 Ht2.
  eapply post_mono; [apply emit_spec; assumption|].
  cbv beta. intros _ l' (Hi & Hn & Hp & Hs & _ & _ & v & Hv & Hit).
  pose proof (slice_len _ _ _ _ Hv) as Hlen.
  split; [|auto].
  unfold Inv, inb. rewrite Hi, Hit, Hp. cbn [sent closed].
  split; [reflexivity|]. split.
  { apply Forall_app. split; [assumption|]. constructor; [|constructor].
    split; assumption. }
  split; [lia|]. exists (pos l).
  split; [|split; [lia|apply bytes_in_nil; lia]].
  replace (pos l) with
    (item.pos (item.mk t (start l) v (startLine l))
     + len (item.val (item.mk t (start l) v (startLine l))))
    by (cbn; lia).
  eapply tiled_snoc; try eassumption.
  unfold placed. cbn. split; [lia|]. rewrite Hlen.
  replace (start l + (pos l - start l)) with (pos l) by lia. assumption.
Qed.

Lemma emit_Final l :
  Scanning l -> start l < pos l ->
  post (emit itemEOF) l (fun _ l' =>
    Final l' /\ input l' = input l /\ name l' = name l).
Proof.
  intros (C & F & P1 & P2 & E & T & HE & HB) Hlt.
  eapply post_mono; [apply emit_spec; assumption|].
  cbv beta. intros _ l' (Hi & Hn & Hp & Hs & _ & _ & v & Hv & Hit).
  pose proof (slice_len _ _ _ _ Hv) as Hlen.
  split; [|auto].
  unfold Final. rewrite Hi, Hit. cbn [sent closed].
  split; [reflexivity|].
  exists (sent (items l)), (item.mk itemEOF (start l) v (startLine l)).
  split; [reflexivity|]. split; [assumption|].
  exists E. split; [assumption|]. left. split; [reflexivity|].
  exists (pos l). cbn. split; [assumption|]. split; [assumption|].
  split; [|lia]. unfold placed. cbn. split; [lia|]. rewrite Hlen.
  replace (start l + (pos l - start l)) with (pos l) by lia. assumption.
Qed.

Lemma errorf_Final format args l :
  Scanning l ->
  post (errorf format args) l (fun o l' =>
    o = None /\ Final l' /\ input l' = input l /\ name l' = name l).
Proof.
  intros (C & F & P1 & P2 & E & T & HE & HB).
  unfold post, errorf, bind, send. rewrite C. cbn.
  split; [reflexivity|]. split; [|auto].
  unfold Final. cbn.
  split; [reflexivity|].
  exists (sent (items l)),
    (item.mk itemError (start l) (Sprintf format args) (startLine l)).
  split; [reflexivity|]. split; [assumption|].
  exists E. split; [assumption|]. right.
  unfold error_item. cbn. repeat split. eauto.
Qed.

Lemma pending_spec l :
  Scanning l -> post pending l (fun _ l' => l' = l).
Proof.
  intros (C & F & P1 & P2 & _).
  destruct (slice_ok (input l) (start l) (pos l) P1 P2) as [v Hv].
  unfold post, pending. rewrite Hv. reflexivity.
Qed.

(* ================================================================== *)
(** ** Methods that move the cursor forward *)

Lemma adv_refl l : inb l -> adv l l.
Proof. intros H. split; [apply steady_refl|]. unfold inb in H. lia. Qed.

Lemma adv_trans l1 l2 l3 : adv l1 l2 -> adv l2 l3 -> adv l1 l3.
Proof.
  intros (S1 & P1) (S2 & P2). split; [eapply steady_trans; eassumption|].
  destruct S1 as (_ & I & _). rewrite I in P2. lia.
Qed.

Lemma adv_inb l l' : inb l -> adv l l' -> inb l'.
Proof.
  intros H ((_ & I & _) & P). unfold inb in *. rewrite I. lia.
Qed.

Lemma advances_ret {A} (a : A) : advances (ret a).
Proof. intros l H. apply post_ret. apply adv_refl. assumption. Qed.

Lemma advances_bind {A B} (m : M A) (k : A -> M B) :
  advances m -> (forall a, advances (k a)) -> advances (bind m k).
Proof.
  intros Hm Hk l Hl. apply post_bind.
  eapply post_mono; [apply Hm; assumption|]. cbv beta. intros a l1 A1.
  eapply post_mono; [apply Hk; eapply adv_inb; eassumption|].
  cbv beta. intros b l2 A2. eapply adv_trans; eassumption.
Qed.

Lemma advances_next : advances next.
Proof.
  intros l H. eapply post_mono; [apply next_full; assumption|].
  cbv beta. intros r l' (S1 & B1 & I1 & Hr1 & Hp1 & Hw1 & W1 & L1 & E1).
  split; [assumption|]. lia.
Qed.

Lemma advances_peek : advances peek.
Proof.
  intros l H. eapply post_mono; [apply peek_spec; assumption|].
  cbv beta. intros r l' (S1 & _ & Hp). split; [assumption|].
  unfold inb in H. lia.
Qed.

Lemma advances_accept valid : advances (accept valid).
Proof.
  intros l H. eapply post_mono; [apply accept_spec; assumption|].
  cbv beta. intros b l' (S1 & _ & Hp). split; [assumption|].
  pose proof (rune_at_bounds _ _ H). unfold inb in H.
  destruct b; lia.
Qed.

Lemma advances_acceptRun valid : advances (acceptRun valid).
Proof.
  intros l H. eapply post_mono; [apply acceptRun_spec; assumption|].
  cbv beta. intros b l' (S1 & _ & Hp & _). split; assumption.
Qed.

Ltac adv_tac :=
  repeat first
    [ apply advances_ret | apply advances_accept | apply advances_acceptRun
    | apply advances_peek | apply advances_next
    | apply advances_bind; [|intros ?]
    | match goal with |- advances (if ?b then _ else _) => destruct b end ].

Lemma acceptRun_moves valid l :
  inb l -> in_set valid (rn (input l) (pos l)) = true ->
  post (acceptRun valid) l (fun _ l' => adv l l' /\ pos l < pos l').
Proof.
  intros H C. eapply post_mono; [apply acceptRun_spec; assumption|].
  cbv beta. intros b l' (S1 & R & Hp & C'). split; [split; assumption|].
  destruct (Z.eq_dec (pos l') (pos l)) as [E|E]; [|lia].
  rewrite E in C'. congruence.
Qed.

(** [scanNumber] moves the cursor forward; it moves it when the first
    rune is a sign or a decimal digit, which is when the scanner calls it. *)
Lemma scanNumber_adv l :
  inb l ->
  post scanNumber l (fun _ l' =>
    adv l l' /\
    (in_set "+-" (rn (input l) (pos l)) = true
     \/ isDigit (rn (input l) (pos l)) = true -> pos l < pos l')).
Proof.
  intros Hb. unfold scanNumber.
  pose proof (rune_at_bounds _ _ Hb) as (B1 & B2 & B3).
  mstep accept_spec; [assumption|]. intros b1 l1 (S1 & Hb1 & Hp1).
  assert (A1 : adv l l1)
    by (split; [assumption|]; unfold inb in Hb; destruct b1; lia).
  assert (I1 : input l1 = input l) by (destruct S1 as (_ & I & _); exact I).
  pose proof (adv_inb _ _ Hb A1) as Hb1'.
  destruct b1.
  { (* a sign was consumed *)
    pose proof (in_set_nonneg _ _ (eq_sym Hb1)).
    match goal with |- post ?m _ _ =>
      assert (Hm : advances m) by adv_tac end.
    eapply post_mono; [apply Hm; assumption|]. cbv beta. intros b l2 A2.
    split; [eapply adv_trans; eassumption|]. intros _.
    destruct A2 as (_ & P2). lia. }
  mstep accept_spec; [assumption|]. intros b2 l2 (S2 & Hb2 & Hp2).
  rewrite I1, Hp1 in *.
  assert (A2 : adv l l2)
    by (split; [eapply steady_trans; eassumption|];
        unfold inb in Hb; destruct b2; lia).
  assert (I2 : input l2 = input l) by (destruct A2 as ((_ & I & _) & _); exact I).
  pose proof (adv_inb _ _ Hb A2) as Hb2'.
  destruct b2.
  { pose proof (in_set_nonneg _ _ (eq_sym Hb2)).
    match goal with |- post ?m _ _ =>
      assert (Hm : advances m) by adv_tac end.
    eapply post_mono; [apply Hm; assumption|]. cbv beta. intros b l3 A3.
    split; [eapply adv_trans; eassumption|]. intros _.
    destruct A3 as (_ & P3). lia. }
  apply post_bind. apply post_ret. apply post_bind.
  destruct (in_set "0123456789_" (rn (input l) (pos l))) eqn:D.
  - eapply post_mono;
      [apply acceptRun_moves; [assumption|rewrite I2, Hp2; exact D]|].
    cbv beta. intros _ l3 (A3 & P3).
    match goal with |- post ?m _ _ =>
      assert (Hm : advances m) by adv_tac end.
    eapply post_mono; [apply Hm; eapply adv_inb; eassumption|].
    cbv beta. intros b l4 A4.
    split; [eapply adv_trans; [|eassumption]; eapply adv_trans; eassumption|].
    intros _. destruct A4 as (_ & P4). lia.
  - eapply post_mono; [apply advances_acceptRun; assumption|].
    cbv beta. intros _ l3 A3.
    match goal with |- post ?m _ _ =>
      assert (Hm : advances m) by adv_tac end.
    eapply post_mono; [apply Hm; eapply adv_inb; eassumption|].
    cbv beta. intros b l4 A4.
    split; [eapply adv_trans; [|eassumption]; eapply adv_trans; eassumption|].
    intros Hr. exfalso. rewrite in_sign in Hb1, Hr. rewrite in_decimal in D.
    unfold isDigit in Hr. lia.
Qed.

Lemma scanIdentifier_adv l :
  inb l ->
  post scanIdentifier l (fun b l' =>
    adv l l' /\ (b = true -> pos l < pos l')).
Proof.
  intros Hb. eapply post_mono; [apply scanIdentifier_spec; assumption|].
  cbv beta. intros b l' (S1 & D).
  pose proof (rune_at_bounds _ _ Hb) as (B1 & B2 & B3). unfold inb in Hb.
  destruct D as [(C & -> & P)|(C & q & R & C' & Hq & D)].
  - split; [split; [assumption|lia]|discriminate].
  - pose proof (in_set_nonneg _ _ C).
    assert (0 <= q <= len (input l)) as Hq' by lia.
    pose proof (rune_at_bounds _ _ Hq') as (Q1 & Q2 & Q3).
    destruct D as [(A & -> & P)|(A & -> & P)].
    + split; [split; [assumption|lia]|discriminate].
    + split; [split; [assumption|lia]|intros _; lia].
Qed.

Lemma scanString_adv l :
  inb l ->
  post scanString l (fun b l' =>
    adv l l' /\ (b = true -> pos l < pos l')).
Proof.
  intros Hb. eapply post_mono; [apply scanString_spec; assumption|].
  cbv beta. intros b l' (S1 & P & M & _). split; [split|]; assumption.
Qed.

(* ================================================================== *)
(** ** The state functions *)

Lemma errorf_Step format args s l0 l :
  Scanning l -> input l = input l0 -> name l = name l0 ->
  post (errorf format args) l (Step s l0).
Proof.
  intros HS Hi Hn. eapply post_mono; [apply errorf_Final; assumption|].
  cbv beta. intros o l' (-> & F & I & N). unfold Step.
  split; [congruence|]. split; [congruence|]. assumption.
Qed.

Lemma pending_errorf_Step format s l0 l :
  Scanning l -> input l = input l0 -> name l = name l0 ->
  post (v <- pending ;; errorf format [ArgString v]) l (Step s l0).
Proof.
  intros HS Hi Hn. mstep pending_spec; [assumption|].
  intros v l' ->. apply errorf_Step; assumption.
Qed.

(** A sub-scanner, then the error or the item and the rest of the state
    function. *)
Lemma scan_emit (m : M bool) T format (k : M (option stateFn)) s l0 l1 :
  Scanning l1 -> start l1 = pos l1 ->
  input l1 = input l0 -> name l1 = name l0 ->
  T <> itemError -> T <> itemEOF ->
  post m l1 (fun b l' => adv l1 l' /\ (b = true -> pos l1 < pos l')) ->
  (forall l2, Inv l2 -> input l2 = input l0 -> name l2 = name l0 ->
              pos l1 < pos l2 -> post k l2 (Step s l0)) ->
  post (ok <- m ;;
        if negb ok then v <- pending ;; errorf format [ArgString v]
        else emit T ;;; k) l1 (Step s l0).
Proof.
  intros HS Hs Hi Hn HT1 HT2 Hm Hk.
  apply post_bind. eapply post_mono; [exact Hm|]. cbv beta.
  intros b l2 ((S2 & P2) & Hlt).
  assert (HS2 : Scanning l2)
    by (eapply Scanning_move; [eassumption|assumption|lia]).
  destruct S2 as (Sn & Si & Ss & Sit & Ssl).
  destruct b; cbn [negb].
  - specialize (Hlt eq_refl).
    mstep emit_Inv; [eassumption|lia|assumption|assumption|].
    intros _ l3 (I3 & P3 & Hi3 & Hn3).
    apply Hk; [assumption|congruence|congruence|lia].
  - apply pending_errorf_Step; [assumption|congruence|congruence].
Qed.

Lemma rank_lt s' s l' l :
  inb l' -> pos l <= pos l' -> input l' = input l ->
  (weight s' < weight s)%nat \/ (weight s' = weight s /\ pos l < pos l') ->
  (rank s' l' < rank s l)%nat.
Proof.
  unfold rank, inb. intros H1 H2 H3 H4. rewrite H3 in *. lia.
Qed.

Lemma afterValueExpr_step l0 l :
  Inv l -> input l = input l0 -> name l = name l0 -> pos l0 <= pos l ->
  post afterValueExpr l (Step lexValueExprList l0).
Proof.
  intros HI Hi Hn Hlt. unfold afterValueExpr.
  mstep skipWhitespace_Inv; [assumption|].
  intros _ l1 (HS1 & Hs1 & Hp1 & Hi1 & Hn1 & Hb1 & _).
  mstep next_full; [assumption|].
  intros r l2 (S2 & B2 & I2 & Hr2 & Hp2 & Hw2 & W2 & L2 & E2).
  assert (HS2 : Scanning l2)
    by (eapply Scanning_move; [eassumption|assumption|lia]).
  assert (St2 : start l2 = pos l1)
    by (destruct S2 as (_ & _ & Ss & _); congruence).
  assert (Hn2 : name l2 = name l0) by (destruct S2 as (N & _); congruence).
  destruct (Z.eqb_spec r 44) as [R|R].
  { destruct E2 as [E2|[E2 E2']]; [unfold eof in E2; lia|].
    mstep emit_Inv; [eassumption|lia|discriminate|discriminate|].
    intros _ l3 (I3 & P3 & Hi3 & Hn3). apply post_ret. unfold Step.
    split; [congruence|]. split; [congruence|]. split; [assumption|].
    apply rank_lt; [apply I3|lia|congruence|right; split; [reflexivity|lia]]. }
  destruct ((r =? 102) || (r =? 70)) eqn:RF.
  { mstep backup_spec.
    { rewrite I2. unfold inb in *. lia. }
    intros _ l3 (S3 & P3). apply post_ret. unfold Step.
    assert (S13 : steady l1 l3) by (eapply steady_trans; eassumption).
    assert (I3 : input l3 = input l0)
      by (destruct S13 as (_ & I & _); congruence).
    split; [assumption|].
    split; [destruct S13 as (N & _); congruence|].
    assert (HI3 : Inv l3).
    { apply Scanning_Inv.
      - eapply Scanning_move; [exact HS1|assumption|unfold inb in *; lia].
      - destruct S13 as (_ & _ & Ss & _). lia. }
    split; [assumption|].
    apply rank_lt; [apply HI3|lia|assumption|left; cbn; lia]. }
  apply errorf_Step; [assumption|congruence|assumption].
Qed.

Lemma lexValueExprList_step l :
  Inv l -> post lexValueExprList_fn l (Step lexValueExprList l).
Proof.
  intros HI. unfold lexValueExprList_fn.
  mstep skipWhitespace_Inv; [assumption|].
  intros _ l1 (HS1 & Hs1 & Hp1 & Hi1 & Hn1 & Hb1 & _).
  mstep next_full; [assumption|].
  intros r l2 (S2 & B2 & I2 & Hr2 & Hp2 & Hw2 & W2 & L2 & E2).
  assert (HS2 : Scanning l2)
    by (eapply Scanning_move; [eassumption|assumption|lia]).
  assert (St2 : start l2 = pos l1)
    by (destruct S2 as (_ & _ & Ss & _); congruence).
  assert (Hn2 : name l2 = name l) by (destruct S2 as (N & _); congruence).
  (* the state after [backup], in the three branches that call it *)
  assert (Back : forall Q : unit -> lexer -> Prop,
    (forall l3, Scanning l3 -> start l3 = pos l3 -> pos l3 = pos l1 ->
                input l3 = input l -> name l3 = name l -> inb l3 ->
                Q tt l3) ->
    post backup l2 Q).
  { intros Q HQ. eapply post_mono.
    - apply backup_spec. rewrite I2. unfold inb in *. lia.
    - cbv beta. intros [] l3 (S3 & P3).
      assert (S13 : steady l1 l3) by (eapply steady_trans; eassumption).
      assert (I3 : input l3 = input l1) by (destruct S13 as (_ & I & _); exact I).
      apply HQ.
      + eapply Scanning_move; [exact HS1|assumption|unfold inb in *; lia].
      + destruct S13 as (_ & _ & Ss & _). lia.
      + lia.
      + congruence.
      + destruct S13 as (N & _). congruence.
      + unfold inb in *. rewrite I3. lia. }
  destruct (Z.eqb_spec r 42) as [R|R].
  { destruct E2 as [E2|[E2 E2']]; [unfold eof in E2; lia|].
    mstep emit_Inv; [eassumption|lia|discriminate|discriminate|].
    intros _ l3 (I3 & P3 & Hi3 & Hn3).
    apply afterValueExpr_step; [assumption|congruence|congruence|lia]. }
  destruct (Z.eqb_spec r 39) as [R'|R'].
  { apply post_bind. apply Back. intros l3 HS3 Hs3 Hp3 Hi3 Hn3 Hb3.
    apply scan_emit; try assumption; try discriminate.
    - apply scanString_adv. assumption.
    - intros l4 HI4 Hi4 Hn4 Hlt.
      apply afterValueExpr_step; [assumption|assumption|assumption|lia]. }
  destruct ((r =? 43) || (r =? 45) || (48 <=? r) && (r <=? 57)) eqn:RN.
  { apply post_bind. apply Back. intros l3 HS3 Hs3 Hp3 Hi3 Hn3 Hb3.
    apply scan_emit; try assumption; try discriminate.
    - eapply post_mono; [apply scanNumber_adv; assumption|].
      cbv beta. intros b l4 (A4 & M4). split; [assumption|]. intros _.
      apply M4. rewrite Hi3, Hp3, <- Hi1, <- Hr2, in_sign.
      unfold isDigit. lia.
    - intros l4 HI4 Hi4 Hn4 Hlt.
      apply afterValueExpr_step; [assumption|assumption|assumption|lia]. }
  destruct (isAlpha r) eqn:RA.
  { apply post_bind. apply Back. intros l3 HS3 Hs3 Hp3 Hi3 Hn3 Hb3.
    apply scan_emit; try assumption; try discriminate.
    - apply scanIdentifier_adv. assumption.
    - intros l4 HI4 Hi4 Hn4 Hlt.
      apply afterValueExpr_step; [assumption|assumption|assumption|lia]. }
  apply errorf_Step; [assumption|congruence|assumption].
Qed.

Lemma keyword_loop_step keyword upper it nextAction s l0 :
  it <> itemError -> it <> itemEOF ->
  (weight nextAction < weight s)%nat ->
  Forall (fun u => 0 <= u) upper ->
  forall lower index l,
    Forall (fun u => 0 <= u) lower ->
    (index + List.length lower <= List.length upper)%nat ->
    Scanning l -> input l = input l0 -> name l = name l0 ->
    pos l0 <= pos l -> (lower = [] -> start l < pos l) ->
    post (keyword_loop keyword upper index lower it nextAction) l (Step s l0).
Proof.
  intros Hit1 Hit2 Hw Hup.
  induction lower as [|lo lower IH]; intros index l Hlo Hlen HS Hi Hn Hp Hne;
    cbn [keyword_loop].
  - mstep emit_Inv; [eassumption|auto|assumption|assumption|].
    intros _ l1 (I1 & P1 & Hi1 & Hn1). apply post_ret. unfold Step.
    split; [congruence|]. split; [congruence|]. split; [assumption|].
    apply rank_lt; [apply I1|lia|congruence|left; assumption].
  - match goal with
    | |- context [@nth_error ?A ?u ?i] =>
        destruct (@nth_error A u i) as [up|] eqn:Hnth
    end.
    2: { apply nth_error_None in Hnth. cbn in Hlen.
         change rune with Z in *. lia. }
    assert (0 <= up).
    { rewrite Forall_forall in Hup. apply Hup.
      eapply nth_error_In. eassumption. }
    inversion Hlo as [|? ? Hlo0 Hlo']; subst.
    assert (Hb : inb l) by (destruct HS as (_ & _ & ? & ? & _); unfold inb; lia).
    mstep next_full; [assumption|].
    intros r l1 (S1 & B1 & I1 & Hr1 & Hp1 & Hw1 & W1 & L1 & E1).
    assert (HS1 : Scanning l1).
    { eapply Scanning_move; [exact HS|assumption|].
      destruct HS as (_ & _ & ? & ? & _). lia. }
    assert (Hn1 : name l1 = name l0) by (destruct S1 as (N & _); congruence).
    destruct ((r =? lo) || (r =? up)) eqn:M; cbn [negb].
    + destruct E1 as [E1|[E1 E1']]; [unfold eof in E1; lia|].
      apply IH; try assumption.
      * cbn in Hlen. lia.
      * congruence.
      * lia.
      * intros _. destruct S1 as (_ & _ & Ss & _).
        destruct HS as (_ & _ & ? & ? & _). lia.
    + apply errorf_Step; [assumption|congruence|assumption].
Qed.

Lemma createLexKeyword_step keyword it nextAction s l :
  it <> itemError -> it <> itemEOF ->
  (weight nextAction < weight s)%nat ->
  Forall (fun u => 0 <= u) (runes_of (strings.ToUpper keyword)) ->
  Forall (fun u => 0 <= u) (runes_of (strings.ToLower keyword)) ->
  (0 < List.length (runes_of (strings.ToLower keyword))
     <= List.length (runes_of (strings.ToUpper keyword)))%nat ->
  Inv l ->
  post (createLexKeyword keyword it nextAction) l (Step s l).
Proof.
  intros Hit1 Hit2 Hw Hup Hlo Hlen HI. unfold createLexKeyword.
  mstep skipWhitespace_Inv; [assumption|].
  intros _ l1 (HS1 & Hs1 & Hp1 & Hi1 & Hn1 & Hb1 & _).
  eapply keyword_loop_step; try eassumption.
  - cbn [Nat.add]. apply Hlen.
  - intros E. rewrite E in Hlen. cbn in Hlen. lia.
Qed.

Lemma nonneg_runes_select :
  Forall (fun u => 0 <= u) (runes_of (strings.ToUpper "select")) /\
  Forall (fun u => 0 <= u) (runes_of (strings.ToLower "select")) /\
  (0 < List.length (runes_of (strings.ToLower "select"))
     <= List.length (runes_of (strings.ToUpper "select")))%nat.
Proof.
  repeat match goal with
         | |- context [runes_of ?s] =>
             let v := eval vm_compute in (runes_of s) in
             change (runes_of s) with v
         end.
  split; [|split]; [repeat constructor; lia ..|cbn; lia].
Qed.

Lemma nonneg_runes_from :
  Forall (fun u => 0 <= u) (runes_of (strings.ToUpper "from")) /\
  Forall (fun u => 0 <= u) (runes_of (strings.ToLower "from")) /\
  (0 < List.length (runes_of (strings.ToLower "from"))
     <= List.length (runes_of (strings.ToUpper "from")))%nat.
Proof.
  repeat match goal with
         | |- context [runes_of ?s] =>
             let v := eval vm_compute in (runes_of s) in
             change (runes_of s) with v
         end.
  split; [|split]; [repeat constructor; lia ..|cbn; lia].
Qed.

Lemma lexStartStatement_step l :
  Inv l -> post lexStartStatement_fn l (Step lexStartStatement l).
Proof.
  intros HI. unfold lexStartStatement_fn.
  mstep skipWhitespace_Inv; [assumption|].
  intros _ l1 (HS1 & Hs1 & Hp1 & Hi1 & Hn1 & Hb1 & _).
  mstep next_full; [assumption|].
  intros r l2 (S2 & B2 & I2 & Hr2 & Hp2 & Hw2 & W2 & L2 & E2).
  assert (HS2 : Scanning l2)
    by (eapply Scanning_move; [eassumption|assumption|lia]).
  assert (Hn2 : name l2 = name l) by (destruct S2 as (N & _); congruence).
  destruct (r =? eof).
  { apply errorf_Step; [assumption|congruence|assumption]. }
  destruct ((r =? 115) || (r =? 83)).
  { mstep backup_spec.
    { rewrite I2. unfold inb in *. lia. }
    intros _ l3 (S3 & P3). apply post_ret. unfold Step.
    assert (S13 : steady l1 l3) by (eapply steady_trans; eassumption).
    assert (I3 : input l3 = input l)
      by (destruct S13 as (_ & I & _); congruence).
    split; [assumption|].
    split; [destruct S13 as (N & _); congruence|].
    assert (HI3 : Inv l3).
    { apply Scanning_Inv.
      - eapply Scanning_move; [exact HS1|assumption|unfold inb in *; lia].
      - destruct S13 as (_ & _ & Ss & _). lia. }
    split; [assumption|].
    apply rank_lt; [apply HI3|lia|assumption|left; cbn; lia]. }
  apply errorf_Step; [assumption|congruence|assumption].
Qed.

Lemma lexFromTableName_step l :
  Inv l -> post lexFromTableName_fn l (Step lexFromTableName l).
Proof.
  intros HI. unfold lexFromTableName_fn.
  mstep skipWhitespace_Inv; [assumption|].
  intros _ l1 (HS1 & Hs1 & Hp1 & Hi1 & Hn1 & Hb1 & _).
  apply scan_emit; try assumption; try discriminate.
  - apply scanIdentifier_adv. assumption.
  - intros l2 HI2 Hi2 Hn2 Hlt. apply post_ret. unfold Step.
    split; [assumption|]. split; [assumption|]. split; [assumption|].
    apply rank_lt; [apply HI2|lia|assumption|left; cbn; lia].
Qed.

Lemma lexEndOfStatement_step l :
  Inv l -> post lexEndOfStatement_fn l (Step lexEndOfStatement l).
Proof.
  intros HI. unfold lexEndOfStatement_fn.
  mstep skipWhitespace_Inv; [assumption|].
  intros _ l1 (HS1 & Hs1 & Hp1 & Hi1 & Hn1 & Hb1 & _).
  mstep accept_spec; [assumption|].
  intros b l2 (S2 & Hb2 & Hp2).
  pose proof (rune_at_bounds _ _ Hb1) as (B1 & B2 & B3).
  assert (HS2 : Scanning l2).
  { eapply Scanning_move; [eassumption|assumption|].
    unfold inb in Hb1. destruct b; lia. }
  assert (Hi2 : input l2 = input l) by (destruct S2 as (_ & I & _); congruence).
  assert (Hn2 : name l2 = name l) by (destruct S2 as (N & _); congruence).
  destruct b.
  - pose proof (in_set_nonneg _ _ (eq_sym Hb2)).
    mstep emit_Final; [assumption| |].
    { destruct S2 as (_ & _ & Ss & _). lia. }
    intros _ l3 (F3 & Hi3 & Hn3). apply post_ret. unfold Step.
    split; [congruence|]. split; [congruence|]. assumption.
  - apply errorf_Step; assumption.
Qed.

Lemma call_step s l : Inv l -> post (call s) l (Step s l).
Proof.
  intros HI. destruct s; cbn [call].
  - apply lexStartStatement_step. assumption.
  - destruct nonneg_runes_select as (H1 & H2 & H3).
    apply createLexKeyword_step; try assumption; try discriminate. cbn. lia.
  - destruct nonneg_runes_from as (H1 & H2 & H3).
    apply createLexKeyword_step; try assumption; try discriminate. cbn. lia.
  - apply lexValueExprList_step. assumption.
  - apply lexFromTableName_step. assumption.
  - apply lexEndOfStatement_step. assumption.
Qed.

(** The state machine halts: enough calls are allotted, and it leaves a
    finished stream. *)
Lemma run_loop_spec n : forall s l,
  Inv l -> (rank s l <= n)%nat ->
  post (run_loop n (Some s)) l (fun _ l' =>
    Final l' /\ input l' = input l /\ name l' = name l).
Proof.
  induction n as [|n IH]; intros s l HI Hr.
  - unfold rank in Hr. destruct s; cbn in Hr; lia.
  - cbn [run_loop]. mstep call_step; [assumption|].
    intros o l1 (Hi1 & Hn1 & D). destruct o as [s'|].
    + destruct D as (HI1 & Hlt).
      eapply post_mono; [apply IH; [assumption|lia]|].
      cbv beta. intros _ l2 (F2 & Hi2 & Hn2).
      split; [assumption|]. split; congruence.
    + assert (E : run_loop n None = ret tt) by (destruct n; reflexivity).
      rewrite E. apply post_ret. auto.
Qed.

Lemma Inv_fresh name input : Inv (fresh name input).
Proof.
  unfold Inv, inb. cbn. split; [reflexivity|]. split; [constructor|].
  pose proof (len_nonneg input). split; [lia|].
  exists 0. split; [reflexivity|]. split; [lia|]. apply bytes_in_nil. lia.
Qed.

Lemma lex_Scanned nm inp :
  exists l, lex nm inp = Ok tt l /\ Scanned inp l.
Proof.
  pose proof (run_loop_spec (String.length inp + 6) lexStartStatement
                (fresh nm inp) (Inv_fresh nm inp)) as H.
  assert (Hr : (rank lexStartStatement (fresh nm inp)
                <= String.length inp + 6)%nat)
    by (unfold rank, len; cbn; lia).
  specialize (H Hr). unfold post in H.
  change (lex nm inp) with (run lexStartStatement (fresh nm inp)).
  unfold run, bind. cbn [input fresh].
  destruct (run_loop _ _ _) as [[] l1| |]; try contradiction.
  destruct H as ((C & toks & t & Hs & Hf & E & HT & D) & Hi & Hn).
  unfold close. rewrite C. eexists. split; [reflexivity|].
  unfold Scanned. cbn. cbn in Hi. rewrite Hi in *.
  split; [reflexivity|]. split; [reflexivity|].
  exists toks, t. split; [assumption|]. split; [assumption|].
  exists E. split; [assumption|].
  destruct D as [D|D]; [left; assumption|right].
  unfold error_item in *. cbn. assumption.
Qed.

(* ================================================================== *)
(** ** The token stream of a scan *)

Lemma slice_bounds s lo hi v : slice s lo hi = Some v -> 0 <= lo <= hi /\ hi <= len s.
Proof.
  unfold slice. destruct (_ && _) eqn:E; [|discriminate]. intros _. lia.
Qed.

Lemma tiled_range s : forall toks a E,
  tiled s a toks E -> 0 <= a <= len s -> a <= E <= len s.
Proof.
  induction toks as [|t toks IH]; intros a E HT Ha; cbn in HT.
  - lia.
  - destruct HT as (H1 & H2 & (H3 & H4) & H5).
    apply slice_bounds in H4. apply IH in H5; lia.
Qed.

Lemma tiled_placed s : forall toks a E,
  tiled s a toks E -> Forall (placed s) toks.
Proof.
  induction toks as [|t toks IH]; intros a E HT; cbn in HT; constructor.
  - apply HT.
  - eapply IH. apply HT.
Qed.

Lemma tiled_after s : forall toks a E t,
  tiled s a toks E -> In t toks -> a <= item.pos t.
Proof.
  induction toks as [|x toks IH]; intros a E t HT Hin; cbn in HT.
  - contradiction.
  - destruct HT as (H1 & H2 & (H3 & H4) & H5). destruct Hin as [->|Hin].
    + assumption.
    + apply (IH _ _ _ H5) in Hin. lia.
Qed.

(** Items that tile the input do not overlap, and come in the order of
    their offsets. *)
Lemma tiled_ordered s : forall toks a E i j ti tj,
  tiled s a toks E -> (i < j)%nat ->
  nth_error toks i = Some ti -> nth_error toks j = Some tj ->
  item_end ti <= item.pos tj /\ item.pos ti < item.pos tj.
Proof.
  induction toks as [|x toks IH]; intros a E i j ti tj HT Hij Hi Hj.
  - destruct i; discriminate.
  - cbn in HT. destruct HT as (H1 & H2 & (H3 & H4) & H5).
    destruct j as [|j]; [lia|]. cbn in Hj. destruct i as [|i].
    + cbn in Hi. injection Hi as <-.
      apply nth_error_In in Hj. apply (tiled_after _ _ _ _ _ H5) in Hj.
      unfold item_end. lia.
    + cbn in Hi.
      eapply (IH _ _ i j); [eassumption|lia|eassumption|eassumption].
Qed.

Lemma filter_nonterminal toks :
  Forall nonterminal toks -> filter not_error toks = toks.
Proof.
  induction 1 as [|t toks [H1 H2] _ IH]; cbn; [reflexivity|].
  unfold not_error at 1. destruct (item.typ t); try contradiction;
    cbn; rewrite IH; reflexivity.
Qed.

Lemma receive_all c : receive (List.length (sent c)) c = sent c.
Proof.
  destruct c as [s cl]. cbn. revert cl.
  induction s as [|t s IH]; intros cl; cbn; [reflexivity|].
  f_equal. apply IH.
Qed.

Lemma split_last_item (pre post toks : list item) t t0 :
  pre ++ t :: post = toks ++ [t0] ->
  (post = [] /\ pre = toks /\ t = t0) \/ In t toks.
Proof.
  revert toks. induction pre as [|x pre IH]; intros toks H.
  - destruct toks as [|y toks]; cbn in H.
    + injection H as -> <-. auto.
    + injection H as -> _. right. left. reflexivity.
  - destruct toks as [|y toks]; cbn in H.
    + injection H as _ H. destruct pre; discriminate.
    + injection H as -> H. apply IH in H.
      destruct H as [(-> & -> & ->)|H]; [left; auto|right; right; assumption].
Qed.

Lemma run_loop_mono n : forall o l a l',
  run_loop n o l = Ok a l' ->
  forall m, (n <= m)%nat -> run_loop m o l = Ok a l'.
Proof.
  induction n as [|n IH]; intros o l a l' H m Hm.
  - destruct o; [discriminate|]. destruct m; exact H.
  - destruct o as [s|]; [|destruct m; exact H].
    destruct m as [|m]; [lia|]. cbn [run_loop] in *. unfold bind in *.
    destruct (call s l) as [o1 l1| |]; try discriminate.
    eapply IH; [eassumption|lia].
Qed.

(* ================================================================== *)
(** ** The properties of the scanner *)

Ltac run_lex :=
  match goal with
  | |- exists l, lex ?nm ?inp = Ok tt l /\ _ =>
      let r := eval vm_compute in (lex nm inp) in
      match r with
      | Ok tt ?l => exists l; split; [vm_compute; reflexivity|]
      end
  end.

(** C1: the scan of "select * from t;" sends Select "select" at offset 0,
    Star at 7, From "from" at 9, Identifier "t" at 14 and the end-of-input
    item at 15, a consumer receives them in this order with five calls of
    [nextItem], and the text of each lies in the input at its offset. *)
Theorem select_star_from_t nm :
  exists l,
    lex nm "select * from t;" = Ok tt l /\
    receive 5 (items l)
    = [ item.mk itemSelect 0 "select" 1;
        item.mk itemStar 7 "*" 1;
        item.mk itemFrom 9 "from" 1;
        item.mk itemIdentifier 14 "t" 1;
        item.mk itemEOF 15 ";" 1 ] /\
    sent (items l) = receive 5 (items l) /\
    closed (items l) = true /\
    Forall (placed "select * from t;") (sent (items l)).
Proof.
  run_lex. split; [reflexivity|]. split; [reflexivity|].
  split; [reflexivity|].
  repeat constructor.
Qed.

(** C9: every scan halts.  The calls allotted to the state machine are
    enough, any larger number gives the same lexer, the channel is then
    closed, and the stream is made of items that do not end it followed by
    exactly one last item, the end-of-input item or an error item. *)
Theorem lex_terminates nm inp :
  exists l,
    lex nm inp = Ok tt l /\
    (forall n, (String.length inp + 6 <= n)%nat ->
       (run_loop n (Some lexStartStatement) ;;; close) (fresh nm inp)
       = Ok tt l) /\
    closed (items l) = true /\
    exists toks t,
      sent (items l) = toks ++ [t] /\
      Forall nonterminal toks /\
      (item.typ t = itemEOF \/ item.typ t = itemError).
Proof.
  destruct (lex_Scanned nm inp) as (l & Hl & Hi & Hc & toks & t & Hs & Hf & E & HT & D).
  exists l. split; [assumption|]. split.
  { intros n Hn.
    change (lex nm inp) with (run lexStartStatement (fresh nm inp)) in Hl.
    unfold run, bind in Hl. cbn [input fresh] in Hl. unfold bind.
    destruct (run_loop (String.length inp + 6) (Some lexStartStatement)
                (fresh nm inp)) as [[] l1| |] eqn:R; try discriminate.
    rewrite (run_loop_mono _ _ _ _ _ R n Hn). exact Hl. }
  split; [assumption|]. exists toks, t. split; [assumption|].
  split; [assumption|].
  destruct D as [[D _]|(D & _)]; auto.
Qed.

(** C4 (the code at the input where it departs from the claim): in the
    scan of "select", a newline, "* from t;" the Star item starts at
    offset 7, after the newline, on line 2, and carries line 1. *)
Theorem star_after_newline_has_line_1 nm :
  exists l,
    lex nm ("select" ++ newline ++ "* from t;")%string = Ok tt l /\
    nth_error (sent (items l)) 1 = Some (item.mk itemStar 7 "*" 1) /\
    line_at ("select" ++ newline ++ "* from t;")%string 7 = 2.
Proof.
  run_lex. split; reflexivity.
Qed.

(** C6: as the value expression of a statement, each of 11, +3.5, 0xFF,
    0b101, 1e10 and 0x1p4 is one Number item whose text is the whole
    literal, and [scanNumber] accepts the literal up to its end; on 12abc
    [scanNumber] fails after the rune [a], and the scan ends with the
    error item of the message "bad number". *)
Theorem number_literals nm :
  Forall (fun lit =>
            (exists l, lex nm (select_from_t lit) = Ok tt l /\
                       sent (items l) = items_of_select itemNumber lit) /\
            (exists l, scanNumber (fresh nm lit) = Ok true l /\
                       pos l = len lit))
         ["11"; "+3.5"; "0xFF"; "0b101"; "1e10"; "0x1p4"] /\
  (exists l, scanNumber (fresh nm "12abc") = Ok false l /\ pos l = 3) /\
  (exists l, lex nm (select_from_t "12abc") = Ok tt l /\
             sent (items l)
             = [ item.mk itemSelect 0 "select" 1;
                 item.mk itemError 7
                   (Sprintf "bad number: %q" [ArgString "12a"]) 1 ]).
Proof.
  split; [|split].
  - repeat constructor; try (run_lex; reflexivity);
      (eexists; split; [vm_compute; reflexivity|reflexivity]).
  - eexists; split; [vm_compute; reflexivity|reflexivity].
  - run_lex. reflexivity.
Qed.

(* ================================================================== *)
(** ** Following the cursor *)

Lemma cursor_inb l0 q l :
  cursor_at l0 q l -> 0 <= q <= len (input l0) -> inb l.
Proof.
  intros ((_ & I & _) & P) Hq. unfold inb. rewrite I, P. exact Hq.
Qed.

Lemma accept_at valid l0 q l :
  cursor_at l0 q l -> 0 <= q <= len (input l0) ->
  post (accept valid) l (fun b l' =>
    b = in_set valid (rn (input l0) q) /\
    cursor_at l0 (if b then q + wd (input l0) q else q) l').
Proof.
  intros C Hq. pose proof (cursor_inb _ _ _ C Hq) as Hb.
  destruct C as (S0 & P).
  assert (I : input l = input l0) by (destruct S0 as (_ & I & _); exact I).
  eapply post_mono; [apply accept_spec; assumption|].
  cbv beta. intros b l' (S1 & Hb1 & Hp1). rewrite I, P in *.
  split; [assumption|]. split; [eapply steady_trans; eassumption|assumption].
Qed.

Lemma accept_no valid l0 q l :
  cursor_at l0 q l -> 0 <= q <= len (input l0) ->
  in_set valid (rn (input l0) q) = false ->
  post (accept valid) l (fun b l' => b = false /\ cursor_at l0 q l').
Proof.
  intros C Hq Hn. eapply post_mono; [eapply accept_at; eassumption|].
  cbv beta. intros b l' (-> & C'). rewrite Hn in *. auto.
Qed.

Lemma accept_yes valid l0 q l :
  cursor_at l0 q l -> 0 <= q <= len (input l0) ->
  in_set valid (rn (input l0) q) = true ->
  post (accept valid) l (fun b l' =>
    b = true /\ cursor_at l0 (q + wd (input l0) q) l').
Proof.
  intros C Hq Hn. eapply post_mono; [eapply accept_at; eassumption|].
  cbv beta. intros b l' (-> & C'). rewrite Hn in *. auto.
Qed.

Lemma acceptRun_no valid l0 q l :
  cursor_at l0 q l -> 0 <= q <= len (input l0) ->
  in_set valid (rn (input l0) q) = false ->
  post (acceptRun valid) l (fun _ l' => cursor_at l0 q l').
Proof.
  intros C Hq Hn. pose proof (cursor_inb _ _ _ C Hq) as Hb.
  destruct C as (S0 & P).
  assert (I : input l = input l0) by (destruct S0 as (_ & I & _); exact I).
  eapply post_mono; [apply acceptRun_spec; assumption|].
  cbv beta. intros _ l' (S1 & R & Hp & C'). rewrite I, P in *.
  split; [eapply steady_trans; eassumption|].
  inversion R; subst; [reflexivity|congruence].
Qed.

Lemma peek_at l0 q l :
  cursor_at l0 q l -> 0 <= q <= len (input l0) ->
  post peek l (fun r l' => r = rn (input l0) q /\ cursor_at l0 q l').
Proof.
  intros C Hq. pose proof (cursor_inb _ _ _ C Hq) as Hb.
  destruct C as (S0 & P).
  assert (I : input l = input l0) by (destruct S0 as (_ & I & _); exact I).
  eapply post_mono; [apply peek_spec; assumption|].
  cbv beta. intros r l' (S1 & Hr & Hp). rewrite I, P in *.
  split; [assumption|]. split; [eapply steady_trans; eassumption|assumption].
Qed.

(** A rune below [RuneSelf] is one byte wide. *)
Lemma width_ascii s p :
  0 <= p <= len s -> 0 <= rn s p < 128 -> wd s p = 1 /\ p + 1 <= len s.
Proof.
  intros Hp Hr.
  destruct (rune_at_facts s p Hp) as [[H1 H2]|(H1 & H2 & H3 & H4 & H5)].
  - rewrite H2 in Hr. cbn in Hr. unfold eof in Hr. lia.
  - destruct H5 as [W _]; [lia|]. lia.
Qed.

Lemma not_in_alnum_set valid r :
  alnum_set valid = true -> isAlphaNumeric r = false -> in_set valid r = false.
Proof.
  intros Ha Hr. destruct (in_set valid r) eqn:E; [|reflexivity].
  rewrite (in_alnum_set _ _ Ha E) in Hr. discriminate.
Qed.

(* ================================================================== *)
(** ** Numbers without digits *)

(** One step of [scanNumber] at a rune [r] that is neither a letter, a
    digit or an underscore, nor a dot: every [accept] fails, every
    [acceptRun] is empty. *)
Ltac number_step :=
  cbv beta iota;
  lazymatch goal with
  | |- post (ret _) _ _ => apply post_ret
  | |- post (bind (ret _) _) _ _ => apply post_bind; apply post_ret
  | |- post (bind (bind _ _) _) _ _ => apply post_bind
  | |- post (bind (if (len ?d =? ?n) then _ else _) _) _ _ =>
      let v := eval vm_compute in (len d =? n) in
      change (len d =? n) with v
  | |- post (bind (accept ".") _) _ _ =>
      mstep accept_no;
      [eassumption|lia|rewrite in_dot; lia|intros ? ? (-> & ?)]
  | |- post (bind (accept _) _) _ _ =>
      mstep accept_no;
      [eassumption|lia
      |apply not_in_alnum_set; [vm_compute; reflexivity|assumption]
      |intros ? ? (-> & ?)]
  | |- post (bind (acceptRun _) _) _ _ =>
      mstep acceptRun_no;
      [eassumption|lia
      |apply not_in_alnum_set; [vm_compute; reflexivity|assumption]
      |intros _ ? ?]
  | |- post (bind peek _) _ _ =>
      mstep peek_at; [eassumption|lia|intros ? ? (-> & ?)]
  end.

Lemma scanNumber_sign l :
  inb l ->
  rn (input l) (pos l) = 43 \/ rn (input l) (pos l) = 45 ->
  isAlphaNumeric (rn (input l) (pos l + 1)) = false ->
  rn (input l) (pos l + 1) <> 46 ->
  post scanNumber l (fun b l' => b = true /\ cursor_at l (pos l + 1) l').
Proof.
  intros Hb Hs Ha Hd.
  destruct (width_ascii (input l) (pos l) Hb) as (W & L); [lia|].
  assert (C0 : cursor_at l (pos l) l) by (split; [apply steady_refl|reflexivity]).
  unfold inb in Hb. unfold scanNumber.
  mstep accept_yes; [eassumption|lia|rewrite in_sign; lia|].
  rewrite W. intros ? l1 (-> & C1).
  repeat number_step.
  match goal with H : isAlphaNumeric _ = false |- _ => rewrite H end.
  apply post_ret. split; [reflexivity|assumption].
Qed.

Lemma scanNumber_prefix l :
  inb l ->
  rn (input l) (pos l) = 48 ->
  In (rn (input l) (pos l + 1)) [120; 88; 111; 79; 98; 66] ->
  isAlphaNumeric (rn (input l) (pos l + 2)) = false ->
  rn (input l) (pos l + 2) <> 46 ->
  post scanNumber l (fun b l' => b = true /\ cursor_at l (pos l + 2) l').
Proof.
  intros Hb H0 Hx Ha Hd.
  destruct (width_ascii (input l) (pos l) Hb) as (W & L); [lia|].
  assert (Hb1 : 0 <= pos l + 1 <= len (input l)) by (unfold inb in Hb; lia).
  destruct (width_ascii (input l) (pos l + 1) Hb1) as (W1 & L1).
  { cbn [In] in Hx. lia. }
  replace (pos l + 1 + 1) with (pos l + 2) in L1 by lia.
  assert (C0 : cursor_at l (pos l) l) by (split; [apply steady_refl|reflexivity]).
  unfold inb in Hb. unfold scanNumber.
  mstep accept_no; [eassumption|lia|rewrite in_sign; lia|].
  intros ? l1 (-> & C1).
  mstep accept_yes; [eassumption|lia|rewrite in_zero; lia|].
  rewrite W. intros ? l2 (-> & C2). cbv beta iota.
  apply post_bind.
  assert (Step1 : forall valid l2',
            cursor_at l (pos l + 1) l2' ->
            post (accept valid) l2' (fun b l3 =>
              b = in_set valid (rn (input l) (pos l + 1)) /\
              cursor_at l (if b then pos l + 2 else pos l + 1) l3)).
  { intros valid l2' C. eapply post_mono; [eapply accept_at; [eassumption|lia]|].
    cbv beta. intros b l3 (E & C3). split; [assumption|].
    rewrite W1 in C3. replace (pos l + 1 + 1) with (pos l + 2) in C3 by lia.
    assumption. }
  cbn [In] in Hx.
  destruct Hx as [Hx|[Hx|[Hx|[Hx|[Hx|[Hx|[]]]]]]]; symmetry in Hx;
    rewrite Hx in Step1.
  all: mstep Step1; [eassumption|]; intros ? l3 (-> & C3);
    match goal with
    | C : cursor_at _ (if ?b then _ else _) _ |- _ =>
        let v := eval vm_compute in b in change b with v in C |- *;
        cbv iota in C
    end.
  all: try (apply post_ret; repeat number_step;
            match goal with H : isAlphaNumeric _ = false |- _ => rewrite H end;
            apply post_ret; split; [reflexivity|assumption]).
  all: mstep Step1; [eassumption|]; intros ? l4 (-> & C4);
    match goal with
    | C : cursor_at _ (if ?b then _ else _) _ |- _ =>
        let v := eval vm_compute in b in change b with v in C |- *;
        cbv iota in C
    end.
  all: try (apply post_ret; repeat number_step;
            match goal with H : isAlphaNumeric _ = false |- _ => rewrite H end;
            apply post_ret; split; [reflexivity|assumption]).
  all: mstep Step1; [eassumption|]; intros ? l5 (-> & C5);
    match goal with
    | C : cursor_at _ (if ?b then _ else _) _ |- _ =>
        let v := eval vm_compute in b in change b with v in C |- *;
        cbv iota in C
    end.
  all: apply post_ret; repeat number_step;
    match goal with H : isAlphaNumeric _ = false |- _ => rewrite H end;
    apply post_ret; split; [reflexivity|assumption].
Qed.

Lemma scanNumber_bare l n :
  inb l -> bare_number (input l) (pos l) n ->
  isAlphaNumeric (rn (input l) (pos l + n)) = false ->
  rn (input l) (pos l + n) <> 46 ->
  post scanNumber l (fun b l' => b = true /\ cursor_at l (pos l + n) l').
Proof.
  intros Hb [(-> & H)|(-> & H & H')] Ha Hd.
  - apply scanNumber_sign; assumption.
  - apply scanNumber_prefix; assumption.
Qed.

Lemma bare_number_fits s p n :
  0 <= p <= len s -> bare_number s p n ->
  1 <= n /\ p + n <= len s /\
  (rn s p = 43 \/ rn s p = 45 \/ 48 <= rn s p <= 57).
Proof.
  intros Hp [(-> & H)|(-> & H & H')].
  - destruct (width_ascii s p Hp) as (W & L); lia.
  - destruct (width_ascii s p Hp) as (W & L); [lia|].
    destruct (width_ascii s (p + 1)) as (W1 & L1); [lia|cbn [In] in H'; lia|].
    lia.
Qed.

Lemma errorf_more format args l :
  closed (items l) = false ->
  post (errorf format args) l (fun o l' =>
    o = None /\ input l' = input l /\
    sent_more l l'
      [item.mk itemError (start l) (Sprintf format args) (startLine l)]).
Proof.
  intros C. unfold post, errorf, bind, send. rewrite C. cbn.
  repeat split.
Qed.

Lemma afterValueExpr_more l :
  inb l -> closed (items l) = false ->
  post afterValueExpr l (fun _ l' => exists more, sent_more l l' more).
Proof.
  intros Hb C. unfold afterValueExpr.
  mstep skipWhitespace_spec; [assumption|].
  intros _ l1 ((Kn & Ki & Kit & Ksl) & Hs & Hp & _).
  assert (Hb1 : inb l1) by (unfold inb in *; rewrite Ki; lia).
  mstep next_full; [assumption|].
  intros r l2 (S2 & B2 & I2 & Hr2 & Hp2 & Hw2 & W2 & L2 & E2).
  destruct S2 as (Sn & Si & Ss & Sit & Ssl).
  assert (C2 : closed (items l2) = false) by congruence.
  destruct (r =? 44).
  { mstep emit_spec.
    - unfold inb in *. lia.
    - unfold inb in B2. exact (proj2 B2).
    - exact C2.
    - intros _ l3 (_ & _ & _ & _ & _ & _ & v & _ & Hit). apply post_ret.
      eexists. unfold sent_more. rewrite Hit. cbn [sent].
      rewrite Sit, Kit. reflexivity. }
  destruct ((r =? 102) || (r =? 70)).
  { mstep backup_spec.
    { rewrite I2. unfold inb in *. lia. }
    intros _ l3 ((_ & _ & _ & Sit3 & _) & _). apply post_ret.
    exists []. unfold sent_more. rewrite app_nil_r. congruence. }
  eapply post_mono; [apply errorf_more; exact C2|].
  cbv beta. intros o l3 (_ & _ & M). eexists. unfold sent_more in *.
  rewrite M, Sit, Kit. reflexivity.
Qed.

(** [lexValueExprList], entered with the cursor at a number that
    [scanNumber] accepts up to [n] bytes, sends the Number item of these
    bytes. *)
Lemma lexValueExprList_number l n :
  inb l -> closed (items l) = false ->
  1 <= n -> pos l + n <= len (input l) ->
  (rn (input l) (pos l) = 43 \/ rn (input l) (pos l) = 45
   \/ 48 <= rn (input l) (pos l) <= 57) ->
  (forall l1, inb l1 -> input l1 = input l -> pos l1 = pos l ->
     post scanNumber l1 (fun b l2 =>
       b = true /\ cursor_at l1 (pos l + n) l2)) ->
  post lexValueExprList_fn l (fun _ l' =>
    exists v more,
      slice (input l) (pos l) (pos l + n) = Some v /\
      sent_more l l' (item.mk itemNumber (pos l) v (startLine l) :: more)).
Proof.
  intros Hb C Hn Hfit Hr Hscan. unfold lexValueExprList_fn, skipWhitespace.
  assert (C0 : cursor_at l (pos l) l) by (split; [apply steady_refl|reflexivity]).
  apply post_bind.
  mstep acceptRun_no; [eassumption|exact Hb|rewrite in_spaceChars; lia|].
  intros _ l0 ((Sn0 & Si0 & Ss0 & Sit0 & Ssl0) & P0).
  unfold post at 1. cbv beta iota.
  set (l1 := set_start (pos l0) l0).
  assert (Hl1 : name l1 = name l /\ input l1 = input l /\ pos l1 = pos l /\
                start l1 = pos l /\ items l1 = items l /\
                startLine l1 = startLine l)
    by (subst l1; cbn; repeat split; congruence).
  clearbody l1. destruct Hl1 as (N1 & I1 & P1 & St1 & It1 & Sl1).
  assert (Hb1 : inb l1) by (unfold inb in *; rewrite I1, P1; exact Hb).
  mstep next_full; [assumption|].
  intros r l2 (S2 & B2 & I2 & Hr2 & Hp2 & Hw2 & W2 & L2 & E2).
  rewrite I1, P1 in *.
  replace (r =? 42) with false by lia.
  replace (r =? 39) with false by lia.
  replace ((r =? 43) || (r =? 45) || (48 <=? r) && (r <=? 57)) with true by lia.
  mstep backup_spec.
  { rewrite I2. unfold inb in *. lia. }
  intros _ l3 (S3 & P3).
  assert (S13 : steady l1 l3) by (eapply steady_trans; eassumption).
  destruct S13 as (N3 & I3 & St3 & It3 & Sl3).
  assert (Hp3 : pos l3 = pos l) by lia.
  assert (Hb3 : inb l3) by (unfold inb in *; rewrite I3, I1, Hp3; exact Hb).
  mstep Hscan; [assumption|congruence|assumption|].
  intros ? l4 (-> & (N4 & I4 & St4 & It4 & Sl4) & P4). cbn [negb].
  mstep emit_spec.
  - rewrite St4, St3, St1, P4. unfold inb in Hb. lia.
  - rewrite I4, I3, I1, P4. exact Hfit.
  - congruence.
  - intros _ l5 (I5 & _ & P5 & _ & _ & _ & v & Hv & Hit).
    rewrite St4, St3, St1, P4, I4, I3, I1, Sl4, Sl3, Sl1 in *.
    eapply post_mono.
    + apply afterValueExpr_more.
      * unfold inb in *. rewrite ?I5, ?P5, ?P4. lia.
      * rewrite Hit. reflexivity.
    + cbv beta. intros _ l6 (more & M). exists v, more.
      split; [exact Hv|]. unfold sent_more in *. rewrite M, Hit. cbn [sent].
      rewrite It4, It3, It1, <- app_assoc. reflexivity.
Qed.

(** C10, as amended: a lone sign, or [0] and the letter of a base,
    followed by a rune that is neither a letter, a digit or an underscore
    nor a dot, is a number for [scanNumber], which stops after it; and
    [lexValueExprList], entered with the cursor at it, sends the Number
    item of just these bytes.  So do the scans of the statements whose
    value expression is a sign or a prefix. *)
Theorem number_without_digits nm l n :
  inb l -> closed (items l) = false ->
  bare_number (input l) (pos l) n ->
  isAlphaNumeric (rn (input l) (pos l + n)) = false ->
  rn (input l) (pos l + n) <> 46 ->
  (exists l', scanNumber l = Ok true l' /\ cursor_at l (pos l + n) l') /\
  (exists o l' v more,
     lexValueExprList_fn l = Ok o l' /\
     slice (input l) (pos l) (pos l + n) = Some v /\
     sent_more l l' (item.mk itemNumber (pos l) v (startLine l) :: more)) /\
  Forall (fun lit =>
            exists l, lex nm (select_from_t lit) = Ok tt l /\
                      sent (items l) = items_of_select itemNumber lit)
         ["+"; "-"; "0x"; "0X"; "0o"; "0O"; "0b"; "0B"].
Proof.
  intros Hb C Hbare Ha Hd.
  destruct (bare_number_fits _ _ _ Hb Hbare) as (Hn & Hfit & Hr).
  split; [|split].
  - pose proof (scanNumber_bare l n Hb Hbare Ha Hd) as H.
    apply post_Ok in H. destruct H as (b & l' & E & -> & H). eauto.
  - assert (H : post lexValueExprList_fn l (fun _ l' =>
      exists v more,
        slice (input l) (pos l) (pos l + n) = Some v /\
        sent_more l l' (item.mk itemNumber (pos l) v (startLine l) :: more))).
    { apply lexValueExprList_number; try assumption.
      intros l1 Hb1 I1 P1. rewrite <- P1.
      apply scanNumber_bare; rewrite ?I1, ?P1; assumption. }
    apply post_Ok in H. destruct H as (o & l' & E & v & more & H1 & H2).
    exists o, l', v, more. auto.
  - repeat constructor; run_lex; reflexivity.
Qed.

(* ================================================================== *)
(** ** String literals and identifiers *)

Lemma string_body_fun s p q :
  string_body s p q -> forall q', string_body s p q' -> q = q'.
Proof.
  induction 1 as [p H1 H2|p q H1 H2 H3 IH|p q H1 H2 H3 H4 IH|p q H1 H2 H3 H4 H5 IH];
    intros q' H'; inversion H'; subst; unfold eof in *;
    try congruence; try (apply IH; assumption).
Qed.

(** C7: at a quote, [scanString] succeeds exactly when the literal
    closes, that is when the runes after the quote form a [string_body]:
    a backslash escapes the rune after it, which is neither the end of
    the input nor a newline, a quote followed by a quote is an embedded
    quote, a quote followed by anything else closes the literal, and the
    end of the input or a newline that is not escaped closes nothing.  On
    success the cursor is after the closing quote.  The value expression
    'ab''c' is one String item; literals that do not close, or that
    escape the end of the input or a newline, fail. *)
Theorem scanString_closes nm l :
  inb l -> rn (input l) (pos l) = 39 ->
  (exists b l',
     scanString l = Ok b l' /\ steady l l' /\
     (b = true <-> exists q, string_body (input l) (pos l + 1) q) /\
     (b = true ->
      string_body (input l) (pos l + 1) (pos l') /\
      forall q, string_body (input l) (pos l + 1) q -> q = pos l')) /\
  (exists l2, lex nm (select_from_t "'ab''c'") = Ok tt l2 /\
              sent (items l2) = items_of_select itemString "'ab''c'") /\
  Forall (fun s => exists l', scanString (fresh nm s) = Ok false l')
         [ "'ab"; "'ab\";
           ("'a" ++ newline ++ "b'")%string;
           ("'a\" ++ newline ++ "b'")%string ] /\
  Forall (fun s => exists l', scanString (fresh nm s) = Ok true l' /\
                              pos l' = len s)
         [ "'ab''c'"; "'a\'b'"; "''" ].
Proof.
  intros Hb Hq. split; [|split; [|split]].
  - destruct (width_ascii (input l) (pos l) Hb) as (W & L); [lia|].
    pose proof (scanString_spec l Hb) as H. apply post_Ok in H.
    destruct H as (b & l' & E & S1 & P & M & D). rewrite W in D.
    exists b, l'. split; [assumption|]. split; [assumption|].
    destruct D as [(D & _)|(_ & [(-> & D)|(-> & D)])]; [congruence| |].
    + split; [split; [eauto|reflexivity]|]. intros _. split; [assumption|].
      intros q Hq'. eapply string_body_fun; eassumption.
    + split; [|discriminate]. split; [discriminate|].
      intros (q & Hq'). exfalso. eapply D. eassumption.
  - run_lex. reflexivity.
  - repeat constructor; eexists; vm_compute; reflexivity.
  - repeat constructor;
      (eexists; split; [vm_compute; reflexivity|reflexivity]).
Qed.

(** C5, as amended: [scanIdentifier] succeeds exactly when the first rune
    is a letter of the alphabet a-z, A-Z or an underscore, any number of
    these letters, of the digits 0-9 and of underscores follow, and the
    rune after this run is neither an underscore, nor a letter or a digit
    of Unicode.  On success the cursor is at the end of the run.  On a
    failure for the first rune the cursor has not moved; on a failure for
    the rune after the run the cursor is after that rune. *)
Theorem scanIdentifier_accepts l :
  inb l ->
  exists b l',
    scanIdentifier l = Ok b l' /\ steady l l' /\
    (b = true <->
     exists q, identifier_at (in_set chars) (in_set charsAndDigits)
                 isAlphaNumeric (input l) (pos l) q) /\
    (b = true ->
     identifier_at (in_set chars) (in_set charsAndDigits) isAlphaNumeric
       (input l) (pos l) (pos l')) /\
    (b = false ->
     (in_set chars (rn (input l) (pos l)) = false /\ pos l' = pos l)
     \/ (exists q,
           in_set chars (rn (input l) (pos l)) = true /\
           run_of (in_set charsAndDigits) (input l)
                  (pos l + wd (input l) (pos l)) q /\
           in_set charsAndDigits (rn (input l) q) = false /\
           isAlphaNumeric (rn (input l) q) = true /\
           pos l' = q + wd (input l) q)).
Proof.
  intros Hb. pose proof (scanIdentifier_spec l Hb) as H. apply post_Ok in H.
  destruct H as (b & l' & E & S1 & D).
  exists b, l'. split; [assumption|]. split; [assumption|].
  destruct D as [(C & -> & P)|(C & q & R & C' & Hq & D)].
  - split; [|split; [discriminate|]].
    + split; [discriminate|]. intros (q & F & _). congruence.
    + intros _. left. auto.
  - assert (Uniq : forall q',
              identifier_at (in_set chars) (in_set charsAndDigits)
                isAlphaNumeric (input l) (pos l) q' -> q' = q).
    { intros q' (_ & R' & A').
      eapply run_of_unique; try eassumption.
      apply not_in_alnum_set; [vm_compute; reflexivity|assumption]. }
    destruct D as [(A & -> & P)|(A & -> & P)].
    + split; [|split; [discriminate|]].
      * split; [discriminate|]. intros (q' & F).
        pose proof (Uniq _ F). subst q'. destruct F as (_ & _ & F). congruence.
      * intros _. right. exists q. auto.
    + split; [|split; [|discriminate]].
      * split; [|reflexivity]. intros _. exists q. unfold identifier_at. auto.
      * intros _. rewrite P. unfold identifier_at. auto.
Qed.

(* ================================================================== *)
(** ** Keywords *)




Lemma ascii_keyword keyword it nextAction :
  is_keyword_state keyword it nextAction ->
  Forall (fun u => 0 <= u < 128) (runes_of (strings.ToUpper keyword)) /\
  Forall (fun u => 0 <= u < 128) (runes_of (strings.ToLower keyword)) /\
  List.length (runes_of (strings.ToLower keyword))
  = List.length (runes_of (strings.ToUpper keyword)) /\
  Z.of_nat (List.length (runes_of (strings.ToLower keyword))) = len keyword.
Proof.
  intros [(-> & _)|(-> & _)];
    repeat match goal with
           | |- context [runes_of ?s] =>
               let v := eval vm_compute in (runes_of s) in
               change (runes_of s) with v
           end;
    (split; [|split; [|split; reflexivity]]); repeat constructor; lia.
Qed.



(* ================================================================== *)
(** ** The line counter *)

Lemma next_line l :
  inb l ->
  post next l (fun r l' => line l' = line l + (if r =? 10 then 1 else 0)).
Proof.
  intros Hb. unfold inb in Hb. unfold post, next, slice_from.
  destruct (len (input l) <=? pos l) eqn:E.
  - cbn. lia.
  - replace ((0 <=? pos l) && (pos l <=? len (input l))) with true by lia.
    destruct (utf8.DecodeRuneInString _) as [r w].
    destruct (r =? 10); cbn; lia.
Qed.

Lemma backup_line l :
  (width l = 1 -> 1 <= pos l <= len (input l)) ->
  post backup l (fun _ l' =>
    line l' = line l
              - (if (width l =? 1)
                    && match index (input l) (pos l - width l) with
                       | Some b => b =? 10
                       | None => false
                       end
                 then 1 else 0)).
Proof.
  intros Hw. pose proof (backup_spec l Hw) as P.
  unfold post, backup in *. cbn in *.
  destruct (width l =? 1); [|cbn; lia].
  destruct (index (input l) (pos l - width l)) as [b|]; [|contradiction].
  cbn. destruct (b =? 10); cbn; lia.
Qed.

(** [next] with everything it changes. *)
Lemma next_all l :
  inb l ->
  post next l (fun r l' =>
    steady l l' /\ inb l' /\
    r = rn (input l) (pos l) /\
    pos l' = pos l + wd (input l) (pos l) /\
    width l' = wd (input l) (pos l) /\
    line l' = line l + (if rn (input l) (pos l) =? 10 then 1 else 0)).
Proof.
  intros Hb.
  eapply post_mono; [apply post_and; [apply (next_full l Hb)|apply (next_line l Hb)]|].
  cbv beta. intros r l' ((S1 & B1 & I1 & -> & P1 & W1 & _) & L1).
  split; [assumption|]. split; [assumption|]. split; [reflexivity|].
  split; [assumption|]. split; assumption.
Qed.

(** [backup], called after the [next] that read the rune at [p], undoes
    what that [next] did to the cursor and to the line counter. *)
Lemma backup_undoes l p :
  0 <= p <= len (input l) ->
  pos l = p + wd (input l) p -> width l = wd (input l) p ->
  post backup l (fun _ l' =>
    steady l l' /\ pos l' = p /\
    line l' = line l - (if rn (input l) p =? 10 then 1 else 0)).
Proof.
  intros Hp P W. pose proof (rune_at_bounds _ _ Hp) as F.
  assert (Hw : width l = 1 -> 1 <= pos l <= len (input l)) by lia.
  eapply post_mono;
    [apply post_and; [apply (backup_spec l Hw)|apply (backup_line l Hw)]|].
  cbv beta. intros _ l' ((S1 & P1) & L1).
  split; [assumption|]. split; [lia|].
  rewrite L1. replace (pos l - width l) with p by lia.
  rewrite (newline_rune _ _ Hp), W. reflexivity.
Qed.


Lemma post_at {A} (m : M A) l (Q : A -> lexer -> Prop) a l' :
  post m l Q -> m l = Ok a l' -> Q a l'.
Proof. unfold post. intros H E. rewrite E in H. exact H. Qed.

Lemma bind_Ok {A B} (m : M A) (k : A -> M B) l b l' :
  bind m k l = Ok b l' -> exists a l1, m l = Ok a l1 /\ k a l1 = Ok b l'.
Proof.
  unfold bind. destruct (m l) as [a l1| |]; try discriminate. eauto.
Qed.

Lemma post_of {A} (m : M A) l (P Q : A -> lexer -> Prop) :
  post m l P -> (forall a l', m l = Ok a l' -> P a l' -> Q a l') -> post m l Q.
Proof.
  unfold post. destruct (m l) as [a l'| |]; try contradiction. auto.
Qed.

Lemma counted_next l l' :
  inb l -> counted l -> input l' = input l ->
  pos l' = pos l + wd (input l) (pos l) ->
  line l' = line l + (if rn (input l) (pos l) =? 10 then 1 else 0) ->
  counted l'.
Proof.
  unfold counted. intros Hb C I P L. rewrite L, I, P, C.
  symmetry. apply line_at_step. exact Hb.
Qed.

Lemma counted_back l l' p :
  0 <= p <= len (input l) -> counted l -> input l' = input l ->
  pos l = p + wd (input l) p -> pos l' = p ->
  line l' = line l - (if rn (input l) p =? 10 then 1 else 0) ->
  counted l'.
Proof.
  unfold counted. intros Hp C I P P' L. rewrite L, I, P', C, P.
  rewrite (line_at_step _ _ Hp). lia.
Qed.

(** [peek] changes neither the cursor nor the line counter. *)
Lemma peek_all l :
  inb l ->
  post peek l (fun r l' =>
    steady l l' /\ r = rn (input l) (pos l) /\ pos l' = pos l /\
    line l' = line l).
Proof.
  intros Hb. unfold peek.
  mstep next_all; [assumption|]. intros r l1 (S1 & B1 & -> & P1 & W1 & L1).
  assert (I1 : input l1 = input l) by apply S1.
  apply post_bind. eapply post_mono.
  - apply (backup_undoes l1 (pos l)); rewrite I1; assumption.
  - cbv beta. intros _ l2 (S2 & P2 & L2). apply post_ret.
    split; [eapply steady_trans; eassumption|]. split; [reflexivity|].
    split; [assumption|]. rewrite L2, I1, L1. lia.
Qed.

(** [accept] with everything it changes. *)
Lemma accept_all valid l :
  inb l ->
  post (accept valid) l (fun b l' =>
    steady l l' /\
    b = in_set valid (rn (input l) (pos l)) /\
    pos l' = (if b then pos l + wd (input l) (pos l) else pos l) /\
    line l' = (if b then line l + (if rn (input l) (pos l) =? 10 then 1 else 0)
               else line l)).
Proof.
  intros Hb. unfold accept.
  mstep next_all; [assumption|]. intros r l1 (S1 & B1 & -> & P1 & W1 & L1).
  assert (I1 : input l1 = input l) by apply S1.
  destruct (in_set valid _) eqn:C.
  - apply post_ret. split; [assumption|]. split; [reflexivity|].
    split; assumption.
  - apply post_bind. eapply post_mono.
    + apply (backup_undoes l1 (pos l)); rewrite I1; assumption.
    + cbv beta. intros _ l2 (S2 & P2 & L2). apply post_ret.
      split; [eapply steady_trans; eassumption|]. split; [reflexivity|].
      split; [assumption|]. rewrite L2, I1, L1. lia.
Qed.

Lemma tracks_ret {A} (a : A) : tracks (ret a).
Proof.
  intros l H C. apply post_ret. split; [apply adv_refl|]; assumption.
Qed.

Lemma tracks_bind {A B} (m : M A) (k : A -> M B) :
  tracks m -> (forall a, tracks (k a)) -> tracks (bind m k).
Proof.
  intros Hm Hk l Hl C. apply post_bind.
  eapply post_mono; [apply Hm; assumption|]. cbv beta. intros a l1 (A1 & C1).
  eapply post_mono; [apply Hk; [eapply adv_inb; eassumption|assumption]|].
  cbv beta. intros b l2 (A2 & C2).
  split; [eapply adv_trans; eassumption|assumption].
Qed.

Lemma tracks_next : tracks next.
Proof.
  intros l H C.
  eapply post_mono; [apply post_and; [apply (advances_next l H)|apply (next_all l H)]|].
  cbv beta. intros r l' (A1 & S1 & B1 & _ & P1 & W1 & L1).
  split; [assumption|]. apply (counted_next l l'); try assumption. apply S1.
Qed.

Lemma tracks_peek : tracks peek.
Proof.
  intros l H C.
  eapply post_mono; [apply post_and; [apply (advances_peek l H)|apply (peek_all l H)]|].
  cbv beta. intros r l' (A1 & S1 & _ & P1 & L1).
  split; [assumption|]. unfold counted in *.
  destruct S1 as (_ & I & _). rewrite L1, I, P1. assumption.
Qed.

Lemma tracks_accept valid : tracks (accept valid).
Proof.
  intros l H C.
  eapply post_mono;
    [apply post_and; [apply (advances_accept valid l H)|apply (accept_all valid l H)]|].
  cbv beta. intros b l' (A1 & S1 & _ & P1 & L1).
  split; [assumption|]. destruct b.
  - apply (counted_next l l'); try assumption. apply S1.
  - unfold counted in *. destruct S1 as (_ & I & _). rewrite L1, I, P1.
    assumption.
Qed.

Lemma acceptRun_loop_counted valid n : forall l a l',
  inb l -> counted l -> acceptRun_loop n valid l = Ok a l' ->
  counted l' /\
  exists q, 0 <= q <= len (input l) /\ input l' = input l /\
    pos l' = q + wd (input l) q /\ width l' = wd (input l) q /\
    in_set valid (rn (input l) q) = false.
Proof.
  induction n as [|n IH]; intros l a l' Hb C E; [discriminate|].
  cbn [acceptRun_loop] in E. apply bind_Ok in E.
  destruct E as (r & l1 & E1 & E2).
  pose proof (post_at _ _ _ _ _ (next_all l Hb) E1)
    as (S1 & B1 & -> & P1 & W1 & L1).
  assert (I1 : input l1 = input l) by apply S1.
  assert (C1 : counted l1) by (apply (counted_next l l1); assumption).
  destruct (in_set valid _) eqn:V.
  - destruct (IH _ _ _ B1 C1 E2) as (C2 & q & Hq & I2 & P2 & W2 & V2).
    rewrite I1 in *. split; [assumption|]. exists q. auto 10.
  - injection E2 as <- <-. split; [assumption|]. exists (pos l). auto 10.
Qed.

Lemma tracks_acceptRun valid : tracks (acceptRun valid).
Proof.
  intros l H C.
  eapply post_of; [apply (advances_acceptRun valid l H)|].
  intros a l' E A. split; [assumption|].
  unfold acceptRun in E. apply bind_Ok in E. destruct E as ([] & l1 & E1 & E2).
  destruct (acceptRun_loop_counted _ _ _ _ _ H C E1)
    as (C1 & q & Hq & I1 & P1 & W1 & V1).
  assert (U : post backup l1 (fun _ l2 =>
            steady l1 l2 /\ pos l2 = q /\
            line l2 = line l1 - (if rn (input l1) q =? 10 then 1 else 0)))
    by (apply backup_undoes; rewrite I1; assumption).
  pose proof (post_at _ _ _ _ _ U E2) as (S2 & P2 & L2).
  eapply (counted_back l1 l' q); try eassumption; try (rewrite I1; assumption).
  apply S2.
Qed.

Ltac tracks_tac :=
  repeat first
    [ apply tracks_ret | apply tracks_accept | apply tracks_acceptRun
    | apply tracks_peek | apply tracks_next
    | apply tracks_bind; [|intros ?]
    | match goal with |- tracks (if ?b then _ else _) => destruct b end ].

Lemma scanNumber_tracks : tracks scanNumber.
Proof. unfold scanNumber. tracks_tac. Qed.

Lemma scanIdentifier_tracks : tracks scanIdentifier.
Proof. unfold scanIdentifier. tracks_tac. Qed.


(** What [next] gives, read off a call that returned. *)
Lemma next_Ok l r l1 :
  inb l -> counted l -> next l = Ok r l1 ->
  inb l1 /\ counted l1 /\ input l1 = input l /\
  r = rn (input l) (pos l) /\ pos l1 = pos l + wd (input l) (pos l) /\
  width l1 = wd (input l) (pos l).
Proof.
  intros Hb C E.
  pose proof (post_at _ _ _ _ _ (next_all l Hb) E)
    as (S1 & B1 & -> & P1 & W1 & L1).
  assert (I1 : input l1 = input l) by apply S1.
  split; [assumption|]. split; [apply (counted_next l l1); assumption|].
  auto.
Qed.

(** What [backup] gives after the [next] that read the rune at [p]. *)
Lemma backup_Ok l p a l' :
  0 <= p <= len (input l) -> counted l ->
  pos l = p + wd (input l) p -> width l = wd (input l) p ->
  backup l = Ok a l' ->
  counted l' /\ input l' = input l /\ pos l' = p.
Proof.
  intros Hp C P W E.
  pose proof (post_at _ _ _ _ _ (backup_undoes l p Hp P W) E) as (S2 & P2 & L2).
  assert (I2 : input l' = input l) by apply S2.
  split; [apply (counted_back l l' p); assumption|]. auto.
Qed.

Lemma scanString_loop_counted n : forall l b l',
  inb l -> counted l -> scanString_loop n l = Ok b l' -> counted l'.
Proof.
  induction n as [|n IH]; intros l b l' Hb C E; [discriminate|].
  cbn [scanString_loop] in E. apply bind_Ok in E.
  destruct E as (r & l1 & E1 & E2).
  destruct (next_Ok _ _ _ Hb C E1) as (B1 & C1 & I1 & -> & P1 & W1).
  destruct (_ =? 92).
  - apply bind_Ok in E2. destruct E2 as (r' & l2 & E3 & E4).
    destruct (next_Ok _ _ _ B1 C1 E3) as (B2 & C2 & I2 & -> & P2 & W2).
    destruct (_ && _).
    + eapply IH; eassumption.
    + injection E4 as <- <-. assumption.
  - destruct (_ || _).
    { injection E2 as <- <-. assumption. }
    destruct (_ =? 39).
    + apply bind_Ok in E2. destruct E2 as (r' & l2 & E3 & E4).
      destruct (next_Ok _ _ _ B1 C1 E3) as (B2 & C2 & I2 & -> & P2 & W2).
      destruct (negb _).
      * apply bind_Ok in E4. destruct E4 as ([] & l3 & E5 & E6).
        injection E6 as <- <-.
        assert (Hp : 0 <= pos l1 <= len (input l2)) by (rewrite I2; exact B1).
        rewrite <- I2 in P2, W2.
        apply (backup_Ok l2 (pos l1) tt l3 Hp C2 P2 W2 E5).
      * eapply IH; eassumption.
    + eapply IH; eassumption.
Qed.

Lemma scanString_tracks : tracks scanString.
Proof.
  intros l H C. eapply post_of; [apply (scanString_adv l H)|].
  intros b l' E (A & _). split; [assumption|].
  unfold scanString in E. apply bind_Ok in E. destruct E as (r & l1 & E1 & E2).
  destruct (next_Ok _ _ _ H C E1) as (B1 & C1 & I1 & -> & P1 & W1).
  destruct (negb _).
  - apply bind_Ok in E2. destruct E2 as ([] & l2 & E3 & E4).
    injection E4 as <- <-.
    assert (Hp : 0 <= pos l <= len (input l1)) by (rewrite I1; exact H).
    rewrite <- I1 in P1, W1.
    apply (backup_Ok l1 (pos l) tt l2 Hp C1 P1 W1 E3).
  - eapply scanString_loop_counted; eassumption.
Qed.


(* ================================================================== *)
(** ** Lines, kinds and texts of the items sent *)

Lemma stamp_snoc inp t : forall toks cur,
  stamp inp cur (toks ++ [t]) = line_at inp (item_end t).
Proof. induction toks as [|x toks IH]; intros cur; cbn; auto. Qed.

Lemma lined_snoc inp t : forall toks cur,
  lined inp cur toks -> item.line t = stamp inp cur toks ->
  lined inp cur (toks ++ [t]).
Proof.
  induction toks as [|x toks IH]; intros cur H E; cbn in *.
  - auto.
  - destruct H as [H1 H2]. split; [assumption|]. apply IH; assumption.
Qed.

Lemma lined_nth inp : forall toks cur i t t',
  lined inp cur toks ->
  nth_error toks i = Some t -> nth_error toks (S i) = Some t' ->
  item.line t' = line_at inp (item_end t).
Proof.
  induction toks as [|x toks IH]; intros cur i t t' H Hi Hj.
  - destruct i; discriminate.
  - destruct H as [H1 H2]. destruct i as [|i].
    + cbn in Hi. injection Hi as <-. destruct toks as [|y toks]; [discriminate|].
      cbn in Hj. injection Hj as <-. apply H2.
    + eapply IH; eassumption.
Qed.

Lemma value_list_snoc vs v :
  value_list vs -> value_kind v -> value_list (vs ++ [itemComma; v]).
Proof.
  induction 1 as [x Hx|x rest Hx Hr IH]; intros Hv; cbn.
  - apply value_more; [assumption|apply value_one; assumption].
  - apply value_more; [assumption|apply IH; assumption].
Qed.

(** The kinds sent at each place of a statement, from the first item. *)
Lemma kinds_at_shape q ks :
  kinds_at q ks ->
  match q with
  | expect_select => ks = []
  | expect_value =>
      ks = [itemSelect]
      \/ exists vs, value_list vs /\ ks = itemSelect :: vs ++ [itemComma]
  | after_value => exists vs, value_list vs /\ ks = itemSelect :: vs
  | expect_table =>
      exists vs, value_list vs /\ ks = itemSelect :: vs ++ [itemFrom]
  | expect_end =>
      exists vs, value_list vs /\
        ks = itemSelect :: vs ++ [itemFrom; itemIdentifier]
  | finished => statement_kinds ks
  end.
Proof.
  induction 1 as [| |ks v H IH Hv|ks H IH|ks H IH|ks H IH|ks H IH]; cbn in *.
  - reflexivity.
  - left. reflexivity.
  - destruct IH as [->|(vs & Hvs & ->)].
    + exists [v]. split; [apply value_one; assumption|reflexivity].
    + exists (vs ++ [itemComma; v]). split; [apply value_list_snoc; assumption|].
      cbn. rewrite <- app_assoc. reflexivity.
  - destruct IH as (vs & Hvs & ->). right. exists vs. auto.
  - destruct IH as (vs & Hvs & ->). exists vs. auto.
  - destruct IH as (vs & Hvs & ->). exists vs. split; [assumption|].
    cbn. rewrite <- app_assoc. reflexivity.
  - destruct IH as (vs & Hvs & ->). exists vs. split; [assumption|].
    cbn. rewrite <- app_assoc. reflexivity.
Qed.

(** The kinds sent at a place where the statement is not finished can be
    completed to the kinds of a statement. *)
Lemma kinds_at_prefix q ks :
  kinds_at q ks -> q <> finished ->
  exists rest, statement_kinds (ks ++ rest).
Proof.
  intros H Hq. pose proof (kinds_at_shape q ks H) as S.
  assert (Star : value_kind itemStar) by (left; reflexivity).
  destruct q; try contradiction.
  - subst ks. exists [itemSelect; itemStar; itemFrom; itemIdentifier; itemEOF].
    exists [itemStar]. split; [apply value_one; assumption|reflexivity].
  - destruct S as [->|(vs & Hvs & ->)].
    + exists [itemStar; itemFrom; itemIdentifier; itemEOF].
      exists [itemStar]. split; [apply value_one; assumption|reflexivity].
    + exists [itemStar; itemFrom; itemIdentifier; itemEOF].
      exists (vs ++ [itemComma; itemStar]).
      split; [apply value_list_snoc; assumption|].
      cbn. rewrite <- !app_assoc. reflexivity.
  - destruct S as (vs & Hvs & ->).
    exists [itemFrom; itemIdentifier; itemEOF]. exists vs. auto.
  - destruct S as (vs & Hvs & ->).
    exists [itemIdentifier; itemEOF]. exists vs. split; [assumption|].
    cbn. rewrite <- !app_assoc. reflexivity.
  - destruct S as (vs & Hvs & ->).
    exists [itemEOF]. exists vs. split; [assumption|].
    cbn. rewrite <- !app_assoc. reflexivity.
Qed.

Lemma kinds_at_used q ks :
  kinds_at q ks ->
  Forall (fun k => k <> itemKeyword /\ k <> itemSemicolon /\ k <> itemError) ks.
Proof.
  induction 1 as [| |ks v H IH Hv|ks H IH|ks H IH|ks H IH|ks H IH];
    try apply Forall_app; try split; try assumption;
    repeat constructor; try discriminate;
    destruct Hv as [->|[->|[->| ->]]]; discriminate.
Qed.


(** A rune below [RuneSelf] is one byte, the byte at its position. *)
Lemma rune_byte s p :
  0 <= p <= len s -> 0 <= rn s p < 128 ->
  wd s p = 1 /\ index s p = Some (rn s p) /\ p < len s.
Proof.
  intros Hp Hr.
  destruct (rune_at_facts s p Hp) as [[H1 H2]|(H1 & H2 & H3 & H4 & H5)].
  - rewrite H2 in Hr. cbn in Hr. unfold eof in Hr. lia.
  - destruct (H5 ltac:(lia)) as [W I]. auto.
Qed.

Lemma single_text s p v r :
  0 <= p <= len s -> rn s p = r -> 0 <= r < 128 ->
  slice s p (p + wd s p) = Some v ->
  v = String (ascii_of_N (Z.to_N r)) EmptyString.
Proof.
  intros Hp <- Hr Hv.
  destruct (rune_byte s p Hp Hr) as (W & I & _). rewrite W in Hv.
  eapply slice_single; eassumption.
Qed.

Lemma line_at_same s p :
  0 <= p <= len s -> rn s p <> 10 -> line_at s (p + wd s p) = line_at s p.
Proof.
  intros Hp Hr. rewrite (line_at_step s p Hp).
  destruct (Z.eqb_spec (rn s p) 10); [contradiction|lia].
Qed.

(** A string body holds no newline, is not empty and ends with the
    closing quote. *)
Lemma string_body_line s p q :
  string_body s p q -> 0 <= p <= len s ->
  p < q <= len s /\ line_at s q = line_at s p /\ index s (q - 1) = Some 39.
Proof.
  induction 1 as [p H1 H2|p q H1 H2 H3 IH|p q H1 H2 H3 H4 IH|p q H1 H2 H3 H4 H5 IH];
    intros Hp; pose proof (line_at_same s p Hp) as L;
    pose proof (rune_at_bounds s p Hp) as (B1 & B2 & B3).
  - destruct (rune_byte s p Hp ltac:(lia)) as (W & I & Hlt).
    specialize (L ltac:(lia)).
    rewrite W, H1 in *. replace (p + 1 - 1) with p by lia.
    split; [lia|]. split; [lia|assumption].
  - destruct (rune_byte s p Hp ltac:(lia)) as (W & I & Hlt).
    specialize (L ltac:(lia)).
    assert (Hp1 : 0 <= p + wd s p <= len s) by lia.
    pose proof (line_at_same s _ Hp1 ltac:(lia)) as L1.
    destruct (rune_byte s _ Hp1 ltac:(lia)) as (W1 & I1 & Hlt1).
    destruct (IH ltac:(lia)) as (Q1 & Q2 & Q3).
    split; [lia|]. split; [lia|assumption].
  - specialize (L ltac:(lia)). specialize (B3 ltac:(lia)).
    assert (Hp1 : 0 <= p + wd s p <= len s) by lia.
    pose proof (line_at_same s _ Hp1 ltac:(lia)) as L1.
    pose proof (rune_at_bounds s _ Hp1) as (C1 & C2 & C3).
    destruct (IH ltac:(lia)) as (Q1 & Q2 & Q3).
    split; [lia|]. split; [lia|assumption].
  - specialize (L ltac:(lia)).
    assert (0 <= rn s p).
    { destruct (rune_at_facts s p Hp) as [[E1 E2]|(E1 & E2 & E3 & E4 & E5)];
        [rewrite E2 in H4; cbn in H4; congruence|assumption]. }
    specialize (B3 ltac:(lia)).
    destruct (IH ltac:(lia)) as (Q1 & Q2 & Q3).
    split; [lia|]. split; [lia|assumption].
Qed.

(** The text [scanString] accepts. *)
Lemma quoted_text s p q v :
  0 <= p <= len s -> rn s p = 39 -> string_body s (p + wd s p) q ->
  slice s p q = Some v -> quoted v.
Proof.
  intros Hp Hr Hbody Hv.
  destruct (rune_byte s p Hp ltac:(lia)) as (W & I & Hlt).
  pose proof (line_at_same s p Hp ltac:(lia)) as L.
  rewrite W, Hr in *.
  destruct (string_body_line _ _ _ Hbody ltac:(lia)) as (Q1 & Q2 & Q3).
  pose proof (slice_len _ _ _ _ Hv) as Hl.
  unfold quoted. split; [lia|]. split; [|split].
  - rewrite (slice_index _ _ _ _ 0 Hv) by lia. rewrite Z.add_0_r. assumption.
  - rewrite (slice_index _ _ _ _ _ Hv) by lia.
    replace (p + (len v - 1)) with (q - 1) by lia. assumption.
  - rewrite (slice_newlines _ _ _ _ Hv). lia.
Qed.

(** The text [scanIdentifier] accepts. *)
Lemma identifier_text_of s p q v :
  0 <= p <= len s -> in_set chars (rn s p) = true ->
  run_of (in_set charsAndDigits) s (p + wd s p) q ->
  slice s p q = Some v -> identifier_text v = true.
Proof.
  intros Hp Hc Hrun Hv.
  assert (Hr : 0 <= rn s p < 128)
    by (eapply ContainsRune_ascii; [|exact Hc]; reflexivity).
  destruct (rune_byte s p Hp Hr) as (W & I & Hlt). rewrite W in Hrun.
  assert (Hq : p + 1 <= q <= len s).
  { eapply run_of_le; [|exact Hrun|lia]. intros r. apply in_set_nonneg. }
  destruct (slice_cons _ _ _ _ Hv ltac:(lia)) as (c & v' & -> & Hc' & Hv').
  rewrite I in Hc'. injection Hc' as Hc'.
  unfold identifier_text. rewrite <- Hc', Hc. cbn [andb].
  eapply slice_all_bytes; [exact Hv'|].
  apply run_of_bytes; [reflexivity|assumption|lia].
Qed.


(* ================================================================== *)
(** ** The bytes a scanning method consumes *)

Lemma bytes_in_subset a b s p q :
  subset a b -> bytes_in a s p q -> bytes_in b s p q.
Proof.
  intros Hs H i Hi. destruct (H i Hi) as (x & Hx & Hin). eauto.
Qed.

Lemma consumes_ret {A} valid (R : A -> Prop) a : R a -> consumes valid R (ret a).
Proof.
  intros Ha l Hl. apply post_ret. split; [apply adv_refl; assumption|].
  split; [assumption|]. apply bytes_in_nil. lia.
Qed.

Lemma consumes_bind {A B} valid (R1 : A -> Prop) (R2 : B -> Prop)
    (m : M A) (k : A -> M B) :
  consumes valid R1 m -> (forall a, R1 a -> consumes valid R2 (k a)) ->
  consumes valid R2 (bind m k).
Proof.
  intros Hm Hk l Hl. apply post_bind.
  eapply post_mono; [apply Hm; assumption|]. cbv beta.
  intros a l1 (A1 & Ra & B1).
  eapply post_mono; [apply (Hk a Ra); eapply adv_inb; eassumption|].
  cbv beta. intros b l2 (A2 & Rb & B2).
  split; [eapply adv_trans; eassumption|]. split; [assumption|].
  destruct A1 as ((_ & I1 & _) & _). rewrite I1 in B2.
  eapply bytes_in_trans; eassumption.
Qed.

Lemma consumes_accept valid d :
  good_set valid d -> consumes valid (fun _ => True) (accept d).
Proof.
  intros [Ha Hs] l Hl.
  eapply post_mono;
    [apply post_and; [apply (advances_accept d l Hl)|apply (accept_spec d l Hl)]|].
  cbv beta. intros b l' (A1 & S1 & Hb & Hp).
  split; [assumption|]. split; [exact I|].
  destruct b; [|apply bytes_in_nil; lia].
  symmetry in Hb. pose proof (ContainsRune_ascii _ _ Ha Hb) as Hr.
  destruct (rune_byte _ _ Hl Hr) as (W & Ix & _).
  intros i Hi. replace i with (pos l) by lia.
  exists (rn (input l) (pos l)). split; [assumption|]. apply Hs. assumption.
Qed.

Lemma consumes_acceptRun valid d :
  good_set valid d -> consumes valid (fun _ => True) (acceptRun d).
Proof.
  intros [Ha Hs] l Hl.
  eapply post_mono; [apply (acceptRun_spec d l Hl)|].
  cbv beta. intros b l' (S1 & R & Hp & C').
  split; [split; assumption|]. split; [exact I|].
  eapply bytes_in_subset; [exact Hs|].
  apply run_of_bytes; assumption.
Qed.

Lemma consumes_weaken {A} valid (R R' : A -> Prop) (m : M A) :
  consumes valid R m -> (forall a, R a -> R' a) -> consumes valid R' m.
Proof.
  intros H HR l Hl. eapply post_mono; [apply H; assumption|].
  cbv beta. intros a l' (A1 & Ra & B1). auto.
Qed.

Lemma accepts_bind {A} valid (R1 : A -> Prop) (m : M A) (k : A -> M bool) :
  consumes valid R1 m -> (forall a, R1 a -> accepts_from valid (k a)) ->
  accepts_from valid (bind m k).
Proof.
  intros Hm Hk l Hl. apply post_bind.
  eapply post_mono; [apply Hm; assumption|]. cbv beta.
  intros a l1 (A1 & Ra & B1).
  eapply post_mono; [apply (Hk a Ra); eapply adv_inb; eassumption|].
  cbv beta. intros b l2 (A2 & B2).
  split; [eapply adv_trans; eassumption|]. intros Hb.
  destruct A1 as ((_ & I1 & _) & _). rewrite I1 in B2.
  eapply bytes_in_trans; [eassumption|auto].
Qed.

(** The last step of [scanNumber] and of [scanIdentifier]. *)
Lemma accepts_boundary valid :
  accepts_from valid
    (r <- peek ;; if isAlphaNumeric r then next ;;; ret false else ret true).
Proof.
  intros l Hl.
  mstep peek_spec; [assumption|]. intros r l1 (S1 & _ & P1).
  assert (A1 : adv l l1) by (split; [assumption|]; unfold inb in Hl; lia).
  destruct (isAlphaNumeric r).
  - apply post_bind. eapply post_mono;
      [apply advances_next; eapply adv_inb; eassumption|].
    cbv beta. intros _ l2 A2. apply post_ret.
    split; [eapply adv_trans; eassumption|discriminate].
  - apply post_ret. split; [assumption|]. intros _. apply bytes_in_nil. lia.
Qed.

Ltac good :=
  first [ assumption | exact I
        | split; [reflexivity|apply subset_check; reflexivity] ].

Ltac consumes_tac :=
  repeat first
    [ apply consumes_ret; good
    | apply consumes_accept; good
    | apply consumes_acceptRun; good
    | match goal with
      | |- consumes _ _ (if ?b then _ else _) => destruct b
      | |- accepts_from _ (if ?b then _ else _) => destruct b
      end
    | apply accepts_boundary
    | eapply (consumes_bind _ (fun _ => True)); [|intros ? _]
    | eapply (accepts_bind _ (fun _ => True)); [|intros ? _] ].

Lemma scanNumber_bytes : accepts_from number_chars scanNumber.
Proof.
  unfold scanNumber.
  eapply (accepts_bind _ (fun _ => True)); [consumes_tac|intros ? _].
  cbv zeta.
  eapply (accepts_bind _ (fun _ => True)); [consumes_tac|intros is0 _].
  eapply (accepts_bind _ (good_set number_chars)).
  - destruct is0; [|apply consumes_ret; good].
    eapply (consumes_bind _ (fun _ => True)); [consumes_tac|intros isx _].
    destruct isx; [apply consumes_ret; good|].
    eapply (consumes_bind _ (fun _ => True)); [consumes_tac|intros iso _].
    destruct iso; [apply consumes_ret; good|].
    eapply (consumes_bind _ (fun _ => True)); [consumes_tac|intros isb _].
    destruct isb; apply consumes_ret; good.
  - intros digits Hd. consumes_tac.
Qed.

(** The text [scanNumber] accepts when the rune at the cursor is a sign
    or a decimal digit. *)
Lemma number_text_of s p q v :
  0 <= p <= len s ->
  in_set "+-" (rn s p) = true \/ isDigit (rn s p) = true ->
  p < q -> bytes_in number_chars s p q ->
  slice s p q = Some v -> number_text v = true.
Proof.
  intros Hp Hr Hlt Hb Hv.
  assert (Hr' : 0 <= rn s p < 128).
  { destruct Hr as [Hr|Hr].
    - rewrite in_sign in Hr. lia.
    - unfold isDigit in Hr. lia. }
  destruct (rune_byte s p Hp Hr') as (W & Ix & _).
  destruct (slice_cons _ _ _ _ Hv Hlt) as (c & v' & -> & Hc & Hv').
  rewrite Ix in Hc. injection Hc as Hc.
  unfold number_text. rewrite <- Hc.
  apply andb_true_intro. split.
  - destruct Hr as [-> | ->]; [reflexivity|apply orb_true_r].
  - eapply slice_all_bytes; [exact Hv'|]. intros i Hi. apply Hb. lia.
Qed.


(* ================================================================== *)
(** ** The state functions and the items sent *)

Lemma Sent_kept q l l' : kept l l' -> Sent q l -> Sent q l'.
Proof.
  intros (Kn & Ki & Kit & Ksl) (H1 & H2 & H3 & H4).
  unfold Sent, kinds in *. rewrite Ki, Kit, Ksl. auto.
Qed.

Lemma steady_kept l l' : steady l l' -> kept l l'.
Proof. intros (Sn & Si & Ss & Sit & Ssl). unfold kept. auto. Qed.

Lemma Scanning_inb l : Scanning l -> inb l.
Proof. intros (_ & _ & P1 & P2 & _). unfold inb. lia. Qed.

Lemma skip_Ok l a l1 :
  Inv l -> counted l -> skipWhitespace l = Ok a l1 ->
  Scanning l1 /\ start l1 = pos l1 /\ counted l1 /\ kept l l1 /\
  pos l <= pos l1 /\
  in_set spaceChars (rn (input l1) (pos l1)) = false.
Proof.
  intros HI C E.
  assert (Hb : inb l) by apply HI.
  pose proof (post_at _ _ _ _ _ (skipWhitespace_Inv l HI) E)
    as (S1 & St & Hp & Hi & Hn & Hb1 & Hw).
  pose proof (post_at _ _ _ _ _ (skipWhitespace_spec l Hb) E) as (K & _).
  split; [assumption|]. split; [assumption|]. split.
  { unfold skipWhitespace in E. apply bind_Ok in E.
    destruct E as ([] & l0 & E0 & E1). injection E1 as <- <-.
    pose proof (post_at _ _ _ _ _ (tracks_acceptRun spaceChars l Hb C) E0)
      as (_ & C0).
    exact C0. }
  split; [assumption|]. split; [assumption|]. rewrite Hi. assumption.
Qed.

Lemma read_Ok l r l1 :
  Scanning l -> counted l -> next l = Ok r l1 ->
  Scanning l1 /\ counted l1 /\ steady l l1 /\ r = rn (input l) (pos l) /\
  pos l1 = pos l + wd (input l) (pos l) /\
  width l1 = wd (input l) (pos l).
Proof.
  intros HS C E. pose proof (Scanning_inb l HS) as Hb.
  pose proof (post_at _ _ _ _ _ (next_all l Hb) E)
    as (S1 & B1 & -> & P1 & W1 & L1).
  pose proof (rune_at_bounds _ _ Hb) as (F1 & F2 & F3).
  split.
  { eapply Scanning_move; [exact HS|exact S1|].
    destruct HS as (_ & _ & Q1 & _). lia. }
  split; [apply (counted_next l l1); try assumption; apply S1|].
  auto.
Qed.

Lemma unread_Ok l0 l1 a l2 :
  Scanning l0 -> counted l1 -> steady l0 l1 ->
  pos l1 = pos l0 + wd (input l0) (pos l0) ->
  width l1 = wd (input l0) (pos l0) ->
  backup l1 = Ok a l2 ->
  Scanning l2 /\ counted l2 /\ steady l0 l2 /\ pos l2 = pos l0.
Proof.
  intros HS C S1 P1 W1 E. pose proof (Scanning_inb l0 HS) as Hb.
  assert (I1 : input l1 = input l0) by apply S1.
  assert (Hp : 0 <= pos l0 <= len (input l1)) by (rewrite I1; exact Hb).
  rewrite <- I1 in P1, W1.
  pose proof (post_at _ _ _ _ _ (backup_undoes l1 (pos l0) Hp P1 W1) E)
    as (S2 & P2 & L2).
  assert (S02 : steady l0 l2) by (eapply steady_trans; eassumption).
  split.
  { eapply Scanning_move; [exact HS|exact S02|].
    destruct HS as (_ & _ & Q1 & Q2 & _). lia. }
  split; [|auto].
  apply (counted_back l1 l2 (pos l0)); try assumption. apply S2.
Qed.

Lemma scan_Ok {A} (m : M A) l b l1 :
  tracks m -> Scanning l -> counted l -> m l = Ok b l1 ->
  Scanning l1 /\ counted l1 /\ steady l l1 /\ pos l <= pos l1.
Proof.
  intros T HS C E. pose proof (Scanning_inb l HS) as Hb.
  pose proof (post_at _ _ _ _ _ (T l Hb C) E) as ((S1 & P1) & C1).
  split.
  { eapply Scanning_move; [exact HS|exact S1|].
    destruct HS as (_ & _ & Q1 & _). lia. }
  split; [assumption|]. split; [assumption|lia].
Qed.

Lemma emit_Ok t q q' l a l1 :
  Scanning l -> start l < pos l -> counted l -> Sent q l ->
  (forall v, slice (input l) (start l) (pos l) = Some v -> wf_text t v) ->
  (forall ks, kinds_at q ks -> kinds_at q' (ks ++ [t])) ->
  emit t l = Ok a l1 ->
  counted l1 /\ Sent q' l1 /\ pos l1 = pos l /\ input l1 = input l /\
  (t <> itemError -> t <> itemEOF -> Inv l1).
Proof.
  intros HS Hlt C (H1 & H2 & H3 & H4) Hwf Hk E.
  assert (HS' := HS). destruct HS' as (Cl & F & P1 & P2 & _).
  pose proof (post_at _ _ _ _ _ (emit_spec t l P1 P2 Cl) E)
    as (Hi & Hn & Hp & Hs & Hl & Hsl & v & Hv & Hit).
  pose proof (slice_len _ _ _ _ Hv) as Hlen.
  split; [unfold counted in *; rewrite Hl, Hi, Hp; assumption|].
  split.
  { unfold Sent, kinds. rewrite Hi, Hit, Hsl. cbn [sent].
    split; [|split; [|split]].
    - rewrite stamp_snoc. unfold item_end. cbn.
      replace (start l + len v) with (pos l) by lia. exact C.
    - apply lined_snoc; [assumption|]. cbn. assumption.
    - apply Forall_app. split; [assumption|]. constructor; [|constructor].
      unfold wf_item. cbn. apply Hwf. assumption.
    - rewrite map_app. cbn. apply Hk. assumption. }
  split; [assumption|]. split; [assumption|].
  intros Ht1 Ht2.
  pose proof (post_at _ _ _ _ _ (emit_Inv t l HS Hlt Ht1 Ht2) E) as (HI & _).
  exact HI.
Qed.

Lemma nonspace_steady l l' : steady l l' -> nonspace l -> nonspace l'.
Proof.
  intros (_ & Si & Ss & _) H. unfold nonspace in *. rewrite Si, Ss. exact H.
Qed.

Lemma tiled_end s : forall toks a E,
  tiled s a toks E -> E = fold_left (fun _ t => item_end t) toks a.
Proof.
  induction toks as [|t toks IH]; intros a E H; cbn in *.
  - auto.
  - destruct H as (_ & _ & _ & H). apply IH in H. exact H.
Qed.

Lemma errorf_Ok q format args l o l1 :
  Scanning l -> nonspace l -> counted l -> Sent q l -> q <> finished ->
  errorf format args l = Ok o l1 -> o = None /\ SentAll l1.
Proof.
  intros (_ & _ & P1 & P2 & E0 & T0 & HE & HB) N C (H1 & H2 & H3 & H4) Hq E.
  apply tiled_end in T0. subst E0.
  unfold errorf, bind, send, ret in E.
  destruct (closed (items l)); [discriminate|]. injection E as <- <-.
  split; [reflexivity|].
  unfold SentAll, counted, kinds, nonspace in *. cbn.
  split; [assumption|]. split; [apply lined_snoc; [assumption|]; cbn; assumption|].
  split.
  { apply Forall_app. split; [assumption|]. constructor; [|constructor].
    exact I. }
  right. exists q, (map item.typ (sent (items l))), (sent (items l)).
  eexists. split; [assumption|]. split; [assumption|].
  split; [rewrite map_app; reflexivity|]. split; [reflexivity|].
  cbn. split; [reflexivity|]. split; [unfold last_end; lia|].
  split; assumption.
Qed.

Lemma pending_Ok l v l1 : pending l = Ok v l1 -> l1 = l.
Proof.
  unfold pending. destruct (slice _ _ _); [|discriminate].
  intros E. injection E as _ <-. reflexivity.
Qed.

Lemma finished_SentAll l : counted l -> Sent finished l -> SentAll l.
Proof.
  intros C (H1 & H2 & H3 & H4). unfold SentAll. auto.
Qed.


Ltac inv_bind E :=
  apply bind_Ok in E;
  let a := fresh "a" in
  let l := fresh "l" in
  let E1 := fresh "E" in
  destruct E as (a & l & E1 & E).

(** The pending text after a scanning method succeeded. *)
Lemma scanIdentifier_wf l l' :
  inb l -> start l = pos l -> scanIdentifier l = Ok true l' ->
  start l' < pos l' /\
  forall v, slice (input l') (start l') (pos l') = Some v ->
            wf_text itemIdentifier v.
Proof.
  intros Hb Hs E.
  pose proof (post_at _ _ _ _ _ (scanIdentifier_spec l Hb) E) as (S1 & D).
  pose proof (post_at _ _ _ _ _ (scanIdentifier_adv l Hb) E) as (_ & Hlt).
  destruct S1 as (_ & Si & Ss & _). rewrite Si, Ss, Hs.
  split; [auto|]. intros v Hv.
  destruct D as [(_ & D & _)|(C & q & R & _ & _ & [(_ & D & _)|(_ & _ & P)])];
    try discriminate.
  rewrite P in Hv. eapply identifier_text_of; eassumption.
Qed.

Lemma scanString_wf l l' :
  inb l -> start l = pos l -> scanString l = Ok true l' ->
  start l' < pos l' /\
  forall v, slice (input l') (start l') (pos l') = Some v ->
            wf_text itemString v.
Proof.
  intros Hb Hs E.
  pose proof (post_at _ _ _ _ _ (scanString_spec l Hb) E)
    as (S1 & P & M & D).
  destruct S1 as (_ & Si & Ss & _). rewrite Si, Ss, Hs.
  split; [auto|]. intros v Hv.
  destruct D as [(_ & D & _)|(C & [(_ & B)|(D & _)])]; try discriminate.
  eapply quoted_text; eassumption.
Qed.

Lemma scanNumber_wf l l' :
  inb l -> start l = pos l ->
  in_set "+-" (rn (input l) (pos l)) = true
  \/ isDigit (rn (input l) (pos l)) = true ->
  scanNumber l = Ok true l' ->
  start l' < pos l' /\
  forall v, slice (input l') (start l') (pos l') = Some v ->
            wf_text itemNumber v.
Proof.
  intros Hb Hs Hr E.
  pose proof (post_at _ _ _ _ _ (scanNumber_adv l Hb) E) as (A & Hlt).
  pose proof (post_at _ _ _ _ _ (scanNumber_bytes l Hb) E) as (_ & B).
  destruct A as ((_ & Si & Ss & _) & _). rewrite Si, Ss, Hs.
  split; [auto|]. intros v Hv.
  eapply (number_text_of (input l) (pos l) (pos l')); auto.
Qed.

Lemma afterValueExpr_rich l o l' :
  Inv l -> Rich after_value l -> afterValueExpr l = Ok o l' ->
  rich_step o l'.
Proof.
  intros HI (C & HS) E. unfold afterValueExpr in E.
  inv_bind E. destruct (skip_Ok _ _ _ HI C E0) as (S1 & St1 & C1 & K1 & P1 & W1).
  pose proof (Sent_kept _ _ _ K1 HS) as HS1.
  assert (N1 : nonspace l0) by (unfold nonspace; rewrite St1; exact W1).
  inv_bind E. destruct (read_Ok _ _ _ S1 C1 E1) as (S2 & C2 & T2 & -> & P2 & W2).
  pose proof (Sent_kept _ _ _ (steady_kept _ _ T2) HS1) as HS2.
  pose proof (nonspace_steady _ _ T2 N1) as N2.
  pose proof (Scanning_inb _ S1) as Hb1.
  destruct (Z.eqb_spec (rn (input l0) (pos l0)) 44) as [R|R].
  - inv_bind E. injection E as <- <-.
    destruct (rune_byte _ _ Hb1 ltac:(lia)) as (W & Ix & _).
    destruct T2 as (Tn & Ti & Ts & Tit & Tsl).
    assert (Hwf : forall v, slice (input l1) (start l1) (pos l1) = Some v ->
                            wf_text itemComma v).
    { intros v Hv. rewrite Ti, Ts, P2, St1 in Hv.
      apply (single_text _ _ _ 44 Hb1 R ltac:(lia) Hv). }
    destruct (emit_Ok itemComma after_value expect_value _ _ _ S2
                ltac:(lia) C2 HS2 Hwf at_comma E2) as (C3 & HS3 & _).
    split; assumption.
  - destruct (_ || _).
    + inv_bind E. injection E as <- <-.
      destruct (unread_Ok _ _ _ _ S1 C2 T2 P2 W2 E2) as (S3 & C3 & T3 & P3).
      split; [exact C3|]. cbn.
      eapply Sent_kept; [apply steady_kept; exact T3|exact HS1].
    + destruct (errorf_Ok _ _ _ _ _ _ S2 N2 C2 HS2 ltac:(discriminate) E)
        as [-> H].
      exact H.
Qed.


Tactic Notation "inv_bind" hyp(E) "as" ident(a) ident(l) ident(E1) :=
  apply bind_Ok in E; destruct E as (a & l & E1 & E).

(** One value expression: a scanning method, then [emit] and
    [afterValueExpr], or [errorf]. *)
Lemma value_rich (m : M bool) T format l o l' :
  tracks m -> value_kind T ->
  (forall l2, m l = Ok true l2 ->
     start l2 < pos l2 /\
     forall v, slice (input l2) (start l2) (pos l2) = Some v -> wf_text T v) ->
  Scanning l -> nonspace l -> counted l -> Sent expect_value l ->
  (ok <- m ;;
   if negb ok then v <- pending ;; errorf format [ArgString v]
   else emit T ;;; afterValueExpr) l = Ok o l' ->
  rich_step o l'.
Proof.
  intros Tm Hk Hwf S N C HS E. inv_bind E as ok l1 E1.
  destruct (scan_Ok _ _ _ _ Tm S C E1) as (S1 & C1 & T1 & P1).
  pose proof (Sent_kept _ _ _ (steady_kept _ _ T1) HS) as HS1.
  pose proof (nonspace_steady _ _ T1 N) as N1.
  destruct ok; cbn [negb] in E.
  - inv_bind E as u l2 E2.
    destruct (Hwf _ E1) as (Hlt & Hv).
    destruct (emit_Ok T expect_value after_value _ _ _ S1 Hlt C1 HS1 Hv
                (fun ks H => at_value ks T H Hk) E2)
      as (C2 & HS2 & _ & _ & HI2).
    eapply afterValueExpr_rich; [|split; eassumption|exact E].
    apply HI2; destruct Hk as [->|[->|[->| ->]]]; discriminate.
  - inv_bind E as v l2 E2. apply pending_Ok in E2. subst l2.
    destruct (errorf_Ok _ _ _ _ _ _ S1 N1 C1 HS1 ltac:(discriminate) E)
      as [-> H].
    exact H.
Qed.

Lemma lexValueExprList_rich l o l' :
  Inv l -> Rich expect_value l -> lexValueExprList_fn l = Ok o l' ->
  rich_step o l'.
Proof.
  intros HI (C & HS) E. unfold lexValueExprList_fn in E.
  inv_bind E as u l1 E1.
  destruct (skip_Ok _ _ _ HI C E1) as (S1 & St1 & C1 & K1 & P1 & W1).
  pose proof (Sent_kept _ _ _ K1 HS) as HS1.
  assert (N1 : nonspace l1) by (unfold nonspace; rewrite St1; exact W1).
  pose proof (Scanning_inb _ S1) as Hb1.
  inv_bind E as r l2 E2.
  destruct (read_Ok _ _ _ S1 C1 E2) as (S2 & C2 & T2 & -> & P2 & W2).
  pose proof (Sent_kept _ _ _ (steady_kept _ _ T2) HS1) as HS2.
  pose proof (nonspace_steady _ _ T2 N1) as N2.
  assert (Back : forall a l3, backup l2 = Ok a l3 ->
            Scanning l3 /\ nonspace l3 /\ counted l3 /\
            Sent expect_value l3 /\
            start l3 = pos l3 /\ input l3 = input l1 /\ pos l3 = pos l1).
  { intros a l3 E3.
    destruct (unread_Ok _ _ _ _ S1 C2 T2 P2 W2 E3) as (S3 & C3 & T3 & P3).
    split; [assumption|]. split; [exact (nonspace_steady _ _ T3 N1)|].
    split; [assumption|].
    split; [eapply Sent_kept; [apply steady_kept; exact T3|exact HS1]|].
    destruct T3 as (_ & Ti & Ts & _). rewrite Ts, P3. auto. }
  destruct (Z.eqb_spec (rn (input l1) (pos l1)) 42) as [R|R].
  { inv_bind E as u2 l3 E3.
    destruct (rune_byte _ _ Hb1 ltac:(lia)) as (W & Ix & _).
    assert (Ti : input l2 = input l1) by apply T2.
    assert (Ts : start l2 = start l1) by apply T2.
    assert (Hwf : forall v, slice (input l2) (start l2) (pos l2) = Some v ->
                            wf_text itemStar v).
    { intros v Hv. rewrite Ti, Ts, P2, St1 in Hv.
      apply (single_text _ _ _ 42 Hb1 R ltac:(lia) Hv). }
    destruct (emit_Ok itemStar expect_value after_value _ _ _ S2
                ltac:(lia) C2 HS2 Hwf
                (fun ks H => at_value ks itemStar H (or_introl eq_refl)) E3)
      as (C3 & HS3 & _ & _ & HI3).
    eapply afterValueExpr_rich; [|split; eassumption|exact E].
    apply HI3; discriminate. }
  destruct (Z.eqb_spec (rn (input l1) (pos l1)) 39) as [Q|Q].
  { inv_bind E as u2 l3 E3.
    destruct (Back _ _ E3) as (S3 & N3 & C3 & HS3 & St3 & I3 & P3).
    eapply (value_rich scanString itemString); try eassumption.
    - exact scanString_tracks.
    - right; left; reflexivity.
    - intros l4 E4. apply (scanString_wf l3 l4); auto using Scanning_inb. }
  destruct (_ || _) eqn:N.
  { inv_bind E as u2 l3 E3.
    destruct (Back _ _ E3) as (S3 & N3 & C3 & HS3 & St3 & I3 & P3).
    eapply (value_rich scanNumber itemNumber); try eassumption.
    - exact scanNumber_tracks.
    - right; right; left; reflexivity.
    - intros l4 E4. apply (scanNumber_wf l3 l4); auto using Scanning_inb.
      rewrite I3, P3. rewrite in_sign. unfold isDigit.
      apply orb_prop in N. destruct N as [N|N]; [left|right]; exact N. }
  destruct (isAlpha _).
  { inv_bind E as u2 l3 E3.
    destruct (Back _ _ E3) as (S3 & N3 & C3 & HS3 & St3 & I3 & P3).
    eapply (value_rich scanIdentifier itemIdentifier); try eassumption.
    - exact scanIdentifier_tracks.
    - right; right; right; reflexivity.
    - intros l4 E4. apply (scanIdentifier_wf l3 l4); auto using Scanning_inb. }
  destruct (errorf_Ok _ _ _ _ _ _ S2 N2 C2 HS2
              ltac:(discriminate) E) as [-> H].
  exact H.
Qed.

Lemma lexStartStatement_rich l o l' :
  Inv l -> Rich expect_select l -> lexStartStatement_fn l = Ok o l' ->
  rich_step o l'.
Proof.
  intros HI (C & HS) E. unfold lexStartStatement_fn in E.
  inv_bind E as u l1 E1.
  destruct (skip_Ok _ _ _ HI C E1) as (S1 & St1 & C1 & K1 & P1 & W1).
  pose proof (Sent_kept _ _ _ K1 HS) as HS1.
  assert (N1 : nonspace l1) by (unfold nonspace; rewrite St1; exact W1).
  inv_bind E as r l2 E2.
  destruct (read_Ok _ _ _ S1 C1 E2) as (S2 & C2 & T2 & -> & P2 & W2).
  pose proof (Sent_kept _ _ _ (steady_kept _ _ T2) HS1) as HS2.
  pose proof (nonspace_steady _ _ T2 N1) as N2.
  destruct (_ =? eof).
  { destruct (errorf_Ok _ _ _ _ _ _ S2 N2 C2 HS2
              ltac:(discriminate) E) as [-> H].
    exact H. }
  destruct (_ || _).
  - inv_bind E as u2 l3 E3. injection E as <- <-.
    destruct (unread_Ok _ _ _ _ S1 C2 T2 P2 W2 E3) as (S3 & C3 & T3 & P3).
    split; [exact C3|]. cbn.
    eapply Sent_kept; [apply steady_kept; exact T3|exact HS1].
  - destruct (errorf_Ok _ _ _ _ _ _ S2 N2 C2 HS2
              ltac:(discriminate) E) as [-> H].
    exact H.
Qed.

Lemma lexFromTableName_rich l o l' :
  Inv l -> Rich expect_table l -> lexFromTableName_fn l = Ok o l' ->
  rich_step o l'.
Proof.
  intros HI (C & HS) E. unfold lexFromTableName_fn in E.
  inv_bind E as u l1 E1.
  destruct (skip_Ok _ _ _ HI C E1) as (S1 & St1 & C1 & K1 & P1 & W1).
  pose proof (Sent_kept _ _ _ K1 HS) as HS1.
  assert (N1 : nonspace l1) by (unfold nonspace; rewrite St1; exact W1).
  pose proof (Scanning_inb _ S1) as Hb1.
  inv_bind E as ok l2 E2.
  destruct (scan_Ok _ _ _ _ scanIdentifier_tracks S1 C1 E2)
    as (S2 & C2 & T2 & P2).
  pose proof (Sent_kept _ _ _ (steady_kept _ _ T2) HS1) as HS2.
  pose proof (nonspace_steady _ _ T2 N1) as N2.
  destruct ok; cbn [negb] in E.
  - inv_bind E as u2 l3 E3. injection E as <- <-.
    destruct (scanIdentifier_wf _ _ Hb1 St1 E2) as (Hlt & Hwf).
    destruct (emit_Ok itemIdentifier expect_table expect_end _ _ _ S2 Hlt
                C2 HS2 Hwf at_table E3) as (C3 & HS3 & _).
    split; assumption.
  - inv_bind E as v l3 E3. apply pending_Ok in E3. subst l3.
    destruct (errorf_Ok _ _ _ _ _ _ S2 N2 C2 HS2
              ltac:(discriminate) E) as [-> H].
    exact H.
Qed.

Lemma lexEndOfStatement_rich l o l' :
  Inv l -> Rich expect_end l -> lexEndOfStatement_fn l = Ok o l' ->
  rich_step o l'.
Proof.
  intros HI (C & HS) E. unfold lexEndOfStatement_fn in E.
  inv_bind E as u l1 E1.
  destruct (skip_Ok _ _ _ HI C E1) as (S1 & St1 & C1 & K1 & P1 & W1).
  pose proof (Sent_kept _ _ _ K1 HS) as HS1.
  assert (N1 : nonspace l1) by (unfold nonspace; rewrite St1; exact W1).
  pose proof (Scanning_inb _ S1) as Hb1.
  inv_bind E as ok l2 E2.
  destruct (scan_Ok _ _ _ _ (tracks_accept ";") S1 C1 E2)
    as (S2 & C2 & T2 & P2).
  pose proof (Sent_kept _ _ _ (steady_kept _ _ T2) HS1) as HS2.
  pose proof (nonspace_steady _ _ T2 N1) as N2.
  pose proof (post_at _ _ _ _ _ (accept_spec ";" l1 Hb1) E2) as (_ & Hok & Hp).
  destruct ok.
  - inv_bind E as u2 l3 E3. injection E as <- <-.
    symmetry in Hok. rewrite in_semicolon in Hok.
    assert (R : rn (input l1) (pos l1) = 59) by lia.
    destruct (rune_byte _ _ Hb1 ltac:(lia)) as (W & Ix & _).
    assert (Ti : input l2 = input l1) by apply T2.
    assert (Ts : start l2 = start l1) by apply T2.
    assert (Hwf : forall v, slice (input l2) (start l2) (pos l2) = Some v ->
                            wf_text itemEOF v).
    { intros v Hv. rewrite Ti, Ts, Hp, St1 in Hv.
      apply (single_text _ _ _ 59 Hb1 R ltac:(lia) Hv). }
    destruct (emit_Ok itemEOF expect_end finished _ _ _ S2
                ltac:(lia) C2 HS2 Hwf at_end E3) as (C3 & HS3 & _).
    apply finished_SentAll; assumption.
  - destruct (errorf_Ok _ _ _ _ _ _ S2 N2 C2 HS2
              ltac:(discriminate) E) as [-> H].
    exact H.
Qed.


(** A slice that holds, byte after byte, a rune of [lower] or the rune of
    [upper] at the same place. *)
Lemma spelled_of s : forall lower upper p v,
  slice s p (p + Z.of_nat (List.length lower)) = Some v ->
  (forall k lo, nth_error lower k = Some lo ->
     exists up, nth_error upper k = Some up /\
       (index s (p + Z.of_nat k) = Some lo
        \/ index s (p + Z.of_nat k) = Some up)) ->
  spelled v lower upper.
Proof.
  induction lower as [|lo lower IH]; intros upper p v Hv H.
  - cbn in Hv. rewrite Z.add_0_r in Hv. apply slice_nil in Hv. subst v.
    exact I.
  - cbn [List.length] in Hv.
    destruct (slice_cons _ _ _ _ Hv ltac:(lia)) as (c & v' & -> & Hc & Hv').
    destruct (H 0%nat lo eq_refl) as (up & Hup & Hx).
    destruct upper as [|up' upper]; [discriminate|].
    cbn in Hup. injection Hup as ->.
    cbn [Z.of_nat] in Hx. rewrite Z.add_0_r, Hc in Hx.
    cbn [spelled]. split.
    + destruct Hx as [Hx|Hx]; injection Hx as Hx; auto.
    + apply (IH upper (p + 1)).
      * rewrite <- Hv'. f_equal. lia.
      * intros k lo' Hk. destruct (H (S k) lo' Hk) as (up' & Hup' & Hx').
        exists up'. split; [exact Hup'|].
        replace (p + 1 + Z.of_nat k) with (p + Z.of_nat (S k)) by lia.
        exact Hx'.
Qed.

(** The loop of a keyword state function ends in [emit], after runes of
    the keyword in some mix of cases, or in [errorf]. *)
Lemma keyword_loop_Ok keyword upper it na :
  Forall (fun u => 0 <= u < 128) upper ->
  forall lower ix l o l',
    Forall (fun u => 0 <= u < 128) lower ->
    Scanning l -> counted l ->
    keyword_loop keyword upper ix lower it na l = Ok o l' ->
    exists lX, Scanning lX /\ counted lX /\ steady l lX /\
      ((o = Some na /\ emit it lX = Ok tt l' /\
        pos lX = pos l + Z.of_nat (List.length lower) /\
        forall k lo, nth_error lower k = Some lo ->
          exists up, nth_error upper (ix + k) = Some up /\
            (index (input l) (pos l + Z.of_nat k) = Some lo
             \/ index (input l) (pos l + Z.of_nat k) = Some up))
       \/ (exists format args, errorf format args lX = Ok o l')).
Proof.
  intros Hup. induction lower as [|lo lower IH]; intros ix l o l' Hlo HS C E.
  - cbn [keyword_loop] in E. inv_bind E as u l1 E1. injection E as <- <-.
    destruct u. exists l. split; [assumption|]. split; [assumption|].
    split; [apply steady_refl|]. left. split; [reflexivity|].
    split; [assumption|]. split; [cbn; lia|]. intros [|k] lo' Hk; discriminate.
  - cbn [keyword_loop] in E.
    match type of E with
    | context [@nth_error ?A ?u ?i] =>
        destruct (@nth_error A u i) as [up|] eqn:U
    end; cbv beta in E; [|discriminate].
    inv_bind E as r l1 E1.
    destruct (read_Ok _ _ _ HS C E1) as (S1 & C1 & T1 & -> & P1 & W1).
    destruct (negb _) eqn:N.
    + exists l1. split; [assumption|]. split; [assumption|].
      split; [assumption|]. right. eauto.
    + apply negb_false_iff in N.
      assert (Hlo0 : 0 <= lo < 128) by (inversion Hlo; assumption).
      assert (Hup0 : 0 <= up < 128).
      { rewrite Forall_forall in Hup. apply Hup. eapply nth_error_In. exact U. }
      pose proof (Scanning_inb _ HS) as Hb.
      destruct (rune_byte _ _ Hb ltac:(lia)) as (W & Ix & _).
      destruct (IH (S ix) l1 o l' ltac:(inversion Hlo; assumption) S1 C1 E)
        as (lX & SX & CX & TX & D).
      exists lX. split; [assumption|]. split; [assumption|].
      split; [eapply steady_trans; eassumption|].
      destruct D as [(Ho & Em & PX & HX)|D]; [left|right; exact D].
      split; [assumption|]. split; [assumption|].
      split; [cbn [List.length]; lia|].
      assert (I1 : input l1 = input l) by apply T1.
      intros [|k] lo' Hk.
      * cbn in Hk. injection Hk as <-. exists up.
        rewrite Nat.add_0_r. split; [assumption|].
        cbn [Z.of_nat]. rewrite Z.add_0_r, Ix.
        destruct (Z.eqb_spec (rn (input l) (pos l)) lo) as [->|];
          [left; reflexivity|].
        right. f_equal. cbn [orb] in N. lia.
      * cbn in Hk. destruct (HX k lo' Hk) as (up' & Hup' & Hx).
        exists up'. replace (ix + S k)%nat with (S ix + k)%nat by lia.
        split; [assumption|]. rewrite I1, P1, W in Hx.
        replace (pos l + Z.of_nat (S k)) with (pos l + 1 + Z.of_nat k) by lia.
        exact Hx.
Qed.


Ltac spelled_runes :=
  repeat match goal with
         | |- context [runes_of ?s] =>
             let v := eval vm_compute in (runes_of s) in
             change (runes_of s) with v
         end.

Ltac spell_byte H H0 v :=
  destruct v as [|? v]; cbn [spelled] in H; [contradiction|];
  destruct H as [H0 H].

Lemma spelled_select v :
  spelled v (runes_of (strings.ToLower "select"))
            (runes_of (strings.ToUpper "select")) ->
  strings.ToLower v = "select".
Proof.
  spelled_runes. intros H.
  spell_byte H H0 v. spell_byte H H1 v. spell_byte H H2 v.
  spell_byte H H3 v. spell_byte H H4 v. spell_byte H H5 v.
  destruct v; cbn [spelled] in H; [|contradiction].
  destruct H0 as [H0|H0], H1 as [H1|H1], H2 as [H2|H2], H3 as [H3|H3],
    H4 as [H4|H4], H5 as [H5|H5];
    apply byte_ascii in H0, H1, H2, H3, H4, H5; subst; reflexivity.
Qed.

Lemma spelled_from v :
  spelled v (runes_of (strings.ToLower "from"))
            (runes_of (strings.ToUpper "from")) ->
  strings.ToLower v = "from".
Proof.
  spelled_runes. intros H.
  spell_byte H H0 v. spell_byte H H1 v. spell_byte H H2 v.
  spell_byte H H3 v.
  destruct v; cbn [spelled] in H; [|contradiction].
  destruct H0 as [H0|H0], H1 as [H1|H1], H2 as [H2|H2], H3 as [H3|H3];
    apply byte_ascii in H0, H1, H2, H3; subst; reflexivity.
Qed.

Lemma createLexKeyword_rich keyword it na q q' l o l' :
  Forall (fun u => 0 <= u < 128) (runes_of (strings.ToUpper keyword)) ->
  Forall (fun u => 0 <= u < 128) (runes_of (strings.ToLower keyword)) ->
  (0 < List.length (runes_of (strings.ToLower keyword)))%nat ->
  (forall v, spelled v (runes_of (strings.ToLower keyword))
                       (runes_of (strings.ToUpper keyword)) ->
             wf_text it v) ->
  (forall ks, kinds_at q ks -> kinds_at q' (ks ++ [it])) ->
  q <> finished ->
  Inv l -> Rich q l -> createLexKeyword keyword it na l = Ok o l' ->
  match o with
  | Some s' => s' = na /\ Rich q' l'
  | None => SentAll l'
  end.
Proof.
  intros Hup Hlo Hlen Hwf Hk Hq HI (C & HS) E. unfold createLexKeyword in E.
  inv_bind E as u l1 E1.
  destruct (skip_Ok _ _ _ HI C E1) as (S1 & St1 & C1 & K1 & P1 & W1).
  pose proof (Sent_kept _ _ _ K1 HS) as HS1.
  assert (N1 : nonspace l1) by (unfold nonspace; rewrite St1; exact W1).
  destruct (keyword_loop_Ok _ _ _ _ Hup _ _ _ _ _ Hlo S1 C1 E)
    as (lX & SX & CX & TX & D).
  pose proof (Sent_kept _ _ _ (steady_kept _ _ TX) HS1) as HSX.
  pose proof (nonspace_steady _ _ TX N1) as NX.
  destruct D as [(-> & Em & PX & HX)|(format & args & Er)].
  - assert (Ti : input lX = input l1) by apply TX.
    assert (Ts : start lX = start l1) by apply TX.
    assert (Hv : forall v, slice (input lX) (start lX) (pos lX) = Some v ->
                           wf_text it v).
    { intros v Hv. apply Hwf. rewrite Ti, Ts, PX, St1 in Hv.
      eapply spelled_of; [exact Hv|]. intros k lo Hk'.
      destruct (HX k lo Hk') as (up & Hu & Hx). exists up. auto. }
    assert (Hlt : start lX < pos lX) by (change rune with Z in *; lia).
    destruct (emit_Ok it q q' _ _ _ SX Hlt CX HSX Hv Hk Em)
      as (C3 & HS3 & _).
    split; [reflexivity|]. split; assumption.
  - destruct (errorf_Ok _ _ _ _ _ _ SX NX CX HSX Hq Er) as [-> H]. exact H.
Qed.

Lemma call_rich s l o l' :
  Inv l -> Rich (kstate_of s) l -> call s l = Ok o l' -> rich_step o l'.
Proof.
  intros HI HR E. destruct s; cbn [call kstate_of] in *.
  - eapply lexStartStatement_rich; eassumption.
  - destruct nonneg_runes_select as (_ & _ & Hlen & _).
    destruct (ascii_keyword "select" itemSelect lexValueExprList
                ltac:(left; auto)) as (Hup & Hlo & _).
    pose proof (createLexKeyword_rich "select" itemSelect lexValueExprList
                  expect_select expect_value l o l' Hup Hlo Hlen
                  spelled_select) as H.
    specialize (H ltac:(intros ks Hks; inversion Hks; apply at_select)
                  ltac:(discriminate) HI HR E).
    destruct o as [s'|]; [|exact H]. destruct H as [-> H]. exact H.
  - destruct nonneg_runes_from as (_ & _ & Hlen & _).
    destruct (ascii_keyword "from" itemFrom lexFromTableName
                ltac:(right; auto)) as (Hup & Hlo & _).
    pose proof (createLexKeyword_rich "from" itemFrom lexFromTableName
                  after_value expect_table l o l' Hup Hlo Hlen
                  spelled_from at_from ltac:(discriminate) HI HR E) as H.
    destruct o as [s'|]; [|exact H]. destruct H as [-> H]. exact H.
  - eapply lexValueExprList_rich; eassumption.
  - eapply lexFromTableName_rich; eassumption.
  - eapply lexEndOfStatement_rich; eassumption.
Qed.

Lemma run_loop_rich n : forall s l u l',
  Inv l -> Rich (kstate_of s) l -> run_loop n (Some s) l = Ok u l' ->
  SentAll l'.
Proof.
  induction n as [|n IH]; intros s l u l' HI HR E; [discriminate|].
  cbn [run_loop] in E. inv_bind E as o l1 E1.
  pose proof (call_rich _ _ _ _ HI HR E1) as R1.
  pose proof (post_at _ _ _ _ _ (call_step s l HI) E1) as (_ & _ & St).
  destruct o as [s'|].
  - destruct St as [HI1 _]. eapply IH; eassumption.
  - assert (Hn : run_loop n None = ret tt) by (destruct n; reflexivity).
    rewrite Hn in E. injection E as _ <-. exact R1.
Qed.

Lemma Rich_fresh nm inp : Rich expect_select (fresh nm inp).
Proof.
  unfold Rich, counted, Sent, kinds, line_at. cbn.
  rewrite substring_0_0. cbn.
  split; [reflexivity|]. split; [reflexivity|]. split; [exact I|].
  split; [constructor|constructor].
Qed.

(** Every scan returns, and its items are as they should be. *)
Lemma lex_Rich nm inp :
  exists l, lex nm inp = Ok tt l /\ Scanned inp l /\ SentAll l.
Proof.
  destruct (lex_Scanned nm inp) as (l & Hl & HS).
  exists l. split; [assumption|]. split; [assumption|].
  change (lex nm inp) with (run lexStartStatement (fresh nm inp)) in Hl.
  unfold run in Hl. inv_bind Hl as u l1 E1.
  pose proof (run_loop_rich _ lexStartStatement _ _ _ (Inv_fresh nm inp)
                (Rich_fresh nm inp) E1)
    as (C & L & W & K).
  unfold close in Hl. destruct (closed (items l1)); [discriminate|].
  injection Hl as <-. unfold SentAll, counted, kinds, nonspace. cbn. auto.
Qed.


(* ================================================================== *)
(** ** The items of a scan *)

Lemma Scanned_placed inp l :
  Scanned inp l ->
  Forall (fun t => item.typ t <> itemError -> placed inp t) (sent (items l)).
Proof.
  intros (_ & _ & toks & t & Hs & Hf & E & HT & D). rewrite Hs.
  apply Forall_app. split.
  - eapply Forall_impl; [|eapply tiled_placed; exact HT]. auto.
  - constructor; [|constructor]. intros Ht.
    destruct D as [(_ & E' & _ & _ & HP & _)|(He & _)]; [exact HP|contradiction].
Qed.

Lemma count_all_bytes P : forall v,
  all_bytes P v = true -> P 10 = false -> strings.Count_newline v = 0.
Proof.
  induction v as [|c v IH]; intros H H10; [reflexivity|].
  cbn [all_bytes] in H. apply andb_prop in H. destruct H as [H1 H2].
  cbn [strings.Count_newline]. rewrite (IH H2 H10).
  destruct (Z.eqb_spec (byte_val c) 10) as [E|E]; [|reflexivity].
  rewrite E in H1. congruence.
Qed.

Lemma count_ToLower : forall v,
  strings.Count_newline (strings.ToLower v) = strings.Count_newline v.
Proof.
  induction v as [|c v IH]; [reflexivity|].
  unfold strings.ToLower in *. cbn [strings.map_bytes strings.Count_newline].
  rewrite IH. f_equal. unfold strings.lower_byte.
  pose proof (byte_val_range c) as Hc.
  destruct ((65 <=? byte_val c) && (byte_val c <=? 90)) eqn:E; [|reflexivity].
  assert (Hb : byte_val (ascii_of_N (Z.to_N (byte_val c + 32)))
               = byte_val c + 32).
  { unfold byte_val at 1. rewrite N_ascii_embedding by lia. lia. }
  rewrite Hb.
  destruct (Z.eqb_spec (byte_val c + 32) 10), (Z.eqb_spec (byte_val c) 10);
    try reflexivity; lia.
Qed.

(** The text of an item that is not an error item holds no newline. *)
Lemma wf_no_newline k v :
  wf_text k v -> k <> itemError -> strings.Count_newline v = 0.
Proof.
  intros H Hk. destruct k; cbn in H; try contradiction; try (subst v; reflexivity).
  - destruct v as [|c v]; [discriminate|]. cbn in H.
    apply andb_prop in H. destruct H as [H1 H2].
    cbn [strings.Count_newline].
    rewrite (count_all_bytes _ _ H2) by (vm_compute; reflexivity).
    destruct (Z.eqb_spec (byte_val c) 10) as [E|E]; [|reflexivity].
    rewrite E in H1. vm_compute in H1. discriminate.
  - apply H.
  - destruct v as [|c v]; [discriminate|]. cbn in H.
    apply andb_prop in H. destruct H as [H1 H2].
    cbn [strings.Count_newline].
    rewrite (count_all_bytes _ _ H2) by (vm_compute; reflexivity).
    destruct (Z.eqb_spec (byte_val c) 10) as [E|E]; [|reflexivity].
    rewrite E in H1. vm_compute in H1. discriminate.
  - rewrite <- count_ToLower, H. reflexivity.
  - rewrite <- count_ToLower, H. reflexivity.
Qed.

(** The lines of the items: the first item of a scan carries line 1 and
    every other item carries the line at the end of the item sent before
    it, whatever white space lies between the two; the line counter of
    the lexer is, at the end, one more than the newlines before the
    cursor. *)
Theorem lines_of_items nm inp :
  exists l,
    lex nm inp = Ok tt l /\
    (forall t, nth_error (sent (items l)) 0 = Some t -> item.line t = 1) /\
    (forall i t t',
       nth_error (sent (items l)) i = Some t ->
       nth_error (sent (items l)) (S i) = Some t' ->
       item.line t' = line_at inp (item_end t)) /\
    line l = line_at inp (pos l).
Proof.
  destruct (lex_Rich nm inp) as (l & Hl & (Hi & _) & (C & L & _)).
  exists l. split; [assumption|]. unfold counted in C. rewrite Hi in *.
  split; [|split].
  - intros t Ht. destruct (sent (items l)) as [|x r]; [discriminate|].
    cbn in Ht. injection Ht as <-. apply L.
  - intros i t t' H1 H2. eapply lined_nth; eassumption.
  - exact C.
Qed.

(** The kinds of the items: a scan that ends with the end-of-input item
    has sent Select, value expressions (Star, String, Number or
    Identifier) separated by Comma, From, Identifier and the end-of-input
    item; a scan that ends with an error item has sent before it the
    first items of such a statement; no item is of the kind
    [itemKeyword] or [itemSemicolon]. *)
Theorem kinds_of_items nm inp :
  exists l,
    lex nm inp = Ok tt l /\
    (statement_kinds (kinds l)
     \/ exists ks rest,
          kinds l = ks ++ [itemError] /\ statement_kinds (ks ++ rest) /\
          ~ In itemError ks) /\
    Forall (fun k => k <> itemKeyword /\ k <> itemSemicolon) (kinds l).
Proof.
  destruct (lex_Rich nm inp) as (l & Hl & _ & (_ & _ & _ & K)).
  exists l. split; [assumption|].
  destruct K as [K|(q & ks & toks & t & Hq & K & E & _)].
  - split; [left; apply (kinds_at_shape _ _ K)|].
    eapply Forall_impl; [|apply (kinds_at_used _ _ K)]. cbv beta. tauto.
  - pose proof (kinds_at_used _ _ K) as U. split.
    + right. destruct (kinds_at_prefix _ _ K Hq) as (rest & Hr).
      exists ks, rest. split; [assumption|]. split; [assumption|].
      intros Hin. rewrite Forall_forall in U. apply U in Hin. tauto.
    + rewrite E. apply Forall_app. split.
      * eapply Forall_impl; [|exact U]. cbv beta. tauto.
      * constructor; [split; discriminate|constructor].
Qed.

(** The texts of the items: a Star item is [*], a Comma item is [,], the
    end-of-input item is [;]; a Select or From item is the keyword in some
    mix of cases; an Identifier item is a letter a-z, A-Z or an underscore
    followed by such letters, digits 0-9 and underscores; a Number item
    is a sign or a decimal digit followed by bytes of [number_chars]; a
    String item starts and ends with a quote, on two bytes, and holds no
    newline. *)
Theorem texts_of_items nm inp :
  exists l,
    lex nm inp = Ok tt l /\
    forall t, In t (sent (items l)) ->
      match item.typ t with
      | itemStar => item.val t = "*"
      | itemComma => item.val t = ","
      | itemEOF => item.val t = ";"
      | itemSelect => strings.ToLower (item.val t) = "select"
      | itemFrom => strings.ToLower (item.val t) = "from"
      | itemIdentifier => identifier_text (item.val t) = true
      | itemNumber => number_text (item.val t) = true
      | itemString => quoted (item.val t)
      | itemError => True
      | itemKeyword | itemSemicolon => False
      end.
Proof.
  destruct (lex_Rich nm inp) as (l & Hl & _ & (_ & _ & W & _)).
  exists l. split; [assumption|]. intros t Ht.
  rewrite Forall_forall in W. specialize (W t Ht).
  unfold wf_item, wf_text in W. destruct (item.typ t); exact W.
Qed.

(** An item that is not an error item lies on one line: its text holds
    no newline, the line at its end is the line at its offset, and so the
    item sent after it carries the line at its offset. *)
Theorem items_on_one_line nm inp :
  exists l,
    lex nm inp = Ok tt l /\
    (forall t, In t (sent (items l)) -> item.typ t <> itemError ->
       strings.Count_newline (item.val t) = 0 /\
       line_at inp (item_end t) = line_at inp (item.pos t)) /\
    (forall i t t',
       nth_error (sent (items l)) i = Some t ->
       nth_error (sent (items l)) (S i) = Some t' ->
       item.line t' = line_at inp (item.pos t)).
Proof.
  destruct (lex_Rich nm inp) as (l & Hl & HS & (C & L & W & K)).
  pose proof (Scanned_placed _ _ HS) as HP.
  assert (Hi : input l = inp) by apply HS. rewrite Hi in *.
  assert (One : forall t, In t (sent (items l)) -> item.typ t <> itemError ->
            strings.Count_newline (item.val t) = 0 /\
            line_at inp (item_end t) = line_at inp (item.pos t)).
  { intros t Ht He. rewrite Forall_forall in W, HP.
    pose proof (wf_no_newline _ _ (W t Ht) He) as N.
    split; [assumption|]. destruct (HP t Ht He) as (_ & Hv).
    pose proof (slice_newlines _ _ _ _ Hv) as Hn. unfold item_end. lia. }
  exists l. split; [assumption|]. split; [exact One|].
  intros i t t' H1 H2.
  rewrite (lined_nth _ _ _ _ _ _ L H1 H2).
  apply One; [eapply nth_error_In; exact H1|].
  (* an item with a successor is not the error item *)
  destruct HS as (_ & _ & toks & t0 & Hs & Hf & _).
  rewrite Hs in H1, H2.
  assert (Hlt : (i < List.length toks)%nat).
  { assert (Hn : nth_error (toks ++ [t0]) (S i) <> None) by congruence.
    apply nth_error_Some in Hn. rewrite length_app in Hn. cbn in Hn. lia. }
  rewrite nth_error_app1 in H1 by assumption.
  apply nth_error_In in H1. rewrite Forall_forall in Hf.
  apply (Hf t H1).
Qed.


(* ================================================================== *)
(** ** The cursor methods *)

Lemma run_of_longest valid s p q :
  run_of (in_set valid) s p q ->
  forall q', 0 <= p <= len s ->
    run_of (in_set valid) s p q' -> in_set valid (rn s q') = false ->
    q <= q'.
Proof.
  induction 1 as [p|p q Hv Hr IH]; intros q' Hp Hr' Hn.
  - eapply run_of_le; [|exact Hr'|exact Hp]. intros r. apply in_set_nonneg.
  - inversion Hr' as [|? ? Hv' Hr'']; subst.
    + congruence.
    + apply IH; try assumption.
      pose proof (rune_at_bounds _ _ Hp). lia.
Qed.

(** A byte of a set of runes below [RuneSelf] is the rune at its
    position. *)
Lemma byte_in_set valid s p b :
  ascii_set valid = true -> 0 <= p -> index s p = Some b ->
  in_set valid b = true -> rn s p = b.
Proof.
  intros Ha Hp Hi Hb. pose proof (ContainsRune_ascii _ _ Ha Hb) as Hr.
  rewrite (byte_rune s p b Hp Hi ltac:(lia)). reflexivity.
Qed.

(** [peek] returns the rune [next] would return and changes nothing but
    the width of the last rune read: the cursor, the line counter, the
    pending item and the channel are as they were. *)
Theorem peek_changes_nothing l :
  inb l ->
  exists r l',
    peek l = Ok r l' /\
    (exists l1, next l = Ok r l1) /\
    r = rn (input l) (pos l) /\
    name l' = name l /\ input l' = input l /\ pos l' = pos l /\
    start l' = start l /\ items l' = items l /\ line l' = line l /\
    startLine l' = startLine l.
Proof.
  intros Hb.
  pose proof (peek_all l Hb) as H. apply post_Ok in H.
  destruct H as (r & l' & E & (Sn & Si & Ss & Sit & Ssl) & Hr & Hp & Hl).
  pose proof (next_all l Hb) as N. apply post_Ok in N.
  destruct N as (r1 & l1 & E1 & _ & _ & Hr1 & _).
  exists r, l'. split; [assumption|]. split; [exists l1; congruence|].
  auto 10.
Qed.

(** [accept] consumes the rune at the cursor exactly when it is in the
    valid set, and then counts it when it is a newline; otherwise the
    cursor and the line counter are as they were. *)
Theorem accept_consumes_a_valid_rune valid l :
  inb l ->
  exists b l',
    accept valid l = Ok b l' /\ steady l l' /\
    b = strings.ContainsRune valid (rn (input l) (pos l)) /\
    (b = true ->
     pos l' = pos l + wd (input l) (pos l) /\ 1 <= wd (input l) (pos l) /\
     line l' = line l + (if rn (input l) (pos l) =? 10 then 1 else 0)) /\
    (b = false -> pos l' = pos l /\ line l' = line l).
Proof.
  intros Hb.
  pose proof (accept_all valid l Hb) as H. apply post_Ok in H.
  destruct H as (b & l' & E & S1 & Hv & Hp & Hl).
  exists b, l'. split; [assumption|]. split; [assumption|].
  split; [assumption|]. split; intros ->.
  - split; [assumption|]. split; [|assumption].
    symmetry in Hv. apply in_set_nonneg in Hv.
    apply (rune_at_bounds _ _ Hb). assumption.
  - auto.
Qed.

(** [acceptRun] stops after the longest run of valid runes: the cursor is
    at the first rune that is not valid (or at the end of the input), an
    accurate line counter stays accurate, and a second [acceptRun] on the
    same set moves nothing. *)
Theorem acceptRun_takes_the_longest_run valid l :
  inb l ->
  exists l',
    acceptRun valid l = Ok tt l' /\ steady l l' /\
    run_of (strings.ContainsRune valid) (input l) (pos l) (pos l') /\
    strings.ContainsRune valid (rn (input l) (pos l')) = false /\
    (forall q, run_of (strings.ContainsRune valid) (input l) (pos l) q ->
               q <= pos l') /\
    (counted l -> counted l') /\
    exists l'', acceptRun valid l' = Ok tt l'' /\ pos l'' = pos l'.
Proof.
  intros Hb.
  pose proof (acceptRun_spec valid l Hb) as H. apply post_Ok in H.
  destruct H as ([] & l' & E & S1 & R & Hp & Hn).
  assert (I1 : input l' = input l) by apply S1.
  assert (Hb' : inb l') by (unfold inb; rewrite I1; unfold inb in Hb; lia).
  exists l'. split; [assumption|]. split; [assumption|].
  split; [assumption|]. split; [assumption|]. split; [|split].
  - intros q Hq.
    apply (run_of_longest valid (input l) (pos l) q Hq (pos l') Hb R Hn).
  - intros C. apply (post_at _ _ _ _ _ (tracks_acceptRun valid l Hb C) E).
  - pose proof (acceptRun_spec valid l' Hb') as H'. apply post_Ok in H'.
    destruct H' as ([] & l'' & E' & S2 & R' & Hp' & Hn').
    rewrite I1 in *.
    assert (P : pos l'' = pos l').
    { symmetry. eapply (run_of_unique _ _ (pos l'));
        [apply run_nil|exact Hn|exact R'|exact Hn']. }
    exists l''. split; assumption.
Qed.


(** [ignore] moves the start of the pending item to the cursor and adds
    to the line counter the newlines of the text it skips.  [next] has
    counted them already: after [ignore] an accurate line counter is
    accurate only when the skipped text holds no newline. *)
Theorem ignore_counts_newlines_again l :
  0 <= start l <= pos l -> pos l <= len (input l) ->
  exists l',
    ignore l = Ok tt l' /\
    name l' = name l /\ input l' = input l /\ pos l' = pos l /\
    items l' = items l /\ start l' = pos l /\ startLine l' = line l' /\
    line l' = line l + (line_at (input l) (pos l)
                        - line_at (input l) (start l)) /\
    (counted l ->
     (counted l' <->
      line_at (input l) (start l) = line_at (input l) (pos l))).
Proof.
  intros H1 H2. destruct (slice_ok _ _ _ H1 H2) as [v Hv].
  unfold ignore. rewrite Hv. eexists. split; [reflexivity|].
  cbn -[line_at]. rewrite (slice_newlines _ _ _ _ Hv).
  repeat (split; [reflexivity|]).
  unfold counted. cbn -[line_at]. intros C. rewrite C. split; intros H; lia.
Qed.

(** On an input of bytes below [RuneSelf], [scanIdentifier] succeeds
    exactly when the rune at the cursor is a letter a-z, A-Z or an
    underscore: the rune after the run cannot be a letter or a digit.
    When it fails the cursor has not moved. *)
Theorem scanIdentifier_on_ascii l :
  inb l -> all_bytes (fun b => b <? 128) (input l) = true ->
  exists b l',
    scanIdentifier l = Ok b l' /\
    b = strings.ContainsRune chars (rn (input l) (pos l)) /\
    (b = false -> pos l' = pos l).
Proof.
  intros Hb Ha.
  pose proof (scanIdentifier_spec l Hb) as H. apply post_Ok in H.
  destruct H as (b & l' & E & S1 & D).
  exists b, l'. split; [assumption|].
  destruct D as [(C & -> & P)|(C & q & R & C' & Hq & D)]; [auto|].
  destruct D as [(A & -> & P)|(A & -> & P)]; [exfalso|split; [auto|discriminate]].
  pose proof (rune_at_bounds _ _ Hb) as (B1 & _).
  assert (Hq' : 0 <= q <= len (input l)) by (unfold inb in Hb; lia).
  destruct (rune_at_facts _ _ Hq') as [[H1 H2]|(H1 & _)].
  - rewrite H2 in A. cbn [fst] in A. rewrite isAlphaNumeric_eof in A.
    discriminate.
  - destruct (index_lt (input l) q ltac:(lia)) as (x & Hx).
    pose proof (all_bytes_spec _ _ _ _ Ha Hx) as Hlt. cbv beta in Hlt.
    pose proof (index_Some _ _ _ Hx).
    assert (X : 0 <= x) by
      (unfold index in Hx; destruct (q <? 0); [discriminate|];
       destruct (String.get _ _) as [c|]; [|discriminate];
       injection Hx as <-; apply byte_val_range).
    apply Z.ltb_lt in Hlt.
    rewrite (byte_rune (input l) q x ltac:(lia) Hx Hlt) in A, C'.
    cbn [fst] in A, C'.
    rewrite (alnum_below_RuneSelf x ltac:(lia) A) in C'. discriminate.
Qed.

(* ================================================================== *)
(** ** The first state function *)

Lemma errorf_sent format args l o l' :
  errorf format args l = Ok o l' ->
  o = None /\
  sent (items l')
  = sent (items l)
    ++ [item.mk itemError (start l) (Sprintf format args) (startLine l)].
Proof.
  unfold errorf, bind, send, ret. destruct (closed (items l)); [discriminate|].
  intros E. injection E as <- <-. split; reflexivity.
Qed.

Lemma space_end_unique s p q :
  0 <= p <= len s -> 0 <= q <= len s ->
  bytes_in spaceChars s 0 q -> in_set spaceChars (rn s p) = false ->
  p < q -> False.
Proof.
  intros Hp Hq Hb Hn Hlt.
  destruct (Hb p ltac:(lia)) as (b & Hi & Hin).
  rewrite (byte_in_set spaceChars s p b) in Hn; try assumption;
    [congruence|reflexivity|lia].
Qed.

(** The scan of an input that does not start, after white space, with
    the letter s: one error item, at the offset after the white space. *)
Lemma lex_start nm inp l p :
  lex nm inp = Ok tt l ->
  0 <= p <= len inp -> bytes_in spaceChars inp 0 p ->
  in_set spaceChars (rn inp p) = false ->
  rn inp p <> 115 -> rn inp p <> 83 ->
  sent (items l)
  = [item.mk itemError p
       (if rn inp p =? eof
        then Sprintf "not finished statement" []
        else Sprintf "unrecognized character at start of statement: %#U"
                     [ArgRune (rn inp p)])
       1].
Proof.
  intros Hl Hp Hsp Hn H1 H2.
  change (lex nm inp) with (run lexStartStatement (fresh nm inp)) in Hl.
  unfold run in Hl. inv_bind Hl as u l1 E1.
  assert (Hs : sent (items l) = sent (items l1)).
  { unfold close in Hl. destruct (closed (items l1)); [discriminate|].
    injection Hl as <-. reflexivity. }
  rewrite Hs. clear Hl Hs.
  replace (String.length (input (fresh nm inp)) + 6)%nat
    with (S (String.length (input (fresh nm inp)) + 5)) in E1 by lia.
  cbn [run_loop call] in E1. inv_bind E1 as o l2 E2.
  unfold lexStartStatement_fn in E2.
  inv_bind E2 as u2 l3 E3.
  destruct (Rich_fresh nm inp) as (C0 & _).
  destruct (skip_Ok _ _ _ (Inv_fresh nm inp) C0 E3)
    as (S3 & St3 & C3 & (_ & Ki & Kit & Ksl) & P3 & W3).
  pose proof (post_at _ _ _ _ _
                (skipWhitespace_spec _ (proj1 (proj2 (proj2 (Inv_fresh nm inp))))) E3)
    as (_ & _ & Hp3 & Hb3 & _).
  cbn [fresh input pos] in Ki, Hp3, Hb3. rewrite Ki in W3.
  assert (P : pos l3 = p).
  { destruct (Z.lt_trichotomy (pos l3) p) as [Hlt|[Heq|Hgt]]; [|assumption|].
    - exfalso. apply (space_end_unique inp (pos l3) p); auto; lia.
    - exfalso. apply (space_end_unique inp p (pos l3)); auto; lia. }
  inv_bind E2 as r l4 E4.
  destruct (read_Ok _ _ _ S3 C3 E4) as (S4 & C4 & (_ & Ti & Ts & Tit & Tsl) & -> & _).
  rewrite Ki, P in *.
  assert (Done : forall format args,
            errorf format args l4 = Ok o l2 ->
            sent (items l1)
            = [item.mk itemError p (Sprintf format args) 1]).
  { intros format args Er. apply errorf_sent in Er. destruct Er as [-> Er].
    assert (Hn' : run_loop (String.length (input (fresh nm inp)) + 5) None
                  = ret tt) by (destruct (_ + 5)%nat; reflexivity).
    rewrite Hn' in E1. injection E1 as _ <-.
    rewrite Er, Tit, Kit, Ts, St3, Tsl, Ksl. reflexivity. }
  destruct (rn inp p =? eof); [apply Done; assumption|].
  replace ((rn inp p =? 115) || (rn inp p =? 83)) with false in E2 by lia.
  apply Done. assumption.
Qed.

(** An input that is empty or made of white space only gives one item:
    the error item of the message "not finished statement", at the end
    of the input, on line 1 whatever newlines the input holds. *)
Theorem blank_input_is_not_finished nm inp :
  all_bytes (strings.ContainsRune spaceChars) inp = true ->
  exists l,
    lex nm inp = Ok tt l /\
    sent (items l)
    = [item.mk itemError (len inp) (Sprintf "not finished statement" []) 1].
Proof.
  intros Ha. destruct (lex_Scanned nm inp) as (l & Hl & _).
  exists l. split; [assumption|].
  pose proof (len_nonneg inp) as Hlen.
  assert (Hr : rune_at inp (len inp) = (eof, 0)).
  { destruct (rune_at_facts inp (len inp) ltac:(lia)) as [[_ H]|(H & _)];
      [assumption|lia]. }
  rewrite (lex_start nm inp l (len inp) Hl); try lia.
  - rewrite Hr. reflexivity.
  - intros i Hi. destruct (index_lt inp i ltac:(lia)) as (b & Hb).
    exists b. split; [assumption|]. eapply all_bytes_spec; eassumption.
  - rewrite Hr. reflexivity.
  - rewrite Hr. cbn. unfold eof. lia.
  - rewrite Hr. cbn. unfold eof. lia.
Qed.

(** A statement starts with the letter s: when the first rune after the
    white space is another one, the scan gives one item, the error item
    of the message "unrecognized character at start of statement" with
    that rune, at the offset of the rune and on line 1. *)
Theorem statement_starts_with_s nm inp p :
  0 <= p < len inp -> bytes_in spaceChars inp 0 p ->
  strings.ContainsRune spaceChars (rn inp p) = false ->
  rn inp p <> 115 -> rn inp p <> 83 ->
  exists l,
    lex nm inp = Ok tt l /\
    sent (items l)
    = [item.mk itemError p
         (Sprintf "unrecognized character at start of statement: %#U"
                  [ArgRune (rn inp p)])
         1].
Proof.
  intros Hp Hsp Hn H1 H2. destruct (lex_Scanned nm inp) as (l & Hl & _).
  exists l. split; [assumption|].
  rewrite (lex_start nm inp l p Hl); try assumption; try lia.
  destruct (rune_at_facts inp p ltac:(lia)) as [[H _]|(_ & _ & _ & H & _)];
    [lia|].
  replace (rn inp p =? eof) with false by (unfold eof; lia). reflexivity.
Qed.


(* ================================================================== *)
(** ** Error items, rendering, white space *)

Lemma kinds_at_finished_last ks :
  kinds_at finished ks -> exists ks', ks = ks' ++ [itemEOF].
Proof. inversion 1. eauto. Qed.

(** The offset of an error item: the first position, after the end of
    the item sent before it (or after the start of the input), that does
    not hold white space; only white space lies between the two. *)
Theorem error_item_offset nm inp :
  exists l,
    lex nm inp = Ok tt l /\
    forall toks t,
      sent (items l) = toks ++ [t] -> item.typ t = itemError ->
      last_end toks <= item.pos t <= len inp /\
      bytes_in spaceChars inp (last_end toks) (item.pos t) /\
      strings.ContainsRune spaceChars (rn inp (item.pos t)) = false.
Proof.
  destruct (lex_Rich nm inp) as (l & Hl & (Hi & _) & (_ & _ & _ & K)).
  exists l. split; [assumption|]. intros toks t Hs Ht.
  destruct K as [K|(q & ks & toks0 & t0 & Hq & K & E & Hs0 & Hp & Hr & Hb & Hn)].
  - exfalso. unfold kinds in K. rewrite Hs, map_app in K. cbn in K.
    destruct (kinds_at_finished_last _ K) as (ks' & Hk).
    apply app_inj_tail in Hk. destruct Hk as [_ Hk]. congruence.
  - rewrite Hs in Hs0. apply app_inj_tail in Hs0. destruct Hs0 as [-> ->].
    unfold nonspace in Hn. rewrite Hi, <- Hp in *. auto.
Qed.

(** How the items of a scan are rendered by [String]: the end-of-input
    item as "EOF", an error item as its message, the items of the kinds
    after [itemKeyword] (Comma, Star, Select, From) between angle
    brackets, and an Identifier, String or Number item quoted, cut after
    ten bytes when it is longer. *)
Theorem rendering_of_items nm inp :
  exists l,
    lex nm inp = Ok tt l /\
    forall t, In t (sent (items l)) ->
      match item.typ t with
      | itemEOF => item_String t = "EOF"
      | itemError => item_String t = item.val t
      | itemStar => item_String t = Sprintf "<%s>" [ArgString "*"]
      | itemComma => item_String t = Sprintf "<%s>" [ArgString ","]
      | itemSelect | itemFrom =>
          item_String t = Sprintf "<%s>" [ArgString (item.val t)]
      | itemIdentifier | itemString | itemNumber =>
          item_String t
          = if 10 <? len (item.val t)
            then Sprintf "%.10q..." [ArgString (item.val t)]
            else Sprintf "%q" [ArgString (item.val t)]
      | itemKeyword | itemSemicolon => False
      end.
Proof.
  destruct (lex_Rich nm inp) as (l & Hl & _ & (_ & _ & W & _)).
  exists l. split; [assumption|]. intros t Ht.
  rewrite Forall_forall in W. specialize (W t Ht).
  unfold wf_item, wf_text in W. unfold item_String.
  destruct (item.typ t); cbn; try reflexivity; try exact W;
    rewrite W; reflexivity.
Qed.

Lemma run_of_ext (f g : rune -> bool) s p q :
  (forall r, f r = g r) -> run_of f s p q -> run_of g s p q.
Proof.
  intros H. induction 1 as [p|p q Hv Hr IH]; [constructor|].
  econstructor; [rewrite <- H; exact Hv|exact IH].
Qed.

Lemma spaceChars_isSpace r :
  strings.ContainsRune spaceChars r = isSpace r || isEndOfLine r.
Proof.
  rewrite in_spaceChars. unfold isSpace, isEndOfLine.
  rewrite orb_assoc. reflexivity.
Qed.

(** [skipWhitespace] passes the runes that [isSpace] or [isEndOfLine]
    accept and stops at the first other rune or at the end of the input;
    the pending item then starts at the cursor.  It sends nothing, keeps
    an accurate line counter accurate, and leaves [startLine] as it was,
    also when it has passed newlines. *)
Theorem skipWhitespace_skips_spaces_and_line_ends l :
  inb l ->
  exists l',
    skipWhitespace l = Ok tt l' /\
    run_of (fun r => isSpace r || isEndOfLine r) (input l) (pos l) (pos l') /\
    isSpace (rn (input l) (pos l')) = false /\
    isEndOfLine (rn (input l) (pos l')) = false /\
    start l' = pos l' /\ startLine l' = startLine l /\
    input l' = input l /\ items l' = items l /\
    (counted l -> counted l').
Proof.
  intros Hb. unfold skipWhitespace.
  pose proof (acceptRun_spec spaceChars l Hb) as H. apply post_Ok in H.
  destruct H as ([] & l1 & E & (Sn & Si & Ss & Sit & Ssl) & R & Hp & Hn).
  exists (set_start (pos l1) l1). unfold bind. rewrite E.
  split; [reflexivity|]. cbn.
  rewrite spaceChars_isSpace in Hn. apply orb_false_elim in Hn.
  split; [eapply run_of_ext; [apply spaceChars_isSpace|exact R]|].
  split; [apply Hn|]. split; [apply Hn|].
  split; [reflexivity|]. split; [assumption|]. split; [assumption|].
  split; [assumption|].
  intros C.
  pose proof (post_at _ _ _ _ _ (tracks_acceptRun spaceChars l Hb C) E)
    as (_ & C1).
  exact C1.
Qed.

(** The scanning methods keep an accurate line counter accurate, whether
    they succeed or fail, and so does [next]. *)
Theorem line_counter_stays_accurate l :
  inb l -> counted l ->
  (exists r l', next l = Ok r l' /\ counted l') /\
  (exists b l', scanIdentifier l = Ok b l' /\ counted l') /\
  (exists b l', scanNumber l = Ok b l' /\ counted l') /\
  (exists b l', scanString l = Ok b l' /\ counted l').
Proof.
  intros Hb C. split; [|split; [|split]].
  - pose proof (tracks_next l Hb C) as H. apply post_Ok in H.
    destruct H as (r & l' & E & _ & C'). eauto.
  - pose proof (scanIdentifier_tracks l Hb C) as H. apply post_Ok in H.
    destruct H as (r & l' & E & _ & C'). eauto.
  - pose proof (scanNumber_tracks l Hb C) as H. apply post_Ok in H.
    destruct H as (r & l' & E & _ & C'). eauto.
  - pose proof (scanString_tracks l Hb C) as H. apply post_Ok in H.
    destruct H as (r & l' & E & _ & C'). eauto.
Qed.


(* ================================================================== *)
(** ** Decimal integers *)

Lemma acceptRun_to valid l0 p q l :
  cursor_at l0 p l -> 0 <= p <= len (input l0) ->
  run_of (in_set valid) (input l0) p q ->
  in_set valid (rn (input l0) q) = false ->
  post (acceptRun valid) l (fun _ l' => cursor_at l0 q l').
Proof.
  intros C Hp R Hn. pose proof (cursor_inb _ _ _ C Hp) as Hb.
  destruct C as (S0 & P).
  assert (I : input l = input l0) by (destruct S0 as (_ & I & _); exact I).
  eapply post_mono; [apply acceptRun_spec; assumption|].
  cbv beta. intros _ l' (S1 & R' & Hp' & C'). rewrite I, P in *.
  split; [eapply steady_trans; eassumption|].
  eapply run_of_unique; eassumption.
Qed.

(** A run of decimal digits and underscores that starts with a digit and
    is followed by a rune that is neither a letter, a digit or an
    underscore, nor a dot, is a number for [scanNumber], which stops
    after the run. *)
Theorem scanNumber_decimal_integer l q :
  inb l ->
  isDigit (rn (input l) (pos l)) = true ->
  run_of (strings.ContainsRune "0123456789_") (input l) (pos l) q ->
  isAlphaNumeric (rn (input l) q) = false ->
  rn (input l) q <> 46 ->
  exists l',
    scanNumber l = Ok true l' /\ steady l l' /\ pos l' = q /\ pos l < q.
Proof.
  intros Hb Hd R Ha Hdot.
  assert (Hn : in_set "0123456789_" (rn (input l) q) = false)
    by (apply not_in_alnum_set; [vm_compute; reflexivity|assumption]).
  assert (Hr : 0 <= rn (input l) (pos l) < 128) by (unfold isDigit in Hd; lia).
  destruct (width_ascii (input l) (pos l) Hb Hr) as (W & L).
  assert (Hq : pos l <= q <= len (input l)).
  { eapply run_of_le; [|exact R|exact Hb]. intros r. apply in_set_nonneg. }
  assert (R1 : run_of (in_set "0123456789_") (input l) (pos l + 1) q /\
               pos l < q).
  { inversion R as [|? ? Hv R']; subst.
    - exfalso. rewrite in_decimal in Hn. unfold isDigit in Hd. lia.
    - rewrite W in R'. split; [exact R'|].
      assert (pos l + 1 <= q <= len (input l)); [|lia].
      eapply run_of_le; [|exact R'|unfold inb in Hb; lia].
      intros r. apply in_set_nonneg. }
  destruct R1 as (R1 & Hlt).
  assert (C0 : cursor_at l (pos l) l) by (split; [apply steady_refl|reflexivity]).
  assert (Goal : post scanNumber l (fun b l' => b = true /\ cursor_at l q l')).
  { unfold inb in Hb. unfold scanNumber.
    mstep accept_no;
      [eassumption|lia|rewrite in_sign; unfold isDigit in Hd; lia|].
    intros ? l1 (-> & C1). cbv zeta.
    assert (Tail : forall l3, cursor_at l q l3 ->
      post (dot <- accept "." ;;
            (if dot then acceptRun "0123456789_" else ret tt) ;;;
            (if len "0123456789_" =? 10 + 1
             then e <- accept "eE" ;;
                  (if e then accept "+-" ;;; acceptRun "0123456789_"
                   else ret tt)
             else ret tt) ;;;
            (if len "0123456789_" =? 16 + 6 + 1
             then p <- accept "pP" ;;
                  (if p then accept "+-" ;;; acceptRun "0123456789_"
                   else ret tt)
             else ret tt) ;;;
            accept "i" ;;;
            r <- peek ;;
            (if isAlphaNumeric r then next ;;; ret false else ret true))
        l3 (fun b l' => b = true /\ cursor_at l q l')).
    { intros l3 C3. repeat number_step.
      match goal with H : isAlphaNumeric _ = false |- _ => rewrite H end.
      apply post_ret. split; [reflexivity|assumption]. }
    destruct (Z.eqb_spec (rn (input l) (pos l)) 48) as [Z0|Z0].
    - mstep accept_yes; [eassumption|lia|rewrite in_zero; lia|].
      rewrite W. intros ? l2 (-> & C2).
      assert (Hx : in_set "xX" (rn (input l) (pos l + 1)) = false /\
                   in_set "oO" (rn (input l) (pos l + 1)) = false /\
                   in_set "bB" (rn (input l) (pos l + 1)) = false).
      { rewrite in_xX, in_oO, in_bB.
        inversion R1 as [|? ? Hv R']; subst.
        - repeat split;
            match goal with
            | |- ?a || ?b = false =>
                destruct a eqn:A; destruct b eqn:B; try reflexivity; exfalso;
                bools;
                match goal with
                | H : rn _ _ = ?n |- _ =>
                    rewrite H in Ha; vm_compute in Ha; discriminate
                end
            end.
        - rewrite in_decimal in Hv. lia. }
      destruct Hx as (X1 & X2 & X3).
      cbv beta iota. apply post_bind.
      mstep accept_no; [eassumption|lia|exact X1|]. intros ? l3 (-> & C3).
      cbv beta iota.
      mstep accept_no; [eassumption|lia|exact X2|]. intros ? l4 (-> & C4).
      cbv beta iota.
      mstep accept_no; [eassumption|lia|exact X3|]. intros ? l5 (-> & C5).
      cbv beta iota. apply post_ret. apply post_bind.
      eapply post_mono; [eapply acceptRun_to; [eassumption|lia|exact R1|exact Hn]|].
      cbv beta. intros _ l6 C6. apply Tail. exact C6.
    - mstep accept_no; [eassumption|lia|rewrite in_zero; lia|].
      intros ? l2 (-> & C2).
      cbv beta iota. apply post_bind. apply post_ret. apply post_bind.
      eapply post_mono; [eapply acceptRun_to; [eassumption|lia|exact R|exact Hn]|].
      cbv beta. intros _ l6 C6. apply Tail. exact C6. }
  apply post_Ok in Goal. destruct Goal as (b & l' & E & -> & (S1 & P1)).
  exists l'. auto.
Qed.


(* ================================================================== *)
(** ** The loop of [main] *)

Lemma read_loop_items cl : forall toks rest n,
  Forall nonterminal toks ->
  read_loop (List.length toks + n) {| sent := toks ++ rest; closed := cl |}
  = option_map (app (map print_item toks))
      (read_loop n {| sent := rest; closed := cl |}).
Proof.
  induction toks as [|x toks IH]; intros rest n Hf.
  - cbn [List.length Nat.add app map]. destruct (read_loop n _); reflexivity.
  - inversion Hf as [|? ? [H1 H2] Hf']; subst.
    cbn [List.length Nat.add read_loop nextItem sent app closed map].
    rewrite (IH rest n Hf'). unfold print_item at 2.
    destruct (item.typ x) eqn:T; try contradiction; cbn [itemType_eqb];
      destruct (read_loop n _); reflexivity.
Qed.

(** The loop of [main] ends for every input: it prints one line for each
    item of the stream, in order, stops at the last item, which it prints
    as the end or as an error, and receives nothing after it.  For the
    input of [main] itself these are eleven lines. *)
Theorem main_prints_every_item nm inp :
  (exists l toks t,
     lex nm inp = Ok tt l /\ sent (items l) = toks ++ [t] /\
     forall n, (List.length toks < n)%nat ->
       read_loop n (items l) = Some (map print_item toks ++ [print_last t])) /\
  main
  = Some [ PrintfItem (Sprintf "<%s>" [ArgString "sElect"]) 8;
           PrintfItem (Sprintf "%q" [ArgString "col"]) 2;
           PrintfItem (Sprintf "<%s>" [ArgString ","]) 6;
           PrintfItem (Sprintf "%q" [ArgString "col"]) 2;
           PrintfItem (Sprintf "<%s>" [ArgString ","]) 6;
           PrintfItem (Sprintf "%q" [ArgString "11"]) 4;
           PrintfItem (Sprintf "<%s>" [ArgString ","]) 6;
           PrintfItem (Sprintf "%q" [ArgString "'ab''c'"]) 3;
           PrintfItem (Sprintf "<%s>" [ArgString "from"]) 9;
           PrintfItem (Sprintf "%q" [ArgString "table"]) 2;
           PrintlnEnd ].
Proof.
  split; [|vm_compute; reflexivity].
  destruct (lex_Scanned nm inp)
    as (l & Hl & _ & _ & toks & t & Hs & Hf & E & _ & D).
  exists l, toks, t. split; [assumption|]. split; [assumption|].
  intros n Hn.
  assert (Hit : items l = {| sent := toks ++ [t]; closed := closed (items l) |})
    by (rewrite <- Hs; destruct (items l); reflexivity).
  rewrite Hit.
  replace n with (List.length toks + S (n - List.length toks - 1))%nat by lia.
  rewrite read_loop_items by assumption.
  cbn [read_loop nextItem sent]. unfold print_last.
  destruct D as [(D & _)|(D & _)]; rewrite D; reflexivity.
Qed.


(* ================================================================== *)
(** ** The name of the input *)

Lemma nameless_ret {A} (a : A) : nameless (ret a).
Proof. intros v l. reflexivity. Qed.

Lemma nameless_bind {A B} (m : M A) (k : A -> M B) :
  nameless m -> (forall a, nameless (k a)) -> nameless (bind m k).
Proof.
  intros Hm Hk v l. unfold bind. rewrite Hm.
  destruct (m l) as [a l1| |]; cbn [rename]; [apply Hk|reflexivity|reflexivity].
Qed.

Lemma nameless_next : nameless next.
Proof.
  intros v l. unfold next. cbn [input pos set_name].
  destruct (len (input l) <=? pos l); [reflexivity|].
  destruct (slice_from (input l) (pos l)); [|reflexivity].
  destruct (utf8.DecodeRuneInString s) as [r w].
  destruct (r =? 10); reflexivity.
Qed.

Lemma nameless_backup : nameless backup.
Proof.
  intros v l. unfold backup. cbn.
  destruct (width l =? 1); [|reflexivity].
  destruct (index (input l) (pos l - width l)) as [b|]; [|reflexivity].
  destruct (b =? 10); reflexivity.
Qed.

Lemma nameless_send it : nameless (send it).
Proof.
  intros v l. unfold send. cbn. destruct (closed (items l)); reflexivity.
Qed.

Lemma nameless_emit t : nameless (emit t).
Proof.
  intros v l. unfold emit. cbn [input pos start set_name].
  destruct (slice (input l) (start l) (pos l)) as [x|]; [|reflexivity].
  unfold bind, send. cbn. destruct (closed (items l)); reflexivity.
Qed.

Lemma nameless_errorf format args : nameless (errorf format args).
Proof.
  intros v l. unfold errorf, bind, send, ret. cbn.
  destruct (closed (items l)); reflexivity.
Qed.

Lemma nameless_pending : nameless pending.
Proof.
  intros v l. unfold pending. cbn [input pos start set_name].
  destruct (slice (input l) (start l) (pos l)); reflexivity.
Qed.

Lemma nameless_acceptRun_loop valid n : nameless (acceptRun_loop n valid).
Proof.
  induction n as [|n IH]; [intros v l; reflexivity|].
  cbn [acceptRun_loop]. apply nameless_bind; [apply nameless_next|].
  intros r. destruct (strings.ContainsRune valid r);
    [exact IH|apply nameless_ret].
Qed.

Lemma nameless_acceptRun valid : nameless (acceptRun valid).
Proof.
  intros v l. unfold acceptRun. cbn [input set_name].
  apply (nameless_bind (acceptRun_loop _ valid) (fun _ => backup));
    [apply nameless_acceptRun_loop|intros _; apply nameless_backup].
Qed.

Lemma nameless_skipWhitespace : nameless skipWhitespace.
Proof.
  unfold skipWhitespace. apply nameless_bind; [apply nameless_acceptRun|].
  intros _ v l. reflexivity.
Qed.

Ltac nameless_tac :=
  repeat first
    [ apply nameless_ret | apply nameless_next | apply nameless_backup
    | apply nameless_acceptRun | apply nameless_skipWhitespace
    | apply nameless_emit | apply nameless_errorf | apply nameless_pending
    | apply nameless_bind; [|intros ?]
    | match goal with |- nameless (if ?b then _ else _) => destruct b end ].

Lemma nameless_accept valid : nameless (accept valid).
Proof. unfold accept. nameless_tac. Qed.

Lemma nameless_peek : nameless peek.
Proof. unfold peek. nameless_tac. Qed.

Lemma nameless_scanIdentifier : nameless scanIdentifier.
Proof. unfold scanIdentifier, accept, peek. nameless_tac. Qed.

Lemma nameless_scanNumber : nameless scanNumber.
Proof. unfold scanNumber, accept, peek. nameless_tac. Qed.

Lemma nameless_scanString_loop n : nameless (scanString_loop n).
Proof.
  induction n as [|n IH]; [intros v l; reflexivity|].
  cbn [scanString_loop]. nameless_tac; exact IH.
Qed.

Lemma nameless_scanString : nameless scanString.
Proof.
  unfold scanString. apply nameless_bind; [apply nameless_next|].
  intros r. destruct (negb (r =? 39)); [nameless_tac|].
  intros v l. cbn [input set_name]. apply nameless_scanString_loop.
Qed.

Lemma nameless_keyword_loop keyword upper it na : forall lower ix,
  nameless (keyword_loop keyword upper ix lower it na).
Proof.
  induction lower as [|lo lower IH]; intros ix; cbn [keyword_loop].
  - nameless_tac.
  - destruct (nth_error upper ix); [|intros v l; reflexivity].
    nameless_tac. apply IH.
Qed.

Lemma nameless_call s : nameless (call s).
Proof.
  destruct s; cbn [call];
    unfold lexStartStatement_fn, lexSelectKeyword_fn, lexFromKeyword_fn,
      lexValueExprList_fn, lexFromTableName_fn, lexEndOfStatement_fn,
      createLexKeyword, afterValueExpr;
    cbv zeta;
    repeat first
      [ apply nameless_keyword_loop | apply nameless_scanString
      | apply nameless_scanNumber | apply nameless_scanIdentifier
      | apply nameless_accept
      | apply nameless_ret | apply nameless_next | apply nameless_backup
      | apply nameless_skipWhitespace
      | apply nameless_emit | apply nameless_errorf | apply nameless_pending
      | apply nameless_bind; [|intros ?]
      | match goal with |- nameless (if ?b then _ else _) => destruct b end ].
Qed.

Lemma nameless_run_loop n : forall o, nameless (run_loop n o).
Proof.
  induction n as [|n IH]; intros [s|]; cbn [run_loop];
    try (intros v l; reflexivity).
  apply nameless_bind; [apply nameless_call|]. intros o. apply IH.
Qed.

(** The name of the input has no part in a scan: two scans of the same
    input under two names send the same items, and end with lexers that
    differ by the name only. *)
Theorem name_is_not_used nm nm' inp :
  lex nm inp = rename nm (lex nm' inp) /\
  exists l l',
    lex nm inp = Ok tt l /\ lex nm' inp = Ok tt l' /\
    sent (items l) = sent (items l') /\ name l = nm /\ name l' = nm'.
Proof.
  assert (E : forall a b, lex a inp = rename a (lex b inp)).
  { intros a b.
    change (lex a inp) with (run lexStartStatement (set_name a (fresh b inp))).
    change (lex b inp) with (run lexStartStatement (fresh b inp)).
    unfold run. cbn [input set_name].
    apply (nameless_bind (run_loop _ (Some lexStartStatement)) (fun _ => close)).
    - apply nameless_run_loop.
    - intros _ v l. unfold close. cbn. destruct (closed (items l)); reflexivity. }
  split; [apply E|].
  destruct (lex_Scanned nm' inp) as (l' & Hl' & _).
  exists (set_name nm l'), l'. rewrite (E nm nm'), Hl'.
  split; [reflexivity|]. split; [reflexivity|]. split; [reflexivity|].
  split; [reflexivity|].
  pose proof (E nm' nm') as E2. rewrite Hl' in E2. cbn in E2.
  injection E2 as ->. reflexivity.
Qed.


(* ================================================================== *)
(** ** Identifiers scanned again, the map [key], strings that do not close *)

Lemma run_of_of_bytes valid s : forall n p q,
  ascii_set valid = true -> Z.to_nat (q - p) = n ->
  0 <= p <= q -> q <= len s -> bytes_in valid s p q ->
  run_of (in_set valid) s p q.
Proof.
  induction n as [|n IH]; intros p q Ha Hn Hp Hq Hb.
  - replace q with p by lia. constructor.
  - destruct (Hb p ltac:(lia)) as (b & Hi & Hin).
    pose proof (byte_in_set valid s p b Ha ltac:(lia) Hi Hin) as Hr.
    pose proof (ContainsRune_ascii _ _ Ha Hin) as Hlt.
    destruct (rune_byte s p ltac:(lia) ltac:(rewrite Hr; lia)) as (W & _).
    apply run_cons; [rewrite Hr; exact Hin|]. rewrite W.
    apply IH; try assumption; try lia.
    intros i Hi'. apply Hb. lia.
Qed.

Lemma identifier_text_rescans nm v :
  identifier_text v = true ->
  exists l', scanIdentifier (fresh nm v) = Ok true l' /\ pos l' = len v.
Proof.
  intros H. destruct v as [|c v']; [discriminate|].
  cbn [identifier_text] in H. apply andb_prop in H. destruct H as [H1 H2].
  set (v := String c v') in *.
  pose proof (len_nonneg v') as Hv'.
  assert (Hlen : len v = len v' + 1) by apply len_String.
  assert (Hb : inb (fresh nm v)) by (unfold inb; cbn [input pos fresh]; lia).
  assert (I0 : index v 0 = Some (byte_val c)) by reflexivity.
  assert (A1 : ascii_set chars = true) by reflexivity.
  assert (A2 : ascii_set charsAndDigits = true) by reflexivity.
  pose proof (byte_in_set chars v 0 _ A1 ltac:(lia) I0 H1) as R0.
  pose proof (ContainsRune_ascii _ _ A1 H1) as Hlt.
  destruct (rune_byte v 0 ltac:(lia) ltac:(rewrite R0; lia)) as (W0 & _).
  assert (Run : run_of (in_set charsAndDigits) v 1 (len v)).
  { eapply run_of_of_bytes; try reflexivity; try lia.
    intros i Hi. destruct (index_lt v' (i - 1) ltac:(lia)) as (b & Hbi).
    exists b. split.
    - replace i with ((i - 1) + 1) by lia. unfold v.
      rewrite index_S by lia. exact Hbi.
    - eapply all_bytes_spec; eassumption. }
  assert (End : rune_at v (len v) = (eof, 0)).
  { destruct (rune_at_facts v (len v) ltac:(lia)) as [[_ E]|(E & _)];
      [exact E|lia]. }
  pose proof (scanIdentifier_spec (fresh nm v) Hb) as S. apply post_Ok in S.
  destruct S as (b & l' & E & S1 & D). cbn [input pos fresh] in D.
  rewrite R0, H1, W0 in D.
  destruct D as [(C & _)|(_ & q & R & C' & Hq & D)]; [discriminate|].
  assert (Q : q = len v).
  { eapply (run_of_unique _ _ _ _ _ R C' Run). rewrite End. reflexivity. }
  subst q. rewrite End in D. cbn [fst snd] in D.
  rewrite isAlphaNumeric_eof in D.
  destruct D as [(D & _)|(_ & -> & P)]; [discriminate|].
  exists l'. split; assumption.
Qed.

(** An Identifier item scans again: [scanIdentifier], called on the text
    of any Identifier item of any scan, taken as an input of its own,
    accepts it up to its end. *)
Theorem identifiers_scan_again nm inp :
  exists l,
    lex nm inp = Ok tt l /\
    forall t, In t (sent (items l)) -> item.typ t = itemIdentifier ->
      exists l',
        scanIdentifier (fresh nm (item.val t)) = Ok true l' /\
        pos l' = len (item.val t).
Proof.
  destruct (lex_Rich nm inp) as (l & Hl & _ & (_ & _ & W & _)).
  exists l. split; [assumption|]. intros t Ht Hk.
  rewrite Forall_forall in W. specialize (W t Ht).
  unfold wf_item in W. rewrite Hk in W. cbn in W.
  apply identifier_text_rescans. exact W.
Qed.

(** The map [key] and the scanner: for a Star, Comma, Select or From item
    of a scan, [key] maps the text of the item, in lower case, to the
    kind of the item; for the end-of-input item, whose text is the
    semicolon, [key] gives [itemSemicolon], a kind the scanner never
    sends. *)
Theorem key_and_the_kinds_sent nm inp :
  exists l,
    lex nm inp = Ok tt l /\
    forall t, In t (sent (items l)) ->
      (In (item.typ t) [itemStar; itemComma; itemSelect; itemFrom] ->
       key_lookup (strings.ToLower (item.val t)) = Some (item.typ t)) /\
      (item.typ t = itemEOF ->
       key_lookup (strings.ToLower (item.val t)) = Some itemSemicolon) /\
      item.typ t <> itemSemicolon.
Proof.
  destruct (lex_Rich nm inp) as (l & Hl & _ & (_ & _ & W & _)).
  exists l. split; [assumption|]. intros t Ht.
  rewrite Forall_forall in W. specialize (W t Ht).
  unfold wf_item, wf_text in W.
  destruct (item.typ t) eqn:T; cbn [In];
    (split; [|split]; try discriminate; try contradiction);
    try (intros [H|[H|[H|[H|[]]]]]; discriminate H);
    intros _; rewrite W; reflexivity.
Qed.

(** The loop of [scanString] fails at the first newline or at the end of
    the input: when it returns false the cursor is at the end of the
    input, or just after a newline, and no newline lies before that one. *)
Lemma scanString_loop_fails n : forall l l',
  inb l -> scanString_loop n l = Ok false l' ->
  exists e, pos l <= e <= len (input l) /\
    line_at (input l) e = line_at (input l) (pos l) /\
    ((e = len (input l) /\ pos l' = e)
     \/ (index (input l) e = Some 10 /\ pos l' = e + 1)).
Proof.
  induction n as [|n IH]; intros l l' Hb E; [discriminate|].
  cbn [scanString_loop] in E. inv_bind E as r l1 E1.
  pose proof (post_at _ _ _ _ _ (next_all l Hb) E1)
    as (S1 & B1 & -> & P1 & W1 & _).
  assert (I1 : input l1 = input l) by apply S1.
  pose proof (rune_at_bounds _ _ Hb) as (F1 & F2 & F3).
  pose proof (line_at_same (input l) (pos l) Hb) as L.
  (* what holds when the rune just read ends the literal *)
  assert (Stop : forall p lx, 0 <= p <= len (input l) ->
            pos l <= p -> line_at (input l) p = line_at (input l) (pos l) ->
            pos lx = p + wd (input l) p ->
            rn (input l) p = eof \/ rn (input l) p = 10 ->
            exists e, pos l <= e <= len (input l) /\
              line_at (input l) e = line_at (input l) (pos l) /\
              ((e = len (input l) /\ pos lx = e)
               \/ (index (input l) e = Some 10 /\ pos lx = e + 1))).
  { intros p lx Hp Hge Hl Hpx [Hr|Hr]; exists p.
    - destruct (rune_at_eof _ _ Hp Hr) as (Pe & We). rewrite We in Hpx.
      split; [lia|]. split; [assumption|]. left. split; lia.
    - destruct (rune_byte _ _ Hp ltac:(lia)) as (Wp & Ip & _).
      rewrite Wp in Hpx. rewrite Hr in Ip.
      split; [lia|]. split; [assumption|]. right. auto. }
  (* going on after runes that are not newlines *)
  assert (Go : forall lx, inb lx -> input lx = input l -> pos l <= pos lx ->
            line_at (input l) (pos lx) = line_at (input l) (pos l) ->
            scanString_loop n lx = Ok false l' ->
            exists e, pos l <= e <= len (input l) /\
              line_at (input l) e = line_at (input l) (pos l) /\
              ((e = len (input l) /\ pos l' = e)
               \/ (index (input l) e = Some 10 /\ pos l' = e + 1))).
  { intros lx Hbx Ix Hge Hl Ex.
    destruct (IH _ _ Hbx Ex) as (e & He & Le & D). rewrite Ix in *.
    exists e. split; [lia|]. split; [lia|exact D]. }
  destruct (Z.eqb_spec (rn (input l) (pos l)) 92) as [R|R].
  - inv_bind E as r' l2 E2.
    pose proof (post_at _ _ _ _ _ (next_all l1 B1) E2)
      as (S2 & B2 & -> & P2 & W2 & _).
    assert (I2 : input l2 = input l) by (destruct S2 as (_ & I & _); congruence).
    rewrite I1, P1 in *.
    specialize (L ltac:(lia)). specialize (F3 ltac:(lia)).
    assert (Hp1 : 0 <= pos l + wd (input l) (pos l) <= len (input l))
      by (unfold inb in Hb; lia).
    pose proof (rune_at_bounds _ _ Hp1) as (G1 & G2 & G3).
    destruct (negb _ && negb _) eqn:N.
    + apply andb_prop in N. destruct N as [N1 N2].
      apply negb_true_iff in N1, N2. bools.
      pose proof (line_at_same _ _ Hp1 N2) as L2.
      apply (Go l2); try assumption; try lia.
      rewrite P2. lia.
    + injection E as <-.
      apply (Stop (pos l + wd (input l) (pos l))); try assumption; lia.
  - destruct (_ || _) eqn:N.
    + injection E as <-. unfold inb in Hb.
      apply (Stop (pos l)); try assumption; lia.
    + apply orb_false_elim in N. destruct N as [N1 N2]. bools.
      specialize (L N2).
      assert (0 <= rn (input l) (pos l)).
      { destruct (rune_at_facts _ _ Hb) as [[_ X]|(_ & _ & _ & X & _)];
          [rewrite X in N1; cbn in N1; congruence|assumption]. }
      specialize (F3 ltac:(lia)).
      destruct (Z.eqb_spec (rn (input l) (pos l)) 39) as [Q|Q].
      * inv_bind E as r' l2 E2.
        pose proof (post_at _ _ _ _ _ (next_all l1 B1) E2)
          as (S2 & B2 & -> & P2 & W2 & _).
        assert (I2 : input l2 = input l)
          by (destruct S2 as (_ & I & _); congruence).
        rewrite I1, P1 in *.
        destruct (negb _) eqn:N3.
        -- inv_bind E as u l3 E3. discriminate.
        -- apply negb_false_iff in N3. bools.
           assert (Hp1 : 0 <= pos l + wd (input l) (pos l) <= len (input l))
             by (unfold inb in Hb; lia).
           pose proof (rune_at_bounds _ _ Hp1) as (G1 & G2 & G3).
           pose proof (line_at_same _ _ Hp1 ltac:(lia)) as L2.
           apply (Go l2); try assumption; try lia.
           rewrite P2. lia.
      * apply (Go l1); try assumption; try lia. rewrite P1. lia.
Qed.

(** A string literal that does not close: when [scanString], called at a
    quote, returns false, it has stopped at the first newline after the
    quote, with the cursor after that newline, or, when no newline
    follows, at the end of the input; the pending text then runs from
    the quote to there. *)
Theorem scanString_fails_at_the_end_of_the_line l l' :
  inb l -> rn (input l) (pos l) = 39 -> scanString l = Ok false l' ->
  exists e, pos l < e <= len (input l) /\
    line_at (input l) e = line_at (input l) (pos l) /\
    ((e = len (input l) /\ pos l' = e)
     \/ (index (input l) e = Some 10 /\ pos l' = e + 1)).
Proof.
  intros Hb Hq E. unfold scanString in E. inv_bind E as r l1 E1.
  pose proof (post_at _ _ _ _ _ (next_all l Hb) E1)
    as (S1 & B1 & -> & P1 & W1 & _).
  assert (I1 : input l1 = input l) by apply S1.
  rewrite Hq in E. cbn [Z.eqb negb Pos.eqb] in E.
  destruct (rune_byte _ _ Hb ltac:(lia)) as (W & _).
  pose proof (line_at_same _ _ Hb ltac:(lia)) as L.
  destruct (scanString_loop_fails _ _ _ B1 E) as (e & He & Le & D).
  rewrite I1, P1, W in *. exists e. split; [lia|]. split; [lia|exact D].
Qed.


(* ================================================================== *)
(** ** The text after the statement *)

Lemma pending_extend rest l v l1 :
  pending l = Ok v l1 -> pending (extend rest l) = Ok v (extend rest l1).
Proof.
  unfold pending. cbn [input start pos extend].
  destruct (slice (input l) (start l) (pos l)) as [w|] eqn:V; [|discriminate].
  rewrite (slice_app _ rest _ _ _ V). intros E; injection E as <- <-. reflexivity.
Qed.

Lemma errorf_extend rest format args l o l1 :
  errorf format args l = Ok o l1 ->
  errorf format args (extend rest l) = Ok o (extend rest l1).
Proof.
  unfold errorf, bind, send, ret. cbn.
  destruct (closed (items l)); [discriminate|].
  intros E; injection E as <- <-. reflexivity.
Qed.

Lemma carried_ret {A} rest B (a : A) : carried rest B (ret a) (ret a).
Proof.
  intros l a0 l1 Hb E. injection E as <- <-.
  split; [split; [assumption|split; [reflexivity|lia]]|]. reflexivity.
Qed.

Lemma carried_bind {A C} rest B (m m' : M A) (k k' : A -> M C) :
  carried rest B m m' -> (forall a, carried rest B (k a) (k' a)) ->
  carried rest B (bind m k) (bind m' k').
Proof.
  intros Hm Hk l b l1 Hb E. inv_bind E as a l2 E1.
  destruct (Hm l a l2 Hb E1) as ((F1 & F2 & F3) & F4).
  destruct (Hk a l2 b l1 F1 E) as ((G1 & G2 & G3) & G4).
  split; [split; [assumption|split; [congruence|lia]]|].
  intros RS Hlt. unfold bind. rewrite F4; [|assumption|lia].
  apply G4; [rewrite F2; assumption|assumption].
Qed.

Lemma carried_next_bind {A} rest B (k k' : rune -> M A) :
  (forall r, carried_after rest B (k r) (k' r)) ->
  carried rest B (bind next k) (bind next k').
Proof.
  intros Hk l a l1 Hb E. inv_bind E as r l2 E1.
  pose proof (post_at _ _ _ _ _ (next_all l Hb) E1)
    as (S1 & B1 & R1 & P1 & W1 & L1).
  assert (I1 : input l2 = input l) by apply S1.
  assert (Hq : 0 <= pos l <= len (input l2)) by (rewrite I1; exact Hb).
  rewrite <- I1 in P1, W1.
  destruct (Hk r l2 (pos l) a l1 Hq P1 W1 E) as ((F1 & F2 & F3) & F4).
  split; [split; [assumption|split; [congruence|assumption]]|].
  intros RS Hlt. unfold bind.
  rewrite (next_extend rest B l r l2 Hb RS ltac:(lia) E1).
  apply F4; [rewrite I1; exact RS|assumption].
Qed.

Lemma carried_after_plain {A} rest B (m m' : M A) :
  carried rest B m m' -> carried_after rest B m m'.
Proof.
  intros Hm l q a l1 Hq P W E.
  pose proof (rune_at_bounds _ _ Hq) as (F1 & F2 & F3).
  assert (Hb : inb l) by (unfold inb; lia).
  destruct (Hm l a l1 Hb E) as ((G1 & G2 & G3) & G4).
  split; [split; [assumption|split; [assumption|lia]]|]. exact G4.
Qed.

Lemma carried_after_backup {A} rest B (k k' : M A) :
  carried rest B k k' ->
  carried_after rest B (backup ;;; k) (backup ;;; k').
Proof.
  intros Hk l q a l1 Hq P W E. inv_bind E as u l2 E1.
  pose proof (post_at _ _ _ _ _ (backup_undoes l q Hq P W) E1) as (S2 & P2 & _).
  assert (I2 : input l2 = input l) by apply S2.
  assert (Hb : inb l2) by (unfold inb; rewrite I2, P2; exact Hq).
  destruct (Hk l2 a l1 Hb E) as ((G1 & G2 & G3) & G4).
  split; [split; [assumption|split; [congruence|lia]]|].
  intros RS Hlt. unfold bind. rewrite (backup_extend rest l u l2 E1).
  apply G4; [rewrite I2; exact RS|assumption].
Qed.

Lemma carried_peek rest B : carried rest B peek peek.
Proof.
  unfold peek. apply carried_next_bind. intros r.
  apply carried_after_backup. apply carried_ret.
Qed.

Lemma carried_accept rest B valid :
  carried rest B (accept valid) (accept valid).
Proof.
  unfold accept. apply carried_next_bind. intros r.
  destruct (in_set valid r).
  - apply carried_after_plain, carried_ret.
  - apply carried_after_backup, carried_ret.
Qed.

(** [accept] reads one rune, at the cursor. *)
Lemma accept_extend rest B valid l b l1 :
  inb l -> reads_same (input l) rest B -> pos l < B ->
  accept valid l = Ok b l1 ->
  accept valid (extend rest l) = Ok b (extend rest l1).
Proof.
  intros Hb RS Hlt E. unfold accept in *. inv_bind E as r l2 E1.
  unfold bind. rewrite (next_extend rest B l r l2 Hb RS Hlt E1).
  destruct (in_set valid r).
  - injection E as <- <-. reflexivity.
  - inv_bind E as u l3 E2. injection E as <- <-.
    unfold bind. rewrite (backup_extend rest l2 u l3 E2). reflexivity.
Qed.

Lemma acceptRun_loop_extend rest B valid n : forall l a l1 n',
  inb l -> acceptRun_loop n valid l = Ok a l1 ->
  (exists q, pos l <= q <= len (input l) /\ input l1 = input l /\
     pos l1 = q + wd (input l) q /\ width l1 = wd (input l) q) /\
  (reads_same (input l) rest B -> pos l1 - width l1 < B -> (n <= n')%nat ->
   acceptRun_loop n' valid (extend rest l) = Ok a (extend rest l1)).
Proof.
  induction n as [|n IH]; intros l a l1 n' Hb E; [discriminate|].
  cbn [acceptRun_loop] in E. inv_bind E as r l2 E1.
  pose proof (post_at _ _ _ _ _ (next_all l Hb) E1)
    as (S1 & B1 & R1 & P1 & W1 & L1).
  assert (I1 : input l2 = input l) by apply S1.
  pose proof (rune_at_bounds _ _ Hb) as (F1 & F2 & F3).
  destruct (in_set valid r) eqn:C.
  - destruct (IH l2 a l1 (pred n') B1 E) as ((q & Q1 & Q2 & Q3 & Q4) & Q5).
    rewrite I1 in *.
    split. { exists q. repeat split; try assumption; lia. }
    intros RS Hlt Hn. destruct n' as [|n']; [lia|].
    cbn [acceptRun_loop]. unfold bind.
    rewrite (next_extend rest B l r l2 Hb RS ltac:(lia) E1). rewrite C.
    apply Q5; [assumption|assumption|cbn; lia].
  - injection E as <- <-.
    split. { exists (pos l). repeat split; try assumption; unfold inb in Hb; lia. }
    intros RS Hlt Hn. destruct n' as [|n']; [lia|].
    cbn [acceptRun_loop]. unfold bind.
    rewrite (next_extend rest B l r l2 Hb RS ltac:(lia) E1). rewrite C.
    reflexivity.
Qed.

Lemma carried_acceptRun rest B valid :
  carried rest B (acceptRun valid) (acceptRun valid).
Proof.
  intros l a l1 Hb E. unfold acceptRun in E. inv_bind E as u l2 E1.
  destruct (acceptRun_loop_extend rest B valid _ l u l2
              (S (String.length (input l ++ rest))) Hb E1)
    as ((q & Q1 & Q2 & Q3 & Q4) & Q5).
  assert (Hq : 0 <= q <= len (input l2)) by (rewrite Q2; unfold inb in Hb; lia).
  rewrite <- Q2 in Q3, Q4.
  pose proof (post_at _ _ _ _ _ (backup_undoes l2 q Hq Q3 Q4) E) as (S2 & P2 & _).
  assert (I2 : input l1 = input l2) by apply S2.
  split.
  { unfold inb. rewrite I2, P2. split; [assumption|]. split; [congruence|lia]. }
  intros RS Hlt. unfold acceptRun. cbn [input extend]. unfold bind.
  rewrite Q5; [apply backup_extend; exact E|assumption|lia|].
  rewrite strlen_app. lia.
Qed.

Lemma carried_skipWhitespace rest B : carried rest B skipWhitespace skipWhitespace.
Proof.
  unfold skipWhitespace. apply carried_bind; [apply carried_acceptRun|].
  intros _ l a l1 Hb E. injection E as <- <-.
  split; [split; [exact Hb|split; [reflexivity|cbn; lia]]|]. reflexivity.
Qed.

Lemma carried_emit rest B t : carried rest B (emit t) (emit t).
Proof.
  intros l a l1 Hb E. destruct (emit_moves_nothing _ _ _ _ E) as (I1 & P1).
  split; [unfold inb; rewrite I1, P1; split; [exact Hb|split; [reflexivity|lia]]|].
  intros _ _. apply emit_extend. exact E.
Qed.

Lemma carried_pending rest B : carried rest B pending pending.
Proof.
  intros l a l1 Hb E. pose proof (pending_Ok _ _ _ E) as ->.
  split; [split; [exact Hb|split; [reflexivity|lia]]|].
  intros _ _. apply pending_extend. exact E.
Qed.

Lemma carried_errorf rest B format args :
  carried rest B (errorf format args) (errorf format args).
Proof.
  intros l a l1 Hb E. split.
  - unfold errorf, bind, send, ret in E.
    destruct (closed (items l)); [discriminate|]. injection E as <- <-.
    split; [exact Hb|split; [reflexivity|cbn; lia]].
  - intros _ _. apply errorf_extend. exact E.
Qed.

Lemma carried_Panic {A} rest B : carried rest B (fun _ => @Panic A) (fun _ => Panic).
Proof. intros l a l1 Hb E. discriminate. Qed.

Ltac carried_tac :=
  repeat first
    [ apply carried_ret | apply carried_peek | apply carried_accept
    | apply carried_acceptRun | apply carried_skipWhitespace
    | apply carried_emit | apply carried_pending | apply carried_errorf
    | apply carried_Panic
    | assumption
    | apply carried_next_bind; intros ?
    | apply carried_bind; [|intros ?]
    | match goal with
      | |- carried _ _ (if ?b then _ else _) _ => destruct b
      | |- carried_after _ _ (if ?b then _ else _) _ => destruct b
      end
    | apply carried_after_backup
    | apply carried_after_plain ].

Lemma carried_scanIdentifier rest B : carried rest B scanIdentifier scanIdentifier.
Proof. unfold scanIdentifier. carried_tac. Qed.

Lemma carried_scanNumber rest B : carried rest B scanNumber scanNumber.
Proof. unfold scanNumber. cbv zeta. carried_tac. Qed.

Lemma carried_scanString_loop rest B n : forall n',
  (n <= n')%nat -> carried rest B (scanString_loop n) (scanString_loop n').
Proof.
  induction n as [|n IH]; intros n' Hn.
  - intros l a l1 Hb E. discriminate.
  - destruct n' as [|n']; [lia|]. specialize (IH n' ltac:(lia)).
    cbn [scanString_loop]. carried_tac.
Qed.

Lemma carried_scanString rest B : carried rest B scanString scanString.
Proof.
  unfold scanString. apply carried_next_bind. intros r.
  destruct (negb (r =? 39)); [carried_tac|].
  apply carried_after_plain. intros l a l1 Hb E.
  destruct (carried_scanString_loop rest B (S (String.length (input l)))
              (S (String.length (input l ++ rest)))
              ltac:(rewrite strlen_app; lia) l a l1 Hb E) as (F & G).
  split; [exact F|]. exact G.
Qed.


Ltac carried_fn :=
  repeat first
    [ apply carried_scanIdentifier | apply carried_scanNumber
    | apply carried_scanString
    | apply carried_ret | apply carried_peek | apply carried_accept
    | apply carried_acceptRun | apply carried_skipWhitespace
    | apply carried_emit | apply carried_pending | apply carried_errorf
    | apply carried_next_bind; intros ?
    | apply carried_bind; [|intros ?]
    | match goal with
      | |- carried _ _ (if ?b then _ else _) _ => destruct b
      | |- carried_after _ _ (if ?b then _ else _) _ => destruct b
      end
    | apply carried_after_backup
    | apply carried_after_plain ].

Lemma carried_keyword_loop rest B keyword upper it nextAction lower :
  forall ix,
    carried rest B (keyword_loop keyword upper ix lower it nextAction)
                   (keyword_loop keyword upper ix lower it nextAction).
Proof.
  induction lower as [|lo lower IH]; intros ix; cbn [keyword_loop].
  - carried_fn.
  - match goal with
    | |- context [@nth_error ?A ?u ?i] => destruct (@nth_error A u i)
    end; [|apply carried_Panic].
    apply carried_next_bind. intros r'.
    destruct (negb _); apply carried_after_plain;
      [apply carried_errorf|apply IH].
Qed.

Lemma carried_createLexKeyword rest B keyword it nextAction :
  carried rest B (createLexKeyword keyword it nextAction)
                 (createLexKeyword keyword it nextAction).
Proof.
  unfold createLexKeyword. cbv zeta.
  apply carried_bind; [apply carried_skipWhitespace|].
  intros _. apply carried_keyword_loop.
Qed.

Lemma carried_afterValueExpr rest B :
  carried rest B afterValueExpr afterValueExpr.
Proof. unfold afterValueExpr. carried_fn. Qed.

(** Every state function reads only the input before the cursor it
    leaves, and at the cursor. *)
Lemma carried_call rest B st : carried rest B (call st) (call st).
Proof.
  destruct st; cbn [call].
  - unfold lexStartStatement_fn. carried_fn.
  - apply carried_createLexKeyword.
  - apply carried_createLexKeyword.
  - pose proof (carried_afterValueExpr rest B) as HA.
    unfold lexValueExprList_fn.
    repeat first [ exact HA | progress carried_fn ].
  - unfold lexFromTableName_fn. carried_fn.
  - unfold lexEndOfStatement_fn. carried_fn.
Qed.

Lemma halts_bind {A} (m : M A) (k : A -> M (option stateFn)) :
  (forall a, halts_on_error (k a)) -> halts_on_error (bind m k).
Proof.
  intros Hk l l1 E. inv_bind E as a l2 E1. exact (Hk a l2 l1 E).
Qed.

Lemma halts_errorf format args : halts_on_error (errorf format args).
Proof.
  intros l l1 E. destruct (errorf_sent _ _ _ _ _ E) as (_ & H).
  unfold ends_with. rewrite H. eexists _, _. split; reflexivity.
Qed.

Lemma halts_ret s : halts_on_error (ret (Some s)).
Proof. intros l l1 E. discriminate E. Qed.

Lemma halts_Panic : halts_on_error (fun _ => Panic).
Proof. intros l l1 E. discriminate E. Qed.

Ltac halts_tac :=
  repeat first
    [ apply halts_errorf | apply halts_ret | apply halts_Panic
    | apply halts_bind; intros ?
    | match goal with
      | |- halts_on_error (if ?b then _ else _) => destruct b
      end ].

Lemma halts_keyword_loop keyword upper it nextAction lower : forall ix,
  halts_on_error (keyword_loop keyword upper ix lower it nextAction).
Proof.
  induction lower as [|lo lower IH]; intros ix; cbn [keyword_loop].
  - halts_tac.
  - match goal with
    | |- context [@nth_error ?A ?u ?i] => destruct (@nth_error A u i)
    end; [|apply halts_Panic].
    apply halts_bind. intros r'.
    destruct (negb _); [apply halts_errorf|apply IH].
Qed.

(** Only [lexEndOfStatement] halts the state machine without an error. *)
Lemma halts_call st : st <> lexEndOfStatement -> halts_on_error (call st).
Proof.
  intros Hst. destruct st; cbn [call]; try contradiction.
  - unfold lexStartStatement_fn. halts_tac.
  - unfold lexSelectKeyword_fn, createLexKeyword. cbv zeta.
    apply halts_bind. intros _. apply halts_keyword_loop.
  - unfold lexFromKeyword_fn, createLexKeyword. cbv zeta.
    apply halts_bind. intros _. apply halts_keyword_loop.
  - unfold lexValueExprList_fn, afterValueExpr. halts_tac.
  - unfold lexFromTableName_fn. halts_tac.
Qed.

Lemma ends_with_one k k' l : ends_with k l -> ends_with k' l -> k = k'.
Proof.
  intros (ts & t & E & T) (ts' & t' & E' & T'). rewrite E in E'.
  apply app_inj_tail in E'. destruct E' as (_ & ->). congruence.
Qed.

(** The call of [lexEndOfStatement] that sends the end-of-input item. *)
Lemma lexEndOfStatement_extend l o l1 :
  inb l -> lexEndOfStatement_fn l = Ok o l1 -> ends_with itemEOF l1 ->
  o = None /\ inb l1 /\ input l1 = input l /\ pos l < pos l1 /\
  index (input l) (pos l1 - 1) = Some 59 /\
  forall rest, reads_same (input l) rest (pos l1) ->
    lexEndOfStatement_fn (extend rest l) = Ok o (extend rest l1).
Proof.
  intros Hb E HE. unfold lexEndOfStatement_fn in E.
  inv_bind E as u l2 E1. inv_bind E as ok l3 E2.
  destruct (carried_skipWhitespace EmptyString 0 l u l2 Hb E1)
    as ((B2 & I2 & P2) & _).
  pose proof (post_at _ _ _ _ _ (accept_spec ";" l2 B2) E2) as (S3 & C3 & P3).
  assert (I3 : input l3 = input l2) by apply S3.
  destruct ok.
  - inv_bind E as u' l4 E3. injection E as <- <-.
    destruct (emit_moves_nothing _ _ _ _ E3) as (I4 & P4).
    symmetry in C3. rewrite in_semicolon in C3. apply Z.eqb_eq in C3.
    destruct (rune_at_facts _ _ B2) as [[H1 H2]|(H1 & H2 & H3 & H4 & H5)].
    { rewrite H2 in C3. discriminate C3. }
    destruct H5 as (W & X); [lia|]. rewrite C3 in X. rewrite W in P3.
    split; [reflexivity|].
    split; [unfold inb in *; rewrite I4, I3, P4, P3; lia|].
    split; [congruence|]. split; [lia|].
    split; [rewrite P4, P3, <- I2; replace (pos l2 + 1 - 1) with (pos l2) by lia;
            exact X|].
    intros rest RS. unfold lexEndOfStatement_fn, bind.
    destruct (carried_skipWhitespace rest (pos l4) l u l2 Hb E1) as (_ & G).
    rewrite G; [|exact RS|lia].
    rewrite (accept_extend rest (pos l4) ";" l2 true l3 B2); auto;
      [|rewrite I2; exact RS|lia].
    rewrite (emit_extend rest _ _ _ _ E3). reflexivity.
  - exfalso. destruct (errorf_sent _ _ _ _ _ E) as (-> & _).
    pose proof (halts_errorf _ _ l3 l1 E) as H.
    pose proof (ends_with_one _ _ _ HE H). discriminate.
Qed.

(** A state machine that ends with the end-of-input item has read the
    input only before the cursor it leaves, which lies after a semicolon;
    on the input followed by more text it does the same. *)
Lemma run_loop_extend n : forall st l u lf,
  inb l -> run_loop n (Some st) l = Ok u lf -> ends_with itemEOF lf ->
  inb lf /\ input lf = input l /\ pos l < pos lf /\
  index (input l) (pos lf - 1) = Some 59 /\
  forall rest n', reads_same (input l) rest (pos lf) -> (n <= n')%nat ->
    run_loop n' (Some st) (extend rest l) = Ok u (extend rest lf).
Proof.
  induction n as [|n IH]; intros st l u lf Hb E HE; [discriminate|].
  cbn [run_loop] in E. inv_bind E as o l1 E1.
  destruct o as [st'|].
  - destruct (carried_call EmptyString 0 st l _ l1 Hb E1) as ((B1 & I1 & P1) & _).
    destruct (IH st' l1 u lf B1 E HE) as (F1 & F2 & F3 & F4 & F5).
    rewrite I1 in *.
    split; [assumption|]. split; [assumption|]. split; [lia|].
    split; [assumption|].
    intros rest n' RS Hn. destruct n' as [|n']; [lia|].
    cbn [run_loop]. unfold bind.
    destruct (carried_call rest (pos lf) st l _ l1 Hb E1) as (_ & G).
    rewrite G; [|exact RS|lia].
    apply F5; [exact RS|lia].
  - assert (u = tt /\ lf = l1) as (-> & ->).
    { destruct n; cbn in E; injection E as <- <-; auto. }
    assert (Hst : st = lexEndOfStatement \/ st <> lexEndOfStatement)
      by (destruct st; (left; reflexivity) || (right; discriminate)).
    destruct Hst as [->|Hst].
    + cbn [call] in E1.
      destruct (lexEndOfStatement_extend l None l1 Hb E1 HE)
        as (_ & F1 & F2 & F3 & F4 & F5).
      split; [assumption|]. split; [assumption|]. split; [assumption|].
      split; [assumption|].
      intros rest n' RS Hn. destruct n' as [|n']; [lia|].
      cbn [run_loop call]. unfold bind. rewrite (F5 rest RS).
      destruct n'; reflexivity.
    + pose proof (halts_call st Hst l l1 E1) as H.
      pose proof (ends_with_one _ _ _ HE H). discriminate.
Qed.

(** The scanner does not read past the semicolon that ends the statement:
    when the scan of [inp] ends with the end-of-input item, the scan of
    [inp] followed by any text [rest] sends the same items, and nothing
    for [rest], whatever it contains. *)
Theorem text_after_the_statement_is_not_read nm inp rest toks t :
  tokens nm inp = Some (toks ++ [t]) -> item.typ t = itemEOF ->
  tokens nm (inp ++ rest) = Some (toks ++ [t]).
Proof.
  unfold tokens. intros E T.
  destruct (lex nm inp) as [[] l| |] eqn:L; try discriminate.
  injection E as E.
  unfold lex, run in L. cbn [input] in L. inv_bind L as u lf L1.
  assert (Hb : inb (fresh nm inp)) by (unfold inb; cbn; pose proof (len_nonneg inp); lia).
  assert (HE : ends_with itemEOF lf).
  { exists toks, t. split; [|assumption]. rewrite <- E.
    unfold close in L. destruct (closed (items lf)); [discriminate|].
    injection L as <-. reflexivity. }
  destruct (run_loop_extend _ _ _ _ _ Hb L1 HE) as (F1 & F2 & F3 & F4 & F5).
  cbn [input fresh pos] in *.
  assert (RS : reads_same inp rest (pos lf))
    by (apply (reads_same_ascii inp rest (pos lf) 59); auto; lia).
  specialize (F5 rest (String.length (inp ++ rest) + 6)%nat RS
                ltac:(rewrite strlen_app; lia)).
  unfold lex, run. cbn [input]. unfold bind.
  change {| name := nm; input := inp ++ rest; pos := 0; start := 0; width := 0;
            items := {| sent := []; closed := false |};
            line := 1; startLine := 1 |} with (extend rest (fresh nm inp)).
  rewrite F5. unfold close in *. cbn [items extend].
  destruct (closed (items lf)); [discriminate|].
  injection L as <-. cbn. f_equal. exact E.
Qed.


(* ================================================================== *)
(** ** The first revision: the state machine halts *)

Lemma errorf1_Step format args s l0 l :
  Scanning l -> input l = input l0 -> name l = name l0 ->
  post (errorf1 format args) l (Step1 s l0).
Proof.
  intros HS Hi Hn.
  pose proof (errorf_Final format args l HS) as H.
  unfold post, errorf, errorf1, bind, send, ret in *.
  destruct (closed (items l)); [contradiction|].
  destruct H as (_ & F & I & N). unfold Step1.
  split; [congruence|]. split; [congruence|]. assumption.
Qed.

Lemma pending_errorf1_Step format s l0 l :
  Scanning l -> input l = input l0 -> name l = name l0 ->
  post (v <- pending ;; errorf1 format [ArgString v]) l (Step1 s l0).
Proof.
  intros HS Hi Hn. mstep pending_spec; [assumption|].
  intros v l' ->. apply errorf1_Step; assumption.
Qed.

Lemma rank1_lt s' s l' l :
  inb l' -> pos l <= pos l' -> input l' = input l ->
  (weight1 s' < weight1 s)%nat
  \/ ((weight1 s' <= weight1 s + 1)%nat /\ pos l < pos l') ->
  (rank1 s' l' < rank1 s l)%nat.
Proof.
  unfold rank1, inb. intros H1 H2 H3 H4. rewrite H3 in *. lia.
Qed.

(** [scanIdentifier], then the error or the item and the next state. *)
Lemma scan_column s' s l0 l1 :
  Scanning l1 -> start l1 = pos l1 ->
  input l1 = input l0 -> name l1 = name l0 -> pos l0 <= pos l1 ->
  (weight1 s' <= weight1 s + 1)%nat ->
  post (ok <- scanIdentifier ;;
        if negb ok then v <- pending ;; errorf1 "bad identifier: %q" [ArgString v]
        else emit itemIdentifier ;;; ret (Some s')) l1 (Step1 s l0).
Proof.
  intros HS Hs Hi Hn Hp Hw.
  assert (Hb : inb l1) by (apply Scanning_inb; assumption).
  apply post_bind. eapply post_mono; [apply scanIdentifier_adv; assumption|].
  cbv beta. intros b l2 ((S2 & P2) & Hlt).
  assert (HS2 : Scanning l2)
    by (eapply Scanning_move; [eassumption|assumption|lia]).
  destruct S2 as (Sn & Si & Ss & Sit & Ssl).
  destruct b; cbn [negb].
  - specialize (Hlt eq_refl).
    mstep emit_Inv; [eassumption|lia|discriminate|discriminate|].
    intros _ l3 (I3 & P3 & Hi3 & Hn3). apply post_ret. unfold Step1.
    split; [congruence|]. split; [congruence|]. split; [assumption|].
    apply rank1_lt; [apply I3|lia|congruence|right; split; [assumption|lia]].
  - apply pending_errorf1_Step; [assumption|congruence|congruence].
Qed.

Lemma keyword_loop1_step keyword upper it nextAction s l0 :
  it <> itemError -> it <> itemEOF ->
  (weight1 nextAction < weight1 s)%nat ->
  Forall (fun u => 0 <= u) upper ->
  forall lower index l,
    Forall (fun u => 0 <= u) lower ->
    (index + List.length lower <= List.length upper)%nat ->
    Scanning l -> input l = input l0 -> name l = name l0 ->
    pos l0 <= pos l -> (lower = [] -> start l < pos l) ->
    post (keyword_loop1 keyword upper index lower it nextAction) l
         (Step1 s l0).
Proof.
  intros Hit1 Hit2 Hw Hup.
  induction lower as [|lo lower IH]; intros index l Hlo Hlen HS Hi Hn Hp Hne;
    cbn [keyword_loop1].
  - mstep emit_Inv; [eassumption|auto|assumption|assumption|].
    intros _ l1 (I1 & P1 & Hi1 & Hn1). apply post_ret. unfold Step1.
    split; [congruence|]. split; [congruence|]. split; [assumption|].
    apply rank1_lt; [apply I1|lia|congruence|left; assumption].
  - match goal with
    | |- context [@nth_error ?A ?u ?i] =>
        destruct (@nth_error A u i) as [up|] eqn:Hnth
    end.
    2: { apply nth_error_None in Hnth. cbn in Hlen.
         change rune with Z in *. lia. }
    assert (0 <= up).
    { rewrite Forall_forall in Hup. apply Hup.
      eapply nth_error_In. eassumption. }
    inversion Hlo as [|? ? Hlo0 Hlo']; subst.
    assert (Hb : inb l) by (apply Scanning_inb; assumption).
    mstep next_full; [assumption|].
    intros r l1 (S1 & B1 & I1 & Hr1 & Hp1 & Hw1 & W1 & L1 & E1).
    assert (HS1 : Scanning l1).
    { eapply Scanning_move; [exact HS|assumption|].
      destruct HS as (_ & _ & ? & ? & _). lia. }
    assert (Hn1 : name l1 = name l0) by (destruct S1 as (N & _); congruence).
    destruct ((r =? lo) || (r =? up)) eqn:M; cbn [negb].
    + destruct E1 as [E1|[E1 E1']]; [unfold eof in E1; lia|].
      apply IH; try assumption.
      * cbn in Hlen. lia.
      * congruence.
      * lia.
      * intros _. destruct S1 as (_ & _ & Ss & _).
        destruct HS as (_ & _ & ? & ? & _). lia.
    + apply errorf1_Step; [assumption|congruence|assumption].
Qed.

Lemma createLexKeyword1_step keyword it nextAction s l :
  it <> itemError -> it <> itemEOF ->
  (weight1 nextAction < weight1 s)%nat ->
  Forall (fun u => 0 <= u) (runes_of (strings.ToUpper keyword)) ->
  Forall (fun u => 0 <= u) (runes_of (strings.ToLower keyword)) ->
  (0 < List.length (runes_of (strings.ToLower keyword))
     <= List.length (runes_of (strings.ToUpper keyword)))%nat ->
  Inv l ->
  post (createLexKeyword1 keyword it nextAction) l (Step1 s l).
Proof.
  intros Hit1 Hit2 Hw Hup Hlo Hlen HI. unfold createLexKeyword1.
  mstep skipWhitespace_Inv; [assumption|].
  intros _ l1 (HS1 & Hs1 & Hp1 & Hi1 & Hn1 & Hb1 & _).
  eapply keyword_loop1_step; try eassumption.
  - cbn [Nat.add]. apply Hlen.
  - intros E. rewrite E in Hlen. cbn in Hlen. lia.
Qed.

(** After [skipWhitespace] and [next]: the branches of a state function
    that send an error, that call [backup], or that send the rune read
    as an item. *)
Lemma read_error format args s l l1 l2 :
  Scanning l1 -> input l1 = input l -> name l1 = name l ->
  steady l1 l2 -> pos l1 <= pos l2 <= len (input l1) ->
  post (errorf1 format args) l2 (Step1 s l).
Proof.
  intros HS1 Hi1 Hn1 S2 P2.
  assert (HS2 : Scanning l2).
  { eapply Scanning_move; [eassumption|assumption|].
    destruct HS1 as (_ & _ & ? & _). lia. }
  destruct S2 as (N & I & _).
  apply errorf1_Step; [assumption|congruence|congruence].
Qed.

Lemma read_backup s' s l l1 l2 :
  Scanning l1 -> start l1 = pos l1 -> pos l <= pos l1 ->
  input l1 = input l -> name l1 = name l -> inb l1 ->
  steady l1 l2 -> pos l2 = pos l1 + width l2 -> 0 <= width l2 -> inb l2 ->
  (weight1 s' < weight1 s)%nat ->
  post (backup ;;; ret (Some s')) l2 (Step1 s l).
Proof.
  intros HS1 Hs1 Hp1 Hi1 Hn1 Hb1 S2 P2 W2 B2 Hw.
  assert (I2 : input l2 = input l1) by apply S2.
  mstep backup_spec.
  { unfold inb in *. lia. }
  intros _ l3 (S3 & P3). apply post_ret. unfold Step1.
  assert (S13 : steady l1 l3) by (eapply steady_trans; eassumption).
  assert (I3 : input l3 = input l)
    by (destruct S13 as (_ & I & _); congruence).
  split; [assumption|].
  split; [destruct S13 as (N & _); congruence|].
  assert (HI3 : Inv l3).
  { apply Scanning_Inv.
    - eapply Scanning_move; [exact HS1|assumption|unfold inb in *; lia].
    - destruct S13 as (_ & _ & Ss & _). lia. }
  split; [assumption|].
  apply rank1_lt; [apply HI3|lia|assumption|left; assumption].
Qed.

Lemma read_emit t s' s l l1 l2 :
  Scanning l1 -> start l1 = pos l1 -> pos l <= pos l1 ->
  input l1 = input l -> name l1 = name l ->
  steady l1 l2 -> pos l1 < pos l2 <= len (input l1) ->
  t <> itemError -> t <> itemEOF ->
  (weight1 s' <= weight1 s + 1)%nat ->
  post (emit t ;;; ret (Some s')) l2 (Step1 s l).
Proof.
  intros HS1 Hs1 Hp1 Hi1 Hn1 S2 P2 Ht1 Ht2 Hw.
  assert (HS2 : Scanning l2).
  { eapply Scanning_move; [eassumption|assumption|].
    destruct HS1 as (_ & _ & ? & _). lia. }
  assert (St2 : start l2 = pos l1)
    by (destruct S2 as (_ & _ & Ss & _); congruence).
  assert (I2 : input l2 = input l1) by apply S2.
  assert (N2 : name l2 = name l1) by apply S2.
  mstep emit_Inv; [eassumption|lia|assumption|assumption|].
  intros _ l3 (I3 & P3 & Hi3 & Hn3). apply post_ret. unfold Step1.
  split; [congruence|]. split; [congruence|]. split; [assumption|].
  apply rank1_lt; [apply I3|lia|congruence|right; split; [assumption|lia]].
Qed.

Ltac after_read :=
  match goal with
  | |- post (errorf1 _ _) _ _ =>
      eapply read_error; try eassumption; lia
  | |- post (backup ;;; ret _) _ _ =>
      eapply read_backup; try eassumption; try lia; cbn; lia
  | |- post (emit _ ;;; ret _) _ _ =>
      eapply read_emit; try eassumption; try discriminate; try lia; cbn; lia
  end.

Ltac skip_and_read l :=
  let l1 := fresh "l1" in
  let l2 := fresh "l2" in
  let r := fresh "r" in
  mstep skipWhitespace_Inv; [assumption|];
  intros _ l1 (HS1 & Hs1 & Hp1 & Hi1 & Hn1 & Hb1 & _);
  mstep next_full; [assumption|];
  intros r l2 (S2 & B2 & I2 & Hr2 & Hp2 & Hw2 & W2 & L2 & E2);
  assert (P2 : pos l1 <= pos l2 <= len (input l1))
    by (unfold inb in *; rewrite <- I2; lia);
  assert (P2' : pos l2 = pos l1 + width l2) by lia;
  assert (W2' : 0 <= width l2) by lia.

Lemma lexStartStatement1_step l :
  Inv l -> post lexStartStatement1_fn l (Step1 lexStartStatement1 l).
Proof.
  intros HI. unfold lexStartStatement1_fn. skip_and_read l.
  destruct (r =? eof); [after_read|].
  destruct ((r =? 115) || (r =? 83)); after_read.
Qed.

Lemma lexSelectList_step l :
  Inv l -> post lexSelectList_fn l (Step1 lexSelectList l).
Proof.
  intros HI. unfold lexSelectList_fn. skip_and_read l.
  destruct (Z.eqb_spec r 42) as [R|R].
  { destruct E2 as [E2|[E2 E2']]; [unfold eof in E2; lia|]. after_read. }
  destruct (isAlpha r); after_read.
Qed.

Lemma lexColumnsListContinue_step l :
  Inv l -> post lexColumnsListContinue_fn l (Step1 lexColumnsListContinue l).
Proof.
  intros HI. unfold lexColumnsListContinue_fn. skip_and_read l.
  destruct (r =? eof); [after_read|].
  destruct (Z.eqb_spec r 44) as [R|R].
  { destruct E2 as [E2|[E2 E2']]; [unfold eof in E2; lia|]. after_read. }
  destruct ((r =? 102) || (r =? 70)); after_read.
Qed.

Lemma lexColumnsList_step l :
  Inv l -> post lexColumnsList_fn l (Step1 lexColumnsList l).
Proof.
  intros HI. unfold lexColumnsList_fn.
  mstep skipWhitespace_Inv; [assumption|].
  intros _ l1 (HS1 & Hs1 & Hp1 & Hi1 & Hn1 & Hb1 & _).
  apply scan_column; try assumption. cbn. lia.
Qed.

Lemma lexFromTableName1_step l :
  Inv l -> post lexFromTableName1_fn l (Step1 lexFromTableName1 l).
Proof.
  intros HI. unfold lexFromTableName1_fn.
  mstep skipWhitespace_Inv; [assumption|].
  intros _ l1 (HS1 & Hs1 & Hp1 & Hi1 & Hn1 & Hb1 & _).
  apply scan_column; try assumption. cbn. lia.
Qed.

Lemma lexEndOfStatement1_step l :
  Inv l -> post lexEndOfStatement1_fn l (Step1 lexEndOfStatement1 l).
Proof.
  intros HI. unfold lexEndOfStatement1_fn.
  mstep skipWhitespace_Inv; [assumption|].
  intros _ l1 (HS1 & Hs1 & Hp1 & Hi1 & Hn1 & Hb1 & _).
  mstep accept_spec; [assumption|].
  intros b l2 (S2 & Hb2 & Hp2).
  pose proof (rune_at_bounds _ _ Hb1) as (B1 & B2 & B3).
  assert (HS2 : Scanning l2).
  { eapply Scanning_move; [eassumption|assumption|].
    unfold inb in Hb1. destruct b; lia. }
  assert (Hi2 : input l2 = input l) by (destruct S2 as (_ & I & _); congruence).
  assert (Hn2 : name l2 = name l) by (destruct S2 as (N & _); congruence).
  destruct b.
  - pose proof (in_set_nonneg _ _ (eq_sym Hb2)).
    mstep emit_Final; [assumption| |].
    { destruct S2 as (_ & _ & Ss & _). lia. }
    intros _ l3 (F3 & Hi3 & Hn3). apply post_ret. unfold Step1.
    split; [congruence|]. split; [congruence|]. assumption.
  - apply errorf1_Step; assumption.
Qed.

Lemma call1_step s l : Inv l -> post (call1 s) l (Step1 s l).
Proof.
  intros HI. destruct s; cbn [call1].
  - apply lexStartStatement1_step. assumption.
  - destruct nonneg_runes_select as (H1 & H2 & H3).
    apply createLexKeyword1_step; try assumption; try discriminate. cbn. lia.
  - destruct nonneg_runes_from as (H1 & H2 & H3).
    apply createLexKeyword1_step; try assumption; try discriminate. cbn. lia.
  - apply lexSelectList_step. assumption.
  - apply lexColumnsList_step. assumption.
  - apply lexColumnsListContinue_step. assumption.
  - apply lexFromTableName1_step. assumption.
  - apply lexEndOfStatement1_step. assumption.
Qed.

Lemma run_loop1_spec n : forall s l,
  Inv l -> (rank1 s l <= n)%nat ->
  post (run_loop1 n (Some s)) l (fun _ l' =>
    Final l' /\ input l' = input l /\ name l' = name l).
Proof.
  induction n as [|n IH]; intros s l HI Hr.
  - unfold rank1 in Hr. destruct s; cbn in Hr; lia.
  - cbn [run_loop1]. mstep call1_step; [assumption|].
    intros o l1 (Hi1 & Hn1 & D). destruct o as [s'|].
    + destruct D as (HI1 & Hlt).
      eapply post_mono; [apply IH; [assumption|lia]|].
      cbv beta. intros _ l2 (F2 & Hi2 & Hn2).
      split; [assumption|]. split; congruence.
    + assert (E : run_loop1 n None = ret tt) by (destruct n; reflexivity).
      rewrite E. apply post_ret. auto.
Qed.

Lemma run_loop1_mono n : forall o l a l',
  run_loop1 n o l = Ok a l' ->
  forall m, (n <= m)%nat -> run_loop1 m o l = Ok a l'.
Proof.
  induction n as [|n IH]; intros o l a l' H m Hm.
  - destruct o; [discriminate|]. destruct m; exact H.
  - destruct o as [s|]; [|destruct m; exact H].
    destruct m as [|m]; [lia|]. cbn [run_loop1] in *. unfold bind in *.
    destruct (call1 s l) as [o1 l1| |]; try discriminate.
    eapply IH; [eassumption|lia].
Qed.

Lemma lex1_Scanned nm inp :
  exists l, lex1 nm inp = Ok tt l /\ Scanned inp l.
Proof.
  pose proof (run_loop1_spec (2 * String.length inp + 8) lexStartStatement1
                (fresh nm inp) (Inv_fresh nm inp)) as H.
  assert (Hr : (rank1 lexStartStatement1 (fresh nm inp)
                <= 2 * String.length inp + 8)%nat)
    by (unfold rank1, len; cbn; lia).
  specialize (H Hr). unfold post in H.
  change (lex1 nm inp) with (run1 lexStartStatement1 (fresh nm inp)).
  unfold run1, bind. cbn [input fresh].
  destruct (run_loop1 _ _ _) as [[] l1| |]; try contradiction.
  destruct H as ((C & toks & t & Hs & Hf & E & HT & D) & Hi & Hn).
  unfold close. rewrite C. eexists. split; [reflexivity|].
  unfold Scanned. cbn. cbn in Hi. rewrite Hi in *.
  split; [reflexivity|]. split; [reflexivity|].
  exists toks, t. split; [assumption|]. split; [assumption|].
  exists E. split; [assumption|].
  destruct D as [D|D]; [left; assumption|right].
  unfold error_item in *. cbn. assumption.
Qed.


(* ================================================================== *)
(** ** The first revision in the second *)

Lemma lexer_ext l l' :
  name l' = name l -> input l' = input l -> pos l' = pos l ->
  start l' = start l -> width l' = width l -> items l' = items l ->
  line l' = line l -> startLine l' = startLine l -> l' = l.
Proof. destruct l, l'; cbn; intros; subst; reflexivity. Qed.

Lemma backup_width l u l' : backup l = Ok u l' -> width l' = width l.
Proof.
  unfold backup. cbn. destruct (width l =? 1).
  - destruct (index _ _) as [b|]; [|discriminate].
    destruct (b =? 10); intros E; injection E as _ <-; reflexivity.
  - intros E; injection E as _ <-; reflexivity.
Qed.

(** [backup] after [next] gives the lexer back, when the last rune read
    was the one at the cursor. *)
Lemma peek_back l r l1 :
  inb l -> width l = wd (input l) (pos l) -> next l = Ok r l1 ->
  backup l1 = Ok tt l.
Proof.
  intros Hb W E.
  pose proof (post_at _ _ _ _ _ (next_all l Hb) E)
    as (S1 & B1 & R1 & P1 & W1 & L1).
  assert (I1 : input l1 = input l) by apply S1.
  assert (Hq : 0 <= pos l <= len (input l1)) by (rewrite I1; exact Hb).
  rewrite <- I1 in P1, W1.
  pose proof (backup_undoes l1 (pos l) Hq P1 W1) as H.
  unfold post in H. destruct (backup l1) as [[] l2| |] eqn:E2; try contradiction.
  destruct H as (S2 & P2 & L2).
  pose proof (backup_width _ _ _ E2) as W2.
  f_equal.
  destruct S1 as (A1 & A2 & A3 & A4 & A5), S2 as (C1 & C2 & C3 & C4 & C5).
  apply lexer_ext; try congruence.
  rewrite L2, L1, I1. lia.
Qed.

Lemma skip_settles l u l' : inb l -> skipWhitespace l = Ok u l' -> settled l'.
Proof.
  intros Hb E.
  pose proof (post_at _ _ _ _ _ (skipWhitespace_spec l Hb) E)
    as (K & St & P & _ & C).
  assert (I : input l' = input l) by apply K.
  unfold skipWhitespace in E. inv_bind E as u1 l1 E1.
  assert (F : width l' = width l1 /\ pos l' = pos l1)
    by (injection E as _ <-; split; reflexivity).
  destruct F as (F1 & F2).
  unfold acceptRun in E1. inv_bind E1 as u2 l2 E2.
  destruct (acceptRun_loop_extend EmptyString 0 spaceChars _ l u2 l2 0%nat Hb E2)
    as ((q & Q1 & Q2 & Q3 & Q4) & _).
  assert (Hq : 0 <= q <= len (input l2)) by (rewrite Q2; unfold inb in Hb; lia).
  rewrite <- Q2 in Q3, Q4.
  pose proof (post_at _ _ _ _ _ (backup_undoes l2 q Hq Q3 Q4) E1) as (_ & P2 & _).
  pose proof (backup_width _ _ _ E1) as W2.
  unfold settled, inb. rewrite I.
  split; [lia|]. split; [assumption|].
  split; [|assumption].
  rewrite F1, W2, Q4, Q2, F2, P2. reflexivity.
Qed.

Lemma settled_skip l : settled l -> skipWhitespace l = Ok tt l.
Proof.
  intros (Hb & St & W & C).
  pose proof (next_all l Hb) as H. unfold post in H.
  destruct (next l) as [r l1| |] eqn:E; try contradiction.
  destruct H as (_ & _ & -> & _).
  unfold skipWhitespace, acceptRun, bind. cbn [acceptRun_loop]. unfold bind.
  rewrite E, C. unfold ret. rewrite (peek_back l _ l1 Hb W E).
  f_equal. destruct l; cbn in *; subst; reflexivity.
Qed.

Lemma bind_at {A C} (m : M A) (k : A -> M C) l a l' :
  m l = Ok a l' -> bind m k l = k a l'.
Proof. unfold bind. intros ->. reflexivity. Qed.

Lemma same_start_bind {A} (k : M A) l1 l2 :
  same_start l1 l2 -> (skipWhitespace ;;; k) l2 = (skipWhitespace ;;; k) l1.
Proof. unfold same_start, bind. intros ->. reflexivity. Qed.

Lemma same_start_call s l1 l2 :
  same_start l1 l2 -> call s l2 = call s l1.
Proof.
  intros R. destruct s; cbn [call];
    unfold lexStartStatement_fn, lexSelectKeyword_fn, lexFromKeyword_fn,
      createLexKeyword, lexValueExprList_fn, lexFromTableName_fn,
      lexEndOfStatement_fn; cbv zeta; apply same_start_bind; exact R.
Qed.

Lemma same_start_settled l u l' :
  inb l -> skipWhitespace l = Ok u l' -> same_start l l'.
Proof.
  intros Hb E. unfold same_start. rewrite E. destruct u.
  symmetry. apply settled_skip. eapply skip_settles; eassumption.
Qed.

Lemma errorf1_ends format args l o l' :
  errorf1 format args l = Ok o l' -> o = None /\ ends_with itemError l'.
Proof.
  unfold errorf1, bind, send, ret.
  destruct (closed (items l)); [discriminate|].
  intros E. injection E as <- <-. split; [reflexivity|].
  eexists _, _. cbn. split; reflexivity.
Qed.

Lemma lifts_errorf format args : lifts (errorf format args) (errorf1 format args).
Proof.
  intros l. unfold errorf, errorf1, bind, send, ret.
  destruct (closed (items l)); reflexivity.
Qed.

Lemma lifts_bind {A} (m : M A) (k2 : A -> M (option stateFn))
    (k1 : A -> M (option stateFn1)) :
  (forall a, lifts (k2 a) (k1 a)) -> lifts (bind m k2) (bind m k1).
Proof.
  intros H l. unfold bind. destruct (m l) as [a l'| |]; try reflexivity.
  apply H.
Qed.

Lemma lifts_ret_Some s : lifts (ret (Some (second s))) (ret (Some s)).
Proof. intros l. reflexivity. Qed.

Lemma lifts_ret_None : lifts (ret None) (ret None).
Proof. intros l. reflexivity. Qed.

Ltac lifts_tac :=
  repeat first
    [ apply lifts_errorf
    | apply lifts_ret_None
    | apply (lifts_ret_Some lexStartStatement1)
    | apply (lifts_ret_Some lexSelectKeyword1)
    | apply (lifts_ret_Some lexFromKeyword1)
    | apply (lifts_ret_Some lexFromTableName1)
    | apply (lifts_ret_Some lexEndOfStatement1)
    | apply lifts_bind; intros ?
    | match goal with
      | |- lifts (if ?b then _ else _) _ => destruct b
      end ].

Lemma lifts_keyword_loop keyword upper it nextAction lower : forall ix,
  lifts (keyword_loop keyword upper ix lower it (second nextAction))
        (keyword_loop1 keyword upper ix lower it nextAction).
Proof.
  induction lower as [|lo lower IH]; intros ix;
    cbn [keyword_loop keyword_loop1].
  - apply lifts_bind. intros _. apply lifts_ret_Some.
  - match goal with
    | |- context [@nth_error ?A ?u ?i] => destruct (@nth_error A u i)
    end; [|intros l; reflexivity].
    apply lifts_bind. intros r'.
    destruct (negb _); [apply lifts_errorf|apply IH].
Qed.

(** The state functions that the two revisions share. *)
Lemma lifts_call s :
  s <> lexSelectList -> s <> lexColumnsList -> s <> lexColumnsListContinue ->
  lifts (call (second s)) (call1 s).
Proof.
  intros H1 H2 H3. destruct s; try contradiction; cbn [call call1 second].
  - unfold lexStartStatement_fn, lexStartStatement1_fn. lifts_tac.
  - unfold lexSelectKeyword_fn, lexSelectKeyword1_fn, createLexKeyword,
      createLexKeyword1. cbv zeta. apply lifts_bind. intros _.
    apply (lifts_keyword_loop "select" _ itemSelect lexSelectList).
  - unfold lexFromKeyword_fn, lexFromKeyword1_fn, createLexKeyword,
      createLexKeyword1. cbv zeta. apply lifts_bind. intros _.
    apply (lifts_keyword_loop "from" _ itemFrom lexFromTableName1).
  - unfold lexFromTableName_fn, lexFromTableName1_fn. lifts_tac.
  - unfold lexEndOfStatement_fn, lexEndOfStatement1_fn. lifts_tac.
Qed.

Lemma passes_bind {A} P (m : M A) (k : A -> M (option stateFn1)) :
  (forall a, passes_to P (k a)) -> passes_to P (bind m k).
Proof.
  intros Hk l s' l' E. inv_bind E as a l2 E1. exact (Hk a l2 s' l' E).
Qed.

Lemma passes_errorf1 P format args : passes_to P (errorf1 format args).
Proof.
  intros l s' l' E. destruct (errorf1_ends _ _ _ _ _ E) as (H & _).
  discriminate H.
Qed.

Lemma passes_ret P s : P s -> passes_to P (ret (Some s)).
Proof. intros H l s' l' E. injection E as <- <-. exact H. Qed.

Lemma passes_ret_None P : passes_to P (ret None).
Proof. intros l s' l' E. discriminate E. Qed.

Lemma passes_keyword_loop1 P keyword upper it nextAction lower :
  P nextAction ->
  forall ix, passes_to P (keyword_loop1 keyword upper ix lower it nextAction).
Proof.
  intros HP. induction lower as [|lo lower IH]; intros ix; cbn [keyword_loop1].
  - apply passes_bind. intros _. apply passes_ret. exact HP.
  - match goal with
    | |- context [@nth_error ?A ?u ?i] => destruct (@nth_error A u i)
    end; [|intros l s' l' E; discriminate E].
    apply passes_bind. intros r'.
    destruct (negb _); [apply passes_errorf1|apply IH].
Qed.

Ltac passes_tac :=
  repeat first
    [ apply passes_errorf1 | apply passes_ret_None
    | apply passes_ret; discriminate
    | apply passes_bind; intros ?
    | match goal with
      | |- passes_to _ (if ?b then _ else _) => destruct b
      end ].

(** Only [lexColumnsList] returns [lexColumnsListContinue]. *)
Lemma passes_call1 s :
  s <> lexColumnsList ->
  passes_to (fun s' => s' <> lexColumnsListContinue) (call1 s).
Proof.
  intros Hs. destruct s; try contradiction; cbn [call1].
  - unfold lexStartStatement1_fn. passes_tac.
  - unfold lexSelectKeyword1_fn, createLexKeyword1. cbv zeta.
    apply passes_bind. intros _. apply passes_keyword_loop1. discriminate.
  - unfold lexFromKeyword1_fn, createLexKeyword1. cbv zeta.
    apply passes_bind. intros _. apply passes_keyword_loop1. discriminate.
  - unfold lexSelectList_fn. passes_tac.
  - unfold lexColumnsListContinue_fn. passes_tac.
  - unfold lexFromTableName1_fn. passes_tac.
  - unfold lexEndOfStatement1_fn. passes_tac.
Qed.

Lemma counterpart_run s m l :
  s <> lexColumnsListContinue ->
  (o <- counterpart s ;; run_loop m o) l = run_loop (S m) (Some (second s)) l.
Proof. intros H. destruct s; try contradiction; reflexivity. Qed.

Lemma run_loop1_None n l a l' : run_loop1 n None l = Ok a l' -> l' = l.
Proof. destruct n; cbn; intros E; injection E as _ <-; reflexivity. Qed.

(** A successful [scanIdentifier] has read a rune of [chars] first. *)
Lemma scanIdentifier_first l l' :
  scanIdentifier l = Ok true l' ->
  exists r l1, next l = Ok r l1 /\ in_set chars r = true.
Proof.
  unfold scanIdentifier. intros E. inv_bind E as b l1 E1.
  destruct b; cbn [negb] in E; [|discriminate E].
  unfold accept in E1. inv_bind E1 as r l2 E2.
  destruct (in_set chars r) eqn:C; [eauto|].
  inv_bind E1 as u l3 E3. discriminate E1.
Qed.


Ltac ends_in_error E1 E HE :=
  let HX := fresh "HX" in
  destruct (errorf1_ends _ _ _ _ _ E1) as (-> & HX);
  apply run_loop1_None in E; subst;
  pose proof (ends_with_one _ _ _ HE HX); discriminate.

(** After a star the second revision looks for [from] at once; the
    first revision does so in its next state function. *)
Lemma after_star n :
  (forall s l1 l2 lf, Inv l1 -> same_start l1 l2 ->
     run_loop1 n (Some s) l1 = Ok tt lf -> ends_with itemEOF lf ->
     exists m, (o <- counterpart s ;; run_loop m o) l2 = Ok tt lf) ->
  forall l lf, Inv l ->
    run_loop1 n (Some lexFromKeyword1) l = Ok tt lf ->
    ends_with itemEOF lf ->
    exists m, (o <- afterValueExpr ;; run_loop m o) l = Ok tt lf.
Proof.
  intros HA l lf HI E HE.
  assert (Hb : inb l) by apply HI.
  destruct n as [|n]; [discriminate|].
  assert (E' := E). cbn [run_loop1] in E'. inv_bind E' as o l' E1.
  cbn [call1] in E1. unfold lexFromKeyword1_fn, createLexKeyword1 in E1.
  cbv zeta in E1. inv_bind E1 as u ld E2. destruct u.
  change (runes_of (strings.ToLower "from")) with [102; 114; 111; 109] in E1.
  change (runes_of (strings.ToUpper "from")) with [70; 82; 79; 77] in E1.
  cbn [keyword_loop1 nth_error] in E1.
  inv_bind E1 as r le E3.
  pose proof (skip_settles _ _ _ Hb E2) as Sd.
  destruct ((r =? 102) || (r =? 70)) eqn:RF; cbn [negb] in E1;
    [|ends_in_error E1 E' HE].
  destruct (HA lexFromKeyword1 l ld lf HI (same_start_settled _ _ _ Hb E2) E HE)
    as (m & Hm).
  exists (S m).
  assert (V : afterValueExpr l = Ok (Some lexFromKeyword) ld).
  { unfold afterValueExpr.
    rewrite (bind_at _ _ _ _ _ E2), (bind_at _ _ _ _ _ E3).
    replace (r =? 44) with false by lia. rewrite RF.
    rewrite (bind_at _ _ _ _ _
               (peek_back ld r le ltac:(apply Sd) ltac:(apply Sd) E3)).
    reflexivity. }
  unfold bind at 1. rewrite V. exact Hm.
Qed.

(** The second revision follows the first: where the first revision,
    started in a state, ends with the end-of-input item, the second,
    started in the state that takes its place, ends in the same lexer. *)
Lemma first_in_second n : forall s l1 l2 lf,
  Inv l1 -> same_start l1 l2 ->
  run_loop1 n (Some s) l1 = Ok tt lf -> ends_with itemEOF lf ->
  exists m, (o <- counterpart s ;; run_loop m o) l2 = Ok tt lf.
Proof.
  induction n as [|n IH]; intros s l1 l2 lf HI R E HE; [discriminate|].
  assert (Hb : inb l1) by apply HI.
  cbn [run_loop1] in E. inv_bind E as o l1' E1.
  pose proof (post_at _ _ _ _ _ (call1_step s l1 HI) E1) as (I1 & N1 & D).
  assert (Shared : s <> lexSelectList -> s <> lexColumnsList ->
                   s <> lexColumnsListContinue ->
                   exists m, (o <- counterpart s ;; run_loop m o) l2 = Ok tt lf).
  { intros H1 H2 H3.
    assert (E2 : call (second s) l2 = Ok (option_map second o) l1').
    { rewrite (same_start_call _ l1 l2 R), (lifts_call s H1 H2 H3 l1), E1.
      reflexivity. }
    destruct o as [s'|]; cbn [option_map] in E2.
    - destruct D as (HI' & _).
      pose proof (passes_call1 s H2 _ _ _ E1) as Hs'.
      destruct (IH s' l1' l1' lf HI' eq_refl E HE) as (m & Hm).
      rewrite (counterpart_run s' m l1' Hs') in Hm.
      exists (S m). rewrite (counterpart_run s (S m) l2 H3).
      cbn [run_loop]. rewrite (bind_at _ _ _ _ _ E2). exact Hm.
    - apply run_loop1_None in E. subst l1'.
      exists 0%nat. rewrite (counterpart_run s 0 l2 H3).
      cbn [run_loop]. rewrite (bind_at _ _ _ _ _ E2). reflexivity. }
  destruct s; try (apply Shared; discriminate); clear Shared.
  - (* lexSelectList *)
    cbn [call1] in E1. unfold lexSelectList_fn in E1.
    inv_bind E1 as u la Ea. destruct u. inv_bind E1 as r lb Eb.
    pose proof (skip_settles _ _ _ Hb Ea) as Sa.
    assert (Ea2 : skipWhitespace l2 = Ok tt la) by (rewrite <- R; exact Ea).
    cbn [counterpart second call].
    destruct (r =? 42) eqn:R42.
    + inv_bind E1 as u lc Ec. injection E1 as <- <-.
      destruct D as (HI' & _).
      destruct (after_star n IH lc lf HI' E HE) as (m & Hm).
      exists m.
      assert (V : lexValueExprList_fn l2 = afterValueExpr lc).
      { unfold lexValueExprList_fn.
        rewrite (bind_at _ _ _ _ _ Ea2), (bind_at _ _ _ _ _ Eb).
        rewrite R42. rewrite (bind_at _ _ _ _ _ Ec). reflexivity. }
      unfold bind at 1. rewrite V. exact Hm.
    + destruct (isAlpha r) eqn:RA; [|ends_in_error E1 E HE].
      inv_bind E1 as u lb' Eb'. injection E1 as <- <-.
      rewrite (peek_back la r lb ltac:(apply Sa) ltac:(apply Sa) Eb) in Eb'.
      injection Eb' as _ <-.
      destruct D as (HI' & _).
      apply (IH lexColumnsList la l2 lf HI'); [|exact E|exact HE].
      unfold same_start. rewrite Ea2. apply settled_skip. exact Sa.
  - (* lexColumnsList *)
    cbn [call1] in E1. unfold lexColumnsList_fn in E1.
    inv_bind E1 as u la Ea. destruct u. inv_bind E1 as ok li Ei.
    pose proof (skip_settles _ _ _ Hb Ea) as Sa.
    assert (Ea2 : skipWhitespace l2 = Ok tt la) by (rewrite <- R; exact Ea).
    cbn [counterpart second call].
    destruct ok; cbn [negb] in E1.
    2: { inv_bind E1 as v lp Ep. ends_in_error E1 E HE. }
    inv_bind E1 as u lj Ej. injection E1 as <- <-.
    destruct D as (HI' & _).
    destruct (IH lexColumnsListContinue lj lj lf HI' eq_refl E HE) as (m & Hm).
    cbn [counterpart] in Hm.
    destruct (scanIdentifier_first _ _ Ei) as (r & lb & Eb & C).
    destruct (chars_isAlpha r C) as (C1 & C2 & C3 & C4).
    exists m.
    assert (V : lexValueExprList_fn l2 = afterValueExpr lj).
    { unfold lexValueExprList_fn.
      rewrite (bind_at _ _ _ _ _ Ea2), (bind_at _ _ _ _ _ Eb).
      rewrite C1, C2, C3, C4.
      rewrite (bind_at _ _ _ _ _
                 (peek_back la r lb ltac:(apply Sa) ltac:(apply Sa) Eb)).
      rewrite (bind_at _ _ _ _ _ Ei). cbn [negb].
      rewrite (bind_at _ _ _ _ _ Ej). reflexivity. }
    unfold bind at 1. rewrite V. exact Hm.
  - (* lexColumnsListContinue *)
    cbn [call1] in E1. unfold lexColumnsListContinue_fn in E1.
    inv_bind E1 as u lk Ek. destruct u. inv_bind E1 as r lm Em.
    pose proof (skip_settles _ _ _ Hb Ek) as Sk.
    assert (Ek2 : skipWhitespace l2 = Ok tt lk) by (rewrite <- R; exact Ek).
    cbn [counterpart].
    destruct (r =? eof) eqn:Re; [ends_in_error E1 E HE|].
    destruct (r =? 44) eqn:R44.
    + inv_bind E1 as u ln En. injection E1 as <- <-.
      destruct D as (HI' & _).
      destruct (IH lexColumnsList ln ln lf HI' eq_refl E HE) as (m & Hm).
      exists (S m).
      assert (V : afterValueExpr l2 = Ok (Some lexValueExprList) ln).
      { unfold afterValueExpr.
        rewrite (bind_at _ _ _ _ _ Ek2), (bind_at _ _ _ _ _ Em).
        rewrite R44. rewrite (bind_at _ _ _ _ _ En). reflexivity. }
      unfold bind at 1. rewrite V. exact Hm.
    + destruct ((r =? 102) || (r =? 70)) eqn:RF; [|ends_in_error E1 E HE].
      inv_bind E1 as u lk' Ek'. injection E1 as <- <-.
      rewrite (peek_back lk r lm ltac:(apply Sk) ltac:(apply Sk) Em) in Ek'.
      injection Ek' as _ <-.
      destruct D as (HI' & _).
      destruct (IH lexFromKeyword1 lk lk lf HI' eq_refl E HE) as (m & Hm).
      exists (S m).
      assert (V : afterValueExpr l2 = Ok (Some lexFromKeyword) lk).
      { unfold afterValueExpr.
        rewrite (bind_at _ _ _ _ _ Ek2), (bind_at _ _ _ _ _ Em).
        rewrite R44, RF.
        rewrite (bind_at _ _ _ _ _
                   (peek_back lk r lm ltac:(apply Sk) ltac:(apply Sk) Em)).
        reflexivity. }
      unfold bind at 1. rewrite V. exact Hm.
Qed.


(** The first revision: every scan halts.  The calls allotted to its
    state machine are enough, any larger number gives the same lexer, the
    channel is then closed, and the stream is made of items that do not
    end it and lie in the input one after the other, followed by exactly
    one last item: the end-of-input item, which lies in the input after
    them, or an error item. *)
Theorem first_revision_halts nm inp :
  exists l,
    lex1 nm inp = Ok tt l /\
    (forall n, (2 * String.length inp + 8 <= n)%nat ->
       (run_loop1 n (Some lexStartStatement1) ;;; close) (fresh nm inp)
       = Ok tt l) /\
    closed (items l) = true /\
    exists toks t,
      sent (items l) = toks ++ [t] /\
      Forall nonterminal toks /\
      exists E, tiled inp 0 toks E /\
        ((item.typ t = itemEOF /\ exists E', tiled inp E [t] E')
         \/ item.typ t = itemError).
Proof.
  destruct (lex1_Scanned nm inp)
    as (l & Hl & Hi & Hc & toks & t & Hs & Hf & E & HT & D).
  exists l. split; [assumption|]. split.
  { intros n Hn.
    change (lex1 nm inp) with (run1 lexStartStatement1 (fresh nm inp)) in Hl.
    unfold run1, bind in Hl. cbn [input fresh] in Hl. unfold bind.
    destruct (run_loop1 (2 * String.length inp + 8) (Some lexStartStatement1)
                (fresh nm inp)) as [[] l1| |] eqn:R; try discriminate.
    rewrite (run_loop1_mono _ _ _ _ _ R n Hn). exact Hl. }
  split; [assumption|]. exists toks, t. split; [assumption|].
  split; [assumption|]. exists E. split; [assumption|].
  destruct D as [D|(D & _)]; [left; exact D|right; exact D].
Qed.

(** The scan of the second revision, where that of the first ends with
    the end-of-input item: it leaves the same lexer. *)
Lemma lex1_lex nm inp l :
  lex1 nm inp = Ok tt l -> ends_with itemEOF l -> lex nm inp = Ok tt l.
Proof.
  intros L HE0.
  change (lex1 nm inp) with (run1 lexStartStatement1 (fresh nm inp)) in L.
  unfold run1 in L. cbn [input fresh] in L. inv_bind L as u lf L1. destruct u.
  assert (HE : ends_with itemEOF lf).
  { destruct HE0 as (toks & t & E & T). exists toks, t. split; [|assumption].
    rewrite <- E. unfold close in L. destruct (closed (items lf)); [discriminate|].
    injection L as <-. reflexivity. }
  destruct (first_in_second _ lexStartStatement1 (fresh nm inp) (fresh nm inp)
              lf (Inv_fresh nm inp) eq_refl L1 HE) as (m & Hm).
  change (run_loop (S m) (Some lexStartStatement) (fresh nm inp) = Ok tt lf)
    in Hm.
  destruct (lex_Scanned nm inp) as (l2 & L2 & _).
  change (lex nm inp) with (run lexStartStatement (fresh nm inp)) in *.
  unfold run, bind in L2 |- *. cbn [input fresh] in *.
  destruct (run_loop (String.length inp + 6) (Some lexStartStatement)
              (fresh nm inp)) as [[] lf2| |] eqn:R2; try discriminate.
  pose proof (run_loop_mono _ _ _ _ _ R2 (S m + (String.length inp + 6))%nat
                ltac:(lia)) as M2.
  pose proof (run_loop_mono _ _ _ _ _ Hm (S m + (String.length inp + 6))%nat
                ltac:(lia)) as M1.
  rewrite M1 in M2. injection M2 as <-. exact L.
Qed.

(** The second revision scans what the first one scans: when the scan of
    an input by the first revision ends with the end-of-input item, the
    scan of the same input by the second revision sends the same items,
    with the same kinds, offsets, texts and lines. *)
Theorem second_revision_scans_what_the_first_scans nm inp toks t :
  tokens1 nm inp = Some (toks ++ [t]) -> item.typ t = itemEOF ->
  tokens nm inp = Some (toks ++ [t]).
Proof.
  unfold tokens1, tokens. intros E T.
  destruct (lex1 nm inp) as [[] l| |] eqn:L; try discriminate.
  injection E as E.
  assert (HE : ends_with itemEOF l) by (exists toks, t; split; assumption).
  rewrite (lex1_lex nm inp l L HE). rewrite E. reflexivity.
Qed.


(* ================================================================== *)
(** ** The first revision: the kinds of the items *)

Lemma silent_ret {A} (a : A) : silent (ret a).
Proof. intros l a' l' E. injection E as _ <-. reflexivity. Qed.

Lemma silent_bind {A C} (m : M A) (k : A -> M C) :
  silent m -> (forall a, silent (k a)) -> silent (bind m k).
Proof.
  intros Hm Hk l b l' E. inv_bind E as a l1 E1.
  rewrite (Hk a l1 b l' E). exact (Hm l a l1 E1).
Qed.

Lemma silent_next : silent next.
Proof.
  intros l r l'. unfold next.
  destruct (len (input l) <=? pos l); [intros E; injection E as _ <-; reflexivity|].
  destruct (slice_from _ _) as [s|]; [|discriminate].
  destruct (utf8.DecodeRuneInString s) as [r0 w].
  destruct (r0 =? 10); intros E; injection E as _ <-; reflexivity.
Qed.

Lemma silent_backup : silent backup.
Proof.
  intros l u l'. unfold backup. cbn. destruct (width l =? 1).
  - destruct (index _ _) as [b|]; [|discriminate].
    destruct (b =? 10); intros E; injection E as _ <-; reflexivity.
  - intros E; injection E as _ <-; reflexivity.
Qed.

Lemma silent_acceptRun_loop valid n : silent (acceptRun_loop n valid).
Proof.
  induction n as [|n IH]; [intros l a l' E; discriminate|].
  cbn [acceptRun_loop]. apply silent_bind; [apply silent_next|].
  intros r. destruct (in_set valid r); [exact IH|apply silent_ret].
Qed.

Lemma silent_acceptRun valid : silent (acceptRun valid).
Proof.
  intros l a l' E. unfold acceptRun in E.
  revert E. apply silent_bind; [apply silent_acceptRun_loop|].
  intros _. apply silent_backup.
Qed.

Lemma silent_skipWhitespace : silent skipWhitespace.
Proof.
  unfold skipWhitespace. apply silent_bind; [apply silent_acceptRun|].
  intros _ l a l' E. injection E as _ <-. reflexivity.
Qed.

Ltac silent_tac :=
  repeat first
    [ apply silent_ret | apply silent_next | apply silent_backup
    | apply silent_acceptRun
    | apply silent_bind; [|intros ?]
    | match goal with |- silent (if ?b then _ else _) => destruct b end ].

Lemma silent_accept valid : silent (accept valid).
Proof. unfold accept. silent_tac. Qed.

Lemma silent_scanIdentifier : silent scanIdentifier.
Proof. unfold scanIdentifier, peek, accept. silent_tac. Qed.

Lemma emit_kinds t l a l' : emit t l = Ok a l' -> kinds l' = kinds l ++ [t].
Proof.
  unfold emit. destruct (slice _ _ _) as [v|]; [|discriminate].
  unfold bind, send. destruct (closed (items l)); [discriminate|].
  intros E. injection E as _ <-. unfold kinds. cbn. rewrite map_app. reflexivity.
Qed.

Lemma silent_kinds {A} (m : M A) l a l' :
  silent m -> m l = Ok a l' -> kinds l' = kinds l.
Proof. intros H E. unfold kinds. rewrite (H l a l' E). reflexivity. Qed.

Lemma columns_snoc n :
  columns n ++ [itemIdentifier; itemComma] = columns (S n).
Proof.
  induction n as [|n IH]; [reflexivity|].
  cbn [columns app]. rewrite IH. reflexivity.
Qed.

Lemma keyword_loop1_kinds keyword upper it nextAction lower :
  forall ix l o l',
    keyword_loop1 keyword upper ix lower it nextAction l = Ok o l' ->
    (o = None /\ ends_with itemError l')
    \/ (o = Some nextAction /\ kinds l' = kinds l ++ [it]).
Proof.
  induction lower as [|lo lower IH]; intros ix l o l' E; cbn [keyword_loop1] in E.
  - inv_bind E as u l1 E1. injection E as <- <-. right.
    split; [reflexivity|]. eapply emit_kinds. eassumption.
  - match type of E with
    | context [@nth_error ?A ?u ?i] => destruct (@nth_error A u i)
    end; [|discriminate].
    inv_bind E as r' l1 E1.
    pose proof (silent_kinds _ _ _ _ silent_next E1) as K1.
    destruct (negb _).
    + left. apply (errorf1_ends _ _ _ _ _ E).
    + rewrite <- K1. eapply IH. eassumption.
Qed.


Ltac kin E1 :=
  first
    [ pose proof (silent_kinds _ _ _ _ silent_skipWhitespace E1)
    | pose proof (silent_kinds _ _ _ _ silent_next E1)
    | pose proof (silent_kinds _ _ _ _ silent_backup E1)
    | pose proof (silent_kinds _ _ _ _ silent_scanIdentifier E1)
    | pose proof (silent_kinds _ _ _ _ (silent_accept _) E1)
    | pose proof (emit_kinds _ _ _ _ E1)
    | pose proof (pending_Ok _ _ _ E1) ].

Tactic Notation "kbind" hyp(E) "as" ident(a) ident(l) ident(E1) :=
  inv_bind E as a l E1; kin E1.

Ltac kerror E :=
  let HX := fresh "HX" in
  destruct (errorf1_ends _ _ _ _ _ E) as (-> & HX); left; exact HX.

(** The kinds of the items sent, from one state function of the first
    revision to the next. *)
Lemma call1_kinds s l o l' :
  kinds1_at s (kinds l) -> call1 s l = Ok o l' ->
  match o with
  | Some s' => kinds1_at s' (kinds l')
  | None => halted1 l'
  end.
Proof.
  intros K E. destruct s; cbn [call1 kinds1_at] in *.
  - unfold lexStartStatement1_fn in E.
    kbind E as u l1 E1. kbind E as r l2 E2.
    destruct (r =? eof); [kerror E|].
    destruct ((r =? 115) || (r =? 83)); [|kerror E].
    kbind E as u' l3 E3. injection E as <- <-. cbn. congruence.
  - unfold lexSelectKeyword1_fn, createLexKeyword1 in E. cbv zeta in E.
    kbind E as u l1 E1.
    destruct (keyword_loop1_kinds _ _ _ _ _ _ _ _ _ E) as [(-> & HX)|(-> & KK)];
      [left; exact HX|].
    cbn. rewrite KK. replace (kinds l1) with (@nil itemType) by congruence.
    reflexivity.
  - unfold lexFromKeyword1_fn, createLexKeyword1 in E. cbv zeta in E.
    kbind E as u l1 E1. destruct K as (sl & HS & K).
    destruct (keyword_loop1_kinds _ _ _ _ _ _ _ _ _ E) as [(-> & HX)|(-> & KK)];
      [left; exact HX|].
    cbn. exists sl. split; [assumption|]. rewrite KK.
    replace (kinds l1) with (itemSelect :: sl) by congruence. reflexivity.
  - unfold lexSelectList_fn in E.
    kbind E as u l1 E1. kbind E as r l2 E2.
    destruct (r =? 42).
    + kbind E as u' l3 E3. injection E as <- <-. cbn.
      exists [itemStar]. split; [left; reflexivity|].
      replace (kinds l3) with (kinds l ++ [itemStar]) by congruence.
      rewrite K. reflexivity.
    + destruct (isAlpha r); [|kerror E].
      kbind E as u' l3 E3. injection E as <- <-. cbn.
      exists 0%nat. cbn. congruence.
  - unfold lexColumnsList_fn in E. destruct K as (n & K).
    kbind E as u l1 E1. kbind E as ok l2 E2.
    destruct ok; cbn [negb] in E.
    + kbind E as u' l3 E3. injection E as <- <-. cbn.
      exists n. replace (kinds l3) with (kinds l ++ [itemIdentifier]) by congruence.
      rewrite K. reflexivity.
    + kbind E as v l3 E3. kerror E.
  - unfold lexColumnsListContinue_fn in E. destruct K as (n & K).
    kbind E as u l1 E1. kbind E as r l2 E2.
    destruct (r =? eof); [kerror E|].
    destruct (r =? 44).
    + kbind E as u' l3 E3. injection E as <- <-. cbn.
      exists (S n). replace (kinds l3) with (kinds l ++ [itemComma]) by congruence.
      rewrite K, <- columns_snoc. cbn [app]. rewrite <- !app_assoc. reflexivity.
    + destruct ((r =? 102) || (r =? 70)); [|kerror E].
      kbind E as u' l3 E3. injection E as <- <-. cbn.
      exists (columns n ++ [itemIdentifier]).
      split; [right; exists n; reflexivity|congruence].
  - unfold lexFromTableName1_fn in E. destruct K as (sl & HS & K).
    kbind E as u l1 E1. kbind E as ok l2 E2.
    destruct ok; cbn [negb] in E.
    + kbind E as u' l3 E3. injection E as <- <-. cbn.
      exists sl. split; [assumption|].
      replace (kinds l3) with (kinds l ++ [itemIdentifier]) by congruence.
      rewrite K. cbn [app]. rewrite <- app_assoc. reflexivity.
    + kbind E as v l3 E3. kerror E.
  - unfold lexEndOfStatement1_fn in E. destruct K as (sl & HS & K).
    kbind E as u l1 E1. kbind E as ok l2 E2.
    destruct ok; [|kerror E].
    kbind E as u' l3 E3. injection E as <- <-. right.
    exists sl. split; [assumption|].
    replace (kinds l3) with (kinds l ++ [itemEOF]) by congruence.
    rewrite K. cbn [app]. rewrite <- app_assoc. reflexivity.
Qed.

Lemma run_loop1_kinds n : forall s l lf,
  kinds1_at s (kinds l) -> run_loop1 n (Some s) l = Ok tt lf -> halted1 lf.
Proof.
  induction n as [|n IH]; intros s l lf K E; [discriminate|].
  cbn [run_loop1] in E. inv_bind E as o l1 E1.
  pose proof (call1_kinds s l o l1 K E1) as K1.
  destruct o as [s'|].
  - eapply IH; eassumption.
  - apply run_loop1_None in E. subst. exact K1.
Qed.

Lemma lex1_kinds nm inp l : lex1 nm inp = Ok tt l -> halted1 l.
Proof.
  intros L.
  change (lex1 nm inp) with (run1 lexStartStatement1 (fresh nm inp)) in L.
  unfold run1 in L. cbn [input fresh] in L. inv_bind L as u lf L1. destruct u.
  assert (H : halted1 lf)
    by (refine (run_loop1_kinds _ lexStartStatement1 (fresh nm inp) lf _ L1);
        reflexivity).
  unfold close in L. destruct (closed (items lf)); [discriminate|].
  injection L as <-. exact H.
Qed.

Lemma columns_kinds n :
  Forall (fun k => k = itemIdentifier \/ k = itemComma) (columns n).
Proof.
  induction n as [|n IH]; cbn [columns]; [constructor|].
  constructor; [left; reflexivity|]. constructor; [right; reflexivity|].
  exact IH.
Qed.

Lemma statement1_kinds_members ks k :
  statement1_kinds ks -> In k ks ->
  k = itemSelect \/ k = itemStar \/ k = itemIdentifier \/ k = itemComma
  \/ k = itemFrom \/ k = itemEOF.
Proof.
  intros (sl & HS & ->) Hin. cbn in Hin. destruct Hin as [<-|Hin]; [auto|].
  apply in_app_or in Hin. destruct Hin as [Hin|Hin].
  - destruct HS as [->|(n & ->)].
    + cbn in Hin. destruct Hin as [<-|[]]. auto.
    + apply in_app_or in Hin. destruct Hin as [Hin|Hin].
      * pose proof (columns_kinds n) as F. rewrite Forall_forall in F.
        destruct (F _ Hin) as [->| ->]; auto.
      * cbn in Hin. destruct Hin as [<-|[]]. auto.
  - cbn in Hin. destruct Hin as [<-|[<-|[<-|[]]]]; auto 10.
Qed.

(** The select list of the first revision is a star or a list of column
    names: every scan ends with an error item, or its items are Select,
    then one Star or Identifier items separated by Comma items, then
    From, Identifier and the end-of-input item. *)
Theorem select_list_of_the_first_revision nm inp :
  exists l,
    lex1 nm inp = Ok tt l /\
    ((exists toks t, sent (items l) = toks ++ [t] /\ item.typ t = itemError)
     \/ exists sl,
          (sl = [itemStar] \/ exists n, sl = columns n ++ [itemIdentifier]) /\
          map item.typ (sent (items l))
          = itemSelect :: sl ++ [itemFrom; itemIdentifier; itemEOF]).
Proof.
  destruct (lex1_Scanned nm inp) as (l & L & _).
  exists l. split; [assumption|].
  destruct (lex1_kinds nm inp l L) as [H|H]; [left; exact H|right; exact H].
Qed.

(** The first revision has no strings and no numbers: an input whose
    scan by the second revision sends a String or a Number item is
    rejected by the first revision, whose scan ends with an error
    item. *)
Theorem first_revision_rejects_strings_and_numbers nm inp ts t :
  tokens nm inp = Some ts -> In t ts ->
  item.typ t = itemString \/ item.typ t = itemNumber ->
  exists ts1 e,
    tokens1 nm inp = Some (ts1 ++ [e]) /\ item.typ e = itemError.
Proof.
  intros T Hin Ht.
  destruct (lex1_Scanned nm inp)
    as (l & L & Hi & Hc & toks & e & E & Hf & E0 & HT & D).
  unfold tokens1. rewrite L.
  destruct D as [(De & _)|(De & _)].
  2: { exists toks, e. split; [rewrite E; reflexivity|exact De]. }
  exfalso.
  assert (HE : ends_with itemEOF l) by (exists toks, e; split; assumption).
  destruct (lex1_kinds nm inp l L) as [HX|H];
    [pose proof (ends_with_one _ _ _ HE HX); discriminate|].
  pose proof (lex1_lex nm inp l L HE) as L2.
  unfold tokens in T. rewrite L2 in T. injection T as <-.
  assert (Hk : In (item.typ t) (kinds l)) by (unfold kinds; apply in_map; exact Hin).
  pose proof (statement1_kinds_members _ _ H Hk) as M.
  destruct Ht as [Ht|Ht]; rewrite Ht in M;
    destruct M as [M|[M|[M|[M|[M|M]]]]]; discriminate M.
Qed.


(* ================================================================== *)
(** ** The second revision on the statements of the first *)

Lemma grows_silent {A} (m : M A) : silent m -> grows m.
Proof.
  intros H l a l' E. exists []. rewrite app_nil_r.
  eapply silent_kinds; eassumption.
Qed.

Lemma grows_ret {A} (a : A) : grows (ret a).
Proof. apply grows_silent, silent_ret. Qed.

Lemma grows_bind {A C} (m : M A) (k : A -> M C) :
  grows m -> (forall a, grows (k a)) -> grows (bind m k).
Proof.
  intros Hm Hk l b l' E. inv_bind E as a l1 E1.
  destruct (Hm l a l1 E1) as (m1 & K1).
  destruct (Hk a l1 b l' E) as (m2 & K2).
  exists (m1 ++ m2). rewrite K2, K1, app_assoc. reflexivity.
Qed.

Lemma grows_emit t : grows (emit t).
Proof. intros l a l' E. exists [t]. eapply emit_kinds. eassumption. Qed.

Lemma grows_errorf format args : grows (errorf format args).
Proof.
  intros l o l' E. destruct (errorf_sent _ _ _ _ _ E) as (_ & H).
  eexists. unfold kinds. rewrite H, map_app. reflexivity.
Qed.

Lemma silent_pending : silent pending.
Proof. intros l v l' E. rewrite (pending_Ok _ _ _ E). reflexivity. Qed.

Lemma silent_peek : silent peek.
Proof. unfold peek. silent_tac. Qed.

Lemma silent_scanNumber : silent scanNumber.
Proof.
  unfold scanNumber. cbv zeta.
  repeat first
    [ apply silent_ret | apply silent_next | apply silent_backup
    | apply silent_acceptRun | apply silent_accept | apply silent_peek
    | apply silent_bind; [|intros ?]
    | match goal with |- silent (if ?b then _ else _) => destruct b end ].
Qed.

Lemma silent_scanString_loop n : silent (scanString_loop n).
Proof.
  induction n as [|n IH]; [intros l a l' E; discriminate|].
  cbn [scanString_loop].
  repeat first
    [ exact IH | apply silent_ret | apply silent_next | apply silent_backup
    | apply silent_bind; [|intros ?]
    | match goal with |- silent (if ?b then _ else _) => destruct b end ].
Qed.

Lemma silent_scanString : silent scanString.
Proof.
  unfold scanString. apply silent_bind; [apply silent_next|]. intros r.
  destruct (negb _).
  - apply silent_bind; [apply silent_backup|]. intros _. apply silent_ret.
  - intros l a l' E. eapply silent_scanString_loop. eassumption.
Qed.

Ltac grows_tac :=
  repeat first
    [ apply grows_ret | apply grows_emit | apply grows_errorf
    | apply grows_silent;
      first [ apply silent_skipWhitespace | apply silent_next
            | apply silent_backup | apply silent_scanIdentifier
            | apply silent_scanNumber | apply silent_scanString
            | apply silent_pending | apply silent_accept ]
    | assumption
    | apply grows_bind; [|intros ?]
    | match goal with |- grows (if ?b then _ else _) => destruct b end ].

Lemma grows_afterValueExpr : grows afterValueExpr.
Proof. unfold afterValueExpr. grows_tac. Qed.

Lemma grows_keyword_loop keyword upper it nextAction lower : forall ix,
  grows (keyword_loop keyword upper ix lower it nextAction).
Proof.
  induction lower as [|lo lower IH]; intros ix; cbn [keyword_loop].
  - grows_tac.
  - match goal with
    | |- context [@nth_error ?A ?u ?i] => destruct (@nth_error A u i)
    end; [|intros l a l' E; discriminate].
    apply grows_bind; [apply grows_silent, silent_next|]. intros r'.
    destruct (negb _); [apply grows_errorf|apply IH].
Qed.

Lemma grows_call s : grows (call s).
Proof.
  pose proof grows_afterValueExpr as HA.
  destruct s; cbn [call].
  - unfold lexStartStatement_fn. grows_tac.
  - unfold lexSelectKeyword_fn, createLexKeyword. cbv zeta.
    apply grows_bind; [apply grows_silent, silent_skipWhitespace|].
    intros _. apply grows_keyword_loop.
  - unfold lexFromKeyword_fn, createLexKeyword. cbv zeta.
    apply grows_bind; [apply grows_silent, silent_skipWhitespace|].
    intros _. apply grows_keyword_loop.
  - unfold lexValueExprList_fn. grows_tac.
  - unfold lexFromTableName_fn. grows_tac.
  - unfold lexEndOfStatement_fn. grows_tac.
Qed.

Lemma grows_run_loop n : forall o, grows (run_loop n o).
Proof.
  induction n as [|n IH]; intros [s|]; cbn [run_loop].
  - intros l a l' E. discriminate.
  - apply grows_ret.
  - apply grows_bind; [apply grows_call|]. intros o. apply IH.
  - apply grows_ret.
Qed.

Lemma ends_with_In k l : ends_with k l -> In k (kinds l).
Proof.
  intros (toks & t & E & T). unfold kinds. rewrite E, map_app.
  apply in_or_app. right. cbn. auto.
Qed.

(** A star is the whole select list of the first revision. *)
Lemma star_alone pre more :
  statement1_kinds (pre ++ itemStar :: more) ->
  pre = [itemSelect] /\ more = [itemFrom; itemIdentifier; itemEOF].
Proof.
  intros H.
  assert (M : forall k, In k (pre ++ itemStar :: more) ->
                        k = itemSelect \/ k = itemStar \/ k = itemIdentifier
                        \/ k = itemComma \/ k = itemFrom \/ k = itemEOF)
    by (intros k; apply statement1_kinds_members; exact H).
  destruct H as (sl & [->|(n & ->)] & E).
  - destruct pre as [|a [|b [|c [|d [|e pre]]]]]; cbn in E;
      try (injection E; intros; subst; try discriminate; auto; fail).
    injection E as _ _ _ _ _ E. destruct pre; discriminate E.
  - exfalso.
    assert (Hin : In itemStar (itemSelect :: (columns n ++ [itemIdentifier])
                               ++ [itemFrom; itemIdentifier; itemEOF])).
    { rewrite <- E. apply in_or_app. right. left. reflexivity. }
    cbn in Hin. destruct Hin as [Hin|Hin]; [discriminate|].
    apply in_app_or in Hin. destruct Hin as [Hin|Hin].
    + apply in_app_or in Hin. destruct Hin as [Hin|Hin].
      * pose proof (columns_kinds n) as F. rewrite Forall_forall in F.
        destruct (F _ Hin); discriminate.
      * cbn in Hin. destruct Hin as [Hin|[]]; discriminate.
    + cbn in Hin. destruct Hin as [Hin|[Hin|[Hin|[]]]]; discriminate.
Qed.


Lemma run_loop_None n l a l' : run_loop n None l = Ok a l' -> l' = l.
Proof. destruct n; cbn; intros E; injection E as _ <-; reflexivity. Qed.

Lemma same_start_call1 s l1 l2 :
  same_start l1 l2 -> call1 s l2 = call1 s l1.
Proof.
  intros R. destruct s; cbn [call1];
    unfold lexStartStatement1_fn, lexSelectKeyword1_fn, lexFromKeyword1_fn,
      createLexKeyword1, lexSelectList_fn, lexColumnsList_fn,
      lexColumnsListContinue_fn, lexFromTableName1_fn, lexEndOfStatement1_fn;
    cbv zeta; apply same_start_bind; exact R.
Qed.

(** The state functions that the two revisions share return neither
    [lexColumnsList] nor [lexColumnsListContinue]. *)
Lemma passes_shared s :
  s <> lexSelectList -> s <> lexColumnsList -> s <> lexColumnsListContinue ->
  passes_to (fun s' => s' <> lexColumnsList /\ s' <> lexColumnsListContinue)
            (call1 s).
Proof.
  intros H1 H2 H3. destruct s; try contradiction; cbn [call1].
  - unfold lexStartStatement1_fn.
    repeat first
      [ apply passes_errorf1
      | apply passes_ret; split; discriminate
      | apply passes_bind; intros ?
      | match goal with
        | |- passes_to _ (if ?b then _ else _) => destruct b
        end ].
  - unfold lexSelectKeyword1_fn, createLexKeyword1. cbv zeta.
    apply passes_bind. intros _. apply passes_keyword_loop1.
    split; discriminate.
  - unfold lexFromKeyword1_fn, createLexKeyword1. cbv zeta.
    apply passes_bind. intros _. apply passes_keyword_loop1.
    split; discriminate.
  - unfold lexFromTableName1_fn.
    repeat first
      [ apply passes_errorf1
      | apply passes_ret; split; discriminate
      | apply passes_bind; intros ?
      | match goal with
        | |- passes_to _ (if ?b then _ else _) => destruct b
        end ].
  - unfold lexEndOfStatement1_fn.
    repeat first
      [ apply passes_errorf1 | apply passes_ret_None
      | apply passes_bind; intros ?
      | match goal with
        | |- passes_to _ (if ?b then _ else _) => destruct b
        end ].
Qed.

(** The items of a statement of the first revision hold no error item,
    no string and no number. *)
Lemma error_refuted format args l o l' n lf :
  errorf format args l = Ok o l' -> run_loop n o l' = Ok tt lf ->
  statement1_kinds (kinds lf) -> False.
Proof.
  intros E1 E G.
  destruct (errorf_sent _ _ _ _ _ E1) as (-> & _).
  pose proof (halts_errorf _ _ l l' E1) as H.
  apply run_loop_None in E. subst lf.
  pose proof (statement1_kinds_members _ _ G (ends_with_In _ _ H)) as M.
  destruct M as [M|[M|[M|[M|[M|M]]]]]; discriminate M.
Qed.

Lemma value_refuted (m : M bool) T format l o l' n lf :
  T = itemString \/ T = itemNumber ->
  (ok <- m ;;
   if negb ok then v <- pending ;; errorf format [ArgString v]
   else emit T ;;; afterValueExpr) l = Ok o l' ->
  run_loop n o l' = Ok tt lf ->
  statement1_kinds (kinds lf) -> False.
Proof.
  intros HT E1 E G. inv_bind E1 as ok l1 E2.
  destruct ok; cbn [negb] in E1.
  - inv_bind E1 as u l2 E3.
    pose proof (emit_kinds _ _ _ _ E3) as K2.
    destruct (grows_afterValueExpr _ _ _ E1) as (m1 & K3).
    destruct (grows_run_loop _ _ _ _ _ E) as (m2 & K4).
    assert (Hin : In T (kinds lf)).
    { rewrite K4, K3, K2. apply in_or_app. left. apply in_or_app. left.
      apply in_or_app. right. left. reflexivity. }
    pose proof (statement1_kinds_members _ _ G Hin) as M.
    destruct HT as [-> | ->];
      destruct M as [M|[M|[M|[M|[M|M]]]]]; discriminate M.
  - inv_bind E1 as v l2 E3. eapply error_refuted; eassumption.
Qed.

Lemma skip_Inv l u l' : Inv l -> skipWhitespace l = Ok u l' -> Inv l'.
Proof.
  intros HI E.
  pose proof (post_at _ _ _ _ _ (skipWhitespace_Inv l HI) E) as (HS & Hs & _).
  apply Scanning_Inv; assumption.
Qed.

(** The second half of [lexValueExprList] after a column name, and
    [lexColumnsListContinue]. *)
Lemma column_tail n :
  (forall n' s l1 l2 lf, (n' < n)%nat ->
     s <> lexColumnsListContinue -> Inv l1 -> same_start l1 l2 ->
     kinds1_at s (kinds l1) ->
     (s = lexColumnsList -> kinds l1 <> [itemSelect]) ->
     run_loop (S n') (Some (second s)) l2 = Ok tt lf ->
     statement1_kinds (kinds lf) ->
     exists m, run_loop1 m (Some s) l1 = Ok tt lf) ->
  forall lj o l' lf,
    Inv lj -> kinds1_at lexColumnsListContinue (kinds lj) ->
    afterValueExpr lj = Ok o l' -> run_loop n o l' = Ok tt lf ->
    statement1_kinds (kinds lf) ->
    exists m, run_loop1 m (Some lexColumnsListContinue) lj = Ok tt lf.
Proof.
  intros IH lj o l' lf HI K E1 E G.
  assert (Hb : inb lj) by apply HI.
  unfold afterValueExpr in E1.
  inv_bind E1 as u lk Ek. destruct u. inv_bind E1 as r lm Em.
  pose proof (skip_settles _ _ _ Hb Ek) as Sk.
  pose proof (peek_back lk r lm ltac:(apply Sk) ltac:(apply Sk) Em) as Bk.
  destruct (r =? 44) eqn:R44.
  - inv_bind E1 as u ln En. injection E1 as <- <-.
    assert (C : call1 lexColumnsListContinue lj = Ok (Some lexColumnsList) ln).
    { cbn [call1]. unfold lexColumnsListContinue_fn.
      rewrite (bind_at _ _ _ _ _ Ek), (bind_at _ _ _ _ _ Em).
      replace (r =? eof) with false by (unfold eof; lia).
      rewrite R44. rewrite (bind_at _ _ _ _ _ En). reflexivity. }
    pose proof (post_at _ _ _ _ _ (call1_step _ lj HI) C) as (_ & _ & HI' & _).
    pose proof (call1_kinds _ lj _ ln K C) as K'.
    assert (KC : kinds ln <> [itemSelect]).
    { destruct K as (k & K).
      rewrite (emit_kinds _ _ _ _ En),
        (silent_kinds _ _ _ _ silent_next Em),
        (silent_kinds _ _ _ _ silent_skipWhitespace Ek), K.
      intros Heq. apply (f_equal (@List.length itemType)) in Heq.
      cbn in Heq. rewrite !length_app in Heq. cbn in Heq. lia. }
    destruct n as [|n']; [discriminate E|].
    destruct (IH n' lexColumnsList ln ln lf ltac:(lia) ltac:(discriminate)
                HI' eq_refl K' ltac:(intros _; exact KC) E G) as (m & Hm).
    exists (S m). cbn [run_loop1]. rewrite (bind_at _ _ _ _ _ C). exact Hm.
  - destruct ((r =? 102) || (r =? 70)) eqn:RF;
      [|exfalso; eapply error_refuted; eassumption].
    inv_bind E1 as u lk' Ek'. injection E1 as <- <-.
    rewrite Bk in Ek'. injection Ek' as _ <-.
    assert (C : call1 lexColumnsListContinue lj = Ok (Some lexFromKeyword1) lk).
    { cbn [call1]. unfold lexColumnsListContinue_fn.
      rewrite (bind_at _ _ _ _ _ Ek), (bind_at _ _ _ _ _ Em).
      replace (r =? eof) with false by (unfold eof; lia).
      rewrite R44, RF. rewrite (bind_at _ _ _ _ _ Bk). reflexivity. }
    pose proof (post_at _ _ _ _ _ (call1_step _ lj HI) C) as (_ & _ & HI' & _).
    pose proof (call1_kinds _ lj _ lk K C) as K'.
    destruct n as [|n']; [discriminate E|].
    destruct (IH n' lexFromKeyword1 lk lk lf ltac:(lia) ltac:(discriminate)
                HI' eq_refl K' ltac:(discriminate) E G) as (m & Hm).
    exists (S m). cbn [run_loop1]. rewrite (bind_at _ _ _ _ _ C). exact Hm.
Qed.

(** The branch of [lexValueExprList] that scans an identifier, and
    [lexColumnsList]. *)
Lemma column_head n :
  (forall n' s l1 l2 lf, (n' < n)%nat ->
     s <> lexColumnsListContinue -> Inv l1 -> same_start l1 l2 ->
     kinds1_at s (kinds l1) ->
     (s = lexColumnsList -> kinds l1 <> [itemSelect]) ->
     run_loop (S n') (Some (second s)) l2 = Ok tt lf ->
     statement1_kinds (kinds lf) ->
     exists m, run_loop1 m (Some s) l1 = Ok tt lf) ->
  forall l1 la o l' lf,
    Inv l1 -> kinds1_at lexColumnsList (kinds l1) ->
    skipWhitespace l1 = Ok tt la ->
    (ok <- scanIdentifier ;;
     if negb ok then v <- pending ;; errorf "bad identifier: %q" [ArgString v]
     else emit itemIdentifier ;;; afterValueExpr) la = Ok o l' ->
    run_loop n o l' = Ok tt lf ->
    statement1_kinds (kinds lf) ->
    exists m, run_loop1 m (Some lexColumnsList) l1 = Ok tt lf.
Proof.
  intros IH l1 la o l' lf HI K Ea E1 E G.
  inv_bind E1 as ok li Ei.
  destruct ok; cbn [negb] in E1.
  2: { inv_bind E1 as v lp Ep. exfalso. eapply error_refuted; eassumption. }
  inv_bind E1 as u lj Ej.
  assert (C : call1 lexColumnsList l1 = Ok (Some lexColumnsListContinue) lj).
  { cbn [call1]. unfold lexColumnsList_fn.
    rewrite (bind_at _ _ _ _ _ Ea), (bind_at _ _ _ _ _ Ei). cbn [negb].
    rewrite (bind_at _ _ _ _ _ Ej). reflexivity. }
  pose proof (post_at _ _ _ _ _ (call1_step _ l1 HI) C) as (_ & _ & HI' & _).
  pose proof (call1_kinds _ l1 _ lj K C) as K'.
  destruct (column_tail n IH lj o l' lf HI' K' E1 E G) as (m & Hm).
  exists (S m). cbn [run_loop1]. rewrite (bind_at _ _ _ _ _ C). exact Hm.
Qed.

(** The first revision follows the second on the statements of the first:
    where the second revision ends with the items of a statement of the
    first, the first revision ends in the same lexer. *)
Lemma second_in_first n : forall s l1 l2 lf,
  s <> lexColumnsListContinue -> Inv l1 -> same_start l1 l2 ->
  kinds1_at s (kinds l1) ->
  (s = lexColumnsList -> kinds l1 <> [itemSelect]) ->
  run_loop (S n) (Some (second s)) l2 = Ok tt lf ->
  statement1_kinds (kinds lf) ->
  exists m, run_loop1 m (Some s) l1 = Ok tt lf.
Proof.
  induction n as [n IH] using lt_wf_ind.
  intros s l1 l2 lf Hs HI R K KC E G.
  assert (IH' : forall n' s l1 l2 lf, (n' < n)%nat ->
     s <> lexColumnsListContinue -> Inv l1 -> same_start l1 l2 ->
     kinds1_at s (kinds l1) ->
     (s = lexColumnsList -> kinds l1 <> [itemSelect]) ->
     run_loop (S n') (Some (second s)) l2 = Ok tt lf ->
     statement1_kinds (kinds lf) ->
     exists m, run_loop1 m (Some s) l1 = Ok tt lf)
    by (intros n' ? ? ? ? Hn; apply (IH n' Hn)).
  assert (Hb : inb l1) by apply HI.
  cbn [run_loop] in E. inv_bind E as o2 l2' E1.
  assert (Shared : s <> lexSelectList -> s <> lexColumnsList ->
                   exists m, run_loop1 m (Some s) l1 = Ok tt lf).
  { intros H1 H2.
    rewrite (same_start_call _ l1 l2 R), (lifts_call s H1 H2 Hs l1) in E1.
    destruct (call1 s l1) as [o1 l1'| |] eqn:C1; cbn [lift] in E1;
      try discriminate.
    injection E1 as <- <-.
    pose proof (post_at _ _ _ _ _ (call1_step s l1 HI) C1) as (_ & _ & D).
    pose proof (call1_kinds s l1 o1 l1' K C1) as K1.
    destruct o1 as [s'|]; cbn [option_map] in E.
    - destruct D as (HI' & _).
      destruct (passes_shared s H1 H2 Hs _ _ _ C1) as (P1 & P2).
      destruct n as [|n']; [discriminate E|].
      destruct (IH' n' s' l1' l1' lf ltac:(lia) P2 HI' eq_refl K1
                  ltac:(intros; contradiction) E G) as (m & Hm).
      exists (S m). cbn [run_loop1]. rewrite (bind_at _ _ _ _ _ C1). exact Hm.
    - apply run_loop_None in E. subst.
      exists 1%nat. cbn [run_loop1]. rewrite (bind_at _ _ _ _ _ C1).
      reflexivity. }
  destruct s; try (apply Shared; discriminate); clear Shared.
  - (* lexSelectList *)
    cbn [kinds1_at] in K. cbn [second call] in E1.
    unfold lexValueExprList_fn in E1.
    inv_bind E1 as u la Ea2. destruct u. inv_bind E1 as r lb Eb.
    assert (Ea : skipWhitespace l1 = Ok tt la) by (rewrite R; exact Ea2).
    pose proof (skip_settles _ _ _ Hb Ea) as Sa.
    pose proof (skip_Inv _ _ _ HI Ea) as Ia.
    pose proof (peek_back la r lb ltac:(apply Sa) ltac:(apply Sa) Eb) as Ba.
    destruct (r =? 42) eqn:R42.
    + inv_bind E1 as uc lc Ec.
      assert (C : call1 lexSelectList l1 = Ok (Some lexFromKeyword1) lc).
      { cbn [call1]. unfold lexSelectList_fn.
        rewrite (bind_at _ _ _ _ _ Ea), (bind_at _ _ _ _ _ Eb).
        rewrite R42. rewrite (bind_at _ _ _ _ _ Ec). reflexivity. }
      pose proof (post_at _ _ _ _ _ (call1_step _ l1 HI) C) as (_ & _ & HI' & _).
      pose proof (call1_kinds lexSelectList l1 _ lc K C) as K'.
      assert (Hc : inb lc) by apply HI'.
      assert (Kc : kinds lc = [itemSelect; itemStar]).
      { rewrite (emit_kinds _ _ _ _ Ec),
          (silent_kinds _ _ _ _ silent_next Eb),
          (silent_kinds _ _ _ _ silent_skipWhitespace Ea), K. reflexivity. }
      unfold afterValueExpr in E1.
      inv_bind E1 as u ld Ed. destruct u. inv_bind E1 as r2 le Ee.
      pose proof (skip_settles _ _ _ Hc Ed) as Sd.
      destruct (r2 =? 44).
      * exfalso. inv_bind E1 as u ln En. injection E1 as <- <-.
        destruct (grows_run_loop _ _ _ _ _ E) as (more & Kf).
        rewrite (emit_kinds _ _ _ _ En),
          (silent_kinds _ _ _ _ silent_next Ee),
          (silent_kinds _ _ _ _ silent_skipWhitespace Ed), Kc in Kf.
        rewrite Kf in G.
        change (([itemSelect; itemStar] ++ [itemComma]) ++ more)
          with ([itemSelect] ++ itemStar :: itemComma :: more) in G.
        destruct (star_alone _ _ G) as (_ & X). discriminate X.
      * destruct ((r2 =? 102) || (r2 =? 70));
          [|exfalso; eapply error_refuted; eassumption].
        inv_bind E1 as u ld' Ed'. injection E1 as <- <-.
        rewrite (peek_back ld r2 le ltac:(apply Sd) ltac:(apply Sd) Ee) in Ed'.
        injection Ed' as _ <-.
        destruct n as [|n']; [discriminate E|].
        destruct (IH' n' lexFromKeyword1 lc ld lf ltac:(lia) ltac:(discriminate)
                    HI' (same_start_settled _ _ _ Hc Ed) K'
                    ltac:(discriminate) E G) as (m & Hm).
        exists (S m). cbn [run_loop1]. rewrite (bind_at _ _ _ _ _ C). exact Hm.
    + destruct (r =? 39).
      { exfalso. inv_bind E1 as u lb' Eb'.
        eapply (value_refuted scanString itemString); [left; reflexivity|..];
          eassumption. }
      destruct ((r =? 43) || (r =? 45) || (48 <=? r) && (r <=? 57)).
      { exfalso. inv_bind E1 as u lb' Eb'.
        eapply (value_refuted scanNumber itemNumber); [right; reflexivity|..];
          eassumption. }
      destruct (isAlpha r) eqn:RA;
        [|exfalso; eapply error_refuted; eassumption].
      inv_bind E1 as u lb' Eb'. rewrite Ba in Eb'. injection Eb' as _ <-.
      assert (C : call1 lexSelectList l1 = Ok (Some lexColumnsList) la).
      { cbn [call1]. unfold lexSelectList_fn.
        rewrite (bind_at _ _ _ _ _ Ea), (bind_at _ _ _ _ _ Eb).
        rewrite R42, RA. rewrite (bind_at _ _ _ _ _ Ba). reflexivity. }
      pose proof (call1_kinds lexSelectList l1 _ la K C) as K'.
      destruct (column_head n IH' la la o2 l2' lf Ia K' (settled_skip la Sa)
                  E1 E G) as (m & Hm).
      exists (S m). cbn [run_loop1]. rewrite (bind_at _ _ _ _ _ C). exact Hm.
  - (* lexColumnsList *)
    cbn [second call] in E1. unfold lexValueExprList_fn in E1.
    inv_bind E1 as u la Ea2. destruct u. inv_bind E1 as r lb Eb.
    assert (Ea : skipWhitespace l1 = Ok tt la) by (rewrite R; exact Ea2).
    pose proof (skip_settles _ _ _ Hb Ea) as Sa.
    pose proof (peek_back la r lb ltac:(apply Sa) ltac:(apply Sa) Eb) as Ba.
    destruct (r =? 42).
    + exfalso. inv_bind E1 as u lc Ec.
      destruct (grows_afterValueExpr _ _ _ E1) as (m1 & K1).
      destruct (grows_run_loop _ _ _ _ _ E) as (m2 & K2).
      rewrite K2, K1, (emit_kinds _ _ _ _ Ec),
        (silent_kinds _ _ _ _ silent_next Eb),
        (silent_kinds _ _ _ _ silent_skipWhitespace Ea) in G.
      rewrite <- !app_assoc in G. cbn [app] in G.
      destruct (star_alone _ _ G) as (X & _).
      exact (KC eq_refl X).
    + destruct (r =? 39).
      { exfalso. inv_bind E1 as u lb' Eb'.
        eapply (value_refuted scanString itemString); [left; reflexivity|..];
          eassumption. }
      destruct ((r =? 43) || (r =? 45) || (48 <=? r) && (r <=? 57)).
      { exfalso. inv_bind E1 as u lb' Eb'.
        eapply (value_refuted scanNumber itemNumber); [right; reflexivity|..];
          eassumption. }
      destruct (isAlpha r) eqn:RA;
        [|exfalso; eapply error_refuted; eassumption].
      inv_bind E1 as u lb' Eb'. rewrite Ba in Eb'. injection Eb' as _ <-.
      exact (column_head n IH' l1 la o2 l2' lf HI K Ea E1 E G).
Qed.


(** The second revision changes nothing for the statements of the first:
    when the scan of an input by the second revision sends the items of
    a statement whose select list is a star or a list of column names,
    the scan of the same input by the first revision sends the same
    items. *)
Theorem first_revision_scans_star_and_columns nm inp ts :
  tokens nm inp = Some ts -> statement1_kinds (map item.typ ts) ->
  tokens1 nm inp = Some ts.
Proof.
  unfold tokens, tokens1. intros T G.
  destruct (lex nm inp) as [[] l| |] eqn:L; try discriminate.
  injection T as <-.
  change (lex nm inp) with (run lexStartStatement (fresh nm inp)) in L.
  unfold run in L. cbn [input fresh] in L. inv_bind L as u lf L1. destruct u.
  assert (Hl : sent (items lf) = sent (items l)).
  { unfold close in L. destruct (closed (items lf)); [discriminate|].
    injection L as <-. reflexivity. }
  replace (String.length inp + 6)%nat with (S (String.length inp + 5))
    in L1 by lia.
  assert (G' : statement1_kinds (kinds lf)) by (unfold kinds; rewrite Hl; exact G).
  destruct (second_in_first _ lexStartStatement1 (fresh nm inp) (fresh nm inp)
              lf ltac:(discriminate) (Inv_fresh nm inp) eq_refl eq_refl
              ltac:(discriminate) L1 G') as (m & Hm).
  destruct (lex1_Scanned nm inp) as (l1 & L2 & _).
  change (lex1 nm inp) with (run1 lexStartStatement1 (fresh nm inp)) in *.
  unfold run1, bind in L2 |- *. cbn [input fresh] in *.
  destruct (run_loop1 (2 * String.length inp + 8) (Some lexStartStatement1)
              (fresh nm inp)) as [[] lf1| |] eqn:R1; try discriminate.
  pose proof (run_loop1_mono _ _ _ _ _ R1 (m + (2 * String.length inp + 8))%nat
                ltac:(lia)) as M1.
  pose proof (run_loop1_mono _ _ _ _ _ Hm (m + (2 * String.length inp + 8))%nat
                ltac:(lia)) as M2.
  rewrite M2 in M1. injection M1 as <-.
  rewrite L. reflexivity.
Qed.


(* ================================================================== *)
(** ** The end of the stream: the cursor, the error item *)

Lemma emit_at t l a l' :
  emit t l = Ok a l' ->
  exists v, slice (input l) (start l) (pos l) = Some v /\
    sent (items l') = sent (items l) ++ [item.mk t (start l) v (startLine l)] /\
    pos l' = pos l /\ start l' = pos l.
Proof.
  unfold emit. destruct (slice _ _ _) as [v|] eqn:V; [|discriminate].
  unfold bind, send. destruct (closed (items l)); [discriminate|].
  intros E. injection E as _ <-. exists v. cbn. auto.
Qed.

(** The end-of-input item ends at the cursor. *)
Lemma lexEndOfStatement_cursor l o l' :
  lexEndOfStatement_fn l = Ok o l' -> ends_with itemEOF l' ->
  exists toks t,
    sent (items l') = toks ++ [t] /\ item.typ t = itemEOF /\
    item_end t = pos l' /\ start l' = pos l'.
Proof.
  intros E HE. unfold lexEndOfStatement_fn in E.
  inv_bind E as u l1 E1. inv_bind E as ok l2 E2.
  destruct ok.
  - inv_bind E as u' l3 E3. injection E as _ <-.
    destruct (emit_at _ _ _ _ E3) as (v & V & S3 & P3 & St3).
    pose proof (slice_len _ _ _ _ V) as Hv.
    eexists _, _. split; [exact S3|]. split; [reflexivity|].
    unfold item_end. cbn. split; lia.
  - exfalso. destruct (errorf_sent _ _ _ _ _ E) as (-> & _).
    pose proof (halts_errorf _ _ l2 l' E) as H.
    pose proof (ends_with_one _ _ _ HE H). discriminate.
Qed.

Lemma run_loop_cursor n : forall s l u lf,
  run_loop n (Some s) l = Ok u lf -> ends_with itemEOF lf ->
  exists toks t,
    sent (items lf) = toks ++ [t] /\ item.typ t = itemEOF /\
    item_end t = pos lf /\ start lf = pos lf.
Proof.
  induction n as [|n IH]; intros s l u lf E HE; [discriminate|].
  cbn [run_loop] in E. inv_bind E as o l1 E1.
  destruct o as [s'|]; [eapply IH; eassumption|].
  apply run_loop_None in E. subst lf.
  assert (Hs : s = lexEndOfStatement \/ s <> lexEndOfStatement)
    by (destruct s; (left; reflexivity) || (right; discriminate)).
  destruct Hs as [->|Hs].
  - cbn [call] in E1. eapply lexEndOfStatement_cursor; eassumption.
  - pose proof (halts_call s Hs l l1 E1) as H.
    pose proof (ends_with_one _ _ _ HE H). discriminate.
Qed.

Lemma lex_cursor nm inp l :
  lex nm inp = Ok tt l -> ends_with itemEOF l ->
  exists toks t,
    sent (items l) = toks ++ [t] /\ item.typ t = itemEOF /\
    item_end t = pos l /\ start l = pos l.
Proof.
  intros L HE.
  change (lex nm inp) with (run lexStartStatement (fresh nm inp)) in L.
  unfold run in L. cbn [input fresh] in L. inv_bind L as u lf L1.
  unfold close in L. destruct (closed (items lf)) eqn:C; [discriminate|].
  injection L as <-. cbn in *.
  eapply run_loop_cursor; [exact L1|].
  destruct HE as (toks & t & E & T). exists toks, t. auto.
Qed.

(** What lies in the input before the end of items that tile it: the
    items and white space. *)
Lemma tiled_cover s : forall toks a E i,
  tiled s a toks E -> a <= i < E ->
  (exists x, In x toks /\ item.pos x <= i < item_end x)
  \/ (exists b, index s i = Some b /\ in_set spaceChars b = true).
Proof.
  induction toks as [|t toks IH]; intros a E i HT Hi; cbn in HT; [lia|].
  destruct HT as (H1 & H2 & H3 & H4).
  destruct (Z_lt_le_dec i (item.pos t)) as [L|L].
  { right. apply H2. lia. }
  destruct (Z_lt_le_dec i (item.pos t + len (item.val t))) as [L'|L'].
  { left. exists t. split; [left; reflexivity|]. unfold item_end. lia. }
  destruct (IH _ _ i H4 ltac:(lia)) as [(x & Hx & Hr)|Hw].
  - left. exists x. split; [right; exact Hx|exact Hr].
  - right. exact Hw.
Qed.

Lemma tiled_le s : forall toks a E, tiled s a toks E -> a <= E.
Proof.
  induction toks as [|t toks IH]; intros a E HT; cbn in HT; [lia|].
  destruct HT as (H1 & H2 & (H3 & H5) & H4). apply IH in H4. lia.
Qed.

Lemma tiled_inside s : forall toks a E,
  tiled s a toks E ->
  Forall (fun x => a <= item.pos x /\ item_end x <= E) toks.
Proof.
  induction toks as [|t toks IH]; intros a E HT; cbn in HT; constructor.
  - destruct HT as (H1 & H2 & (H3 & H5) & H4).
    apply tiled_le in H4. unfold item_end. lia.
  - destruct HT as (H1 & H2 & (H3 & H5) & H4).
    eapply Forall_impl; [|eapply IH; exact H4].
    cbv beta. intros x (Hx1 & Hx2). split; [lia|assumption].
Qed.

Lemma lined_last inp t : forall toks cur,
  lined inp cur (toks ++ [t]) -> item.line t = stamp inp cur toks.
Proof.
  induction toks as [|x toks IH]; intros cur H; cbn in *.
  - apply H.
  - apply IH. apply H.
Qed.

Lemma line_at_0 inp : line_at inp 0 = 1.
Proof.
  unfold line_at. change (Z.to_nat 0) with 0%nat.
  rewrite substring_0_0. reflexivity.
Qed.

Lemma stamp_last_end inp : forall toks a,
  stamp inp (line_at inp a) toks
  = line_at inp (fold_left (fun _ t => item_end t) toks a).
Proof.
  induction toks as [|x toks IH]; intros a; cbn [stamp fold_left].
  - reflexivity.
  - apply IH.
Qed.

Lemma reports_bind {A} (m : M A) (k : A -> M (option stateFn)) :
  (forall a, reports (k a)) -> reports (bind m k).
Proof.
  intros Hk l l' E. inv_bind E as a l1 E1. exact (Hk a l1 l' E).
Qed.

Lemma reports_errorf format args :
  In format error_formats -> reports (errorf format args).
Proof. intros H l l' E. right. exists format, args, l. auto. Qed.

Lemma reports_ret s : reports (ret (Some s)).
Proof. intros l l' E. discriminate E. Qed.

Lemma reports_Panic : reports (fun _ => Panic).
Proof. intros l l' E. discriminate E. Qed.

Lemma reports_eof : reports (emit itemEOF ;;; ret None).
Proof.
  intros l l' E. inv_bind E as u l1 E1. injection E as <-.
  destruct (emit_at _ _ _ _ E1) as (v & _ & S1 & _).
  left. eexists _, _. split; [exact S1|reflexivity].
Qed.

Ltac reports_tac :=
  repeat first
    [ apply reports_eof
    | apply reports_errorf; unfold error_formats;
      solve [repeat first [left; reflexivity | right]]
    | apply reports_ret | apply reports_Panic
    | apply reports_bind; intros ?
    | match goal with
      | |- reports (if ?b then _ else _) => destruct b
      end ].

Lemma reports_keyword_loop keyword upper it nextAction lower : forall ix,
  reports (keyword_loop keyword upper ix lower it nextAction).
Proof.
  induction lower as [|lo lower IH]; intros ix; cbn [keyword_loop].
  - reports_tac.
  - match goal with
    | |- context [@nth_error ?A ?u ?i] => destruct (@nth_error A u i)
    end; [|apply reports_Panic].
    apply reports_bind. intros r'.
    destruct (negb _); [|apply IH]. reports_tac.
Qed.

(** Every state function halts the state machine after the end-of-input
    item or by [errorf]. *)
Lemma reports_call s : reports (call s).
Proof.
  destruct s; cbn [call].
  - unfold lexStartStatement_fn. reports_tac.
  - unfold lexSelectKeyword_fn, createLexKeyword. cbv zeta.
    apply reports_bind. intros _. apply reports_keyword_loop.
  - unfold lexFromKeyword_fn, createLexKeyword. cbv zeta.
    apply reports_bind. intros _. apply reports_keyword_loop.
  - unfold lexValueExprList_fn, afterValueExpr. reports_tac.
  - unfold lexFromTableName_fn. reports_tac.
  - unfold lexEndOfStatement_fn. reports_tac.
Qed.

Lemma run_loop_reports n : forall s l u lf,
  run_loop n (Some s) l = Ok u lf ->
  ends_with itemEOF lf \/
  exists format args l0,
    In format error_formats /\ errorf format args l0 = Ok None lf.
Proof.
  induction n as [|n IH]; intros s l u lf E; [discriminate|].
  cbn [run_loop] in E. inv_bind E as o l1 E1.
  destruct o as [s'|]; [eapply IH; eassumption|].
  apply run_loop_None in E. subst lf. exact (reports_call s l l1 E1).
Qed.

(** The last item of a scan that does not end with the end-of-input
    item: the error item [errorf] builds from a format of the list, with
    [start] and [startLine] of the lexer. *)
Lemma lex_reports nm inp l :
  lex nm inp = Ok tt l ->
  ends_with itemEOF l \/
  exists format args toks,
    In format error_formats /\
    sent (items l)
    = toks ++ [item.mk itemError (start l) (Sprintf format args) (startLine l)].
Proof.
  intros L.
  change (lex nm inp) with (run lexStartStatement (fresh nm inp)) in L.
  unfold run in L. cbn [input fresh] in L. inv_bind L as u lf L1.
  unfold close in L. destruct (closed (items lf)) eqn:C; [discriminate|].
  injection L as <-.
  destruct (run_loop_reports _ _ _ _ _ L1)
    as [(toks & t & E & T)|(format & args & l0 & Hin & E)].
  - left. exists toks, t. cbn. auto.
  - right. exists format, args, (sent (items l0)). split; [assumption|].
    unfold errorf, bind, send, ret in E.
    destruct (closed (items l0)); [discriminate|].
    injection E as <-. reflexivity.
Qed.


(** C2: the items of a scan that are not error items lie in the input
    one after the other and cover what the scan has consumed.  They tile
    the input from its start up to a position [E]: the text of each is
    the part of the input at its offset, an item ends before the next
    one starts, the offsets grow strictly, every item ends at or before
    [E], and every byte before [E] lies in one of them or is white space
    between them.  When the scan ends with the end-of-input item, [E] is
    the cursor.  Otherwise the scan ends with an error item; only white
    space lies between [E] and the offset of the error item, which is
    the start of the pending text and holds no white space.  The
    consumer receives the items in the order they were sent. *)
Theorem tokens_tile_the_input nm inp :
  exists l,
    lex nm inp = Ok tt l /\
    (exists E, tiled inp 0 (filter not_error (sent (items l))) E /\
       E <= len inp /\
       ((ends_with itemEOF l /\ E = pos l)
        \/ (exists toks t,
              sent (items l) = toks ++ [t] /\ item.typ t = itemError /\
              filter not_error (sent (items l)) = toks /\
              item.pos t = start l /\ E <= start l <= len inp /\
              bytes_in spaceChars inp E (start l) /\
              strings.ContainsRune spaceChars (rn inp (start l)) = false)) /\
       Forall (fun x => item_end x <= E) (filter not_error (sent (items l))) /\
       forall i, 0 <= i < E ->
         (exists x, In x (filter not_error (sent (items l))) /\
                    item.pos x <= i < item_end x)
         \/ (exists b, index inp i = Some b /\
                       strings.ContainsRune spaceChars b = true)) /\
    Forall (placed inp) (filter not_error (sent (items l))) /\
    (forall i j ti tj,
       (i < j)%nat ->
       nth_error (filter not_error (sent (items l))) i = Some ti ->
       nth_error (filter not_error (sent (items l))) j = Some tj ->
       item_end ti <= item.pos tj /\ item.pos ti < item.pos tj) /\
    receive (List.length (sent (items l))) (items l) = sent (items l).
Proof.
  destruct (lex_Rich nm inp)
    as (l & Hl & (Hi & Hc & toks & t & Hs & Hf & E & HT & D) & (_ & _ & _ & K)).
  exists l. split; [assumption|].
  pose proof (len_nonneg inp) as Hlen.
  assert (HE : exists E',
    tiled inp 0 (filter not_error (sent (items l))) E' /\
    ((ends_with itemEOF l /\ E' = pos l)
     \/ (exists toks t,
           sent (items l) = toks ++ [t] /\ item.typ t = itemError /\
           filter not_error (sent (items l)) = toks /\
           item.pos t = start l /\ E' <= start l <= len inp /\
           bytes_in spaceChars inp E' (start l) /\
           strings.ContainsRune spaceChars (rn inp (start l)) = false))).
  { assert (F : filter not_error (sent (items l))
                = if itemType_eqb (item.typ t) itemError then toks
                  else toks ++ [t]).
    { rewrite Hs, filter_app, (filter_nonterminal _ Hf). cbn [filter].
      unfold not_error at 1.
      destruct (itemType_eqb (item.typ t) itemError); cbn [negb];
        [apply app_nil_r|reflexivity]. }
    destruct D as [(D & E' & H1 & H2 & H3 & H4)|(D & _)].
    - rewrite F, D. cbn [itemType_eqb].
      assert (HX : ends_with itemEOF l) by (exists toks, t; split; assumption).
      destruct (lex_cursor nm inp l Hl HX) as (toks' & t' & Hs' & _ & Hend & _).
      rewrite Hs in Hs'. apply app_inj_tail in Hs'. destruct Hs' as (_ & <-).
      exists (item.pos t + len (item.val t)). split.
      + eapply tiled_snoc; eassumption.
      + left. split; [exact HX|exact Hend].
    - rewrite F, D. cbn [itemType_eqb].
      exists E. split; [exact HT|]. right.
      destruct K as [K|(q & ks & toks0 & t0 & Hq & K & Ek & Hs0 & Hp & Hr & Hb & Hn)].
      { exfalso. unfold kinds in K. rewrite Hs, map_app in K. cbn in K.
        destruct (kinds_at_finished_last _ K) as (ks' & Hk).
        apply app_inj_tail in Hk. destruct Hk as [_ Hk]. congruence. }
      rewrite Hs in Hs0. apply app_inj_tail in Hs0. destruct Hs0 as [<- <-].
      pose proof (tiled_end _ _ _ _ HT) as HE. fold (last_end toks) in HE.
      unfold nonspace in Hn. rewrite Hi in *. rewrite <- HE in *.
      exists toks, t. auto 10. }
  destruct HE as (E' & HE & HC).
  assert (HR : E' <= len inp) by (eapply tiled_range; [eassumption|lia]).
  split.
  { exists E'. split; [assumption|]. split; [assumption|].
    split; [assumption|]. split.
    - eapply Forall_impl; [|eapply tiled_inside; exact HE].
      cbv beta. intros x (_ & Hx). exact Hx.
    - intros i Hi'. eapply tiled_cover; eassumption. }
  split; [eapply tiled_placed; eassumption|].
  split; [|apply receive_all].
  intros i j ti tj Hij Hti Htj. eapply tiled_ordered; eassumption.
Qed.

(** C3 (the code where it departs from the claim): an error transition
    is terminal and sends one error item, but the line of that item is
    not the line of the pending text.  [errorf] sends exactly one item,
    of the kind [itemError], with the message built from its arguments
    and [start] and [startLine] of the lexer, and returns no next state;
    the state machine then calls no state function.  A scan ends with the
    end-of-input item, or with one error item, after items that are
    neither: its message is built from one of the formats of the state
    functions, its offset is the start of the pending text (the first
    position after the last item that holds no white space), and its
    line is the line at the end of the last item sent before it, line 1
    when it is the first.  In the scan of "select", a newline,
    "12abc from t;" the error item of "12a" is at offset 7, on line 2,
    and carries line 1. *)
Theorem error_item_ends_the_stream_with_a_stale_line nm inp :
  (forall format args l,
     errorf format args l
     = if closed (items l) then Panic
       else Ok None
              (set_items
                 {| sent := sent (items l)
                            ++ [item.mk itemError (start l)
                                  (Sprintf format args) (startLine l)];
                    closed := false |} l)) /\
  (forall n l, run_loop n None l = Ok tt l) /\
  (exists l,
     lex nm inp = Ok tt l /\ closed (items l) = true /\
     exists toks t,
       sent (items l) = toks ++ [t] /\ Forall nonterminal toks /\
       (item.typ t = itemEOF
        \/ exists format args,
             In format error_formats /\
             t = item.mk itemError (start l) (Sprintf format args)
                   (startLine l) /\
             last_end toks <= start l <= len inp /\
             bytes_in spaceChars inp (last_end toks) (start l) /\
             strings.ContainsRune spaceChars (rn inp (start l)) = false /\
             startLine l = line_at inp (last_end toks))) /\
  (exists l,
     lex nm ("select" ++ newline ++ "12abc from t;")%string = Ok tt l /\
     sent (items l)
     = [item.mk itemSelect 0 "select" 1;
        item.mk itemError 7 (Sprintf "bad number: %q" [ArgString "12a"]) 1] /\
     line_at ("select" ++ newline ++ "12abc from t;")%string 7 = 2).
Proof.
  split.
  { intros format args l. unfold errorf, bind, send, ret.
    destruct (closed (items l)); reflexivity. }
  split; [intros n l; destruct n; reflexivity|].
  split; [|run_lex; split; reflexivity].
  destruct (lex_Rich nm inp)
    as (l & Hl & (Hi & Hc & toks & t & Hs & Hf & E & HT & D) & (_ & L & _ & K)).
  exists l. split; [assumption|]. split; [assumption|].
  exists toks, t. split; [assumption|]. split; [assumption|].
  destruct (lex_reports nm inp l Hl)
    as [(toks1 & t1 & E1 & T1)|(format & args & toks1 & Hin & E1)].
  { left. rewrite Hs in E1. apply app_inj_tail in E1.
    destruct E1 as (_ & <-). exact T1. }
  right. rewrite Hs in E1. apply app_inj_tail in E1. destruct E1 as (_ & Ht).
  exists format, args. split; [assumption|]. split; [assumption|].
  destruct K as [K|(q & ks & toks0 & t0 & Hq & K & Ek & Hs0 & Hp & Hr & Hb & Hn)].
  { exfalso. unfold kinds in K. rewrite Hs, map_app in K. cbn in K.
    destruct (kinds_at_finished_last _ K) as (ks' & Hk).
    apply app_inj_tail in Hk. destruct Hk as [_ Hk].
    rewrite Ht in Hk. discriminate Hk. }
  rewrite Hs in Hs0. apply app_inj_tail in Hs0. destruct Hs0 as [<- <-].
  unfold nonspace in Hn. rewrite Hi in *.
  split; [assumption|]. split; [assumption|]. split; [assumption|].
  rewrite Hs in L. apply lined_last in L.
  rewrite Ht in L. cbn [item.line] in L. rewrite L.
  rewrite <- (line_at_0 inp). rewrite stamp_last_end. reflexivity.
Qed.

End Lexer.

(* ================================================================== *)
(** ** The theorems with hypotheses, at concrete inputs *)

(** [scanIdentifier_accepts] at the start of "col1,". *)
Lemma scanIdentifier_accepts_col1 :
  inb (fresh "t" "col1,") /\
  exists b l',
    scanIdentifier nothing_above_Latin1 nothing_above_Latin1
      (fresh "t" "col1,") = Ok b l' /\
    (b = true <->
     exists q,
       identifier_at (strings.ContainsRune chars)
         (strings.ContainsRune charsAndDigits)
         (isAlphaNumeric nothing_above_Latin1 nothing_above_Latin1)
         "col1," 0 q).
Proof.
  assert (H : inb (fresh "t" "col1,")) by (unfold inb; cbn; lia).
  split; [exact H|].
  destruct (scanIdentifier_accepts nothing_above_Latin1 nothing_above_Latin1
              (fresh "t" "col1,") H) as (b & l' & E & _ & I & _).
  exists b, l'. split; [exact E|exact I].
Defined.

(** [scanString_closes] at the start of "'ab''c' ". *)
Lemma scanString_closes_ab_c :
  inb (fresh "t" "'ab''c' ") /\
  fst (rune_at "'ab''c' " 0) = 39 /\
  exists b l',
    scanString (fresh "t" "'ab''c' ") = Ok b l' /\
    (b = true <-> exists q, string_body "'ab''c' " 1 q).
Proof.
  assert (H : inb (fresh "t" "'ab''c' ")) by (unfold inb; cbn; lia).
  assert (Q : fst (rune_at (input (fresh "t" "'ab''c' "))
                           (pos (fresh "t" "'ab''c' "))) = 39)
    by (vm_compute; reflexivity).
  split; [exact H|]. split; [exact Q|].
  destruct (scanString_closes nothing_above_Latin1 nothing_above_Latin1
              format_only "t" (fresh "t" "'ab''c' ") H Q)
    as ((b & l' & E & _ & I & _) & _).
  exists b, l'. split; [exact E|exact I].
Defined.


(** [number_without_digits] for the sign at the start of "+ ". *)
Lemma number_without_digits_plus :
  inb (fresh "t" "+ ") /\
  closed (items (fresh "t" "+ ")) = false /\
  bare_number "+ " 0 1 /\
  isAlphaNumeric nothing_above_Latin1 nothing_above_Latin1
    (fst (rune_at "+ " 1)) = false /\
  fst (rune_at "+ " 1) <> 46 /\
  exists l',
    scanNumber nothing_above_Latin1 nothing_above_Latin1 (fresh "t" "+ ")
    = Ok true l' /\
    cursor_at (fresh "t" "+ ") 1 l'.
Proof.
  assert (H : inb (fresh "t" "+ ")) by (unfold inb; cbn; lia).
  assert (B : bare_number (input (fresh "t" "+ ")) (pos (fresh "t" "+ ")) 1)
    by (left; split; [reflexivity|left; vm_compute; reflexivity]).
  assert (A : isAlphaNumeric nothing_above_Latin1 nothing_above_Latin1
                (fst (rune_at (input (fresh "t" "+ "))
                              (pos (fresh "t" "+ ") + 1))) = false)
    by (vm_compute; reflexivity).
  assert (D : fst (rune_at (input (fresh "t" "+ "))
                           (pos (fresh "t" "+ ") + 1)) <> 46)
    by (vm_compute; intros E; discriminate E).
  split; [exact H|]. split; [reflexivity|]. split; [exact B|].
  split; [exact A|]. split; [exact D|].
  destruct (number_without_digits nothing_above_Latin1 nothing_above_Latin1
              format_only "t" (fresh "t" "+ ") 1 H eq_refl B A D)
    as (R & _).
  exact R.
Defined.

(* ================================================================== *)
(** ** Where the code departs from a claim *)

(** C5, as stated, with one class of letters and digits for the first
    rune, the run and the rune after it.  When the class is that of
    [isAlpha] and [isAlphaNumeric], the input U+00E9 is an identifier of
    the claim and [scanIdentifier] fails on it; when the class is the
    letters a-z, A-Z, the digits 0-9 and the underscore, the input [a]
    followed by U+00E9 is an identifier of the claim and [scanIdentifier]
    fails on it. *)
Lemma scanIdentifier_one_class_fails :
  ~ ((exists l',
        scanIdentifier nothing_above_Latin1 nothing_above_Latin1
          (fresh "t" e_acute) = Ok true l')
     <->
     (exists q,
        identifier_at (isAlpha nothing_above_Latin1)
          (isAlphaNumeric nothing_above_Latin1 nothing_above_Latin1)
          (isAlphaNumeric nothing_above_Latin1 nothing_above_Latin1)
          e_acute 0 q))
  /\
  ~ ((exists l',
        scanIdentifier nothing_above_Latin1 nothing_above_Latin1
          (fresh "t" ("a" ++ e_acute)%string) = Ok true l')
     <->
     (exists q,
        identifier_at (strings.ContainsRune chars)
          (strings.ContainsRune charsAndDigits)
          (strings.ContainsRune charsAndDigits)
          ("a" ++ e_acute)%string 0 q)).
Proof.
  split; intros [_ H].
  - destruct H as [l' E].
    + exists 2. unfold identifier_at.
      split; [vm_compute; reflexivity|]. split; [|vm_compute; reflexivity].
      replace (0 + snd (rune_at e_acute 0)) with 2 by (vm_compute; reflexivity).
      apply run_nil.
    + vm_compute in E. discriminate E.
  - destruct H as [l' E].
    + exists 1. unfold identifier_at.
      split; [vm_compute; reflexivity|]. split; [|vm_compute; reflexivity].
      replace (0 + snd (rune_at ("a" ++ e_acute)%string 0)) with 1
        by (vm_compute; reflexivity).
      apply run_nil.
    + vm_compute in E. discriminate E.
Qed.

(** C10, as stated: in "select +. from t;" the sign at offset 7 is
    followed by a dot, which is neither a letter, a digit nor an
    underscore, and the Number item is "+.", not the sign alone. *)
Lemma sign_then_dot_is_one_number :
  bare_number (select_from_t "+.") 7 1 /\
  isAlphaNumeric nothing_above_Latin1 nothing_above_Latin1
    (fst (rune_at (select_from_t "+.") 8)) = false /\
  exists l,
    lex nothing_above_Latin1 nothing_above_Latin1 format_only "t"
      (select_from_t "+.") = Ok tt l /\
    sent (items l) = items_of_select itemNumber "+." /\
    nth_error (sent (items l)) 1 <> Some (item.mk itemNumber 7 "+" 1).
Proof.
  split; [left; split; [reflexivity|left; vm_compute; reflexivity]|].
  split; [vm_compute; reflexivity|].
  eexists. split; [vm_compute; reflexivity|].
  split; [reflexivity|]. cbn. intros E. discriminate E.
Qed.


(* ================================================================== *)
(** ** More theorems with hypotheses, at concrete inputs *)

(** [peek] at the start of "select". *)
Lemma peek_changes_nothing_select :
  inb (fresh "t" "select") /\
  exists r l',
    peek (fresh "t" "select") = Ok r l' /\
    r = fst (rune_at "select" 0) /\ pos l' = 0 /\ line l' = 1.
Proof.
  assert (H : inb (fresh "t" "select")) by (unfold inb; cbn; lia).
  split; [exact H|].
  destruct (peek_changes_nothing (fresh "t" "select") H)
    as (r & l' & E & _ & Hr & _ & _ & Hp & _ & _ & Hl & _).
  exists r, l'. split; [exact E|]. split; [exact Hr|].
  split; [exact Hp|exact Hl].
Defined.

(** [accept] of the semicolon at the start of ";". *)
Lemma accept_consumes_a_valid_rune_semicolon :
  inb (fresh "t" ";") /\
  exists b l',
    accept ";" (fresh "t" ";") = Ok b l' /\
    b = strings.ContainsRune ";" (fst (rune_at ";" 0)).
Proof.
  assert (H : inb (fresh "t" ";")) by (unfold inb; cbn; lia).
  split; [exact H|].
  destruct (accept_consumes_a_valid_rune ";" (fresh "t" ";") H)
    as (b & l' & E & _ & Hb & _).
  exists b, l'. split; [exact E|exact Hb].
Defined.

(** [acceptRun] of the white space at the start of two spaces and an x. *)
Lemma acceptRun_takes_the_longest_run_spaces :
  inb (fresh "t" "  x") /\
  exists l',
    acceptRun spaceChars (fresh "t" "  x") = Ok tt l' /\
    strings.ContainsRune spaceChars (fst (rune_at "  x" (pos l'))) = false /\
    exists l'', acceptRun spaceChars l' = Ok tt l'' /\ pos l'' = pos l'.
Proof.
  assert (H : inb (fresh "t" "  x")) by (unfold inb; cbn; lia).
  split; [exact H|].
  destruct (acceptRun_takes_the_longest_run spaceChars (fresh "t" "  x") H)
    as (l' & E & _ & _ & Hn & _ & _ & I).
  exists l'. split; [exact E|]. split; [exact Hn|exact I].
Defined.

(** [ignore] after a newline was read. *)
Lemma ignore_counts_newlines_again_newline :
  0 <= start (set_pos 1 (fresh "t" (newline ++ "a")))
    <= pos (set_pos 1 (fresh "t" (newline ++ "a"))) /\
  pos (set_pos 1 (fresh "t" (newline ++ "a")))
    <= len (input (set_pos 1 (fresh "t" (newline ++ "a")))) /\
  exists l',
    ignore (set_pos 1 (fresh "t" (newline ++ "a"))) = Ok tt l' /\
    start l' = 1 /\ startLine l' = line l'.
Proof.
  assert (H1 : 0 <= start (set_pos 1 (fresh "t" (newline ++ "a")))
               <= pos (set_pos 1 (fresh "t" (newline ++ "a"))))
    by (cbn; lia).
  assert (H2 : pos (set_pos 1 (fresh "t" (newline ++ "a")))
               <= len (input (set_pos 1 (fresh "t" (newline ++ "a")))))
    by (cbn; lia).
  split; [exact H1|]. split; [exact H2|].
  destruct (ignore_counts_newlines_again _ H1 H2)
    as (l' & E & _ & _ & _ & _ & Hs & Hl & _).
  exists l'. split; [exact E|]. split; [exact Hs|exact Hl].
Defined.

(** [scanIdentifier] at the start of "col1,". *)
Lemma scanIdentifier_on_ascii_col1 :
  inb (fresh "t" "col1,") /\
  all_bytes (fun b => b <? 128) "col1," = true /\
  exists b l',
    scanIdentifier nothing_above_Latin1 nothing_above_Latin1
      (fresh "t" "col1,") = Ok b l' /\
    b = strings.ContainsRune chars (fst (rune_at "col1," 0)).
Proof.
  assert (H : inb (fresh "t" "col1,")) by (unfold inb; cbn; lia).
  assert (A : all_bytes (fun b => b <? 128) (input (fresh "t" "col1,")) = true)
    by reflexivity.
  split; [exact H|]. split; [exact A|].
  destruct (scanIdentifier_on_ascii nothing_above_Latin1 nothing_above_Latin1
              (fresh "t" "col1,") H A) as (b & l' & E & Hb & _).
  exists b, l'. split; [exact E|exact Hb].
Defined.

(** The scan of a space and a newline. *)
Lemma blank_input_is_not_finished_space_newline :
  all_bytes (strings.ContainsRune spaceChars) (" " ++ newline)%string = true /\
  exists l,
    lex nothing_above_Latin1 nothing_above_Latin1 format_only "t"
      (" " ++ newline)%string = Ok tt l /\
    sent (items l) = [item.mk itemError 2 "not finished statement" 1].
Proof.
  assert (A : all_bytes (strings.ContainsRune spaceChars)
                (" " ++ newline)%string = true)
    by (vm_compute; reflexivity).
  split; [exact A|].
  exact (blank_input_is_not_finished nothing_above_Latin1 nothing_above_Latin1
           format_only "t" (" " ++ newline)%string A).
Defined.

(** The scan of " update". *)
Lemma statement_starts_with_s_update :
  0 <= 1 < len " update" /\
  bytes_in spaceChars " update" 0 1 /\
  strings.ContainsRune spaceChars (fst (rune_at " update" 1)) = false /\
  fst (rune_at " update" 1) <> 115 /\ fst (rune_at " update" 1) <> 83 /\
  exists l,
    lex nothing_above_Latin1 nothing_above_Latin1 format_only "t" " update"
    = Ok tt l /\
    sent (items l)
    = [item.mk itemError 1
         "unrecognized character at start of statement: %#U" 1].
Proof.
  assert (H0 : 0 <= 1 < len " update") by (cbn; lia).
  assert (H1 : bytes_in spaceChars " update" 0 1).
  { intros i Hi. assert (i = 0) as -> by lia. exists 32.
    split; [reflexivity|vm_compute; reflexivity]. }
  assert (H2 : strings.ContainsRune spaceChars (fst (rune_at " update" 1))
               = false) by (vm_compute; reflexivity).
  assert (H3 : fst (rune_at " update" 1) <> 115)
    by (vm_compute; intros E; discriminate E).
  assert (H4 : fst (rune_at " update" 1) <> 83)
    by (vm_compute; intros E; discriminate E).
  split; [exact H0|]. split; [exact H1|]. split; [exact H2|].
  split; [exact H3|]. split; [exact H4|].
  exact (statement_starts_with_s nothing_above_Latin1 nothing_above_Latin1
           format_only "t" " update" 1 H0 H1 H2 H3 H4).
Defined.


(** [skipWhitespace] at the start of a space, a newline and "x". *)
Lemma skipWhitespace_skips_spaces_and_line_ends_newline :
  inb (fresh "t" (" " ++ newline ++ "x")) /\
  exists l',
    skipWhitespace (fresh "t" (" " ++ newline ++ "x")) = Ok tt l' /\
    start l' = pos l' /\ startLine l' = 1.
Proof.
  assert (H : inb (fresh "t" (" " ++ newline ++ "x")))
    by (unfold inb; cbn; lia).
  split; [exact H|].
  destruct (skipWhitespace_skips_spaces_and_line_ends _ H)
    as (l' & E & _ & _ & _ & Hs & Hl & _).
  exists l'. split; [exact E|]. split; [exact Hs|exact Hl].
Defined.

(** The scanning methods at the start of "12abc". *)
Lemma line_counter_stays_accurate_12abc :
  inb (fresh "t" "12abc") /\ counted (fresh "t" "12abc") /\
  exists b l',
    scanNumber nothing_above_Latin1 nothing_above_Latin1 (fresh "t" "12abc")
    = Ok b l' /\ counted l'.
Proof.
  assert (H : inb (fresh "t" "12abc")) by (unfold inb; cbn; lia).
  assert (C : counted (fresh "t" "12abc")) by reflexivity.
  split; [exact H|]. split; [exact C|].
  destruct (line_counter_stays_accurate nothing_above_Latin1
              nothing_above_Latin1 (fresh "t" "12abc") H C)
    as (_ & _ & N & _).
  exact N.
Defined.

(** [scanNumber] at the start of "2024 ". *)
Lemma scanNumber_decimal_integer_2024 :
  inb (fresh "t" "2024 ") /\
  isDigit (fst (rune_at "2024 " 0)) = true /\
  run_of (strings.ContainsRune "0123456789_") "2024 " 0 4 /\
  isAlphaNumeric nothing_above_Latin1 nothing_above_Latin1
    (fst (rune_at "2024 " 4)) = false /\
  fst (rune_at "2024 " 4) <> 46 /\
  exists l',
    scanNumber nothing_above_Latin1 nothing_above_Latin1 (fresh "t" "2024 ")
    = Ok true l' /\ pos l' = 4.
Proof.
  assert (H : inb (fresh "t" "2024 ")) by (unfold inb; cbn; lia).
  assert (D : isDigit (fst (rune_at (input (fresh "t" "2024 "))
                                    (pos (fresh "t" "2024 ")))) = true)
    by (vm_compute; reflexivity).
  assert (R : run_of (strings.ContainsRune "0123456789_")
                (input (fresh "t" "2024 ")) (pos (fresh "t" "2024 ")) 4).
  { apply run_cons; [vm_compute; reflexivity|].
    replace (pos (fresh "t" "2024 ")
             + snd (rune_at (input (fresh "t" "2024 "))
                            (pos (fresh "t" "2024 "))))
      with 1 by (vm_compute; reflexivity).
    apply run_cons; [vm_compute; reflexivity|].
    replace (1 + snd (rune_at (input (fresh "t" "2024 ")) 1))
      with 2 by (vm_compute; reflexivity).
    apply run_cons; [vm_compute; reflexivity|].
    replace (2 + snd (rune_at (input (fresh "t" "2024 ")) 2))
      with 3 by (vm_compute; reflexivity).
    apply run_cons; [vm_compute; reflexivity|].
    replace (3 + snd (rune_at (input (fresh "t" "2024 ")) 3))
      with 4 by (vm_compute; reflexivity).
    apply run_nil. }
  assert (A : isAlphaNumeric nothing_above_Latin1 nothing_above_Latin1
                (fst (rune_at (input (fresh "t" "2024 ")) 4)) = false)
    by (vm_compute; reflexivity).
  assert (N : fst (rune_at (input (fresh "t" "2024 ")) 4) <> 46)
    by (vm_compute; intros E; discriminate E).
  split; [exact H|]. split; [exact D|]. split; [exact R|].
  split; [exact A|]. split; [exact N|].
  destruct (scanNumber_decimal_integer nothing_above_Latin1
              nothing_above_Latin1 (fresh "t" "2024 ") 4 H D R A N)
    as (l' & E & _ & P & _).
  exists l'. split; [exact E|exact P].
Defined.


(** [scanString] on a literal that does not close. *)
Lemma scanString_fails_at_the_end_of_the_line_ab :
  inb (fresh "t" "'ab") /\
  fst (rune_at "'ab" 0) = 39 /\
  exists l',
    scanString (fresh "t" "'ab") = Ok false l' /\
    exists e, 0 < e <= 3 /\
      ((e = 3 /\ pos l' = e) \/ (index "'ab" e = Some 10 /\ pos l' = e + 1)).
Proof.
  assert (H : inb (fresh "t" "'ab")) by (unfold inb; cbn; lia).
  assert (Q : fst (rune_at (input (fresh "t" "'ab"))
                           (pos (fresh "t" "'ab"))) = 39)
    by (vm_compute; reflexivity).
  assert (E : exists l', scanString (fresh "t" "'ab") = Ok false l')
    by (eexists; vm_compute; reflexivity).
  destruct E as [l' E].
  split; [exact H|]. split; [exact Q|]. exists l'. split; [exact E|].
  destruct (scanString_fails_at_the_end_of_the_line _ _ H Q E)
    as (e & He & _ & D).
  exists e. split; [exact He|exact D].
Defined.


(** The scan of "select 1 from t;", and of the same statement followed by
    " drop table t". *)
Lemma text_after_the_statement_is_not_read_drop :
  tokens nothing_above_Latin1 nothing_above_Latin1 format_only "t"
         "select 1 from t;"
  = Some ([item.mk itemSelect 0 "select" 1; item.mk itemNumber 7 "1" 1;
           item.mk itemFrom 9 "from" 1; item.mk itemIdentifier 14 "t" 1]
          ++ [item.mk itemEOF 15 ";" 1]) /\
  item.typ (item.mk itemEOF 15 ";" 1) = itemEOF /\
  tokens nothing_above_Latin1 nothing_above_Latin1 format_only "t"
         ("select 1 from t;" ++ " drop table t")
  = Some ([item.mk itemSelect 0 "select" 1; item.mk itemNumber 7 "1" 1;
           item.mk itemFrom 9 "from" 1; item.mk itemIdentifier 14 "t" 1]
          ++ [item.mk itemEOF 15 ";" 1]).
Proof.
  assert (H1 : tokens nothing_above_Latin1 nothing_above_Latin1 format_only "t"
                      "select 1 from t;"
               = Some ([item.mk itemSelect 0 "select" 1;
                        item.mk itemNumber 7 "1" 1;
                        item.mk itemFrom 9 "from" 1;
                        item.mk itemIdentifier 14 "t" 1]
                       ++ [item.mk itemEOF 15 ";" 1]))
    by (vm_compute; reflexivity).
  split; [exact H1|]. split; [reflexivity|].
  exact (text_after_the_statement_is_not_read
           nothing_above_Latin1 nothing_above_Latin1 format_only "t"
           "select 1 from t;" " drop table t" _ _ H1 eq_refl).
Defined.


(** The scan of "select a, b from t;" by the two revisions. *)
Lemma second_revision_scans_what_the_first_scans_a_b :
  tokens1 nothing_above_Latin1 nothing_above_Latin1 format_only "t"
          "select a, b from t;"
  = Some ([item.mk itemSelect 0 "select" 1; item.mk itemIdentifier 7 "a" 1;
           item.mk itemComma 8 "," 1; item.mk itemIdentifier 10 "b" 1;
           item.mk itemFrom 12 "from" 1; item.mk itemIdentifier 17 "t" 1]
          ++ [item.mk itemEOF 18 ";" 1]) /\
  item.typ (item.mk itemEOF 18 ";" 1) = itemEOF /\
  tokens nothing_above_Latin1 nothing_above_Latin1 format_only "t"
         "select a, b from t;"
  = Some ([item.mk itemSelect 0 "select" 1; item.mk itemIdentifier 7 "a" 1;
           item.mk itemComma 8 "," 1; item.mk itemIdentifier 10 "b" 1;
           item.mk itemFrom 12 "from" 1; item.mk itemIdentifier 17 "t" 1]
          ++ [item.mk itemEOF 18 ";" 1]).
Proof.
  assert (H1 : tokens1 nothing_above_Latin1 nothing_above_Latin1 format_only
                       "t" "select a, b from t;"
               = Some ([item.mk itemSelect 0 "select" 1;
                        item.mk itemIdentifier 7 "a" 1;
                        item.mk itemComma 8 "," 1;
                        item.mk itemIdentifier 10 "b" 1;
                        item.mk itemFrom 12 "from" 1;
                        item.mk itemIdentifier 17 "t" 1]
                       ++ [item.mk itemEOF 18 ";" 1]))
    by (vm_compute; reflexivity).
  split; [exact H1|]. split; [reflexivity|].
  exact (second_revision_scans_what_the_first_scans
           nothing_above_Latin1 nothing_above_Latin1 format_only "t"
           "select a, b from t;" _ _ H1 eq_refl).
Defined.


(** The scan of "select 1 from t;" by the two revisions. *)
Lemma first_revision_rejects_strings_and_numbers_1 :
  tokens nothing_above_Latin1 nothing_above_Latin1 format_only "t"
         "select 1 from t;"
  = Some [item.mk itemSelect 0 "select" 1; item.mk itemNumber 7 "1" 1;
          item.mk itemFrom 9 "from" 1; item.mk itemIdentifier 14 "t" 1;
          item.mk itemEOF 15 ";" 1] /\
  In (item.mk itemNumber 7 "1" 1)
     [item.mk itemSelect 0 "select" 1; item.mk itemNumber 7 "1" 1;
      item.mk itemFrom 9 "from" 1; item.mk itemIdentifier 14 "t" 1;
      item.mk itemEOF 15 ";" 1] /\
  (item.typ (item.mk itemNumber 7 "1" 1) = itemString
   \/ item.typ (item.mk itemNumber 7 "1" 1) = itemNumber) /\
  exists ts1 e,
    tokens1 nothing_above_Latin1 nothing_above_Latin1 format_only "t"
            "select 1 from t;"
    = Some (ts1 ++ [e]) /\ item.typ e = itemError.
Proof.
  assert (H1 : tokens nothing_above_Latin1 nothing_above_Latin1 format_only
                      "t" "select 1 from t;"
               = Some [item.mk itemSelect 0 "select" 1;
                       item.mk itemNumber 7 "1" 1;
                       item.mk itemFrom 9 "from" 1;
                       item.mk itemIdentifier 14 "t" 1;
                       item.mk itemEOF 15 ";" 1])
    by (vm_compute; reflexivity).
  assert (H2 : In (item.mk itemNumber 7 "1" 1)
                 [item.mk itemSelect 0 "select" 1; item.mk itemNumber 7 "1" 1;
                  item.mk itemFrom 9 "from" 1; item.mk itemIdentifier 14 "t" 1;
                  item.mk itemEOF 15 ";" 1])
    by (right; left; reflexivity).
  assert (H3 : item.typ (item.mk itemNumber 7 "1" 1) = itemString
               \/ item.typ (item.mk itemNumber 7 "1" 1) = itemNumber)
    by (right; reflexivity).
  split; [exact H1|]. split; [exact H2|]. split; [exact H3|].
  exact (first_revision_rejects_strings_and_numbers
           nothing_above_Latin1 nothing_above_Latin1 format_only "t"
           "select 1 from t;" _ _ H1 H2 H3).
Defined.


(** The scan of "select a, b from t;" by the second revision, and by the
    first. *)
Lemma first_revision_scans_star_and_columns_a_b :
  tokens nothing_above_Latin1 nothing_above_Latin1 format_only "t"
         "select a, b from t;"
  = Some [item.mk itemSelect 0 "select" 1; item.mk itemIdentifier 7 "a" 1;
          item.mk itemComma 8 "," 1; item.mk itemIdentifier 10 "b" 1;
          item.mk itemFrom 12 "from" 1; item.mk itemIdentifier 17 "t" 1;
          item.mk itemEOF 18 ";" 1] /\
  statement1_kinds
    (map item.typ
       [item.mk itemSelect 0 "select" 1; item.mk itemIdentifier 7 "a" 1;
        item.mk itemComma 8 "," 1; item.mk itemIdentifier 10 "b" 1;
        item.mk itemFrom 12 "from" 1; item.mk itemIdentifier 17 "t" 1;
        item.mk itemEOF 18 ";" 1]) /\
  tokens1 nothing_above_Latin1 nothing_above_Latin1 format_only "t"
          "select a, b from t;"
  = Some [item.mk itemSelect 0 "select" 1; item.mk itemIdentifier 7 "a" 1;
          item.mk itemComma 8 "," 1; item.mk itemIdentifier 10 "b" 1;
          item.mk itemFrom 12 "from" 1; item.mk itemIdentifier 17 "t" 1;
          item.mk itemEOF 18 ";" 1].
Proof.
  assert (H1 : tokens nothing_above_Latin1 nothing_above_Latin1 format_only
                      "t" "select a, b from t;"
               = Some [item.mk itemSelect 0 "select" 1;
                       item.mk itemIdentifier 7 "a" 1;
                       item.mk itemComma 8 "," 1;
                       item.mk itemIdentifier 10 "b" 1;
                       item.mk itemFrom 12 "from" 1;
                       item.mk itemIdentifier 17 "t" 1;
                       item.mk itemEOF 18 ";" 1])
    by (vm_compute; reflexivity).
  assert (H2 : statement1_kinds
                 (map item.typ
                    [item.mk itemSelect 0 "select" 1;
                     item.mk itemIdentifier 7 "a" 1;
                     item.mk itemComma 8 "," 1;
                     item.mk itemIdentifier 10 "b" 1;
                     item.mk itemFrom 12 "from" 1;
                     item.mk itemIdentifier 17 "t" 1;
                     item.mk itemEOF 18 ";" 1])).
  { exists (columns 1 ++ [itemIdentifier]).
    split; [right; exists 1%nat; reflexivity|reflexivity]. }
  split; [exact H1|]. split; [exact H2|].
  exact (first_revision_scans_star_and_columns
           nothing_above_Latin1 nothing_above_Latin1 format_only "t"
           "select a, b from t;" _ H1 H2).
Defined.
